(** * ASR: structure-guided unit-literal injection for SAT instances

    A shallow embedding of the Python sources of the ASR artifacts
    (DIMACS codec, unit-clause mutators, literal selectors, solver-log
    parsers and the iteration controllers) and the properties the
    specification states about them.

    Conventions of the embedding.
    - A Python [str] is a list of characters ([list ascii]): the model is
      Python's text type on the code points below 256, a character being
      numbered as in Unicode (ASCII, then Latin-1).
    - A Python [int] is a [Z]; a Python [float] is an IEEE binary64
      ([PrimFloat.float]) with the operations IEEE 754 fixes ([+], [*],
      [/], [math.sqrt]); what the C library computes ([float(tok)],
      [x ** 0.5]) is a parameter of the functions that call it.
    - A Python [set] of ints is a [gset Z], a [dict] keyed by ints a
      [gmap Z _].
    - A call that can raise or exit returns an [outcome]. *)

From Stdlib Require Import ZArith List Ascii String Bool Lia.
From Stdlib Require Import Floats DecimalPos.
From stdpp Require Import gmap.

Import ListNotations.

#[local] Set Warnings "-clear-no-such-hyp".
Local Open Scope string_scope.
Local Open Scope Z_scope.
Local Open Scope list_scope.

(** ** Outcomes of fallible calls *)

Inductive failure : Type :=
| SysExit      (* sys.exit(code) with a non-zero code, through die() or directly *)
| ValueError   (* int() on a malformed token, or an explicit raise *)
| IndexError.  (* a list index out of range *)

Inductive outcome (A : Type) : Type :=
| Return (a : A)
| Fail (e : failure).

Arguments Return {A} a.
Arguments Fail {A} e.

Definition bind {A B : Type} (m : outcome A) (k : A -> outcome B) : outcome B :=
  match m with
  | Return a => k a
  | Fail e => Fail e
  end.

Notation "'letM' x ':=' m 'in' k" := (bind m (fun x => k))
  (at level 10, x pattern, m at level 100, k at level 200).

Definition returns {A : Type} (m : outcome A) : bool :=
  match m with Return _ => true | Fail _ => false end.

(** ** Python strings *)

Module PyStr.

Definition str : Type := list ascii.

(** A string literal. *)
Definition lit (s : string) : str := list_ascii_of_string s.

Definition LF : ascii := "010"%char.
Definition CR : ascii := "013"%char.
Definition SP : ascii := " "%char.

Definition ch_eqb (a b : ascii) : bool := Ascii.eqb a b.

Fixpoint str_eqb (a b : str) : bool :=
  match a, b with
  | [], [] => true
  | x :: a', y :: b' => ch_eqb x y && str_eqb a' b'
  | _, _ => false
  end.

(** White space of [str.strip()], [str.split()] and [int()] below 256:
    TAB, LF, VT, FF, CR, FS, GS, RS, US, the space, NEL (133) and the
    no-break space (160). *)
Definition is_space (c : ascii) : bool :=
  let n := N_of_ascii c in
  (((9 <=? n) && (n <=? 13)) || ((28 <=? n) && (n <=? 32))
   || (n =? 133) || (n =? 160))%N.

(** The decimal digits [int()] reads: below 256 these are [0] to [9]. *)
Definition is_digit (c : ascii) : bool :=
  let n := N_of_ascii c in ((48 <=? n) && (n <=? 57))%N.

(** [c.isdigit()]: below 256 the decimal digits and the superscripts two,
    three and one (178, 179, 185), which [int()] does not read. *)
Definition py_isdigit (c : ascii) : bool :=
  let n := N_of_ascii c in
  (((48 <=? n) && (n <=? 57)) || (n =? 178) || (n =? 179) || (n =? 185))%N.

Fixpoint lstrip (t : str) : str :=
  match t with
  | [] => []
  | c :: t' => if is_space c then lstrip t' else t
  end.

Fixpoint rstrip (t : str) : str :=
  match t with
  | [] => []
  | c :: t' =>
      match rstrip t' with
      | [] => if is_space c then [] else [c]
      | r => c :: r
      end
  end.

(** [t.strip()] *)
Definition strip (t : str) : str := rstrip (lstrip t).

(** [t.split()]: the maximal runs of characters that are not white space. *)
Fixpoint split (t : str) : list str :=
  match t with
  | [] => []
  | c :: t' =>
      if is_space c then split t'
      else match t' with
           | [] => [[c]]
           | d :: _ =>
               if is_space d then [c] :: split t'
               else match split t' with
                    | w :: ws => (c :: w) :: ws
                    | [] => [[c]]
                    end
           end
  end.

(** [sep.join(ws)] *)
Fixpoint join (sep : str) (ws : list str) : str :=
  match ws with
  | [] => []
  | w :: ws' =>
      match ws' with
      | [] => w
      | _ :: _ => w ++ sep ++ join sep ws'
      end
  end.

(** [t.startswith(p)] *)
Fixpoint startswith (t p : str) {struct p} : bool :=
  match p, t with
  | [], _ => true
  | _ :: _, [] => false
  | x :: p', y :: t' => ch_eqb x y && startswith t' p'
  end.

(** [p in t] *)
Fixpoint contains (t p : str) : bool :=
  startswith t p ||
  match t with
  | [] => false
  | _ :: t' => contains t' p
  end.

(** [t.replace(a, b)] for one-character [a] and [b]. *)
Definition replace_char (a b : ascii) (t : str) : str :=
  map (fun c => if ch_eqb c a then b else c) t.

(** [t.split(sep)] for a one-character separator: never empty. *)
Fixpoint split_on (sep : ascii) (t : str) : list str :=
  match t with
  | [] => [[]]
  | c :: t' =>
      if ch_eqb c sep then [] :: split_on sep t'
      else match split_on sep t' with
           | w :: ws => (c :: w) :: ws
           | [] => [[c]]
           end
  end.

(** [t.lower()]: below 256 the capitals are [A] to [Z] and the Latin-1
    letters 192 to 222 (the multiplication sign 215 apart), each 32 below
    its small letter. *)
Definition lower_char (c : ascii) : ascii :=
  let n := N_of_ascii c in
  if (((65 <=? n) && (n <=? 90))
      || ((192 <=? n) && (n <=? 222) && negb (n =? 215)))%N
  then ascii_of_N (n + 32) else c.

Definition lower (t : str) : str := map lower_char t.

(** *** Decimal integers *)

Fixpoint str_of_uint (d : Decimal.uint) : str :=
  match d with
  | Decimal.Nil => []
  | Decimal.D0 d => "0"%char :: str_of_uint d
  | Decimal.D1 d => "1"%char :: str_of_uint d
  | Decimal.D2 d => "2"%char :: str_of_uint d
  | Decimal.D3 d => "3"%char :: str_of_uint d
  | Decimal.D4 d => "4"%char :: str_of_uint d
  | Decimal.D5 d => "5"%char :: str_of_uint d
  | Decimal.D6 d => "6"%char :: str_of_uint d
  | Decimal.D7 d => "7"%char :: str_of_uint d
  | Decimal.D8 d => "8"%char :: str_of_uint d
  | Decimal.D9 d => "9"%char :: str_of_uint d
  end.

(** [str(z)] for an int [z]. *)
Definition str_of_Z (z : Z) : str :=
  match Z.to_int z with
  | Decimal.Pos d => str_of_uint d
  | Decimal.Neg d => "-"%char :: str_of_uint d
  end.

Definition digit_val (c : ascii) : option Z :=
  if is_digit c then Some (Z.of_N (N_of_ascii c) - 48) else None.

(** The digits of an int literal: single underscores may separate digits. *)
Fixpoint int_digits (acc : Z) (t : str) : option Z :=
  match t with
  | [] => Some acc
  | c :: t' =>
      if ch_eqb c "_"%char then
        match t' with
        | d :: _ => if is_digit d then int_digits acc t' else None
        | [] => None
        end
      else
        match digit_val c with
        | Some v => int_digits (10 * acc + v) t'
        | None => None
        end
  end.

Definition int_unsigned (t : str) : option Z :=
  match t with
  | c :: _ => if is_digit c then int_digits 0 t else None
  | [] => None
  end.

(** A signed literal without white space around it. *)
Definition int_of_token (t : str) : option Z :=
  match t with
  | c :: t' =>
      if ch_eqb c "-"%char then option_map Z.opp (int_unsigned t')
      else if ch_eqb c "+"%char then int_unsigned t'
      else int_unsigned t
  | [] => None
  end.

(** [int(t)] in base 10, [None] where Python raises [ValueError]: white
    space around the literal is dropped first. *)
Definition int_of_str (t : str) : option Z := int_of_token (strip t).

Definition py_int (t : str) : outcome Z :=
  match int_of_str t with
  | Some z => Return z
  | None => Fail ValueError
  end.

(** *** Text files *)

(** Universal newlines, the default of [open(path, "r")]: CR LF and a lone
    CR are read as LF. *)
Fixpoint universal_newlines (t : str) : str :=
  match t with
  | [] => []
  | c :: t' =>
      if ch_eqb c CR then
        LF :: match t' with
              | d :: t'' => if ch_eqb d LF then universal_newlines t''
                            else universal_newlines t'
              | [] => []
              end
      else c :: universal_newlines t'
  end.

(** The lines of a decoded text, each with its terminating LF (the last one
    may lack it). *)
Fixpoint lines_keepends (t : str) : list str :=
  match t with
  | [] => []
  | c :: t' =>
      if ch_eqb c LF then [c] :: lines_keepends t'
      else match lines_keepends t' with
           | l :: ls => (c :: l) :: ls
           | [] => [[c]]
           end
  end.

(** [for line in f] over a file opened for reading in text mode. *)
Definition readlines (file : str) : list str :=
  lines_keepends (universal_newlines file).

(** Line boundaries of [str.splitlines()] below 256: LF, VT, FF, CR (CR LF
    counts once), FS, GS, RS and NEL (133). *)
Definition is_linebreak (c : ascii) : bool :=
  let n := N_of_ascii c in
  (((10 <=? n) && (n <=? 13)) || ((28 <=? n) && (n <=? 30)) || (n =? 133))%N.

(** [t.splitlines()] *)
Fixpoint splitlines (t : str) : list str :=
  match t with
  | [] => []
  | c :: t' =>
      if is_linebreak c then
        [] :: match t' with
              | d :: t'' => if ch_eqb c CR && ch_eqb d LF then splitlines t''
                            else splitlines t'
              | [] => []
              end
      else match t' with
           | [] => [[c]]
           | _ :: _ =>
               match splitlines t' with
               | l :: ls => (c :: l) :: ls
               | [] => [[c]]
               end
           end
  end.

End PyStr.
Import PyStr.

(** ** Small list helpers shared by the scripts *)

Fixpoint mapM {A B : Type} (f : A -> outcome B) (l : list A) : outcome (list B) :=
  match l with
  | [] => Return []
  | x :: l' =>
      letM y := f x in
      letM ys := mapM f l' in
      Return (y :: ys)
  end.

(** [l[i]] for [i >= 0]: [IndexError] out of range. *)
Definition index {A : Type} (l : list A) (i : nat) : outcome A :=
  match nth_error l i with
  | Some x => Return x
  | None => Fail IndexError
  end.

Fixpoint foldM {A S : Type} (f : S -> A -> outcome S) (l : list A) (st : S) : outcome S :=
  match l with
  | [] => Return st
  | x :: l' => letM st' := f st x in foldM f l' st'
  end.

(** ** The DIMACS codec of the v4 runners

    [read_dimacs], [write_dimacs] and [add_unit_clauses] of
    [asr_v4_rayleigh_clean/run_asr_v4_rayleigh_clean.py]; the force-walk
    runner holds the same three functions, text for text.  A file is the
    sequence of its characters. *)

Module Dimacs.

Record cnf : Type := Cnf {
  nvars : Z;
  clauses : list (list Z);
  comments : list str
}.

Definition empty_cnf : cnf := Cnf 0 [] [].

(** [parts = line.split(); if len(parts) >= 4 and parts[1] == "cnf": nvars = int(parts[2])] *)
Definition header_nvars (line : str) (old : Z) : outcome Z :=
  let parts := split line in
  if (4 <=? length parts)%nat && str_eqb (nth 1 parts []) (lit "cnf")
  then py_int (nth 2 parts [])
  else Return old.

(** [if lits[-1] == 0: lits = lits[:-1]] *)
Definition strip_terminator (lits : list Z) : list Z :=
  if List.last lits 1 =? 0 then List.removelast lits else lits.

(** One turn of the loop [for raw in f]. *)
Definition read_line (st : cnf) (raw : str) : outcome cnf :=
  let line := strip raw in
  match line with
  | [] => Return st
  | _ :: _ =>
      if startswith line (lit "c") then
        Return (Cnf (nvars st) (clauses st) (comments st ++ [line]))
      else if startswith line (lit "p") then
        letM n := header_nvars line (nvars st) in
        Return (Cnf n (clauses st) (comments st))
      else
        letM lits := mapM py_int (split line) in
        match lits with
        | [] => Return st
        | _ :: _ => Return (Cnf (nvars st) (clauses st ++ [strip_terminator lits]) (comments st))
        end
  end.

Definition read_lines (ls : list str) (st : cnf) : outcome cnf :=
  foldM read_line ls st.

Definition read_dimacs (file : str) : outcome cnf :=
  letM st := read_lines (readlines file) empty_cnf in
  if nvars st <=? 0 then Fail ValueError else Return st.

Definition header_line (nv nc : Z) : str :=
  lit "p cnf " ++ str_of_Z nv ++ lit " " ++ str_of_Z nc ++ [LF].

Definition clause_line (cl : list Z) : str :=
  match cl with
  | [] => lit "0" ++ [LF]
  | _ :: _ => join (lit " ") (map str_of_Z cl) ++ lit " 0" ++ [LF]
  end.

Definition comment_line (c : str) : str := c ++ [LF].

(** The text [write_dimacs(path, nvars, clauses, comments)] leaves in the file. *)
Definition write_dimacs (nv : Z) (cls : list (list Z)) (cms : list str) : str :=
  concat (map comment_line cms)
  ++ header_line nv (Z.of_nat (length cls))
  ++ concat (map clause_line cls).

Definition serialize (c : cnf) : str :=
  write_dimacs (nvars c) (clauses c) (comments c).

Definition unit_clauses (new_units : list Z) : list (list Z) :=
  map (fun l => [l]) new_units.

(** [add_unit_clauses(src_cnf, dst_cnf, new_units)]: from the text of the
    source file to the text of the destination file. *)
Definition add_unit_clauses (src : str) (new_units : list Z) : outcome str :=
  letM c := read_dimacs src in
  Return (write_dimacs (nvars c) (clauses c ++ unit_clauses new_units) (comments c)).

End Dimacs.

(** ** [shared/scripts/apply_units.py] *)

Module ApplyUnits.

(** The first loop: the header values seen so far, [None] before any. *)
Definition scan_line (hdr : option (Z * Z)) (line : str) : outcome (option (Z * Z)) :=
  let s := strip line in
  if str_eqb s [] || startswith s (lit "c") then Return hdr
  else if startswith s (lit "p ") then
    let parts := split s in
    letM p2 := index parts 2 in
    letM nv := py_int p2 in
    letM p3 := index parts 3 in
    letM nc := py_int p3 in
    Return (Some (nv, nc))
  else Return hdr.

Definition header_text (nv nc : Z) : str :=
  lit "p cnf " ++ str_of_Z nv ++ lit " " ++ str_of_Z nc ++ [LF].

(** The second loop: the first line whose stripped text starts with "p "
    is replaced by the new header, every other line is copied. *)
Fixpoint rewrite_lines (header_done : bool) (hdr : str) (lines : list str) : list str :=
  match lines with
  | [] => []
  | line :: rest =>
      if negb header_done && startswith (strip line) (lit "p ")
      then hdr :: rewrite_lines true hdr rest
      else line :: rewrite_lines header_done hdr rest
  end.

Definition unit_line (l : Z) : str := str_of_Z l ++ lit " 0" ++ [LF].

(** The script from the reading of [IN.cnf] on, for the literals [lits]
    already converted: the text written to [OUT.cnf]. *)
Definition apply_units (file : str) (lits : list Z) : outcome str :=
  let lines := readlines file in
  letM hdr := foldM scan_line lines None in
  match hdr with
  | None => Fail SysExit
  | Some (num_vars, num_clauses) =>
      let new_num_clauses := num_clauses + Z.of_nat (length lits) in
      let out_lines := rewrite_lines false (header_text num_vars new_num_clauses) lines in
      Return (concat (out_lines ++ map unit_line lits))
  end.

(** The script as invoked: [python3 apply_units.py IN.cnf OUT.cnf lit1 ...],
    [args] being [sys.argv[3:]]. *)
Definition main (file : str) (args : list str) : outcome str :=
  match args with
  | [] => Fail SysExit
  | _ :: _ =>
      letM lits := mapM py_int args in
      apply_units file lits
  end.

End ApplyUnits.

(** A text from its lines, each closed by LF. *)
Definition text (ls : list string) : str :=
  concat (map (fun l => lit l ++ [LF]) ls).

(** ** Ranges, sorting, floats *)

(** [range(1, n + 1)] *)
Definition range1 (n : Z) : list Z := map Z.of_nat (seq 1 (Z.to_nat n)).

(** [d.get(v, 0)] *)
Definition get0 (d : gmap Z Z) (v : Z) : Z := default 0 (d !! v).

(** [d[v] = d.get(v, 0) + 1] *)
Definition incr (d : gmap Z Z) (v : Z) : gmap Z Z := <[v := get0 d v + 1]> d.

(** [list.sort] is stable and compares with [<] only.  For keys that [<]
    orders totally (ints, floats without NaN, tuples of them) every stable
    sort returns the same list; the model is the stable insertion sort.
    With [reverse=True] the comparison is flipped and ties still keep their
    input order. *)
Section Sort.
Context {A : Type} (lt : A -> A -> bool).

Fixpoint insert_sorted (x : A) (l : list A) : list A :=
  match l with
  | [] => [x]
  | y :: l' => if lt y x then y :: insert_sorted x l' else x :: l
  end.

Definition py_sort (l : list A) : list A := foldr insert_sorted [] l.
End Sort.

Definition sort_by_key {A K : Type} (klt : K -> K -> bool) (key : A -> K) (l : list A) : list A :=
  py_sort (fun a b => klt (key a) (key b)) l.

Definition sort_by_key_reverse {A K : Type} (klt : K -> K -> bool) (key : A -> K) (l : list A) : list A :=
  py_sort (fun a b => klt (key b) (key a)) l.

Definition float_list_get (l : list float) (i : Z) : float :=
  nth (Z.to_nat i) l 0%float.

(** ** [versions/asr_v0b/pick_literals_asr_v0b.py] *)

Module V0b.

Definition l2_normalize (vec : list float) : list float :=
  let s := fold_left (fun s x => (s + x * x)%float) vec 0%float in
  if (s <=? 0)%float then vec
  else
    let inv := (1 / sqrt s)%float in
    map (fun x => (x * inv)%float) vec.

Record parsed : Type := Parsed {
  num_vars : option Z;
  clauses : list (list Z);
  pos : gmap Z Z;
  neg : gmap Z Z
}.

(** The loop [for tok in toks] of a clause line. *)
Fixpoint read_tokens (toks : list str) (lits : list Z) (pos neg : gmap Z Z)
  : outcome (list Z * gmap Z Z * gmap Z Z) :=
  match toks with
  | [] => Return (lits, pos, neg)
  | tok :: rest =>
      if str_eqb tok (lit "0") then Return (lits, pos, neg)
      else
        letM l := py_int tok in
        let v := Z.abs l in
        if 0 <? l then read_tokens rest (lits ++ [l]) (incr pos v) neg
        else read_tokens rest (lits ++ [l]) pos (incr neg v)
  end.

Definition parse_line (st : parsed) (raw : str) : outcome parsed :=
  let s := strip raw in
  match s with
  | [] => Return st
  | _ :: _ =>
      if startswith s (lit "c") then Return st
      else if startswith s (lit "p") then
        let parts := split s in
        if (length parts <? 4)%nat
           || negb (str_eqb (nth 0 parts []) (lit "p"))
           || negb (str_eqb (nth 1 parts []) (lit "cnf"))
        then Fail SysExit
        else
          letM n := py_int (nth 2 parts []) in
          Return (Parsed (Some n) (clauses st) (pos st) (neg st))
      else
        letM r := read_tokens (split s) [] (pos st) (neg st) in
        let '(lits, p, n) := r in
        (* ignore empty clauses *)
        match lits with
        | [] => Return (Parsed (num_vars st) (clauses st) p n)
        | _ :: _ => Return (Parsed (num_vars st) (clauses st ++ [lits]) p n)
        end
  end.

Definition parse_dimacs (file : str)
  : outcome (Z * list (list Z) * gmap Z Z * gmap Z Z) :=
  letM st := foldM parse_line (readlines file) (Parsed None [] ∅ ∅) in
  match num_vars st with
  | None => Fail SysExit
  | Some n =>
      match clauses st with
      | [] => Fail SysExit
      | _ :: _ => Return (n, clauses st, pos st, neg st)
      end
  end.

(** [l[i].append(j)] *)
Definition append_at (l : list (list nat)) (i : Z) (j : nat) : outcome (list (list nat)) :=
  match l !! Z.to_nat i with
  | Some js => Return (<[Z.to_nat i := js ++ [j]]> l)
  | None => Fail IndexError
  end.

(** The loop [for lit in lits] of clause [j]. *)
Fixpoint clause_incidence (j : nat) (lits : list Z) (seen : gset Z) (vars_j : list Z)
    (var_to_clauses : list (list nat)) : outcome (list Z * list (list nat)) :=
  match lits with
  | [] => Return (vars_j, var_to_clauses)
  | l :: rest =>
      let v := Z.abs l in
      if decide (v ∈ seen) then clause_incidence j rest seen vars_j var_to_clauses
      else
        letM v2c := append_at var_to_clauses v j in
        clause_incidence j rest ({[v]} ∪ seen) (vars_j ++ [v]) v2c
  end.

Fixpoint incidence_loop (j : nat) (cls : list (list Z)) (var_to_clauses : list (list nat))
    (clause_vars : list (list Z)) : outcome (list (list nat) * list (list Z)) :=
  match cls with
  | [] => Return (var_to_clauses, clause_vars)
  | lits :: rest =>
      letM r := clause_incidence j lits ∅ [] var_to_clauses in
      let '(vars_j, v2c) := r in
      incidence_loop (S j) rest v2c (clause_vars ++ [vars_j])
  end.

Definition build_incidence (num_vars : Z) (cls : list (list Z))
  : outcome (list (list nat) * list (list Z)) :=
  incidence_loop 0 cls (replicate (Z.to_nat (num_vars + 1)) []) [].

Definition is_empty {A : Type} (l : list A) : bool :=
  match l with [] => true | _ :: _ => false end.

(** The start vector, entries 1..num_vars: 1.0 where the variable has a
    clause, 0.0 elsewhere. *)
Definition init_scores (num_vars : Z) (var_to_clauses : list (list nat)) : list float :=
  map (fun v => if is_empty (nth (Z.to_nat v) var_to_clauses [])
                then 0%float else 1%float)
      (range1 num_vars).

Definition count_active (num_vars : Z) (var_to_clauses : list (list nat)) : nat :=
  length (List.filter (fun v => negb (is_empty (nth (Z.to_nat v) var_to_clauses [])))
                 (range1 num_vars)).

Definition fsum (l : list float) : float :=
  fold_left (fun s x => (s + x)%float) l 0%float.

(** One turn of the power iteration; [var_score] is the whole list, entry 0
    included. *)
Definition iterate (num_vars : Z) (var_to_clauses : list (list nat))
    (clause_vars : list (list Z)) (var_score : list float) : list float :=
  let clause_score :=
    l2_normalize (map (fun vs => fsum (map (float_list_get var_score) vs)) clause_vars) in
  let new_var :=
    map (fun v => fsum (map (fun j => nth j clause_score 0%float)
                            (nth (Z.to_nat v) var_to_clauses [])))
        (range1 num_vars) in
  0%float :: l2_normalize new_var.

(** [spectral_scores].  The lists are indexed as the script indexes them;
    [build_incidence] makes [var_to_clauses] of length [num_vars + 1] and
    puts in [clause_vars] only variables it could index, so that no lookup
    below is out of range when the arguments come from it. *)
Definition spectral_scores (num_vars : Z) (var_to_clauses : list (list nat))
    (clause_vars : list (list Z)) (iters : Z) : outcome (list float) :=
  if (count_active num_vars var_to_clauses =? 0)%nat then Fail SysExit
  else
    let start := 0%float :: l2_normalize (init_scores num_vars var_to_clauses) in
    Return (Nat.iter (Z.to_nat iters) (iterate num_vars var_to_clauses clause_vars) start).

(** Python's [<] on the sort keys [(-score, var)]. *)
Definition key_lt (a b : float * Z) : bool :=
  if (fst a =? fst b)%float then snd a <? snd b else (fst a <? fst b)%float.

Definition polarity (pos neg : gmap Z Z) (v : Z) : Z :=
  if get0 neg v <=? get0 pos v then v else - v.

(** The ranked list [scored] after the sort. *)
Definition ranked (num_vars : Z) (var_score : list float) : list (float * Z) :=
  let scored :=
    map (fun v => (float_list_get var_score v, v))
        (List.filter (fun v => (0 <? float_list_get var_score v)%float) (range1 num_vars)) in
  sort_by_key key_lt (fun x : float * Z => ((- fst x)%float, snd x)) scored.

Definition picked_literals (num_vars : Z) (var_score : list float) (pos neg : gmap Z Z)
    (k : Z) : list Z :=
  map (fun x : float * Z => polarity pos neg (snd x))
      (take (Z.to_nat k) (ranked num_vars var_score)).

(** [pick_top_k_literals], for [k > 0] as [main] guarantees: the line it
    returns. *)
Definition pick_top_k_literals (num_vars : Z) (var_score : list float)
    (pos neg : gmap Z Z) (k : Z) : outcome str :=
  match ranked num_vars var_score with
  | [] => Fail SysExit
  | _ :: _ =>
      Return (join (lit " ") (map str_of_Z (picked_literals num_vars var_score pos neg k)))
  end.

Definition int_arg (a : str) : outcome Z :=
  match int_of_str a with
  | Some z => Return z
  | None => Fail SysExit
  end.

(** The scores the script computes for a file. *)
Definition scores_of (file : str) (iters : Z)
  : outcome (Z * list float * gmap Z Z * gmap Z Z) :=
  letM p := parse_dimacs file in
  let '(n, cls, ps, ng) := p in
  letM inc := build_incidence n cls in
  let '(var_to_clauses, clause_vars) := inc in
  letM var_score := spectral_scores n var_to_clauses clause_vars iters in
  Return (n, var_score, ps, ng).

(** The literals that the script picks, in the order it prints them. *)
Definition selection (file : str) (k iters : Z) : outcome (list Z) :=
  letM r := scores_of file iters in
  let '(n, var_score, ps, ng) := r in
  match ranked n var_score with
  | [] => Fail SysExit
  | _ :: _ => Return (picked_literals n var_score ps ng k)
  end.

Definition run (file : str) (k iters : Z) : outcome str :=
  letM r := scores_of file iters in
  let '(n, var_score, ps, ng) := r in
  letM out := pick_top_k_literals n var_score ps ng k in
  Return (out ++ [LF]).

(** [main], [args] being [sys.argv[2:]]: what the script prints. *)
Definition main (file : str) (args : list str) : outcome str :=
  match args with
  | [ka] =>
      letM k := int_arg ka in
      if k <=? 0 then Fail SysExit else run file k 20
  | [ka; ia] =>
      letM k := int_arg ka in
      if k <=? 0 then Fail SysExit
      else
        letM iters := int_arg ia in
        if iters <=? 0 then Fail SysExit else run file k iters
  | _ => Fail SysExit
  end.

End V0b.

(** ** [versions/freq_v1/pick_literals_freq.py] *)

Module Freq.

Record counts : Type := Counts {
  num_vars : option Z;
  pos : gmap Z Z;
  neg : gmap Z Z
}.

Fixpoint read_tokens (toks : list str) (pos neg : gmap Z Z)
  : outcome (gmap Z Z * gmap Z Z) :=
  match toks with
  | [] => Return (pos, neg)
  | tok :: rest =>
      if str_eqb tok (lit "0") then Return (pos, neg)
      else
        match int_of_str tok with
        | None => Fail SysExit
        | Some l =>
            let v := Z.abs l in
            if 0 <? l then read_tokens rest (incr pos v) neg
            else read_tokens rest pos (incr neg v)
        end
  end.

Definition parse_line (st : counts) (raw : str) : outcome counts :=
  let s := strip raw in
  match s with
  | [] => Return st
  | _ :: _ =>
      if startswith s (lit "c") then Return st
      else if startswith s (lit "p") then
        let parts := split s in
        if (length parts <? 4)%nat
           || negb (str_eqb (nth 0 parts []) (lit "p"))
           || negb (str_eqb (nth 1 parts []) (lit "cnf"))
        then Fail SysExit
        else
          letM n := py_int (nth 2 parts []) in
          Return (Counts (Some n) (pos st) (neg st))
      else
        letM r := read_tokens (split s) (pos st) (neg st) in
        Return (Counts (num_vars st) (fst r) (snd r))
  end.

(** Python's [<] on the sort keys [(-total, var)]. *)
Definition key_lt (a b : Z * Z) : bool :=
  if fst a =? fst b then snd a <? snd b else fst a <? fst b.

Definition total (ps ng : gmap Z Z) (v : Z) : Z := get0 ps v + get0 ng v.

(** The list [counts] after the sort. *)
Definition ranked (n : Z) (ps ng : gmap Z Z) : list (Z * Z) :=
  let counts :=
    map (fun v => (total ps ng v, v))
        (List.filter (fun v => 0 <? total ps ng v) (range1 n)) in
  sort_by_key key_lt (fun x : Z * Z => (- fst x, snd x)) counts.

Definition polarity (ps ng : gmap Z Z) (v : Z) : Z :=
  if get0 ng v <=? get0 ps v then v else - v.

Definition picked_literals (n : Z) (ps ng : gmap Z Z) (K : Z) : list Z :=
  map (fun x : Z * Z => polarity ps ng (snd x)) (take (Z.to_nat K) (ranked n ps ng)).

(** The counts after the loop over the lines of the file. *)
Definition parse (file : str) : outcome counts :=
  foldM parse_line (readlines file) (Counts None ∅ ∅).

(** The literals that the script picks for an integer [K], in the order it
    prints them. *)
Definition selection (file : str) (K : Z) : outcome (list Z) :=
  if K <=? 0 then Fail SysExit
  else
    letM st := parse file in
    match num_vars st with
    | None => Fail SysExit
    | Some n =>
        match ranked n (pos st) (neg st) with
        | [] => Fail SysExit
        | _ :: _ => Return (picked_literals n (pos st) (neg st) K)
        end
    end.

(** What the script prints. *)
Definition run (file : str) (K : Z) : outcome str :=
  letM lits := selection file K in
  Return (join (lit " ") (map str_of_Z lits) ++ [LF]).

(** The script as invoked, [args] being [sys.argv[2:]]. *)
Definition main (file : str) (args : list str) : outcome str :=
  match args with
  | [ka] =>
      match int_of_str ka with
      | None => Fail SysExit
      | Some K => run file K
      end
  | _ => Fail SysExit
  end.

End Freq.

(** ** The v4 scorer and selector

    [build_clause_vars], [power_iter_var_scores],
    [literal_scores_and_polarity] and [pick_units_rayleigh] of
    [run_asr_v4_rayleigh_clean.py]; [run_asr_v4_forcewalk.py] holds the same
    functions. *)

Module V4.

Definition build_clause_vars (cls : list (list Z)) (nvars : Z) : list (list Z) :=
  map (fun cl => List.filter (fun v => (1 <=? v) && (v <=? nvars)) (map Z.abs cl)) cls.

(** [l[v] += val]; the callers index inside the list. *)
Definition add_at (l : list float) (v : Z) (val : float) : list float :=
  <[Z.to_nat v := (float_list_get l v + val)%float]> l.

Definition zeros (nvars : Z) : list float := replicate (Z.to_nat (nvars + 1)) 0%float.

(** The start vector: entry 0 is 0.0, entries 1..nvars are 1.0. *)
Definition init_x (nvars : Z) : list float :=
  fold_left (fun x v => <[Z.to_nat v := 1%float]> x) (range1 nvars) (zeros nvars).

Definition clause_sums (clause_vars : list (list Z)) (x : list float) : list float :=
  map (fun vs => fold_left (fun s v => (s + float_list_get x v)%float) vs 0%float) clause_vars.

(** [x2], filled clause by clause in the order of the source. *)
Definition spread (clause_vars : list (list Z)) (y : list float) (nvars : Z) : list float :=
  fold_left
    (fun x2 jvs => fold_left (fun x2 v => add_at x2 v (fst jvs)) (snd jvs) x2)
    (combine y clause_vars) (zeros nvars).

(** [norm ** 0.5]: Python hands the power to the C library, and IEEE 754
    does not fix the last bit of what that returns; the scorer is stated
    for any function [pow_half] that reads [x ** 0.5]. *)
Section Power.
Variable pow_half : float -> float.

Definition l2_norm (x2 : list float) (nvars : Z) : float :=
  pow_half (fold_left (fun n v => (n + float_list_get x2 v * float_list_get x2 v)%float)
                  (range1 nvars) 0%float).

(** The loop [for _ in range(iters)], with its [break]. *)
Fixpoint power_loop (iters : nat) (clause_vars : list (list Z)) (nvars : Z) (x : list float)
  : list float :=
  match iters with
  | O => x
  | S n =>
      let y := clause_sums clause_vars x in
      let x2 := spread clause_vars y nvars in
      let norm := l2_norm x2 nvars in
      if (norm =? 0)%float then x
      else
        power_loop n clause_vars nvars
          (fold_left (fun x v => <[Z.to_nat v := (float_list_get x2 v / norm)%float]> x)
                     (range1 nvars) x)
  end.

Definition power_iter_var_scores (clause_vars : list (list Z)) (nvars : Z) (iters : Z)
  : list float :=
  power_loop (Z.to_nat iters) clause_vars nvars (init_x nvars).

(** [m = 0.0; for lit in cl: m += x[abs(lit)]] *)
Fixpoint mass (x : list float) (cl : list Z) (m : float) : outcome float :=
  match cl with
  | [] => Return m
  | l :: rest =>
      letM xv := index x (Z.to_nat (Z.abs l)) in
      mass x rest (m + xv)%float
  end.

(** The second loop over the clauses: [pos] and [neg]. *)
Definition pressure (cls : list (list Z)) (clause_mass : list float) (nvars : Z)
  : list float * list float :=
  fold_left
    (fun pn wcl =>
       fold_left
         (fun pn l =>
            if 0 <? l then (add_at (fst pn) (Z.abs l) (fst wcl), snd pn)
            else (fst pn, add_at (snd pn) (Z.abs l) (fst wcl)))
         (snd wcl) pn)
    (combine clause_mass cls) (zeros nvars, zeros nvars).

(** The literal [1e-12] as the binary64 value Python reads it to. *)
Definition eps : float := 0x1.19799812dea11p-40%float.

(** [lit_score], the dict from a variable of 1..nvars to
    [(strength, pol)], as the function it tabulates. *)
Definition literal_scores_and_polarity (cls : list (list Z)) (nvars : Z) (iters : Z)
  : outcome (Z -> float * Z) :=
  let clause_vars := build_clause_vars cls nvars in
  let x := power_iter_var_scores clause_vars nvars iters in
  letM clause_mass := mapM (fun cl => mass x cl 0%float) cls in
  let pn := pressure cls clause_mass nvars in
  Return (fun v =>
            let p := float_list_get (fst pn) v in
            let n := float_list_get (snd pn) v in
            ((float_list_get x v * (p + n + eps))%float,
             if (n <=? p)%float then 1 else -1)).

(** [order]: the variables by descending score, ties in ascending id. *)
Definition rank_order (scores : Z -> float * Z) (nvars : Z) : list Z :=
  sort_by_key_reverse PrimFloat.ltb (fun v => fst (scores v)) (range1 nvars).

(** The loop [for v in order], [chosen] being the list built so far. *)
Fixpoint choose (scores : Z -> float * Z) (order : list Z) (k : Z) (avoid : gset Z)
    (chosen : list Z) : list Z :=
  match order with
  | [] => chosen
  | v :: rest =>
      let l := snd (scores v) * v in
      if decide (l ∈ avoid ∨ (- l) ∈ avoid) then choose scores rest k avoid chosen
      else
        let chosen' := chosen ++ [l] in
        if k <=? Z.of_nat (length chosen') then chosen'
        else choose scores rest k avoid chosen'
  end.

Definition pick_units_rayleigh (file : str) (k : Z) (iters : Z) (avoid : gset Z)
  : outcome (list Z) :=
  letM c := Dimacs.read_dimacs file in
  letM scores := literal_scores_and_polarity (Dimacs.clauses c) (Dimacs.nvars c) iters in
  Return (choose scores (rank_order scores (Dimacs.nvars c)) k avoid []).

End Power.

End V4.

(** ** Solver reports *)

Inductive verdict : Type := SAT | UNSAT | UNKNOWN.

Definition solved (v : verdict) : bool :=
  match v with SAT | UNSAT => true | UNKNOWN => false end.

(** [float(tok)] is Python's own; the parsers are stated for any reading
    [py_float] of a token, [None] where [float] raises. *)
Section Reports.
Variable py_float : str -> option float.

(** *** [parse_glucose_log] of the clean and force-walk runners *)

Definition v4_status_line (s : str) (status : verdict) : verdict :=
  if startswith s (lit "s ") then
    if contains s (lit "SATISFIABLE") && negb (contains s (lit "UNSAT")) then SAT
    else if contains s (lit "UNSATISFIABLE") then UNSAT
    else status
  else status.

(** [for i in range(len(parts))]: [parts] is the rest of the list from
    index [i] on. *)
Fixpoint v4_scan_conflicts (parts : list str) (conflicts : Z) : Z :=
  match parts with
  | [] => conflicts
  | p :: rest =>
      let conflicts' :=
        match rest with
        | nxt :: _ =>
            if str_eqb p (lit "conflicts") then
              match int_of_str nxt with
              | Some z => z
              | None => conflicts
              end
            else conflicts
        | [] => conflicts
        end in
      v4_scan_conflicts rest conflicts'
  end.

(** [float(parts[-2]) if parts[-1] == "s" else float(parts[-1])] under
    its [try]. *)
Definition v4_cpu_of_parts (parts : list str) (cpu : float) : float :=
  let tok :=
    if str_eqb (List.last parts []) (lit "s") then nth_error (rev parts) 1
    else nth_error (rev parts) 0 in
  match tok with
  | Some t => match py_float t with Some f => f | None => cpu end
  | None => cpu
  end.

Definition v4_sentinel_conflicts : Z := 10 ^ 18.

Definition v4_log_line (st : verdict * Z * float) (line : str) : verdict * Z * float :=
  let '(status, conflicts, cpu) := st in
  let s := strip line in
  let status := v4_status_line s status in
  let conflicts :=
    if startswith s (lit "c conflicts")
    then v4_scan_conflicts (split (replace_char ":"%char " "%char s)) conflicts
    else conflicts in
  let cpu :=
    if startswith s (lit "c CPU time")
    then v4_cpu_of_parts (split (replace_char ":"%char " "%char s)) cpu
    else cpu in
  (status, conflicts, cpu).

Definition v4_parse_glucose_log (log : str) : verdict * Z * float :=
  fold_left v4_log_line (readlines log) (UNKNOWN, v4_sentinel_conflicts, 0%float).

(** *** [parse_glucose_log] of [asr_v4_rayleigh/run_asr_v4_rayleigh.py] *)

(** [parts = s.split(":"); if len(parts) >= 2: rhs = parts[1].strip().split();
    if rhs: ... rhs[0]] *)
Definition first_after_colon (s : str) : option str :=
  match split_on ":"%char s with
  | _ :: rhs :: _ =>
      match split (strip rhs) with
      | tok :: _ => Some tok
      | [] => None
      end
  | _ => None
  end.

Definition np_log_line (st : verdict * option Z * option float) (line : str)
  : verdict * option Z * option float :=
  let '(status, conflicts, cpu) := st in
  let s := strip line in
  let status := v4_status_line s status in
  let conflicts :=
    if startswith (lower s) (lit "c conflicts") then
      match first_after_colon s with
      | Some tok => match int_of_str tok with Some z => Some z | None => conflicts end
      | None => conflicts
      end
    else conflicts in
  let cpu :=
    if startswith (lower s) (lit "c cpu time") then
      match first_after_colon s with
      | Some tok => match py_float tok with Some f => Some f | None => cpu end
      | None => cpu
      end
    else cpu in
  (status, conflicts, cpu).

Definition np_parse_glucose_log (log : str) : verdict * Z * float :=
  let '(status, conflicts, cpu) :=
    fold_left np_log_line (readlines log) (UNKNOWN, None, None) in
  (status, default (-1) conflicts, default (-1)%float cpu).

(** *** [parse_glucose_output] of [run_asr_v1.py] and [run_random_v1.py] *)

(** [num]: the leading characters that pass [ch.isdigit()]. *)
Fixpoint leading_digits (t : str) : str :=
  match t with
  | c :: t' => if py_isdigit c then c :: leading_digits t' else []
  | [] => []
  end.

Definition v1_status_line (s : str) (status : option verdict) : option verdict :=
  if startswith s (lit "s ") then
    if contains s (lit "UNSATISFIABLE") then Some UNSAT
    else if contains s (lit "SATISFIABLE") then Some SAT
    else status
  else status.

(** [if num: conflicts = int(num)]: the call of [int] stands in no [try],
    and raises on a character of [num] that is no decimal digit. *)
Definition v1_conflicts_line (s : str) (conflicts : option Z) : outcome (option Z) :=
  match split_on ":"%char s with
  | _ :: rhs :: _ =>
      match leading_digits (strip rhs) with
      | [] => Return conflicts
      | num => letM z := py_int num in Return (Some z)
      end
  | _ => Return conflicts
  end.

Definition v1_cpu_line (s : str) (cpu : option float) : option float :=
  match first_after_colon s with
  | Some tok => match py_float tok with Some f => Some f | None => cpu end
  | None => cpu
  end.

Definition v1_output_line (st : option verdict * option Z * option float) (line : str)
  : outcome (option verdict * option Z * option float) :=
  let '(status, conflicts, cpu) := st in
  let s := strip line in
  let status := v1_status_line s status in
  letM conflicts :=
    (if startswith s (lit "c conflicts") then v1_conflicts_line s conflicts
     else Return conflicts) in
  let cpu :=
    if startswith s (lit "c CPU time") then v1_cpu_line s cpu else cpu in
  Return (status, conflicts, cpu).

Definition v1_parse_glucose_output (out : str)
  : outcome (option verdict * option Z * option float) :=
  foldM v1_output_line (splitlines out) (None, None, None).

End Reports.

(** ** [versions/asr_v1_active/run_asr_v1.py]: the calls of the scripts *)

Module V1.

(** [pick_literals(cnf_path, k)]: the v0b script run on the file with
    [str(k)], its output read back. *)
Definition pick_literals (file : str) (k : Z) : outcome (list Z) :=
  match V0b.main file [str_of_Z k] with
  | Fail _ => Fail SysExit
  | Return out =>
      let lits := omap int_of_str (split (strip out)) in
      if Z.of_nat (length lits) <? k then Fail SysExit
      else Return (take (Z.to_nat k) lits)
  end.

(** [apply_new_units(curr_cnf, next_cnf, new_lits)]: the text of the new
    file. *)
Definition apply_new_units (curr : str) (new_lits : list Z) : outcome str :=
  match ApplyUnits.main curr (map str_of_Z new_lits) with
  | Fail _ => Fail SysExit
  | Return next => Return next
  end.

End V1.

(** One row of the CSV of a run; the two paths stand for the texts of the
    files they name. *)
Record row (S C T : Type) : Type := Row {
  row_iter : Z;
  row_k_added_total : Z;
  row_new_units : list Z;
  row_status : S;
  row_conflicts : C;
  row_cpu_time : T;
  row_cnf : str;
  row_log : str
}.

Arguments Row {S C T}.
Arguments row_iter {S C T}.
Arguments row_k_added_total {S C T}.
Arguments row_new_units {S C T}.
Arguments row_status {S C T}.
Arguments row_conflicts {S C T}.
Arguments row_cpu_time {S C T}.
Arguments row_cnf {S C T}.
Arguments row_log {S C T}.

(** The literals of the selection rounds of a run, in order. *)
Definition selections {S C T : Type} (rows : list (row S C T)) : list (list Z) :=
  map row_new_units rows.

(** ** [versions/control_random_v1/run_random_v1.py] *)

Module RandomV1.

(** [parse_cnf_num_vars]: the first line that starts with "p cnf" decides. *)
Fixpoint num_vars_of_lines (lines : list str) : outcome (option Z) :=
  match lines with
  | [] => Return None
  | line :: rest =>
      if startswith line (lit "p cnf") then
        let parts := split (strip line) in
        if (4 <=? length parts)%nat then
          letM n := py_int (nth 2 parts []) in Return (Some n)
        else Return None
      else num_vars_of_lines rest
  end.

Definition parse_cnf_num_vars (file : str) : outcome (option Z) :=
  num_vars_of_lines (readlines file).

(** The fallback [for v in range(1, nvars + 1)]. *)
Fixpoint fallback (vs : list Z) (want_k : Z) (used : gset Z) (new_lits : list Z)
  : list Z * gset Z :=
  match vs with
  | [] => (new_lits, used)
  | v :: rest =>
      if want_k <=? Z.of_nat (length new_lits) then (new_lits, used)
      else if decide ((v ∉ used) ∧ ((- v) ∉ used))
           then fallback rest want_k ({[v]} ∪ used) (new_lits ++ [v])
           else fallback rest want_k used new_lits
  end.

(** The generator of module [random] is a state [G] with the two draws the
    script makes; [random.seed] fixes the first state. *)
Section Generator.
Context {G : Type}.
Variable randint : G -> Z -> Z -> Z * G.
Variable getrandbits1 : G -> Z * G.

(** The loop [while len(new_lits) < want_k]; [budget] is [2000 - tries]. *)
Fixpoint draw_loop (budget : nat) (nvars want_k : Z) (used : gset Z) (new_lits : list Z)
    (g : G) : outcome (list Z * gset Z * G) :=
  if Z.of_nat (length new_lits) <? want_k then
    match budget with
    | O =>
        let '(lits, used') := fallback (range1 nvars) want_k used new_lits in
        Return (lits, used', g)
    | S b =>
        if nvars <? 1 then Fail ValueError
        else
          let '(v, g1) := randint g 1 nvars in
          let '(bit, g2) := getrandbits1 g1 in
          let l := if bit =? 0 then v else - v in
          if decide (l ∉ used)
          then draw_loop b nvars want_k ({[l]} ∪ used) (new_lits ++ [l]) g2
          else draw_loop b nvars want_k used new_lits g2
    end
  else Return (new_lits, used, g).

(** [pick_random_literals(curr_cnf, want_k, used_set)]: the literals, the
    set [used_set] as the call leaves it, the generator after the draws. *)
Definition pick_random_literals (curr : str) (want_k : Z) (used : gset Z) (g : G)
  : outcome (list Z * gset Z * G) :=
  letM nv := parse_cnf_num_vars curr in
  match nv with
  | None => Fail SysExit
  | Some nvars => draw_loop 2000 nvars want_k used [] g
  end.

Variable py_float : str -> option float.
(** The solver on the CNF text of round [it]: the report it prints. *)
Variable solver : Z -> str -> str.

Definition rrow : Type := row (option verdict) (option Z) (option float).

(** [solve_and_log] and the row that [main] writes from it; the parser
    may raise, and no row is written then. *)
Definition solve_row (it k_added : Z) (new_lits : list Z) (cnf : str) : outcome rrow :=
  let out := solver it cnf in
  letM parsed := v1_parse_glucose_output py_float out in
  let '(status, conflicts, cpu) := parsed in
  Return (Row it k_added new_lits status conflicts cpu cnf out).

Definition collapsed (r : rrow) : bool :=
  match row_conflicts r, row_status r with
  | Some 0, Some (SAT | UNSAT) => true
  | _, _ => false
  end.

(** The loop [while k_added < k_total]: the rows written and the failure
    that ended the run, if one did.  [fuel] bounds the rounds. *)
Fixpoint rounds (fuel : nat) (k_total k_step : Z) (it : Z) (curr : str) (used : gset Z)
    (k_added : Z) (g : G) (rows : list rrow) : list rrow * option failure :=
  match fuel with
  | O => (rows, None)
  | S fuel' =>
      if k_added <? k_total then
        let it := it + 1 in
        let remaining := k_total - k_added in
        let this_k := if k_step <=? remaining then k_step else remaining in
        match pick_random_literals curr this_k used g with
        | Fail e => (rows, Some e)
        | Return (new_lits, used', g') =>
            match V1.apply_new_units curr new_lits with
            | Fail e => (rows, Some e)
            | Return next =>
                let k_added := k_added + this_k in
                match solve_row it k_added new_lits next with
                | Fail e => (rows, Some e)
                | Return r =>
                    if collapsed r then (rows ++ [r], None)
                    else rounds fuel' k_total k_step it next used' k_added g' (rows ++ [r])
                end
            end
        end
      else (rows, None)
  end.

(** [main] from the checks of [k_total] and [k_step] on; [g] is the
    generator after [random.seed(rng_seed)]. *)
Definition main (input : str) (k_total k_step : Z) (g : G) : list rrow * option failure :=
  if (k_total <=? 0) || (k_step <=? 0) || (k_total <? k_step) then ([], Some SysExit)
  else
    match solve_row 0 0 [] input with
    | Fail e => ([], Some e)
    | Return r0 => rounds (Z.to_nat k_total) k_total k_step 0 input ∅ 0 g [r0]
    end.

End Generator.

End RandomV1.

(** ** [versions/asr_v4_rayleigh_clean/run_asr_v4_forcewalk.py]: the run *)

Module Forcewalk.

Section Run.
Variable pow_half : float -> float.
Variable py_float : str -> option float.
Variable solver : Z -> str -> str.

Definition frow : Type := row verdict Z float.

Definition solve_row (it k_total : Z) (new_units : list Z) (cnf : str) : frow :=
  let log := solver it cnf in
  let '(status, conflicts, cpu) := v4_parse_glucose_log py_float log in
  Row it k_total new_units status conflicts cpu cnf log.

Definition collapsed (r : frow) : bool :=
  (row_conflicts r =? 0) && solved (row_status r).

Definition add_avoid (avoid : gset Z) (new_units : list Z) : gset Z :=
  fold_left (fun a l => {[ - l ]} ∪ ({[ l ]} ∪ a)) new_units avoid.

(** The loop [for it in range(1, max_iters + 1)]. *)
Fixpoint rounds (its : list Z) (k_per_iter : Z) (curr : str) (avoid : gset Z)
    (k_total : Z) (rows : list frow) : list frow * option failure :=
  match its with
  | [] => (rows, None)
  | it :: its' =>
      match V4.pick_units_rayleigh pow_half curr k_per_iter 25 avoid with
      | Fail e => (rows, Some e)
      | Return new_units =>
          if Z.of_nat (length new_units) <? k_per_iter then (rows, None)
          else
            let avoid := add_avoid avoid new_units in
            let k_total := k_total + Z.of_nat (length new_units) in
            match Dimacs.add_unit_clauses curr new_units with
            | Fail e => (rows, Some e)
            | Return cnf_out =>
                let r := solve_row it k_total new_units cnf_out in
                if collapsed r then (rows ++ [r], None)
                else rounds its' k_per_iter cnf_out avoid k_total (rows ++ [r])
            end
      end
  end.

(** [main] for the integers [max_iters] and [k_per_iter] of the command
    line. *)
Definition main (input : str) (max_iters k_per_iter : Z) : list frow * option failure :=
  let r0 := solve_row 0 0 [] input in
  if collapsed r0 then ([r0], None)
  else rounds (range1 max_iters) k_per_iter input ∅ 0 [r0].

End Run.

End Forcewalk.

(** ** [versions/asr_v4_rayleigh_clean/run_asr_v4_rayleigh_clean.py]: the run

    The runner shares the codec, the log parser and the selector with the
    force-walk runner; its loop stops on any verdict. *)

Module Clean.

Section Run.
Variable pow_half : float -> float.
Variable py_float : str -> option float.
Variable solver : Z -> str -> str.

(** The two stop tests that close a round. *)
Definition stops (r : Forcewalk.frow) : bool :=
  if Forcewalk.collapsed r then true else solved (row_status r).

(** The turns [it = 1 .. max_iters] of [for it in range(max_iters + 1)]. *)
Fixpoint rounds (its : list Z) (k_per_iter : Z) (curr : str) (avoid : gset Z)
    (k_total : Z) (rows : list Forcewalk.frow) : list Forcewalk.frow * option failure :=
  match its with
  | [] => (rows, None)
  | it :: its' =>
      match V4.pick_units_rayleigh pow_half curr k_per_iter 25 avoid with
      | Fail e => (rows, Some e)
      | Return new_units =>
          if Z.of_nat (length new_units) <? k_per_iter then (rows, None)
          else
            let avoid := Forcewalk.add_avoid avoid new_units in
            let k_total := k_total + Z.of_nat (length new_units) in
            match Dimacs.add_unit_clauses curr new_units with
            | Fail e => (rows, Some e)
            | Return cnf_out =>
                let r := Forcewalk.solve_row py_float solver it k_total new_units cnf_out in
                if stops r then (rows ++ [r], None)
                else rounds its' k_per_iter cnf_out avoid k_total (rows ++ [r])
            end
      end
  end.

(** [main] for the integers [max_iters] and [k_per_iter] of the command
    line; the turn [it = 0] solves the input as it is. *)
Definition main (input : str) (max_iters k_per_iter : Z)
  : list Forcewalk.frow * option failure :=
  if max_iters <? 0 then ([], None)
  else
    let r0 := Forcewalk.solve_row py_float solver 0 0 [] input in
    if solved (row_status r0) then ([r0], None)
    else rounds (range1 max_iters) k_per_iter input ∅ 0 [r0].

End Run.

End Clean.

(** ** [versions/asr_v1_active/run_asr_v1.py]: the run *)

Module V1Run.

Section Run.
Variable py_float : str -> option float.
Variable solver : Z -> str -> str.

Definition vrow : Type := row (option verdict) (option Z) (option float).

(** [solve_and_log] and the row that [main] writes from it; the parser
    may raise, and no row is written then. *)
Definition solve_row (it k_added : Z) (new_lits : list Z) (cnf : str) : outcome vrow :=
  let out := solver it cnf in
  letM parsed := v1_parse_glucose_output py_float out in
  let '(status, conflicts, cpu) := parsed in
  Return (Row it k_added new_lits status conflicts cpu cnf out).

Definition collapsed (r : vrow) : bool :=
  match row_conflicts r, row_status r with
  | Some 0, Some (SAT | UNSAT) => true
  | _, _ => false
  end.

(** The loop [while k_added < k_total]; [fuel] bounds the rounds. *)
Fixpoint rounds (fuel : nat) (k_total k_step : Z) (it : Z) (curr : str)
    (k_added : Z) (rows : list vrow) : list vrow * option failure :=
  match fuel with
  | O => (rows, None)
  | S fuel' =>
      if k_added <? k_total then
        let it := it + 1 in
        let remaining := k_total - k_added in
        let this_k := if k_step <=? remaining then k_step else remaining in
        match V1.pick_literals curr this_k with
        | Fail e => (rows, Some e)
        | Return new_lits =>
            match V1.apply_new_units curr new_lits with
            | Fail e => (rows, Some e)
            | Return next =>
                let k_added := k_added + this_k in
                match solve_row it k_added new_lits next with
                | Fail e => (rows, Some e)
                | Return r =>
                    if collapsed r then (rows ++ [r], None)
                    else rounds fuel' k_total k_step it next k_added (rows ++ [r])
                end
            end
        end
      else (rows, None)
  end.

(** [main] from the checks of [k_total] and [k_step] on. *)
Definition main (input : str) (k_total k_step : Z) : list vrow * option failure :=
  if (k_total <=? 0) || (k_step <=? 0) || (k_total <? k_step) then ([], Some SysExit)
  else
    match solve_row 0 0 [] input with
    | Fail e => ([], Some e)
    | Return r0 => rounds (Z.to_nat k_total) k_total k_step 0 input 0 [r0]
    end.

End Run.

End V1Run.

(** ** [shared/scripts/gen3sat.py] *)

Module Gen3sat.

Section Generator.
Context {G : Type}.
(** [random.sample(range(1, N + 1), 3)] for [N >= 3], and
    [random.getrandbits(1)]. *)
Variable sample3 : G -> Z -> list Z * G.
Variable getrandbits1 : G -> Z * G.

(** The loop [for v in vars3]. *)
Fixpoint signed (vars3 : list Z) (g : G) : list Z * G :=
  match vars3 with
  | [] => ([], g)
  | v :: rest =>
      let '(bit, g1) := getrandbits1 g in
      let l := if bit =? 0 then v else - v in
      let '(ls, g2) := signed rest g1 in
      (l :: ls, g2)
  end.

(** The loop [for _ in range(M)]: the clauses drawn.  [random.sample]
    raises [ValueError] when the population has fewer than 3 members. *)
Fixpoint draw (m : nat) (N : Z) (g : G) : outcome (list (list Z) * G) :=
  match m with
  | O => Return ([], g)
  | S m' =>
      if N <? 3 then Fail ValueError
      else
        let '(vars3, g1) := sample3 g N in
        let '(lits, g2) := signed vars3 g1 in
        letM r := draw m' N g2 in
        Return (lits :: fst r, snd r)
  end.

Definition clause_text (lits : list Z) : str :=
  join (lit " ") (map str_of_Z lits) ++ lit " 0" ++ [LF].

(** The script for the integers [N] and [M] of the command line, [g] being
    the generator after [random.seed(SEED)]: the text of [OUTFILE]. *)
Definition main (N M : Z) (g : G) : outcome (str * G) :=
  letM r := draw (Z.to_nat M) N g in
  Return (lit "p cnf " ++ str_of_Z N ++ lit " " ++ str_of_Z M ++ [LF]
            ++ concat (map clause_text (fst r)),
          snd r).

End Generator.

End Gen3sat.

(** ** [versions/asr_v4_rayleigh/run_asr_v4_rayleigh.py]

    The runner on numpy.  Its scorer ([power_iter_variable_scores],
    [literal_rayleigh_proxy_scores]) computes with numpy's sums and norms;
    the selector is stated for any score table. *)

Module V4Numpy.

(** The header branch of [read_dimacs]: the clause count is read too. *)
Definition header_nvars (line : str) (old : Z) : outcome Z :=
  let parts := split line in
  if (4 <=? length parts)%nat && str_eqb (nth 1 parts []) (lit "cnf")
  then
    letM n := py_int (nth 2 parts []) in
    letM nclauses := py_int (nth 3 parts []) in
    Return n
  else Return old.

Definition read_line (st : Dimacs.cnf) (raw : str) : outcome Dimacs.cnf :=
  let line := strip raw in
  match line with
  | [] => Return st
  | _ :: _ =>
      if startswith line (lit "c") then
        Return (Dimacs.Cnf (Dimacs.nvars st) (Dimacs.clauses st) (Dimacs.comments st ++ [line]))
      else if startswith line (lit "p") then
        letM n := header_nvars line (Dimacs.nvars st) in
        Return (Dimacs.Cnf n (Dimacs.clauses st) (Dimacs.comments st))
      else
        letM lits := mapM py_int (split line) in
        match lits with
        | [] => Return st
        | _ :: _ =>
            Return (Dimacs.Cnf (Dimacs.nvars st)
                      (Dimacs.clauses st ++ [Dimacs.strip_terminator lits])
                      (Dimacs.comments st))
        end
  end.

Definition read_dimacs (file : str) : outcome Dimacs.cnf :=
  letM st := foldM read_line (readlines file) Dimacs.empty_cnf in
  if Dimacs.nvars st <=? 0 then Fail ValueError else Return st.

(** [var_clauses[v].append(j)], [v] inside the list. *)
Definition append_clause (var_clauses : list (list nat)) (v : Z) (j : nat) : list (list nat) :=
  <[Z.to_nat v := nth (Z.to_nat v) var_clauses [] ++ [j]]> var_clauses.

(** The loop [for lit in cl] of clause [j]; variables are 0-based. *)
Fixpoint clause_loop (j : nat) (cl : list Z) (nvars : Z) (vs : list Z)
    (var_clauses : list (list nat)) : list Z * list (list nat) :=
  match cl with
  | [] => (vs, var_clauses)
  | l :: rest =>
      let v := Z.abs l - 1 in
      if (0 <=? v) && (v <? nvars)
      then clause_loop j rest nvars (vs ++ [v]) (append_clause var_clauses v j)
      else clause_loop j rest nvars vs var_clauses
  end.

Fixpoint incidence_loop (j : nat) (cls : list (list Z)) (nvars : Z)
    (clause_vars : list (list Z)) (var_clauses : list (list nat))
  : list (list Z) * list (list nat) :=
  match cls with
  | [] => (clause_vars, var_clauses)
  | cl :: rest =>
      let '(vs, var_clauses') := clause_loop j cl nvars [] var_clauses in
      incidence_loop (S j) rest nvars (clause_vars ++ [vs]) var_clauses'
  end.

(** [build_incidence]: [(clause_vars, var_clauses)]. *)
Definition build_incidence (cls : list (list Z)) (nvars : Z)
  : list (list Z) * list (list nat) :=
  incidence_loop 0 cls nvars [] (replicate (Z.to_nat nvars) []).

(** [best_per_var]: for each variable the literal with the higher score,
    the positive one on a tie. *)
Definition best_per_var (sc : Z -> float) (nvars : Z) : list (float * Z) :=
  map (fun v : Z => if PrimFloat.leb (sc (- v)) (sc v) then (sc v, v) else (sc (- v), - v))
      (range1 nvars).

(** [l[:k]] *)
Definition slice_to {A : Type} (k : Z) (l : list A) : list A :=
  if 0 <=? k then take (Z.to_nat k) l
  else take (length l - Z.to_nat (- k)) l.

(** The literals [chosen] for a score table [sc]. *)
Definition chosen (sc : Z -> float) (nvars k : Z) : list Z :=
  map snd (slice_to k (sort_by_key_reverse PrimFloat.ltb fst (best_per_var sc nvars))).

Section Scorer.
(** [literal_rayleigh_proxy_scores(clauses, nvars)] with [sc.get(l, 0.0)]
    applied: the score of each literal. *)
Variable literal_rayleigh_proxy_scores : list (list Z) -> Z -> outcome (Z -> float).

Definition pick_units_rayleigh (file : str) (k : Z) : outcome (list Z) :=
  letM c := read_dimacs file in
  letM sc := literal_rayleigh_proxy_scores (Dimacs.clauses c) (Dimacs.nvars c) in
  Return (chosen sc (Dimacs.nvars c) k).

End Scorer.

End V4Numpy.

(** * Notions used in the statements *)

(** A string with no white space in it. *)
Definition nospace (t : str) : bool := forallb (fun c => negb (is_space c)) t.

(** A non-empty string that neither starts nor ends with white space. *)
Definition trimmed (t : str) : bool :=
  match t with
  | [] => false
  | c :: _ => negb (is_space c) && negb (is_space (List.last t c))
  end.

(** A token: not empty, no white space. *)
Definition token (w : str) : bool :=
  match w with [] => false | _ :: _ => nospace w end.

(** A string that fits on one line of a text file. *)
Definition one_line (t : str) : bool :=
  forallb (fun c => negb (ch_eqb c LF) && negb (ch_eqb c CR)) t.

(** A line of a text file: its characters and the line feed. *)
Definition with_lf (b : str) : str := b ++ [LF].

(** A comment as [read_dimacs] keeps it: one trimmed line that starts with
    the comment marker. *)
Definition wf_comment (c : str) : bool :=
  startswith c (lit "c") && trimmed c && one_line c.

(** A CNF value that [read_dimacs] can return: a positive variable count
    and well-formed comments; the clauses are any lists of ints. *)
Definition wf_cnf (c : Dimacs.cnf) : bool :=
  (0 <? Dimacs.nvars c) && forallb wf_comment (Dimacs.comments c).

(** The clause count that the header of a text declares, as
    [apply_units.py] reads it. *)
Definition declared_header (file : str) : outcome (option (Z * Z)) :=
  foldM ApplyUnits.scan_line (readlines file) None.

(** The header line of [write_dimacs] without its line feed. *)
Definition header_body (nv nc : Z) : str :=
  lit "p cnf " ++ str_of_Z nv ++ lit " " ++ str_of_Z nc.

(** A clause line of [write_dimacs] without its line feed. *)
Definition clause_body (cl : list Z) : str :=
  match cl with
  | [] => lit "0"
  | _ :: _ => join [SP] (map str_of_Z cl ++ [lit "0"])
  end.

(** A line of a DIMACS text that is not a header: it fits on one line and
    does not start with the letter p. *)
Definition plain_line (b : str) : bool :=
  one_line b && negb (startswith (strip b) (lit "p")).

(** A text whose lines all end with a line feed and that holds one header
    line, written the usual way. *)
Definition canonical_file (pre : list str) (nv nc : Z) (post : list str) : str :=
  concat (map with_lf (pre ++ header_body nv nc :: post)).

(** The CNF value that appending the unit clauses of [L] to [c] gives. *)
Definition add_units (c : Dimacs.cnf) (L : list Z) : Dimacs.cnf :=
  Dimacs.Cnf (Dimacs.nvars c) (Dimacs.clauses c ++ Dimacs.unit_clauses L) (Dimacs.comments c).

(** A clause line whose ints are the terminator alone: no literal is left
    once the trailing zero is dropped. *)
Definition zero_literal_line (raw : str) : Prop :=
  mapM py_int (split (strip raw)) = Return [0].

(** The first token of the line is the terminator as the v0b picker tests
    for it: the string [0]. *)
Definition starts_with_zero (raw : str) : bool :=
  match split (strip raw) with
  | tok :: _ => str_eqb tok (lit "0")
  | [] => false
  end.

(** Some line of a report, stripped, passes the test. *)
Definition has_line (test : str -> bool) (lines : list str) : bool :=
  existsb (fun l => test (strip l)) lines.

(** The lines of a report that a runner reads from the log file, and of one
    that it gets as the output of the solver. *)
Definition log_lines (log : str) : list str := readlines log.
Definition output_lines (out : str) : list str := splitlines out.


Definition conflicts_line (s : str) : bool := startswith s (lit "c conflicts").
Definition cpu_line (s : str) : bool := startswith s (lit "c CPU time").
Definition conflicts_line_nocase (s : str) : bool := startswith (lower s) (lit "c conflicts").
Definition cpu_line_nocase (s : str) : bool := startswith (lower s) (lit "c cpu time").







(** The digit characters with which the text after the first colon of a
    line starts, white space apart. *)
Definition conflicts_field (s : str) : str :=
  match split_on ":"%char s with
  | _ :: rhs :: _ => leading_digits (strip rhs)
  | _ => []
  end.

(** On every conflicts line of the output these characters are decimal
    digits; on every conflicts line there is none of them. *)
Definition decimal_counts (lines : list str) : bool :=
  forallb (fun l => negb (conflicts_line (strip l))
                    || forallb is_digit (conflicts_field (strip l))) lines.



(** [x] stands before [y] in the list. *)
Definition before {A : Type} (x y : A) (l : list A) : Prop :=
  exists l1 l2 l3, l = l1 ++ x :: l2 ++ y :: l3.

(** The literal that the v4 selector proposes for a variable. *)
Definition v4_literal (scores : Z -> float * Z) (v : Z) : Z := snd (scores v) * v.

(** The literals of the ranked variables that the avoid set lets through. *)
Definition v4_candidates (scores : Z -> float * Z) (order : list Z) (avoid : gset Z) : list Z :=
  List.filter (fun l => negb (bool_decide (l ∈ avoid ∨ (- l) ∈ avoid)))
              (map (v4_literal scores) order).

(** A float that is a zero or not a number: [s == 0.0 or s != s]. *)
Definition zero_or_nan (s : float) : bool := (s =? 0)%float || negb (s =? s)%float.

(** A polarity is 1 or -1. *)
Definition signs (scores : Z -> float * Z) : Prop :=
  forall v, snd (scores v) = 1 \/ snd (scores v) = -1.

(** Scores for the examples: variable 1 scores 1.0, the others 0.5, all
    with positive polarity. *)
Definition example_scores (v : Z) : float * Z :=
  (if v =? 1 then 1%float else 0.5%float, 1).

(** A generator for the examples: [randint(a, b)] gives [a], the bits
    alternate from the parity of the state. *)
Definition first_randint (g : Z) (a b : Z) : Z * Z := (a, g).
Definition alternating_bit (g : Z) : Z * Z := (g mod 2, g + 1).


(** ** Invariants of the runs *)

(** The avoid set holds both polarities of every literal committed so
    far, and no variable is committed twice. *)
Definition forcewalk_inv (avoid : gset Z) (rows : list Forcewalk.frow) : Prop :=
  List.NoDup (map Z.abs (concat (selections rows))) /\
  forall l, In l (concat (selections rows)) -> l ∈ avoid /\ (- l) ∈ avoid.

(** The set [used] holds every literal committed so far, and no literal is
    committed twice. *)
Definition random_inv (used : gset Z) (rows : list RandomV1.rrow) : Prop :=
  List.NoDup (concat (selections rows)) /\
  forall l, In l (concat (selections rows)) -> l ∈ used.

(** ** Occurrence of a variable *)

(** Variable [v] occurs in a clause of [cls], in either polarity. *)
Definition occurs (v : Z) (cls : list (list Z)) : bool :=
  existsb (fun cl => existsb (fun l => Z.abs l =? v) cl) cls.

(** A literal of [lits] indexes entry [i] of [var_to_clauses]. *)
Definition mentions (i : nat) (lits : list Z) : bool :=
  existsb (fun l => (Z.to_nat (Z.abs l) =? i)%nat) lits.

(** ** Notions of the further properties *)

(** A line that [apply_units.py] takes for a header. *)
Definition header_start (line : str) : bool := startswith (strip line) (lit "p ").

(** The rows of a run carry the numbers [i], [i + 1], ... *)
Fixpoint numbered_from {S C T : Type} (i : Z) (rows : list (row S C T)) : bool :=
  match rows with
  | [] => true
  | r :: rest => (row_iter r =? i) && numbered_from (i + 1) rest
  end.

(** The column [k_added_total] counts the literals committed so far, [acc]
    being the count before the first row. *)
Fixpoint counted_from {S C T : Type} (acc : Z) (rows : list (row S C T)) : bool :=
  match rows with
  | [] => true
  | r :: rest =>
      (row_k_added_total r =? acc + Z.of_nat (length (row_new_units r)))
      && counted_from (row_k_added_total r) rest
  end.

(** All rows but the last pass the test. *)
Fixpoint all_but_last {A : Type} (test : A -> bool) (l : list A) : bool :=
  match l with
  | [] => true
  | x :: rest =>
      match rest with
      | [] => true
      | _ :: _ => test x && all_but_last test rest
      end
  end.

(** A sampler for the examples: the first three variables, whatever the
    state. *)
Definition first_three (g : Z) (N : Z) : list Z * Z := ([1; 2; 3], g).

(** The table of a run: rows numbered from 0, a first row without
    literals, no row after one that passes the stop test, at most
    [max_rounds] rounds after the first row. *)
Definition run_table {S C T : Type} (stop : row S C T -> bool) (max_rounds : nat)
    (rows : list (row S C T)) : Prop :=
  numbered_from 0 rows = true /\
  hd_error (selections rows) = Some [] /\
  all_but_last (fun r => negb (stop r)) rows = true /\
  (1 <= length rows <= 1 + max_rounds)%nat.

(** The column [k_added_total] of the rounds grows by [step] up to
    [total], [acc] being its value before the first of the rows. *)
Fixpoint stepped_from {S C T : Type} (step total acc : Z) (rows : list (row S C T)) : bool :=
  match rows with
  | [] => true
  | r :: rest =>
      (row_k_added_total r =? Z.min (acc + step) total)
      && stepped_from step total (row_k_added_total r) rest
  end.

(** The last value of the column [k_added_total], [acc] when there is no
    row. *)
Definition last_total {S C T : Type} (acc : Z) (rows : list (row S C T)) : Z :=
  List.last (map row_k_added_total rows) acc.

(** The rounds of the two v4 runners without numpy, which differ in the
    stop test only. *)
Fixpoint v4_rounds (pow_half : float -> float) (py_float : str -> option float)
    (solver : Z -> str -> str)
    (stop : Forcewalk.frow -> bool) (its : list Z) (k_per_iter : Z) (curr : str)
    (avoid : gset Z) (k_total : Z) (rows : list Forcewalk.frow)
  : list Forcewalk.frow * option failure :=
  match its with
  | [] => (rows, None)
  | it :: its' =>
      match V4.pick_units_rayleigh pow_half curr k_per_iter 25 avoid with
      | Fail e => (rows, Some e)
      | Return new_units =>
          if Z.of_nat (length new_units) <? k_per_iter then (rows, None)
          else
            let avoid := Forcewalk.add_avoid avoid new_units in
            let k_total := k_total + Z.of_nat (length new_units) in
            match Dimacs.add_unit_clauses curr new_units with
            | Fail e => (rows, Some e)
            | Return cnf_out =>
                let r := Forcewalk.solve_row py_float solver it k_total new_units cnf_out in
                if stop r then (rows ++ [r], None)
                else v4_rounds pow_half py_float solver stop its' k_per_iter cnf_out avoid k_total
                       (rows ++ [r])
            end
      end
  end.

(** The CNF text of every row reads as [c] with one unit clause for each
    literal committed up to that row, in the order of commitment. *)
Definition cnf_column {S C T : Type} (c : Dimacs.cnf) (rows : list (row S C T)) : Prop :=
  forall pre r post,
    rows = pre ++ r :: post ->
    Dimacs.read_dimacs (row_cnf r)
    = Return (add_units c (concat (selections (pre ++ [r])))).

(** The rounds of the two runners that add [k_step] literals a round up
    to [k_total], which differ in the picker and in the state [St] it
    carries from round to round. *)
Fixpoint k_rounds {St : Type} (pick : St -> str -> Z -> outcome (list Z * St))
    (py_float : str -> option float) (solver : Z -> str -> str)
    (fuel : nat) (k_total k_step : Z) (it : Z) (curr : str) (st : St)
    (k_added : Z) (rows : list V1Run.vrow) : list V1Run.vrow * option failure :=
  match fuel with
  | O => (rows, None)
  | S fuel' =>
      if k_added <? k_total then
        let it := it + 1 in
        let remaining := k_total - k_added in
        let this_k := if k_step <=? remaining then k_step else remaining in
        match pick st curr this_k with
        | Fail e => (rows, Some e)
        | Return (new_lits, st') =>
            match V1.apply_new_units curr new_lits with
            | Fail e => (rows, Some e)
            | Return next =>
                let k_added := k_added + this_k in
                match V1Run.solve_row py_float solver it k_added new_lits next with
                | Fail e => (rows, Some e)
                | Return r =>
                    if V1Run.collapsed r then (rows ++ [r], None)
                    else k_rounds pick py_float solver fuel' k_total k_step it next st' k_added
                           (rows ++ [r])
                end
            end
        end
      else (rows, None)
  end.

(** The picker of the random control as a step on the pair of its set and
    its generator. *)
Definition random_pick {G : Type} (randint : G -> Z -> Z -> Z * G) (getrandbits1 : G -> Z * G)
    (st : gset Z * G) (curr : str) (k : Z) : outcome (list Z * (gset Z * G)) :=
  match RandomV1.pick_random_literals randint getrandbits1 curr k (fst st) (snd st) with
  | Return (lits, used', g') => Return (lits, (used', g'))
  | Fail e => Fail e
  end.

(** The picker of the v1 controller, which carries no state. *)
Definition v1_pick (st : unit) (curr : str) (k : Z) : outcome (list Z * unit) :=
  match V1.pick_literals curr k with
  | Return lits => Return (lits, tt)
  | Fail e => Fail e
  end.

(** Each round's literals pass [Q] with the number the round asked for,
    which is the growth of the column [k_added_total]. *)
Fixpoint picked_ok {S C T : Type} (Q : Z -> list Z -> Prop) (acc : Z)
    (rows : list (row S C T)) : Prop :=
  match rows with
  | [] => True
  | r :: rest =>
      Q (row_k_added_total r - acc) (row_new_units r)
      /\ picked_ok Q (row_k_added_total r) rest
  end.

(** The table of a run that adds [k_step] literals a round up to
    [k_total]: rows numbered from 0; a first row without literals and with
    a zero count; a column [k_added_total] that grows by [k_step] up to
    [k_total]; no round after one that passes the stop test; at most
    [k_total] rounds. *)
Definition stepping_table {S C T : Type} (stop : row S C T -> bool) (k_total k_step : Z)
    (rows : list (row S C T)) : Prop :=
  numbered_from 0 rows = true /\
  hd_error (selections rows) = Some [] /\
  hd_error (map row_k_added_total rows) = Some 0 /\
  stepped_from k_step k_total 0 (tl rows) = true /\
  all_but_last (fun r => negb (stop r)) (tl rows) = true /\
  (1 <= length rows <= 1 + Z.to_nat k_total)%nat.

(** The occurrences of variable [v] among the literals, with a positive
    sign and with another one. *)
Definition count_pos (v : Z) (lits : list Z) : Z :=
  Z.of_nat (length (List.filter (fun l => (0 <? l) && (Z.abs l =? v)) lits)).
Definition count_neg (v : Z) (lits : list Z) : Z :=
  Z.of_nat (length (List.filter (fun l => negb (0 <? l) && (Z.abs l =? v)) lits)).

(** The counts of the v0b picker as the frequency picker holds them. *)
Definition freq_view (st : V0b.parsed) : Freq.counts :=
  Freq.Counts (V0b.num_vars st) (V0b.pos st) (V0b.neg st).

(** No element of the list is smaller than one that stands before it. *)
Fixpoint sorted_by {A : Type} (lt : A -> A -> bool) (l : list A) : bool :=
  match l with
  | [] => true
  | x :: l' => forallb (fun y => negb (lt y x)) l' && sorted_by lt l'
  end.

(** The order in which the frequency picker sorts its pairs
    [(total, var)]. *)
Definition freq_lt (a b : Z * Z) : bool :=
  Freq.key_lt (- fst a, snd a) (- fst b, snd b).

(** * Properties *)

(** ** Checks of the model on concrete inputs *)

Example split_ex : split (lit " 1  -2 0 ") = [lit "1"; lit "-2"; lit "0"].
Proof. reflexivity. Qed.

Example int_ex : map int_of_str [lit "-12"; lit "+7"; lit "1_0"; lit "1__0"; lit "x"; lit " 007 "; lit "- 1"]
  = [Some (-12); Some 7; Some 10; None; None; Some 7; None].
Proof. reflexivity. Qed.

Example lines_ex : readlines (lit "ab" ++ [CR; LF] ++ lit "cd" ++ [CR] ++ lit "e")
  = [lit "ab" ++ [LF]; lit "cd" ++ [LF]; lit "e"].
Proof. reflexivity. Qed.

Example splitlines_ex : splitlines (lit "a" ++ [LF] ++ lit "b" ++ [CR; LF] ++ [LF] ++ lit "c" ++ [LF])
  = [lit "a"; lit "b"; []; lit "c"].
Proof. reflexivity. Qed.

Example str_of_Z_ex : map str_of_Z [0; 12; -305] = [lit "0"; lit "12"; lit "-305"].
Proof. reflexivity. Qed.

Example read_ex :
  Dimacs.read_dimacs (text ["c demo"; "p cnf 3 2"; "1 -2 0"; "0"; "2 3 0"])
  = Return (Dimacs.Cnf 3 [[1; -2]; []; [2; 3]] [lit "c demo"]).
Proof. reflexivity. Qed.

Example write_ex :
  Dimacs.write_dimacs 3 [[1; -2]; []; [2; 3]] [lit "c demo"]
  = text ["c demo"; "p cnf 3 3"; "1 -2 0"; "0"; "2 3 0"].
Proof. reflexivity. Qed.

(** The scenario of the specification: literals 1 and -3 applied to
    [p cnf 3 2 / 1 -2 0 / 2 3 0]. *)
Example apply_units_scenario :
  ApplyUnits.main (text ["p cnf 3 2"; "1 -2 0"; "2 3 0"]) [lit "1"; lit "-3"]
  = Return (text ["p cnf 3 4"; "1 -2 0"; "2 3 0"; "1 0"; "-3 0"]).
Proof. reflexivity. Qed.

Example add_unit_clauses_scenario :
  Dimacs.add_unit_clauses (text ["p cnf 3 2"; "1 -2 0"; "2 3 0"]) [1; -3]
  = Return (text ["p cnf 3 4"; "1 -2 0"; "2 3 0"; "1 0"; "-3 0"]).
Proof. reflexivity. Qed.

Example v0b_ex :
  V0b.main (text ["p cnf 4 3"; "1 2 0"; "-1 3 0"; "1 4 0"]) [lit "2"]
  = Return (lit "1 2" ++ [LF]).
Proof. vm_compute. reflexivity. Qed.

(** The scenario of the specification: variable 1 occurs three times. *)
Example freq_scenario :
  Freq.main (text ["p cnf 4 3"; "1 2 0"; "-1 3 0"; "1 4 0"]) [lit "1"]
  = Return (lit "1" ++ [LF]).
Proof. vm_compute. reflexivity. Qed.

Example v4_pick_ex :
  V4.pick_units_rayleigh PrimFloat.sqrt (text ["p cnf 4 3"; "1 2 0"; "-1 3 0"; "1 4 0"]) 2 25 ∅
  = Return [1; 2].
Proof. vm_compute. reflexivity. Qed.

Example v4_pick_avoid_ex :
  V4.pick_units_rayleigh PrimFloat.sqrt (text ["p cnf 4 3"; "1 2 0"; "-1 3 0"; "1 4 0"]) 2 25 {[ 1; -1 ]}
  = Return [2; 3].
Proof. vm_compute. reflexivity. Qed.

(** ** Characters and strings *)

Lemma ch_eqb_eq (a b : ascii) : ch_eqb a b = true <-> a = b.
Proof. apply Ascii.eqb_eq. Qed.

Lemma ch_eqb_refl (a : ascii) : ch_eqb a a = true.
Proof. apply Ascii.eqb_refl. Qed.

Lemma ch_eqb_neq (a b : ascii) : ch_eqb a b = false <-> a <> b.
Proof. apply Ascii.eqb_neq. Qed.

Lemma str_eqb_eq (a b : str) : str_eqb a b = true <-> a = b.
Proof.
  revert b; induction a as [|x a IH]; intros [|y b]; simpl; split; try easy.
  - intros H. apply andb_true_iff in H as [H1 H2].
    apply ch_eqb_eq in H1. apply IH in H2. congruence.
  - intros H. injection H as -> ->. rewrite ch_eqb_refl. simpl. now apply IH.
Qed.

Lemma str_eqb_refl (a : str) : str_eqb a a = true.
Proof. now apply str_eqb_eq. Qed.

Lemma is_digit_not_space (c : ascii) : is_digit c = true -> is_space c = false.
Proof.
  unfold is_digit, is_space. intros H.
  apply andb_true_iff in H as [H1 H2].
  apply N.leb_le in H1. apply N.leb_le in H2.
  repeat (apply orb_false_iff; split).
  - apply andb_false_iff. right. apply N.leb_gt. lia.
  - apply andb_false_iff. right. apply N.leb_gt. lia.
  - apply N.eqb_neq. lia.
  - apply N.eqb_neq. lia.
Qed.

Lemma lstrip_head (c : ascii) (t : str) : is_space c = false -> lstrip (c :: t) = c :: t.
Proof. intros H. simpl. now rewrite H. Qed.

Lemma rstrip_snoc_space (t : str) (c : ascii) :
  is_space c = true -> rstrip (t ++ [c]) = rstrip t.
Proof.
  intros H. induction t as [|a t IH]; simpl.
  - now rewrite H.
  - now rewrite IH.
Qed.

Lemma rstrip_snoc (t : str) (c : ascii) :
  is_space c = false -> rstrip (t ++ [c]) = t ++ [c].
Proof.
  intros H. induction t as [|a t IH]; simpl.
  - now rewrite H.
  - rewrite IH. destruct t; reflexivity.
Qed.

Lemma trimmed_inv (t : str) :
  trimmed t = true ->
  exists a u, t = a :: u /\ is_space a = false /\
              exists v b, t = v ++ [b] /\ is_space b = false.
Proof.
  destruct t as [|a u]; [discriminate|]. unfold trimmed.
  intros H. apply andb_true_iff in H as [H1 H2].
  apply negb_true_iff in H1. apply negb_true_iff in H2.
  exists a, u. repeat split; auto.
  destruct (exists_last (l := a :: u)) as (v & b & E); [discriminate|].
  exists v, b. split; auto.
  rewrite E in H2. now rewrite last_last in H2.
Qed.

Lemma trimmed_intro (a b : ascii) (u v : str) :
  a :: u = v ++ [b] -> is_space a = false -> is_space b = false -> trimmed (a :: u) = true.
Proof.
  intros E Ha Hb. unfold trimmed. rewrite Ha. rewrite E, last_last, Hb. reflexivity.
Qed.

Lemma strip_trimmed (t : str) : trimmed t = true -> strip t = t.
Proof.
  intros H. destruct (trimmed_inv t H) as (a & u & E & Ha & v & b & E' & Hb).
  unfold strip. rewrite E, (lstrip_head _ _ Ha), <- E, E'. now apply rstrip_snoc.
Qed.

(** A line as a text file holds it: the line break is white space for
    [strip]. *)
Lemma strip_line (t : str) : trimmed t = true -> strip (t ++ [LF]) = t.
Proof.
  intros H. destruct (trimmed_inv t H) as (a & u & E & Ha & v & b & E' & Hb).
  unfold strip. rewrite E. simpl. rewrite Ha.
  change (a :: u ++ [LF]) with ((a :: u) ++ [LF]).
  rewrite rstrip_snoc_space by reflexivity.
  rewrite <- E, E'. now apply rstrip_snoc.
Qed.

Lemma lstrip_suffix (t : str) : exists p, t = p ++ lstrip t.
Proof.
  induction t as [|c t [p IH]]; simpl.
  - now exists [].
  - destruct (is_space c).
    + exists (c :: p). simpl. now f_equal.
    + now exists [].
Qed.

Lemma rstrip_prefix (t : str) : exists s, t = rstrip t ++ s.
Proof.
  induction t as [|c t [s IH]]; simpl.
  - now exists [].
  - destruct (rstrip t) as [|r rs] eqn:E.
    + destruct (is_space c).
      * exists (c :: t). reflexivity.
      * exists t. reflexivity.
    + exists s. simpl. f_equal. exact IH.
Qed.

Lemma strip_In (t : str) (c : ascii) : In c (strip t) -> In c t.
Proof.
  unfold strip. intros H.
  destruct (rstrip_prefix (lstrip t)) as [s Es].
  destruct (lstrip_suffix t) as [p Ep].
  rewrite Ep, Es. apply in_or_app. right. apply in_or_app. now left.
Qed.

Lemma lstrip_hd (t : str) (c : ascii) (u : str) : lstrip t = c :: u -> is_space c = false.
Proof.
  induction t as [|a t IH]; simpl; [discriminate|].
  destruct (is_space a) eqn:E; auto.
  intros H. injection H as -> _. exact E.
Qed.

Lemma rstrip_hd (a : ascii) (t : str) :
  is_space a = false -> exists r, rstrip (a :: t) = a :: r.
Proof.
  intros H. simpl. destruct (rstrip t); rewrite ?H; eauto.
Qed.

Lemma rstrip_last (t : str) (v : str) (b : ascii) :
  rstrip t = v ++ [b] -> is_space b = false.
Proof.
  revert v; induction t as [|a t IH]; simpl; intros v.
  - destruct v; discriminate.
  - destruct (rstrip t) as [|r rs] eqn:E.
    + destruct (is_space a) eqn:Ea.
      * destruct v; discriminate.
      * intros H. destruct v as [|x v]; simpl in H.
        -- now injection H as <-.
        -- injection H as _ H. destruct v; discriminate.
    + intros H. destruct v as [|x v]; simpl in H.
      * discriminate.
      * injection H as _ H. now apply (IH v).
Qed.

(** What [strip] returns is empty or trimmed. *)
Lemma strip_cases (t : str) : strip t = [] \/ trimmed (strip t) = true.
Proof.
  unfold strip. destruct (lstrip t) as [|a u] eqn:E.
  - now left.
  - right. pose proof (lstrip_hd _ _ _ E) as Ha.
    destruct (rstrip_hd a u Ha) as [r Er]. rewrite Er.
    destruct (exists_last (l := a :: r)) as (v & b & Ev); [discriminate|].
    eapply trimmed_intro; eauto.
    rewrite <- Er in Ev. now apply rstrip_last in Ev.
Qed.

Lemma split_cons (c : ascii) (t : str) :
  split (c :: t) =
  if is_space c then split t
  else match t with
       | [] => [[c]]
       | d :: _ =>
           if is_space d then [c] :: split t
           else match split t with
                | w :: ws => (c :: w) :: ws
                | [] => [[c]]
                end
       end.
Proof. reflexivity. Qed.

Lemma split_token_then_space (w : str) (c : ascii) (rest : str) :
  token w = true -> is_space c = true -> split (w ++ c :: rest) = w :: split rest.
Proof.
  intros Hw Hc. induction w as [|a w IH]; [discriminate|].
  simpl in Hw. apply andb_true_iff in Hw as [Ha Hw]. apply negb_true_iff in Ha.
  destruct w as [|b w].
  - cbn [app]. rewrite split_cons, Ha, Hc. now rewrite (split_cons c), Hc.
  - assert (Hb : is_space b = false).
    { simpl in Hw. apply andb_true_iff in Hw as [Hb _]. now apply negb_true_iff in Hb. }
    specialize (IH Hw).
    change ((a :: b :: w) ++ c :: rest) with (a :: (b :: w) ++ c :: rest).
    rewrite split_cons, Ha. cbn [app]. rewrite Hb.
    change (b :: w ++ c :: rest) with ((b :: w) ++ c :: rest).
    now rewrite IH.
Qed.

Lemma split_token (w : str) : token w = true -> split w = [w].
Proof.
  intros Hw. induction w as [|a w IH]; [discriminate|].
  simpl in Hw. apply andb_true_iff in Hw as [Ha Hw]. apply negb_true_iff in Ha.
  destruct w as [|b w].
  - simpl. now rewrite Ha.
  - assert (Hb : is_space b = false).
    { simpl in Hw. apply andb_true_iff in Hw as [Hb _]. now apply negb_true_iff in Hb. }
    specialize (IH Hw). rewrite split_cons, Ha, Hb, IH. reflexivity.
Qed.

Lemma split_join (ws : list str) :
  forallb token ws = true -> split (join [SP] ws) = ws.
Proof.
  induction ws as [|w ws IH]; [reflexivity|].
  intros H. simpl in H. apply andb_true_iff in H as [Hw Hws].
  destruct ws as [|w' ws].
  - simpl. now apply split_token.
  - change (join [SP] (w :: w' :: ws)) with (w ++ SP :: join [SP] (w' :: ws)).
    rewrite split_token_then_space by auto. now rewrite IH.
Qed.

Lemma join_snoc (sep : str) (ws : list str) (w : str) :
  ws <> [] -> join sep (ws ++ [w]) = join sep ws ++ sep ++ w.
Proof.
  induction ws as [|a ws IH]; [congruence|]. intros _.
  destruct ws as [|b ws].
  - reflexivity.
  - change (join sep ((a :: b :: ws) ++ [w])) with (a ++ sep ++ join sep ((b :: ws) ++ [w])).
    rewrite IH by discriminate.
    change (join sep (a :: b :: ws)) with (a ++ sep ++ join sep (b :: ws)).
    now rewrite <- !app_assoc.
Qed.

(** What [split] returns are tokens. *)
Lemma split_tokens (t : str) : forallb token (split t) = true.
Proof.
  induction t as [|c t IH]; [reflexivity|].
  cbn [split]. destruct (is_space c) eqn:Hc; [exact IH|].
  destruct t as [|d t].
  - simpl. now rewrite Hc.
  - destruct (is_space d) eqn:Hd.
    + cbn [forallb]. rewrite IH. simpl. now rewrite Hc.
    + destruct (split (d :: t)) as [|w ws].
      * simpl. now rewrite Hc.
      * cbn [forallb] in *. apply andb_true_iff in IH as [Hw Hws].
        rewrite Hws. destruct w; [discriminate|].
        simpl in *. now rewrite Hc, Hw.
Qed.

Lemma token_trimmed (w : str) : token w = true -> trimmed w = true.
Proof.
  destruct w as [|a w]; [discriminate|]. intros H. unfold token in H.
  destruct (exists_last (l := a :: w)) as (v & b & E); [discriminate|].
  assert (Hall : forall c, In c (a :: w) -> is_space c = false).
  { intros c Hc. unfold nospace in H. rewrite forallb_forall in H.
    apply negb_true_iff. now apply H. }
  eapply trimmed_intro; eauto.
  - apply Hall. now left.
  - apply Hall. rewrite E. apply in_or_app. right. now left.
Qed.

(** *** Decimal integers *)

Lemma str_of_uint_digits (d : Decimal.uint) : forallb is_digit (str_of_uint d) = true.
Proof. induction d; simpl; auto. Qed.

Lemma str_of_uint_nonnil (d : Decimal.uint) : d <> Decimal.Nil -> str_of_uint d <> [].
Proof. destruct d; simpl; congruence. Qed.

Lemma digits_nospace (t : str) : forallb is_digit t = true -> nospace t = true.
Proof.
  unfold nospace. rewrite !forallb_forall. intros H c Hc.
  apply negb_true_iff, is_digit_not_space. now apply H.
Qed.

Lemma to_int_cases (z : Z) :
  exists d, d <> Decimal.Nil /\
    (Z.to_int z = Decimal.Pos d \/ Z.to_int z = Decimal.Neg d).
Proof.
  destruct z as [|p|p]; simpl.
  - exists (Decimal.D0 Decimal.Nil). split; [discriminate|now left].
  - exists (Pos.to_uint p). split; [apply Unsigned.to_uint_nonnil|now left].
  - exists (Pos.to_uint p). split; [apply Unsigned.to_uint_nonnil|now right].
Qed.

Lemma str_of_Z_token (z : Z) : token (str_of_Z z) = true.
Proof.
  unfold str_of_Z. destruct (to_int_cases z) as (d & Hd & [E|E]); rewrite E.
  - pose proof (str_of_uint_nonnil d Hd). pose proof (str_of_uint_digits d).
    destruct (str_of_uint d) eqn:Es; [congruence|].
    unfold token. now apply digits_nospace.
  - unfold token. simpl. apply digits_nospace, str_of_uint_digits.
Qed.

Lemma str_of_Z_trimmed (z : Z) : trimmed (str_of_Z z) = true.
Proof. apply token_trimmed, str_of_Z_token. Qed.

(** The first character of [str(z)] is a digit or the minus sign. *)
Lemma str_of_Z_head (z : Z) :
  exists c t, str_of_Z z = c :: t /\ (is_digit c = true \/ c = "-"%char).
Proof.
  unfold str_of_Z. destruct (to_int_cases z) as (d & Hd & [E|E]); rewrite E.
  - pose proof (str_of_uint_nonnil d Hd). pose proof (str_of_uint_digits d) as Hg.
    destruct (str_of_uint d) as [|c t]; [congruence|].
    exists c, t. split; auto. left. simpl in Hg. now apply andb_true_iff in Hg as [? _].
  - eexists _, _. split; [reflexivity|now right].
Qed.

Lemma str_of_Z_last (z : Z) :
  exists v b, str_of_Z z = v ++ [b] /\ is_digit b = true.
Proof.
  unfold str_of_Z. destruct (to_int_cases z) as (d & Hd & [E|E]); rewrite E;
    pose proof (str_of_uint_nonnil d Hd) as Hn;
    pose proof (str_of_uint_digits d) as Hg;
    destruct (exists_last Hn) as (v & b & Ev); rewrite Ev in *;
    rewrite forallb_app in Hg; apply andb_true_iff in Hg as [_ Hb];
    simpl in Hb; rewrite andb_true_r in Hb.
  - now exists v, b.
  - exists ("-"%char :: v), b. now split.
Qed.

Lemma str_of_Z_one_line (z : Z) : one_line (str_of_Z z) = true.
Proof.
  assert (Hd : forall t, forallb is_digit t = true -> one_line t = true).
  { intros t. unfold one_line. rewrite !forallb_forall. intros H c Hc.
    specialize (H c Hc). destruct (ch_eqb c LF) eqn:E1.
    - apply ch_eqb_eq in E1. subst. discriminate.
    - destruct (ch_eqb c CR) eqn:E2; [|reflexivity].
      apply ch_eqb_eq in E2. subst. discriminate. }
  unfold str_of_Z. destruct (Z.to_int z); [|simpl]; apply Hd, str_of_uint_digits.
Qed.

Lemma int_digits_of_uint_pos (d : Decimal.uint) (a : positive) :
  int_digits (Z.pos a) (str_of_uint d) = Some (Z.pos (Pos.of_uint_acc d a)).
Proof.
  revert a; induction d; intros a; cbn [str_of_uint int_digits Pos.of_uint_acc];
    try reflexivity;
    match goal with
    | |- context [ch_eqb ?c "_"%char] =>
        change (ch_eqb c "_"%char) with false; cbv iota;
        let v := eval vm_compute in (digit_val c) in
        change (digit_val c) with v; cbv iota
    end;
    rewrite <- IHd; f_equal; lia.
Qed.

Lemma int_digits_of_uint (d : Decimal.uint) :
  int_digits 0 (str_of_uint d) = Some (Z.of_N (Pos.of_uint d)).
Proof.
  induction d; cbn [str_of_uint int_digits Pos.of_uint];
    try reflexivity;
    match goal with
    | |- context [ch_eqb ?c "_"%char] =>
        change (ch_eqb c "_"%char) with false; cbv iota;
        let v := eval vm_compute in (digit_val c) in
        change (digit_val c) with v; cbv iota
    end;
    try exact IHd;
    cbn [Z.of_N]; rewrite <- int_digits_of_uint_pos; reflexivity.
Qed.

Lemma int_unsigned_of_uint (d : Decimal.uint) :
  d <> Decimal.Nil -> int_unsigned (str_of_uint d) = Some (Z.of_N (Pos.of_uint d)).
Proof.
  intros Hd. unfold int_unsigned.
  pose proof (str_of_uint_nonnil d Hd) as Hn.
  pose proof (str_of_uint_digits d) as Hg.
  rewrite <- int_digits_of_uint.
  destruct (str_of_uint d) as [|c t]; [congruence|].
  simpl in Hg. apply andb_true_iff in Hg as [Hc _]. now rewrite Hc.
Qed.

Lemma int_of_token_str_of_Z (z : Z) : int_of_token (str_of_Z z) = Some z.
Proof.
  unfold str_of_Z. destruct z as [|p|p]; [reflexivity| |].
  - cbn [Z.to_int]. pose proof (Unsigned.to_uint_nonnil p) as Hn.
    pose proof (int_unsigned_of_uint _ Hn) as H.
    rewrite Unsigned.of_to in H. cbn [Z.of_N] in H.
    pose proof (str_of_uint_nonnil _ Hn) as Hs.
    pose proof (str_of_uint_digits (Pos.to_uint p)) as Hg.
    destruct (str_of_uint (Pos.to_uint p)) as [|c t] eqn:E; [congruence|].
    simpl in Hg. apply andb_true_iff in Hg as [Hc _].
    unfold int_of_token.
    assert (E1 : ch_eqb c "-"%char = false).
    { apply ch_eqb_neq. intros ->. discriminate. }
    assert (E2 : ch_eqb c "+"%char = false).
    { apply ch_eqb_neq. intros ->. discriminate. }
    now rewrite E1, E2.
  - cbn [Z.to_int]. pose proof (Unsigned.to_uint_nonnil p) as Hn.
    pose proof (int_unsigned_of_uint _ Hn) as H.
    rewrite Unsigned.of_to in H. cbn [Z.of_N] in H.
    unfold int_of_token. change (ch_eqb "-"%char "-"%char) with true. cbv iota.
    now rewrite H.
Qed.

(** [int(str(z)) == z] *)
Lemma int_of_str_of_Z (z : Z) : int_of_str (str_of_Z z) = Some z.
Proof.
  unfold int_of_str. rewrite strip_trimmed by apply str_of_Z_trimmed.
  apply int_of_token_str_of_Z.
Qed.

Lemma py_int_str_of_Z (z : Z) : py_int (str_of_Z z) = Return z.
Proof. unfold py_int. now rewrite int_of_str_of_Z. Qed.

(** *** Lines of a text *)

Lemma one_line_inv (t : str) (c : ascii) :
  one_line t = true -> In c t -> c <> LF /\ c <> CR.
Proof.
  unfold one_line. rewrite forallb_forall. intros H Hc.
  specialize (H c Hc). apply andb_true_iff in H as [H1 H2].
  apply negb_true_iff in H1, H2. now rewrite ch_eqb_neq in H1, H2.
Qed.

Lemma one_line_app (a b : str) : one_line (a ++ b) = one_line a && one_line b.
Proof. apply forallb_app. Qed.

Lemma universal_newlines_id (t : str) :
  (forall c, In c t -> c <> CR) -> universal_newlines t = t.
Proof.
  induction t as [|c t IH]; [reflexivity|]. intros H.
  cbn [universal_newlines].
  assert (E : ch_eqb c CR = false) by (apply ch_eqb_neq, H; now left).
  rewrite E. f_equal. apply IH. intros d Hd. apply H. now right.
Qed.

Lemma lines_keepends_cons (c : ascii) (t : str) :
  lines_keepends (c :: t) =
  if ch_eqb c LF then [c] :: lines_keepends t
  else match lines_keepends t with
       | l :: ls => (c :: l) :: ls
       | [] => [[c]]
       end.
Proof. reflexivity. Qed.

Lemma lines_keepends_line (b rest : str) :
  (forall c, In c b -> c <> LF) ->
  lines_keepends (b ++ LF :: rest) = (b ++ [LF]) :: lines_keepends rest.
Proof.
  induction b as [|c b IH]; intros H.
  - reflexivity.
  - cbn [app]. rewrite lines_keepends_cons.
    assert (E : ch_eqb c LF = false) by (apply ch_eqb_neq, H; now left).
    rewrite E, IH; [reflexivity|]. intros d Hd. apply H. now right.
Qed.

Lemma lines_keepends_concat (bodies : list str) :
  forallb one_line bodies = true ->
  lines_keepends (concat (map with_lf bodies)) = map with_lf bodies.
Proof.
  induction bodies as [|b bs IH]; [reflexivity|]. intros H.
  cbn [forallb] in H. apply andb_true_iff in H as [Hb Hbs].
  cbn [map concat]. unfold with_lf at 1. rewrite <- app_assoc. cbn [app].
  rewrite lines_keepends_line.
  - now rewrite IH.
  - intros c Hc. now apply (one_line_inv b c Hb).
Qed.

Lemma readlines_concat (bodies : list str) :
  forallb one_line bodies = true ->
  readlines (concat (map with_lf bodies)) = map with_lf bodies.
Proof.
  intros H. unfold readlines. rewrite universal_newlines_id.
  - now apply lines_keepends_concat.
  - intros c Hc. apply in_concat in Hc as (l & Hl & Hc).
    apply in_map_iff in Hl as (b & <- & Hb).
    rewrite forallb_forall in H. specialize (H b Hb).
    unfold with_lf in Hc. apply in_app_or in Hc as [Hc|[<-|[]]].
    + now apply (one_line_inv b c H).
    + discriminate.
Qed.

(** *** The monad of outcomes *)

Lemma foldM_app {A S : Type} (f : S -> A -> outcome S) (l1 l2 : list A) (st : S) :
  foldM f (l1 ++ l2) st = bind (foldM f l1 st) (foldM f l2).
Proof.
  revert st; induction l1 as [|x l1 IH]; intros st; [reflexivity|].
  cbn [app foldM]. destruct (f st x); [apply IH|reflexivity].
Qed.

Lemma mapM_Return {A B : Type} (f : A -> outcome B) (g : A -> B) (l : list A) :
  (forall x, In x l -> f x = Return (g x)) -> mapM f l = Return (map g l).
Proof.
  induction l as [|x l IH]; intros H; [reflexivity|].
  cbn [mapM map]. rewrite H by now left. cbn [bind].
  rewrite IH; [reflexivity|]. intros y Hy. apply H. now right.
Qed.

Lemma mapM_py_int_str_of_Z (l : list Z) : mapM py_int (map str_of_Z l) = Return l.
Proof.
  induction l as [|z l IH]; [reflexivity|].
  cbn [map mapM]. rewrite py_int_str_of_Z. cbn [bind]. now rewrite IH.
Qed.

(** ** The codec of the v4 runners *)

Lemma header_line_body (nv nc : Z) : Dimacs.header_line nv nc = with_lf (header_body nv nc).
Proof.
  unfold Dimacs.header_line, header_body, with_lf. now rewrite <- !app_assoc.
Qed.

Lemma clause_line_body (cl : list Z) : Dimacs.clause_line cl = with_lf (clause_body cl).
Proof.
  unfold Dimacs.clause_line, clause_body, with_lf. destruct cl as [|z cl]; [reflexivity|].
  rewrite join_snoc by discriminate. now rewrite <- !app_assoc.
Qed.

Lemma write_dimacs_lines (nv : Z) (cls : list (list Z)) (cms : list str) :
  Dimacs.write_dimacs nv cls cms
  = concat (map with_lf (cms ++ header_body nv (Z.of_nat (length cls)) :: map clause_body cls)).
Proof.
  unfold Dimacs.write_dimacs. rewrite map_app, concat_app. f_equal.
  cbn [map concat]. rewrite header_line_body. f_equal.
  f_equal. rewrite map_map. apply map_ext. intros cl. apply clause_line_body.
Qed.

Lemma lit_one_line_token (w : str) : token w = true -> one_line w = true.
Proof.
  destruct w as [|a w]; [discriminate|]. unfold token, nospace, one_line.
  rewrite !forallb_forall. intros H c Hc. specialize (H c Hc).
  apply negb_true_iff in H.
  destruct (ch_eqb c LF) eqn:E1; [apply ch_eqb_eq in E1; subst; discriminate|].
  destruct (ch_eqb c CR) eqn:E2; [apply ch_eqb_eq in E2; subst; discriminate|].
  reflexivity.
Qed.

Lemma join_one_line (ws : list str) :
  forallb one_line ws = true -> one_line (join [SP] ws) = true.
Proof.
  induction ws as [|w ws IH]; [reflexivity|]. intros H.
  cbn [forallb] in H. apply andb_true_iff in H as [Hw Hws].
  destruct ws as [|w' ws]; [exact Hw|].
  change (join [SP] (w :: w' :: ws)) with (w ++ [SP] ++ join [SP] (w' :: ws)).
  rewrite !one_line_app, Hw, IH by exact Hws. reflexivity.
Qed.

Lemma header_body_one_line (nv nc : Z) : one_line (header_body nv nc) = true.
Proof.
  unfold header_body. rewrite !one_line_app, !str_of_Z_one_line. reflexivity.
Qed.

Lemma clause_tokens (cl : list Z) : forallb token (map str_of_Z cl ++ [lit "0"]) = true.
Proof.
  rewrite forallb_app. apply andb_true_iff. split; [|reflexivity].
  rewrite forallb_forall. intros w Hw. apply in_map_iff in Hw as (z & <- & _).
  apply str_of_Z_token.
Qed.

Lemma clause_body_one_line (cl : list Z) : one_line (clause_body cl) = true.
Proof.
  destruct cl as [|z cl]; [reflexivity|]. unfold clause_body.
  apply join_one_line. pose proof (clause_tokens (z :: cl)) as H.
  rewrite forallb_forall in *. intros w Hw. apply lit_one_line_token. now apply H.
Qed.

Lemma split_header_body (nv nc : Z) :
  split (header_body nv nc) = [lit "p"; lit "cnf"; str_of_Z nv; str_of_Z nc].
Proof.
  unfold header_body.
  change (lit "p cnf " ++ str_of_Z nv ++ lit " " ++ str_of_Z nc)
    with (lit "p" ++ SP :: (lit "cnf" ++ SP :: (str_of_Z nv ++ SP :: str_of_Z nc))).
  rewrite (split_token_then_space (lit "p")) by reflexivity.
  rewrite (split_token_then_space (lit "cnf")) by reflexivity.
  rewrite split_token_then_space by (apply str_of_Z_token || reflexivity).
  rewrite split_token by apply str_of_Z_token. reflexivity.
Qed.

Lemma header_body_trimmed (nv nc : Z) : trimmed (header_body nv nc) = true.
Proof.
  destruct (str_of_Z_last nc) as (v & b & E & Hb).
  unfold header_body. rewrite E.
  eapply (trimmed_intro "p"%char b _ (lit "p cnf " ++ str_of_Z nv ++ lit " " ++ v)).
  - cbn [lit list_ascii_of_string app]. now rewrite <- !app_assoc.
  - reflexivity.
  - now apply is_digit_not_space.
Qed.

Lemma read_line_header (st : Dimacs.cnf) (nv nc : Z) :
  Dimacs.read_line st (Dimacs.header_line nv nc)
  = Return (Dimacs.Cnf nv (Dimacs.clauses st) (Dimacs.comments st)).
Proof.
  rewrite header_line_body. unfold Dimacs.read_line, with_lf.
  rewrite strip_line by apply header_body_trimmed.
  unfold Dimacs.header_nvars. rewrite split_header_body.
  unfold header_body at 1 2 3. cbn [lit list_ascii_of_string app].
  cbn [startswith ch_eqb Ascii.eqb Bool.eqb andb].
  cbn [length Nat.leb nth str_eqb lit list_ascii_of_string ch_eqb Ascii.eqb Bool.eqb andb].
  rewrite py_int_str_of_Z. reflexivity.
Qed.

Lemma read_line_comment (st : Dimacs.cnf) (c : str) :
  wf_comment c = true ->
  Dimacs.read_line st (with_lf c)
  = Return (Dimacs.Cnf (Dimacs.nvars st) (Dimacs.clauses st) (Dimacs.comments st ++ [c])).
Proof.
  unfold wf_comment. intros H.
  apply andb_true_iff in H as [H H3]. apply andb_true_iff in H as [H1 H2].
  unfold Dimacs.read_line, with_lf. rewrite strip_line by exact H2.
  destruct c as [|a c]; [discriminate|]. now rewrite H1.
Qed.

Lemma clause_body_head (z : Z) (cl : list Z) :
  exists c t, clause_body (z :: cl) = c :: t /\ (is_digit c = true \/ c = "-"%char).
Proof.
  destruct (str_of_Z_head z) as (c & t & E & Hc).
  unfold clause_body. cbn [map app].
  destruct (map str_of_Z cl ++ [lit "0"]) as [|w ws] eqn:Ew.
  - destruct (map str_of_Z cl); discriminate.
  - change (join [SP] (str_of_Z z :: w :: ws)) with (str_of_Z z ++ [SP] ++ join [SP] (w :: ws)).
    rewrite E. cbn [app]. eauto.
Qed.

Lemma clause_body_trimmed (cl : list Z) : trimmed (clause_body cl) = true.
Proof.
  destruct cl as [|z cl]; [reflexivity|].
  destruct (clause_body_head z cl) as (c & t & E & Hc).
  rewrite E. eapply (trimmed_intro c "0"%char t).
  - rewrite <- E. unfold clause_body. rewrite join_snoc by discriminate.
    rewrite app_assoc. reflexivity.
  - destruct Hc as [Hc| ->]; [now apply is_digit_not_space|reflexivity].
  - reflexivity.
Qed.

Lemma strip_terminator_snoc (cl : list Z) : Dimacs.strip_terminator (cl ++ [0]) = cl.
Proof.
  unfold Dimacs.strip_terminator. rewrite last_last. cbn [Z.eqb].
  apply removelast_last.
Qed.

Lemma read_line_clause (st : Dimacs.cnf) (cl : list Z) :
  Dimacs.read_line st (Dimacs.clause_line cl)
  = Return (Dimacs.Cnf (Dimacs.nvars st) (Dimacs.clauses st ++ [cl]) (Dimacs.comments st)).
Proof.
  rewrite clause_line_body. unfold Dimacs.read_line, with_lf.
  rewrite strip_line by apply clause_body_trimmed.
  destruct cl as [|z cl]; [reflexivity|].
  destruct (clause_body_head z cl) as (c & t & E & Hc).
  assert (Hsplit : split (clause_body (z :: cl)) = map str_of_Z (z :: cl ++ [0])).
  { unfold clause_body. rewrite split_join by apply clause_tokens.
    change (z :: cl ++ [0]) with ((z :: cl) ++ [0]). now rewrite map_app. }
  rewrite Hsplit, E.
  assert (Hc1 : startswith (c :: t) (lit "c") = false).
  { cbn [lit list_ascii_of_string startswith]. destruct Hc as [Hc| ->]; [|reflexivity].
    replace (ch_eqb "c"%char c) with false; [reflexivity|].
    symmetry. apply ch_eqb_neq. intros <-. discriminate. }
  assert (Hc2 : startswith (c :: t) (lit "p") = false).
  { cbn [lit list_ascii_of_string startswith]. destruct Hc as [Hc| ->]; [|reflexivity].
    replace (ch_eqb "p"%char c) with false; [reflexivity|].
    symmetry. apply ch_eqb_neq. intros <-. discriminate. }
  rewrite Hc1, Hc2, mapM_py_int_str_of_Z. cbn [bind].
  change (z :: cl ++ [0]) with ((z :: cl) ++ [0]). now rewrite strip_terminator_snoc.
Qed.

Lemma read_lines_comments (cms : list str) (st : Dimacs.cnf) :
  forallb wf_comment cms = true ->
  Dimacs.read_lines (map with_lf cms) st
  = Return (Dimacs.Cnf (Dimacs.nvars st) (Dimacs.clauses st) (Dimacs.comments st ++ cms)).
Proof.
  revert st; induction cms as [|c cms IH]; intros st H.
  - cbn. rewrite app_nil_r. now destruct st.
  - cbn [forallb] in H. apply andb_true_iff in H as [Hc Hcms].
    unfold Dimacs.read_lines in *. cbn [map foldM].
    rewrite read_line_comment by exact Hc. cbn [bind].
    rewrite IH by exact Hcms. cbn. now rewrite <- app_assoc.
Qed.

Lemma read_lines_clauses (cls : list (list Z)) (st : Dimacs.cnf) :
  Dimacs.read_lines (map Dimacs.clause_line cls) st
  = Return (Dimacs.Cnf (Dimacs.nvars st) (Dimacs.clauses st ++ cls) (Dimacs.comments st)).
Proof.
  revert st; induction cls as [|cl cls IH]; intros st.
  - cbn. rewrite app_nil_r. now destruct st.
  - unfold Dimacs.read_lines in *. cbn [map foldM].
    rewrite read_line_clause. cbn [bind]. rewrite IH. cbn. now rewrite <- app_assoc.
Qed.

Lemma wf_comment_one_line (cms : list str) :
  forallb wf_comment cms = true -> forallb one_line cms = true.
Proof.
  rewrite !forallb_forall. intros H c Hc. specialize (H c Hc).
  unfold wf_comment in H. now apply andb_true_iff in H as [_ H].
Qed.

Lemma readlines_write_dimacs (nv : Z) (cls : list (list Z)) (cms : list str) :
  forallb wf_comment cms = true ->
  readlines (Dimacs.write_dimacs nv cls cms)
  = map with_lf cms ++ Dimacs.header_line nv (Z.of_nat (length cls))
      :: map Dimacs.clause_line cls.
Proof.
  intros H. rewrite write_dimacs_lines, readlines_concat.
  - rewrite map_app. cbn [map]. rewrite header_line_body, map_map. f_equal. f_equal.
    apply map_ext. intros cl. now rewrite clause_line_body.
  - rewrite forallb_app. cbn [forallb].
    rewrite (wf_comment_one_line _ H), header_body_one_line. cbn [andb].
    rewrite forallb_forall. intros b Hb. apply in_map_iff in Hb as (cl & <- & _).
    apply clause_body_one_line.
Qed.

(** Reading back what [write_dimacs] wrote. *)
Lemma read_write_dimacs (nv : Z) (cls : list (list Z)) (cms : list str) :
  0 < nv -> forallb wf_comment cms = true ->
  Dimacs.read_dimacs (Dimacs.write_dimacs nv cls cms) = Return (Dimacs.Cnf nv cls cms).
Proof.
  intros Hnv Hcms. unfold Dimacs.read_dimacs.
  rewrite readlines_write_dimacs by exact Hcms.
  unfold Dimacs.read_lines. rewrite foldM_app.
  fold (Dimacs.read_lines (map with_lf cms) Dimacs.empty_cnf).
  rewrite read_lines_comments by exact Hcms. cbn [bind foldM].
  rewrite read_line_header. cbn [bind].
  fold (Dimacs.read_lines (map Dimacs.clause_line cls)
          (Dimacs.Cnf nv (Dimacs.clauses Dimacs.empty_cnf)
             (Dimacs.comments Dimacs.empty_cnf ++ cms))).
  rewrite read_lines_clauses. cbn [bind Dimacs.nvars Dimacs.clauses Dimacs.comments Dimacs.empty_cnf app].
  destruct (Z.leb_spec nv 0); [lia|reflexivity].
Qed.

(** ** [apply_units.py] on texts with one header line *)

Lemma lstrip_snoc_space (t : str) (c : ascii) :
  is_space c = true ->
  lstrip (t ++ [c]) = match lstrip t with [] => [] | _ :: _ => lstrip t ++ [c] end.
Proof.
  intros H. induction t as [|a t IH]; cbn [app lstrip].
  - now rewrite H.
  - destruct (is_space a); [exact IH|reflexivity].
Qed.

Lemma strip_snoc_space (t : str) (c : ascii) :
  is_space c = true -> strip (t ++ [c]) = strip t.
Proof.
  intros H. unfold strip. rewrite lstrip_snoc_space by exact H.
  destruct (lstrip t) as [|a u]; [reflexivity|].
  now apply rstrip_snoc_space.
Qed.

Lemma strip_with_lf (b : str) : strip (with_lf b) = strip b.
Proof. now apply strip_snoc_space. Qed.

Lemma startswith_p_space (t : str) :
  startswith t (lit "p ") = true -> startswith t (lit "p") = true.
Proof.
  destruct t as [|a t]; cbn [lit list_ascii_of_string startswith]; [easy|].
  intros H. apply andb_true_iff in H as [H _]. now rewrite H.
Qed.

Lemma startswith_p_not_c (t : str) :
  startswith t (lit "p") = true -> startswith t (lit "c") = false.
Proof.
  destruct t as [|a t]; cbn [lit list_ascii_of_string startswith]; [easy|].
  rewrite !andb_true_r. intros H. apply ch_eqb_eq in H. now subst.
Qed.

Lemma scan_line_plain (h : option (Z * Z)) (b : str) :
  plain_line b = true -> ApplyUnits.scan_line h (with_lf b) = Return h.
Proof.
  unfold plain_line. intros H. apply andb_true_iff in H as [_ H].
  apply negb_true_iff in H. unfold ApplyUnits.scan_line. rewrite strip_with_lf.
  destruct (str_eqb (strip b) [] || startswith (strip b) (lit "c")); [reflexivity|].
  destruct (startswith (strip b) (lit "p ")) eqn:E; [|reflexivity].
  apply startswith_p_space in E. congruence.
Qed.

Lemma scan_lines_plain (h : option (Z * Z)) (bs : list str) :
  forallb plain_line bs = true -> foldM ApplyUnits.scan_line (map with_lf bs) h = Return h.
Proof.
  induction bs as [|b bs IH]; [reflexivity|]. intros H.
  cbn [forallb] in H. apply andb_true_iff in H as [Hb Hbs].
  cbn [map foldM]. rewrite scan_line_plain by exact Hb. cbn [bind]. now apply IH.
Qed.

Lemma header_body_starts (nv nc : Z) :
  exists t, header_body nv nc = "p"%char :: " "%char :: t.
Proof. unfold header_body. cbn [lit list_ascii_of_string app]. eauto. Qed.

Lemma scan_line_header (h : option (Z * Z)) (nv nc : Z) :
  ApplyUnits.scan_line h (with_lf (header_body nv nc)) = Return (Some (nv, nc)).
Proof.
  unfold ApplyUnits.scan_line. rewrite strip_with_lf.
  rewrite strip_trimmed by apply header_body_trimmed.
  rewrite split_header_body.
  destruct (header_body_starts nv nc) as [t ->].
  cbn [str_eqb lit list_ascii_of_string startswith ch_eqb Ascii.eqb Bool.eqb andb orb].
  cbn [index nth_error bind]. rewrite !py_int_str_of_Z. reflexivity.
Qed.

Lemma rewrite_lines_done (hdr : str) (ls : list str) :
  ApplyUnits.rewrite_lines true hdr ls = ls.
Proof. induction ls as [|l ls IH]; [reflexivity|]. cbn. now rewrite IH. Qed.

Lemma rewrite_lines_canonical (hdr : str) (pre post : list str) (nv nc : Z) :
  forallb plain_line pre = true ->
  ApplyUnits.rewrite_lines false hdr (map with_lf (pre ++ header_body nv nc :: post))
  = map with_lf pre ++ hdr :: map with_lf post.
Proof.
  induction pre as [|b pre IH]; intros H.
  - cbn [app map ApplyUnits.rewrite_lines negb andb].
    rewrite strip_with_lf, strip_trimmed by apply header_body_trimmed.
    destruct (header_body_starts nv nc) as [t ->].
    cbn [lit list_ascii_of_string startswith ch_eqb Ascii.eqb Bool.eqb andb].
    now rewrite rewrite_lines_done.
  - cbn [forallb] in H. apply andb_true_iff in H as [Hb Hpre].
    cbn [app map ApplyUnits.rewrite_lines negb andb].
    rewrite strip_with_lf.
    destruct (startswith (strip b) (lit "p ")) eqn:E.
    + apply startswith_p_space in E. unfold plain_line in Hb.
      apply andb_true_iff in Hb as [_ Hb]. apply negb_true_iff in Hb. congruence.
    + now rewrite IH.
Qed.

Lemma plain_line_one_line (bs : list str) :
  forallb plain_line bs = true -> forallb one_line bs = true.
Proof.
  rewrite !forallb_forall. intros H b Hb. specialize (H b Hb).
  unfold plain_line in H. now apply andb_true_iff in H as [H _].
Qed.

Lemma readlines_canonical (pre post : list str) (nv nc : Z) :
  forallb plain_line pre = true -> forallb plain_line post = true ->
  readlines (canonical_file pre nv nc post) = map with_lf (pre ++ header_body nv nc :: post).
Proof.
  intros Hpre Hpost. unfold canonical_file. apply readlines_concat.
  rewrite forallb_app. cbn [forallb].
  now rewrite (plain_line_one_line _ Hpre), (plain_line_one_line _ Hpost), header_body_one_line.
Qed.

Lemma declared_header_canonical (pre post : list str) (nv nc : Z) :
  forallb plain_line pre = true -> forallb plain_line post = true ->
  declared_header (canonical_file pre nv nc post) = Return (Some (nv, nc)).
Proof.
  intros Hpre Hpost. unfold declared_header.
  rewrite readlines_canonical by assumption.
  rewrite map_app, foldM_app, scan_lines_plain by exact Hpre.
  cbn [bind map foldM]. rewrite scan_line_header. cbn [bind].
  now apply scan_lines_plain.
Qed.

Lemma unit_line_body (l : Z) : ApplyUnits.unit_line l = with_lf (clause_body [l]).
Proof.
  unfold ApplyUnits.unit_line, with_lf, clause_body. cbn [map app join].
  now rewrite <- !app_assoc.
Qed.

Lemma clause_body_plain (cl : list Z) : plain_line (clause_body cl) = true.
Proof.
  unfold plain_line. rewrite clause_body_one_line. cbn [andb].
  rewrite strip_trimmed by apply clause_body_trimmed.
  destruct cl as [|z cl]; [reflexivity|].
  destruct (clause_body_head z cl) as (c & t & E & Hc). rewrite E.
  cbn [lit list_ascii_of_string startswith]. rewrite andb_true_r.
  apply negb_true_iff, ch_eqb_neq. intros <-. destruct Hc; discriminate.
Qed.

(** What the script writes for a text with one header line. *)
Lemma apply_units_canonical (pre post : list str) (nv nc : Z) (lits : list Z) :
  forallb plain_line pre = true -> forallb plain_line post = true ->
  ApplyUnits.apply_units (canonical_file pre nv nc post) lits
  = Return (canonical_file pre nv (nc + Z.of_nat (length lits))
              (post ++ map clause_body (Dimacs.unit_clauses lits))).
Proof.
  intros Hpre Hpost. unfold ApplyUnits.apply_units.
  pose proof (declared_header_canonical pre post nv nc Hpre Hpost) as Hd.
  unfold declared_header in Hd. rewrite Hd. cbn [bind].
  rewrite readlines_canonical by assumption.
  rewrite rewrite_lines_canonical by exact Hpre.
  f_equal. unfold canonical_file. f_equal.
  rewrite map_app. cbn [map]. rewrite <- app_assoc. cbn [app].
  f_equal. f_equal.
  - unfold ApplyUnits.header_text, with_lf, header_body. now rewrite <- !app_assoc.
  - rewrite map_app. f_equal. unfold Dimacs.unit_clauses. rewrite !map_map.
    apply map_ext. intros l. apply unit_line_body.
Qed.

(** ** What [read_dimacs] returns *)

Lemma bind_Return_inv {A B : Type} (m : outcome A) (k : A -> outcome B) (b : B) :
  bind m k = Return b -> exists a, m = Return a /\ k a = Return b.
Proof. destruct m as [a|e]; cbn; [eauto|discriminate]. Qed.

(** A line that is not a header only appends to the clauses and to the
    comments, whatever the state. *)
Lemma read_line_plain (st : Dimacs.cnf) (b : str) :
  plain_line b = true ->
  Dimacs.read_line st (with_lf b)
  = letM c := Dimacs.read_line Dimacs.empty_cnf (with_lf b) in
    Return (Dimacs.Cnf (Dimacs.nvars st) (Dimacs.clauses st ++ Dimacs.clauses c)
                       (Dimacs.comments st ++ Dimacs.comments c)).
Proof.
  unfold plain_line. intros H. apply andb_true_iff in H as [_ H].
  apply negb_true_iff in H. unfold Dimacs.read_line. rewrite strip_with_lf, H.
  destruct (strip b) as [|a t] eqn:E.
  - cbn. rewrite !app_nil_r. now destruct st.
  - destruct (startswith (a :: t) (lit "c")).
    + cbn. now rewrite app_nil_r.
    + destruct (mapM py_int (split (a :: t))) as [[|z lits]|e]; cbn.
      * rewrite !app_nil_r. now destruct st.
      * now rewrite app_nil_r.
      * reflexivity.
Qed.

Lemma read_lines_plain (bs : list str) (st : Dimacs.cnf) :
  forallb plain_line bs = true ->
  Dimacs.read_lines (map with_lf bs) st
  = letM c := Dimacs.read_lines (map with_lf bs) Dimacs.empty_cnf in
    Return (Dimacs.Cnf (Dimacs.nvars st) (Dimacs.clauses st ++ Dimacs.clauses c)
                       (Dimacs.comments st ++ Dimacs.comments c)).
Proof.
  revert st; induction bs as [|b bs IH]; intros st H.
  - cbn. rewrite !app_nil_r. now destruct st.
  - cbn [forallb] in H. apply andb_true_iff in H as [Hb Hbs].
    unfold Dimacs.read_lines in *. cbn [map foldM].
    rewrite (read_line_plain st b Hb).
    destruct (Dimacs.read_line Dimacs.empty_cnf (with_lf b)) as [c1|e]; [|reflexivity].
    cbn [bind]. rewrite (IH _ Hbs). rewrite (IH c1 Hbs).
    destruct (foldM Dimacs.read_line (map with_lf bs) Dimacs.empty_cnf) as [c2|e];
      [|reflexivity].
    cbn. now rewrite !app_assoc.
Qed.

Lemma read_lines_plain_nvars (bs : list str) (c : Dimacs.cnf) :
  forallb plain_line bs = true ->
  Dimacs.read_lines (map with_lf bs) Dimacs.empty_cnf = Return c ->
  Dimacs.nvars c = 0.
Proof.
  intros H E. pose proof (read_lines_plain bs Dimacs.empty_cnf H) as E'.
  rewrite E in E'. cbn in E'. injection E' as ->. reflexivity.
Qed.

(** Reading a text with one header line. *)
Lemma read_dimacs_canonical (pre post : list str) (nv nc : Z) :
  forallb plain_line pre = true -> forallb plain_line post = true ->
  Dimacs.read_dimacs (canonical_file pre nv nc post)
  = letM c1 := Dimacs.read_lines (map with_lf pre) Dimacs.empty_cnf in
    letM c2 := Dimacs.read_lines (map with_lf post) Dimacs.empty_cnf in
    if nv <=? 0 then Fail ValueError
    else Return (Dimacs.Cnf nv (Dimacs.clauses c1 ++ Dimacs.clauses c2)
                              (Dimacs.comments c1 ++ Dimacs.comments c2)).
Proof.
  intros Hpre Hpost. unfold Dimacs.read_dimacs.
  rewrite readlines_canonical by assumption.
  unfold Dimacs.read_lines. rewrite map_app, foldM_app.
  destruct (foldM Dimacs.read_line (map with_lf pre) Dimacs.empty_cnf) as [c1|e];
    [|reflexivity].
  cbn [bind map foldM]. rewrite <- header_line_body, read_line_header. cbn [bind].
  pose proof (read_lines_plain post
                (Dimacs.Cnf nv (Dimacs.clauses c1) (Dimacs.comments c1)) Hpost) as E.
  unfold Dimacs.read_lines in E. rewrite E.
  destruct (foldM Dimacs.read_line (map with_lf post) Dimacs.empty_cnf) as [c2|e];
    reflexivity.
Qed.

Lemma read_lines_units (post : list str) (units : list (list Z)) :
  forallb plain_line post = true ->
  Dimacs.read_lines (map with_lf (post ++ map clause_body units)) Dimacs.empty_cnf
  = letM c2 := Dimacs.read_lines (map with_lf post) Dimacs.empty_cnf in
    Return (Dimacs.Cnf 0 (Dimacs.clauses c2 ++ units) (Dimacs.comments c2)).
Proof.
  intros Hpost. unfold Dimacs.read_lines at 1. rewrite map_app, foldM_app.
  fold (Dimacs.read_lines (map with_lf post) Dimacs.empty_cnf).
  destruct (Dimacs.read_lines (map with_lf post) Dimacs.empty_cnf) as [c2|e] eqn:E;
    [|reflexivity].
  cbn [bind]. rewrite map_map.
  rewrite (map_ext (fun x => with_lf (clause_body x)) Dimacs.clause_line)
    by (intros; now rewrite clause_line_body).
  fold (Dimacs.read_lines (map Dimacs.clause_line units) c2).
  rewrite read_lines_clauses. now rewrite (read_lines_plain_nvars post c2 Hpost E).
Qed.

Lemma units_plain (post : list str) (units : list (list Z)) :
  forallb plain_line post = true ->
  forallb plain_line (post ++ map clause_body units) = true.
Proof.
  intros H. rewrite forallb_app, H. cbn [andb].
  rewrite forallb_forall. intros b Hb. apply in_map_iff in Hb as (cl & <- & _).
  apply clause_body_plain.
Qed.

(** Unit clauses appended to a text with one header line are read back
    after the clauses of the text. *)
Lemma read_dimacs_canonical_units (pre post : list str) (nv nc nc' : Z)
    (units : list (list Z)) (c : Dimacs.cnf) :
  forallb plain_line pre = true -> forallb plain_line post = true ->
  Dimacs.read_dimacs (canonical_file pre nv nc post) = Return c ->
  Dimacs.nvars c = nv /\
  Dimacs.read_dimacs (canonical_file pre nv nc' (post ++ map clause_body units))
  = Return (Dimacs.Cnf (Dimacs.nvars c) (Dimacs.clauses c ++ units) (Dimacs.comments c)).
Proof.
  intros Hpre Hpost E.
  rewrite read_dimacs_canonical in E by assumption.
  rewrite read_dimacs_canonical by (try apply units_plain; assumption).
  rewrite read_lines_units by exact Hpost.
  destruct (Dimacs.read_lines (map with_lf pre) Dimacs.empty_cnf) as [c1|e1];
    [|discriminate].
  destruct (Dimacs.read_lines (map with_lf post) Dimacs.empty_cnf) as [c2|e2];
    [|discriminate].
  cbn [bind] in *. destruct (nv <=? 0); [discriminate|].
  injection E as <-. cbn. split; [reflexivity|]. now rewrite app_assoc.
Qed.

(** [serialize] writes a text with one header line. *)
Lemma wf_comment_plain (cms : list str) :
  forallb wf_comment cms = true -> forallb plain_line cms = true.
Proof.
  rewrite !forallb_forall. intros H c Hc. specialize (H c Hc).
  unfold wf_comment in H. apply andb_true_iff in H as [H H3].
  apply andb_true_iff in H as [H1 H2].
  unfold plain_line. rewrite H3, strip_trimmed by exact H2. cbn [andb].
  apply negb_true_iff.
  destruct (startswith c (lit "p")) eqn:E; [|reflexivity].
  apply startswith_p_not_c in E. congruence.
Qed.

Lemma write_dimacs_canonical (nv : Z) (cls : list (list Z)) (cms : list str) :
  Dimacs.write_dimacs nv cls cms
  = canonical_file cms nv (Z.of_nat (length cls)) (map clause_body cls).
Proof. apply write_dimacs_lines. Qed.

Lemma clause_bodies_plain (cls : list (list Z)) :
  forallb plain_line (map clause_body cls) = true.
Proof.
  rewrite forallb_forall. intros b Hb. apply in_map_iff in Hb as (cl & <- & _).
  apply clause_body_plain.
Qed.

Lemma universal_newlines_no_cr_len (n : nat) (t : str) (c : ascii) :
  (length t <= n)%nat -> In c (universal_newlines t) -> c <> CR.
Proof.
  revert t; induction n as [|n IH]; intros t Hlen Hc.
  - destruct t; [destruct Hc|cbn in Hlen; lia].
  - destruct t as [|a t]; [destruct Hc|]. cbn [length] in Hlen.
    cbn [universal_newlines] in Hc. destruct (ch_eqb a CR) eqn:Ea.
    + destruct Hc as [<-|Hc]; [discriminate|].
      destruct t as [|d t]; [destruct Hc|]. cbn [length] in Hlen.
      destruct (ch_eqb d LF).
      * apply (IH t); [lia|exact Hc].
      * apply (IH (d :: t)); [cbn [length]; lia|exact Hc].
    + destruct Hc as [<-|Hc].
      * now apply ch_eqb_neq.
      * apply (IH t); [lia|exact Hc].
Qed.

Lemma universal_newlines_no_cr (t : str) (c : ascii) :
  In c (universal_newlines t) -> c <> CR.
Proof. apply (universal_newlines_no_cr_len (length t)). lia. Qed.

Lemma lines_keepends_shape (t l : str) :
  In l (lines_keepends t) ->
  exists b, (l = b \/ l = with_lf b) /\ forall c, In c b -> c <> LF /\ In c t.
Proof.
  revert l; induction t as [|a t IH]; intros l Hl; [destruct Hl|].
  rewrite lines_keepends_cons in Hl. destruct (ch_eqb a LF) eqn:Ea.
  - destruct Hl as [<-|Hl].
    + exists []. split; [right; apply ch_eqb_eq in Ea; now subst|intros c []].
    + destruct (IH l Hl) as (b & Hb & Hc). exists b. split; [exact Hb|].
      intros c Hin. destruct (Hc c Hin). split; [assumption|now right].
  - apply ch_eqb_neq in Ea. destruct (lines_keepends t) as [|l0 ls] eqn:El.
    + destruct Hl as [<-|[]]. exists [a]. split; [now left|].
      intros c [<-|[]]. split; [assumption|now left].
    + destruct Hl as [<-|Hl].
      * destruct (IH l0 (or_introl eq_refl)) as (b & Hb & Hc).
        exists (a :: b). split.
        -- destruct Hb as [->| ->]; [now left|now right].
        -- intros c [<-|Hin]; [split; [assumption|now left]|].
           destruct (Hc c Hin). split; [assumption|now right].
      * destruct (IH l (or_intror Hl)) as (b & Hb & Hc). exists b. split; [exact Hb|].
        intros c Hin. destruct (Hc c Hin). split; [assumption|now right].
Qed.

(** Every line of a text file is one line, with or without its line feed. *)
Lemma readlines_shape (file l : str) :
  In l (readlines file) -> exists b, (l = b \/ l = with_lf b) /\ one_line b = true.
Proof.
  intros Hl. destruct (lines_keepends_shape _ _ Hl) as (b & Hb & Hc).
  exists b. split; [exact Hb|]. unfold one_line. rewrite forallb_forall.
  intros c Hin. destruct (Hc c Hin) as [H1 H2].
  apply universal_newlines_no_cr in H2.
  apply andb_true_iff. split; apply negb_true_iff; now apply ch_eqb_neq.
Qed.

Lemma strip_one_line (b : str) : one_line b = true -> one_line (strip b) = true.
Proof.
  unfold one_line. rewrite !forallb_forall. intros H c Hc. apply H. now apply strip_In.
Qed.

Lemma read_line_wf (st st' : Dimacs.cnf) (l : str) :
  (exists b, (l = b \/ l = with_lf b) /\ one_line b = true) ->
  forallb wf_comment (Dimacs.comments st) = true ->
  Dimacs.read_line st l = Return st' ->
  forallb wf_comment (Dimacs.comments st') = true.
Proof.
  intros (b & Hb & Hone) Hwf E. unfold Dimacs.read_line in E.
  assert (Es : strip l = strip b).
  { destruct Hb as [->| ->]; [reflexivity|apply strip_with_lf]. }
  rewrite Es in E. destruct (strip b) as [|a t] eqn:Eb.
  - now injection E as <-.
  - destruct (startswith (a :: t) (lit "c")) eqn:Ec.
    + injection E as <-. cbn [Dimacs.comments]. rewrite forallb_app, Hwf.
      cbn [forallb andb]. rewrite andb_true_r. unfold wf_comment.
      rewrite Ec. cbn [andb].
      destruct (strip_cases b) as [E0|Ht]; [congruence|].
      rewrite Eb in Ht. rewrite Ht. cbn [andb].
      rewrite <- Eb. now apply strip_one_line.
    + destruct (startswith (a :: t) (lit "p")).
      * apply bind_Return_inv in E as (n & _ & E). now injection E as <-.
      * apply bind_Return_inv in E as (lits & _ & E).
        destruct lits; now injection E as <-.
Qed.

Lemma read_lines_wf (ls : list str) (st st' : Dimacs.cnf) :
  (forall l, In l ls -> exists b, (l = b \/ l = with_lf b) /\ one_line b = true) ->
  forallb wf_comment (Dimacs.comments st) = true ->
  Dimacs.read_lines ls st = Return st' ->
  forallb wf_comment (Dimacs.comments st') = true.
Proof.
  revert st; induction ls as [|l ls IH]; intros st Hls Hwf E.
  - now injection E as <-.
  - unfold Dimacs.read_lines in *. cbn [foldM] in E.
    apply bind_Return_inv in E as (st1 & E1 & E).
    apply (IH st1); auto.
    + intros l' Hl'. apply Hls. now right.
    + eapply read_line_wf; eauto. apply Hls. now left.
Qed.

(** What [read_dimacs] returns is a well-formed CNF value. *)
Lemma read_dimacs_wf (file : str) (c : Dimacs.cnf) :
  Dimacs.read_dimacs file = Return c -> wf_cnf c = true.
Proof.
  unfold Dimacs.read_dimacs. intros E.
  apply bind_Return_inv in E as (st & E1 & E).
  destruct (Dimacs.nvars st <=? 0) eqn:En; [discriminate|]. injection E as <-.
  unfold wf_cnf. apply andb_true_iff. split.
  - apply Z.ltb_lt. apply Z.leb_gt in En. lia.
  - apply (read_lines_wf (readlines file) Dimacs.empty_cnf st); [|reflexivity|exact E1].
    intros l Hl. eapply readlines_shape; eauto.
Qed.

(** ** The round trip of the codec (C3) *)

Lemma dimacs_roundtrip_aux (c : Dimacs.cnf) :
  wf_cnf c = true -> Dimacs.read_dimacs (Dimacs.serialize c) = Return c.
Proof.
  intros Hwf. unfold wf_cnf in Hwf. apply andb_true_iff in Hwf as [Hn Hc].
  apply Z.ltb_lt in Hn. destruct c as [nv cls cms].
  unfold Dimacs.serialize. cbn [Dimacs.nvars Dimacs.clauses Dimacs.comments] in *.
  now apply read_write_dimacs.
Qed.

(** C3.  Parsing the serialization of a well-formed CNF value gives the
    value back: the same variable count, the same clauses in the same
    order, the same comments.  A CNF value is well formed when its
    variable count is positive and its comments are comment lines (one
    trimmed line each, starting with the marker); every value that
    [read_dimacs] returns is one, so that parsing, serializing and parsing
    again changes nothing. *)
Theorem dimacs_roundtrip (c : Dimacs.cnf) :
  wf_cnf c = true \/ (exists file, Dimacs.read_dimacs file = Return c) ->
  Dimacs.read_dimacs (Dimacs.serialize c) = Return c.
Proof.
  intros H. apply dimacs_roundtrip_aux.
  destruct H as [H|[file H]]; [exact H|now apply read_dimacs_wf in H].
Qed.

Lemma dimacs_roundtrip_witness :
  Dimacs.read_dimacs
    (Dimacs.serialize (Dimacs.Cnf 3 [[1; -2]; []; [2; 3]] [lit "c demo"; lit "c  two"]))
  = Return (Dimacs.Cnf 3 [[1; -2]; []; [2; 3]] [lit "c demo"; lit "c  two"]).
Proof. apply dimacs_roundtrip. left. reflexivity. Defined.

(** ** Appending unit clauses (C2) *)

Lemma declared_header_write_dimacs (nv : Z) (cls : list (list Z)) (cms : list str) :
  forallb wf_comment cms = true ->
  declared_header (Dimacs.write_dimacs nv cls cms)
  = Return (Some (nv, Z.of_nat (length cls))).
Proof.
  intros H. rewrite write_dimacs_canonical. apply declared_header_canonical.
  - now apply wf_comment_plain.
  - apply clause_bodies_plain.
Qed.

(** Where the two mutators append.  [add_unit_clauses] on a source file
    that parses to [c] writes a file that parses to [c] with one unit
    clause per literal of [L] appended in order: same variable count, same
    comments, former clauses untouched; the header it writes declares
    [len(L)] more clauses than [c] has, whatever the header of the source
    declared.  [apply_units.py] writes a text that parses to the same value
    when the lines of its input all end with a line feed and one of them is
    a header, written [p cnf V C] (as in every text written by
    [write_dimacs], [apply_units.py] or [gen3sat.py]): the header it writes
    declares [len(L)] more clauses than the header of the input did. *)
Theorem add_units_appends (src : str) (c : Dimacs.cnf) (L : list Z) :
  Dimacs.read_dimacs src = Return c ->
  (exists dst,
     Dimacs.add_unit_clauses src L = Return dst /\
     Dimacs.read_dimacs dst = Return (add_units c L) /\
     length (Dimacs.clauses (add_units c L)) = (length (Dimacs.clauses c) + length L)%nat /\
     declared_header dst
     = Return (Some (Dimacs.nvars c, Z.of_nat (length (Dimacs.clauses c)) + Z.of_nat (length L))))
  /\
  (forall pre nv nc post,
     forallb plain_line pre = true -> forallb plain_line post = true ->
     src = canonical_file pre nv nc post ->
     exists dst,
       ApplyUnits.apply_units src L = Return dst /\
       Dimacs.read_dimacs dst = Return (add_units c L) /\
       declared_header src = Return (Some (Dimacs.nvars c, nc)) /\
       declared_header dst = Return (Some (Dimacs.nvars c, nc + Z.of_nat (length L)))).
Proof.
  intros E. pose proof (read_dimacs_wf _ _ E) as Hwf.
  unfold wf_cnf in Hwf. apply andb_true_iff in Hwf as [Hn Hc]. apply Z.ltb_lt in Hn.
  split.
  - exists (Dimacs.write_dimacs (Dimacs.nvars c)
              (Dimacs.clauses c ++ Dimacs.unit_clauses L) (Dimacs.comments c)).
    repeat split.
    + unfold Dimacs.add_unit_clauses. now rewrite E.
    + now apply read_write_dimacs.
    + cbn. unfold Dimacs.unit_clauses. now rewrite length_app, length_map.
    + rewrite declared_header_write_dimacs by exact Hc.
      unfold Dimacs.unit_clauses. rewrite length_app, length_map, Nat2Z.inj_add.
      reflexivity.
  - intros pre nv nc post Hpre Hpost ->.
    destruct (read_dimacs_canonical_units pre post nv nc (nc + Z.of_nat (length L))
                (Dimacs.unit_clauses L) c Hpre Hpost E) as [Hnv Hread].
    eexists. split; [now apply apply_units_canonical|].
    split; [exact Hread|]. rewrite Hnv. split.
    + now apply declared_header_canonical.
    + apply declared_header_canonical; [assumption|now apply units_plain].
Qed.

Lemma add_units_appends_witness :
  (exists dst,
     Dimacs.add_unit_clauses (text ["c demo"; "p cnf 3 7"; "1 -2 0"; "2 3 0"]) [1; -3]
     = Return dst /\
     Dimacs.read_dimacs dst
     = Return (add_units (Dimacs.Cnf 3 [[1; -2]; [2; 3]] [lit "c demo"]) [1; -3]) /\
     length (Dimacs.clauses (add_units (Dimacs.Cnf 3 [[1; -2]; [2; 3]] [lit "c demo"]) [1; -3]))
     = 4%nat /\
     declared_header dst = Return (Some (3, 2 + 2))) /\
  (exists dst,
     ApplyUnits.apply_units (text ["c demo"; "p cnf 3 7"; "1 -2 0"; "2 3 0"]) [1; -3]
     = Return dst /\
     Dimacs.read_dimacs dst
     = Return (add_units (Dimacs.Cnf 3 [[1; -2]; [2; 3]] [lit "c demo"]) [1; -3]) /\
     declared_header (text ["c demo"; "p cnf 3 7"; "1 -2 0"; "2 3 0"]) = Return (Some (3, 7)) /\
     declared_header dst = Return (Some (3, 7 + 2))).
Proof.
  destruct (add_units_appends (text ["c demo"; "p cnf 3 7"; "1 -2 0"; "2 3 0"])
              (Dimacs.Cnf 3 [[1; -2]; [2; 3]] [lit "c demo"]) [1; -3] eq_refl) as [H1 H2].
  split; [exact H1|].
  exact (H2 [lit "c demo"] 3 7 [lit "1 -2 0"; lit "2 3 0"] eq_refl eq_refl eq_refl).
Defined.

(** C2 at a text whose last line lacks its line feed.  [apply_units.py]
    copies the lines as they are and writes each unit clause after them:
    the first unit clause lands on the last line of the input.  For the
    text [p cnf 2 1], [1 0] and the literal 2 it writes the body [1 02 0],
    which reads as the one clause [1, 2]: no clause was added, the clause
    [1] is changed, and the header declares two clauses.
    [add_unit_clauses], on the same text, writes [1 0] and [2 0]. *)
Lemma apply_units_glues_last_line :
  Dimacs.read_dimacs (lit "p cnf 2 1" ++ [LF] ++ lit "1 0")
  = Return (Dimacs.Cnf 2 [[1]] []) /\
  ApplyUnits.apply_units (lit "p cnf 2 1" ++ [LF] ++ lit "1 0") [2]
  = Return (text ["p cnf 2 2"; "1 02 0"]) /\
  Dimacs.read_dimacs (text ["p cnf 2 2"; "1 02 0"])
  = Return (Dimacs.Cnf 2 [[1; 2]] []) /\
  Dimacs.add_unit_clauses (lit "p cnf 2 1" ++ [LF] ++ lit "1 0") [2]
  = Return (text ["p cnf 2 2"; "1 0"; "2 0"]).
Proof. repeat split; vm_compute; reflexivity. Qed.

(** Every serialized CNF value is a text with one header line, so the
    second half of [add_units_appends] covers every CNF value. *)
Lemma serialize_canonical (c : Dimacs.cnf) :
  wf_cnf c = true ->
  Dimacs.serialize c
  = canonical_file (Dimacs.comments c) (Dimacs.nvars c)
      (Z.of_nat (length (Dimacs.clauses c))) (map clause_body (Dimacs.clauses c))
  /\ forallb plain_line (Dimacs.comments c) = true
  /\ forallb plain_line (map clause_body (Dimacs.clauses c)) = true.
Proof.
  intros H. unfold wf_cnf in H. apply andb_true_iff in H as [_ H].
  split; [apply write_dimacs_canonical|].
  split; [now apply wf_comment_plain|apply clause_bodies_plain].
Qed.

(** On a serialized CNF value the two mutators write the same text. *)
Lemma mutators_agree (c : Dimacs.cnf) (L : list Z) :
  wf_cnf c = true ->
  Dimacs.add_unit_clauses (Dimacs.serialize c) L = Return (Dimacs.serialize (add_units c L)) /\
  ApplyUnits.apply_units (Dimacs.serialize c) L = Return (Dimacs.serialize (add_units c L)).
Proof.
  intros H. destruct (serialize_canonical c H) as (Es & Hpre & Hpost). split.
  - unfold Dimacs.add_unit_clauses.
    rewrite (dimacs_roundtrip_aux c H). reflexivity.
  - rewrite Es, apply_units_canonical by assumption. f_equal.
    unfold Dimacs.serialize, add_units. cbn [Dimacs.nvars Dimacs.clauses Dimacs.comments].
    rewrite write_dimacs_canonical. f_equal.
    + rewrite length_app. unfold Dimacs.unit_clauses. rewrite length_map. lia.
    + now rewrite map_app.
Qed.

(** ** The clause count of a written header (C8) *)

(** C8, as the code has it.  [write_dimacs] declares in the header the
    number of clauses it writes, so every file of the v4 runners (whose
    [add_unit_clauses] parses and re-serializes) has a header that matches
    its body.  [apply_units.py] never counts clauses.  On a text whose
    lines all end with a line feed and of which one, written [p cnf V C],
    is a header and no other starts with the letter p, it copies the lines
    and declares [C + len(lits)] clauses over a body that has [len(lits)]
    clauses more than the body of the input: its header matches the body
    exactly when [C] was the number of clauses of the input. *)
Theorem header_count_written (nv : Z) (cls : list (list Z)) (cms : list str)
    (pre post : list str) (nv' nc : Z) (lits : list Z) :
  0 < nv -> forallb wf_comment cms = true ->
  forallb plain_line pre = true -> forallb plain_line post = true ->
  (declared_header (Dimacs.write_dimacs nv cls cms) = Return (Some (nv, Z.of_nat (length cls)))
   /\ Dimacs.read_dimacs (Dimacs.write_dimacs nv cls cms) = Return (Dimacs.Cnf nv cls cms))
  /\
  (exists out,
     ApplyUnits.apply_units (canonical_file pre nv' nc post) lits = Return out /\
     declared_header out = Return (Some (nv', nc + Z.of_nat (length lits))) /\
     forall c, Dimacs.read_dimacs (canonical_file pre nv' nc post) = Return c ->
       exists c', Dimacs.read_dimacs out = Return c' /\
         length (Dimacs.clauses c') = (length (Dimacs.clauses c) + length lits)%nat /\
         (nc + Z.of_nat (length lits) = Z.of_nat (length (Dimacs.clauses c'))
          <-> nc = Z.of_nat (length (Dimacs.clauses c)))).
Proof.
  intros Hnv Hcms Hpre Hpost. split.
  - split; [now apply declared_header_write_dimacs|now apply read_write_dimacs].
  - eexists. split; [now apply apply_units_canonical|]. split.
    + apply declared_header_canonical; [assumption|now apply units_plain].
    + intros c E.
      destruct (read_dimacs_canonical_units pre post nv' nc (nc + Z.of_nat (length lits))
                  (Dimacs.unit_clauses lits) c Hpre Hpost E) as [_ Hread].
      eexists. split; [exact Hread|]. cbn [Dimacs.clauses].
      unfold Dimacs.unit_clauses. rewrite length_app, length_map. split; [reflexivity|lia].
Qed.

Lemma header_count_written_witness :
  (declared_header (Dimacs.write_dimacs 3 [[1; -2]; [2; 3]] [lit "c demo"])
   = Return (Some (3, 2))
   /\ Dimacs.read_dimacs (Dimacs.write_dimacs 3 [[1; -2]; [2; 3]] [lit "c demo"])
      = Return (Dimacs.Cnf 3 [[1; -2]; [2; 3]] [lit "c demo"]))
  /\
  (exists out,
     ApplyUnits.apply_units (canonical_file [lit "c demo"] 3 5 [lit "1 -2 0"; lit "2 3 0"]) [7]
     = Return out /\
     declared_header out = Return (Some (3, 5 + 1)) /\
     forall c,
       Dimacs.read_dimacs (canonical_file [lit "c demo"] 3 5 [lit "1 -2 0"; lit "2 3 0"])
       = Return c ->
       exists c', Dimacs.read_dimacs out = Return c' /\
         length (Dimacs.clauses c') = (length (Dimacs.clauses c) + 1)%nat /\
         (5 + 1 = Z.of_nat (length (Dimacs.clauses c'))
          <-> 5 = Z.of_nat (length (Dimacs.clauses c)))).
Proof.
  apply (header_count_written 3 [[1; -2]; [2; 3]] [lit "c demo"]
           [lit "c demo"] [lit "1 -2 0"; lit "2 3 0"] 3 5 [7]);
    [lia|reflexivity|reflexivity|reflexivity].
Defined.

(** The header of the input declares five clauses, its body holds two:
    [apply_units.py] writes a header of six clauses over a body of three. *)
Lemma apply_units_header_mismatch :
  ApplyUnits.apply_units (text ["p cnf 3 5"; "1 -2 0"; "2 3 0"]) [1]
  = Return (text ["p cnf 3 6"; "1 -2 0"; "2 3 0"; "1 0"])
  /\ declared_header (text ["p cnf 3 6"; "1 -2 0"; "2 3 0"; "1 0"]) = Return (Some (3, 6))
  /\ Dimacs.read_dimacs (text ["p cnf 3 6"; "1 -2 0"; "2 3 0"; "1 0"])
     = Return (Dimacs.Cnf 3 [[1; -2]; [2; 3]; [1]] []).
Proof. repeat split; reflexivity. Qed.

(** ** Clause lines without a literal (C7) *)

Lemma split_first (a : ascii) (t : str) :
  is_space a = false -> exists w ws, split (a :: t) = (a :: w) :: ws.
Proof.
  intros H. rewrite split_cons, H. destruct t as [|d t]; [eauto|].
  destruct (is_space d); [eauto|]. destruct (split (d :: t)); eauto.
Qed.

Lemma int_of_str_letter (a : ascii) (w : str) :
  is_space a = false -> is_digit a = false -> a <> "-"%char -> a <> "+"%char ->
  int_of_str (a :: w) = None.
Proof.
  intros Hs Hd Hm Hp. unfold int_of_str, strip. rewrite lstrip_head by exact Hs.
  destruct (rstrip_hd a w Hs) as [r ->]. unfold int_of_token.
  apply ch_eqb_neq in Hm, Hp. rewrite Hm, Hp. cbn [int_unsigned]. now rewrite Hd.
Qed.

Lemma mapM_letter (a : ascii) (t : str) :
  is_space a = false -> is_digit a = false -> a <> "-"%char -> a <> "+"%char ->
  mapM py_int (split (a :: t)) = Fail ValueError.
Proof.
  intros Hs Hd Hm Hp. destruct (split_first a t Hs) as (w & ws & ->).
  cbn [mapM]. unfold py_int. now rewrite int_of_str_letter.
Qed.

(** Such a line is neither blank, nor a comment, nor a header. *)
Lemma zero_literal_line_kind (raw : str) :
  zero_literal_line raw ->
  exists a t, strip raw = a :: t /\
    startswith (a :: t) (lit "c") = false /\ startswith (a :: t) (lit "p") = false.
Proof.
  unfold zero_literal_line. intros H.
  destruct (strip raw) as [|a t] eqn:E; [discriminate|].
  exists a, t. split; [reflexivity|].
  cbn [lit list_ascii_of_string startswith]. rewrite !andb_true_r.
  split.
  - destruct (ch_eqb "c"%char a) eqn:Ea; [|reflexivity].
    apply ch_eqb_eq in Ea. subst a.
    rewrite mapM_letter in H by (reflexivity || discriminate). discriminate.
  - destruct (ch_eqb "p"%char a) eqn:Ea; [|reflexivity].
    apply ch_eqb_eq in Ea. subst a.
    rewrite mapM_letter in H by (reflexivity || discriminate). discriminate.
Qed.

Lemma read_line_zero_literal (st : Dimacs.cnf) (raw : str) :
  zero_literal_line raw ->
  Dimacs.read_line st raw
  = Return (Dimacs.Cnf (Dimacs.nvars st) (Dimacs.clauses st ++ [[]]) (Dimacs.comments st)).
Proof.
  intros H. destruct (zero_literal_line_kind raw H) as (a & t & E & Hc & Hp).
  unfold Dimacs.read_line. unfold zero_literal_line in H.
  rewrite E in *. rewrite Hc, Hp, H. reflexivity.
Qed.

Lemma read_line_clauses_grow (st st' : Dimacs.cnf) (l : str) :
  Dimacs.read_line st l = Return st' ->
  exists rest, Dimacs.clauses st' = Dimacs.clauses st ++ rest.
Proof.
  unfold Dimacs.read_line. destruct (strip l) as [|a t].
  - intros E. injection E as <-. exists []. now rewrite app_nil_r.
  - destruct (startswith (a :: t) (lit "c")).
    + intros E. injection E as <-. exists []. cbn. now rewrite app_nil_r.
    + destruct (startswith (a :: t) (lit "p")).
      * intros E. apply bind_Return_inv in E as (n & _ & E). injection E as <-.
        exists []. cbn. now rewrite app_nil_r.
      * intros E. apply bind_Return_inv in E as (lits & _ & E).
        destruct lits; injection E as <-.
        -- exists []. now rewrite app_nil_r.
        -- eexists. reflexivity.
Qed.

Lemma read_lines_clauses_grow (ls : list str) (st st' : Dimacs.cnf) :
  Dimacs.read_lines ls st = Return st' ->
  exists rest, Dimacs.clauses st' = Dimacs.clauses st ++ rest.
Proof.
  revert st; induction ls as [|l ls IH]; intros st E.
  - injection E as <-. exists []. now rewrite app_nil_r.
  - unfold Dimacs.read_lines in *. cbn [foldM] in E.
    apply bind_Return_inv in E as (st1 & E1 & E).
    destruct (read_line_clauses_grow _ _ _ E1) as [r1 H1].
    destruct (IH _ E) as [r2 H2]. exists (r1 ++ r2). now rewrite H2, H1, app_assoc.
Qed.

Lemma v0b_parse_line_zero_literal (st : V0b.parsed) (raw : str) :
  zero_literal_line raw ->
  V0b.parse_line st raw
  = Return (if starts_with_zero raw then st
            else V0b.Parsed (V0b.num_vars st) (V0b.clauses st ++ [[0]]) (V0b.pos st)
                   (incr (V0b.neg st) 0)).
Proof.
  intros H. destruct (zero_literal_line_kind raw H) as (a & t & E & Hc & Hp).
  unfold V0b.parse_line, starts_with_zero. unfold zero_literal_line in H.
  rewrite E in *. rewrite Hc, Hp.
  destruct (split (a :: t)) as [|tok [|tok2 rest]]; cbn [mapM] in H.
  - discriminate.
  - cbn [V0b.read_tokens]. destruct (str_eqb tok (lit "0")).
    + cbn [bind]. now destruct st.
    + destruct (py_int tok) as [z|e]; [|discriminate]. cbn [bind] in H.
      injection H as ->. cbn [bind Z.ltb Z.compare Z.abs app V0b.read_tokens].
      reflexivity.
  - destruct (py_int tok) as [z|e]; [|discriminate]. cbn [bind] in H.
    destruct (py_int tok2) as [z2|e]; [|discriminate]. cbn [bind] in H.
    destruct (mapM py_int rest); discriminate.
Qed.

(** C7, as the code has it.  Take a clause line that holds no literal once
    its terminator is dropped: its one token reads as the int 0.
    [read_dimacs] of the v4 runners keeps it: the parsed clause sequence
    holds an empty clause at the place of the line, after the clauses of
    the lines before it.  [parse_dimacs] of the v0b picker, which tests its
    tokens against the string [0], adds no clause for the line when the
    token is written [0], so that the file reads as it does without the
    line; when the zero is written otherwise it adds the clause [[0]] and
    counts an occurrence of the variable 0. *)
Theorem empty_clause_kept (raw : str) :
  zero_literal_line raw ->
  (forall file ls1 ls2 c,
     readlines file = ls1 ++ raw :: ls2 ->
     Dimacs.read_dimacs file = Return c ->
     exists c1 rest,
       Dimacs.read_lines ls1 Dimacs.empty_cnf = Return c1 /\
       Dimacs.clauses c = Dimacs.clauses c1 ++ [] :: rest) /\
  (forall st,
     V0b.parse_line st raw
     = Return (if starts_with_zero raw then st
               else V0b.Parsed (V0b.num_vars st) (V0b.clauses st ++ [[0]]) (V0b.pos st)
                      (incr (V0b.neg st) 0))) /\
  (starts_with_zero raw = true ->
   forall file file' ls1 ls2,
     readlines file = ls1 ++ raw :: ls2 ->
     readlines file' = ls1 ++ ls2 ->
     V0b.parse_dimacs file = V0b.parse_dimacs file').
Proof.
  intros Hz. split; [|split].
  - intros file ls1 ls2 c Hls E. unfold Dimacs.read_dimacs in E.
    apply bind_Return_inv in E as (st & E1 & E).
    destruct (Dimacs.nvars st <=? 0); [discriminate|]. injection E as <-.
    rewrite Hls in E1. unfold Dimacs.read_lines in E1. rewrite foldM_app in E1.
    apply bind_Return_inv in E1 as (c1 & Ec1 & E1). cbn [foldM] in E1.
    rewrite read_line_zero_literal in E1 by exact Hz. cbn [bind] in E1.
    destruct (read_lines_clauses_grow _ _ _ E1) as [rest Hrest].
    exists c1, rest. split; [exact Ec1|].
    rewrite Hrest. cbn [Dimacs.clauses]. now rewrite <- app_assoc.
  - intros st. now apply v0b_parse_line_zero_literal.
  - intros Hs file file' ls1 ls2 E E'. unfold V0b.parse_dimacs.
    rewrite E, E', !foldM_app.
    destruct (foldM V0b.parse_line ls1 _) as [st|e]; [|reflexivity].
    cbn [bind foldM]. rewrite (v0b_parse_line_zero_literal st raw Hz), Hs.
    reflexivity.
Qed.

Lemma empty_clause_kept_witness :
  (exists c1 rest,
     Dimacs.read_lines [with_lf (lit "p cnf 3 3"); with_lf (lit "1 -2 0")] Dimacs.empty_cnf
     = Return c1 /\
     Dimacs.clauses (Dimacs.Cnf 3 [[1; -2]; []; [2; 3]] [])
     = Dimacs.clauses c1 ++ [] :: rest) /\
  V0b.parse_dimacs (text ["p cnf 3 3"; "1 -2 0"; "0"; "2 3 0"])
  = V0b.parse_dimacs (text ["p cnf 3 3"; "1 -2 0"; "2 3 0"]).
Proof.
  destruct (empty_clause_kept (with_lf (lit "0")) eq_refl) as (H1 & _ & H3).
  split.
  - apply (H1 (text ["p cnf 3 3"; "1 -2 0"; "0"; "2 3 0"])
             [with_lf (lit "p cnf 3 3"); with_lf (lit "1 -2 0")]
             [with_lf (lit "2 3 0")]); reflexivity.
  - apply (H3 eq_refl _ _ [with_lf (lit "p cnf 3 3"); with_lf (lit "1 -2 0")]
             [with_lf (lit "2 3 0")]); reflexivity.
Defined.

(** The parser of the v0b picker on a text with a bare 0 line: the line
    leaves no clause, where [read_dimacs] has an empty one.  With the zero
    written [00] the v0b parser has the clause [[0]]. *)
Lemma v0b_drops_empty_clause :
  (exists ps ng,
     V0b.parse_dimacs (text ["p cnf 1 2"; "0"; "1 0"]) = Return (1, [[1]], ps, ng)) /\
  Dimacs.read_dimacs (text ["p cnf 1 2"; "0"; "1 0"]) = Return (Dimacs.Cnf 1 [[]; [1]] []) /\
  (exists ps ng,
     V0b.parse_dimacs (text ["p cnf 1 2"; "00"; "1 0"]) = Return (1, [[0]; [1]], ps, ng)) /\
  Dimacs.read_dimacs (text ["p cnf 1 2"; "00"; "1 0"]) = Return (Dimacs.Cnf 1 [[]; [1]] []).
Proof.
  split; [eexists _, _; vm_compute; reflexivity|].
  split; [vm_compute; reflexivity|].
  split; [eexists _, _; vm_compute; reflexivity|vm_compute; reflexivity].
Qed.

(** ** Solver reports (C6, C10) *)

Lemma fold_left_invariant {A B : Type} (f : A -> B -> A) (P : A -> Prop) (Q : B -> Prop)
    (l : list B) (a : A) :
  (forall a b, P a -> Q b -> P (f a b)) ->
  (forall b, In b l -> Q b) -> P a -> P (fold_left f l a).
Proof.
  intros Hstep. revert a; induction l as [|b l IH]; intros a Hl Ha; [exact Ha|].
  cbn [fold_left]. apply IH.
  - intros b' Hb'. apply Hl. now right.
  - apply Hstep; [exact Ha|apply Hl; now left].
Qed.

Lemma has_line_false (test : str -> bool) (lines : list str) (l : str) :
  has_line test lines = false -> In l lines -> test (strip l) = false.
Proof.
  unfold has_line. intros H Hl.
  destruct (test (strip l)) eqn:E; [|reflexivity].
  assert (existsb (fun l => test (strip l)) lines = true); [|congruence].
  apply existsb_exists. eauto.
Qed.

Section ReportFacts.
Variable py_float : str -> option float.





Lemma v4_conflicts_sentinel (log : str) :
  has_line conflicts_line (log_lines log) = false ->
  snd (fst (v4_parse_glucose_log py_float log)) = v4_sentinel_conflicts.
Proof.
  intros H. unfold v4_parse_glucose_log.
  apply (fold_left_invariant (v4_log_line py_float)
           (fun st => snd (fst st) = v4_sentinel_conflicts)
           (fun l => conflicts_line (strip l) = false)).
  - intros [[s c] t] l Hs Hl. cbn in Hs. subst c. unfold v4_log_line. cbn [fst snd].
    unfold conflicts_line in Hl. now rewrite Hl.
  - intros l Hl. now apply (has_line_false _ _ _ H).
  - reflexivity.
Qed.

Lemma v4_cpu_sentinel (log : str) :
  has_line cpu_line (log_lines log) = false ->
  snd (v4_parse_glucose_log py_float log) = 0%float.
Proof.
  intros H. unfold v4_parse_glucose_log.
  apply (fold_left_invariant (v4_log_line py_float)
           (fun st => snd st = 0%float)
           (fun l => cpu_line (strip l) = false)).
  - intros [[s c] t] l Hs Hl. cbn in Hs. subst t. unfold v4_log_line. cbn [snd].
    unfold cpu_line in Hl. now rewrite Hl.
  - intros l Hl. now apply (has_line_false _ _ _ H).
  - reflexivity.
Qed.

Lemma np_fold_conflicts (log : str) :
  has_line conflicts_line_nocase (log_lines log) = false ->
  snd (fst (fold_left (np_log_line py_float) (readlines log) (UNKNOWN, None, None))) = None.
Proof.
  intros H.
  apply (fold_left_invariant (np_log_line py_float)
           (fun st => snd (fst st) = None)
           (fun l => conflicts_line_nocase (strip l) = false)).
  - intros [[s c] t] l Hs Hl. cbn in Hs. subst c. unfold np_log_line. cbn [fst snd].
    unfold conflicts_line_nocase in Hl. now rewrite Hl.
  - intros l Hl. now apply (has_line_false _ _ _ H).
  - reflexivity.
Qed.

Lemma np_fold_cpu (log : str) :
  has_line cpu_line_nocase (log_lines log) = false ->
  snd (fold_left (np_log_line py_float) (readlines log) (UNKNOWN, None, None)) = None.
Proof.
  intros H.
  apply (fold_left_invariant (np_log_line py_float)
           (fun st => snd st = None)
           (fun l => cpu_line_nocase (strip l) = false)).
  - intros [[s c] t] l Hs Hl. cbn in Hs. subst t. unfold np_log_line. cbn [snd].
    unfold cpu_line_nocase in Hl. now rewrite Hl.
  - intros l Hl. now apply (has_line_false _ _ _ H).
  - reflexivity.
Qed.

Lemma np_conflicts_sentinel (log : str) :
  has_line conflicts_line_nocase (log_lines log) = false ->
  snd (fst (np_parse_glucose_log py_float log)) = -1.
Proof.
  intros H. pose proof (np_fold_conflicts log H) as E. unfold np_parse_glucose_log.
  destruct (fold_left (np_log_line py_float) (readlines log) (UNKNOWN, None, None))
    as [[s c] t].
  cbn in *. now subst c.
Qed.

Lemma np_cpu_sentinel (log : str) :
  has_line cpu_line_nocase (log_lines log) = false ->
  snd (np_parse_glucose_log py_float log) = (-1)%float.
Proof.
  intros H. pose proof (np_fold_cpu log H) as E. unfold np_parse_glucose_log.
  destruct (fold_left (np_log_line py_float) (readlines log) (UNKNOWN, None, None))
    as [[s c] t].
  cbn in *. now subst t.
Qed.


Lemma foldM_returns {A S : Type} (f : S -> A -> outcome S) (Q : A -> Prop)
    (l : list A) (st : S) :
  (forall st x, Q x -> exists st', f st x = Return st') ->
  (forall x, In x l -> Q x) -> exists r, foldM f l st = Return r.
Proof.
  intros Hstep. revert st; induction l as [|x l IH]; intros st Hl.
  - cbn. eauto.
  - cbn [foldM]. destruct (Hstep st x) as [st' Ef]; [apply Hl; now left|].
    rewrite Ef. cbn [bind]. apply IH. intros y Hy. apply Hl. now right.
Qed.

Lemma forallb_In {A : Type} (test : A -> bool) (l : list A) (x : A) :
  forallb test l = true -> In x l -> test x = true.
Proof. intros H Hx. rewrite forallb_forall in H. now apply H. Qed.

Lemma v1_conflicts_line_absent (s : str) (c : option Z) :
  conflicts_field s = [] -> v1_conflicts_line s c = Return c.
Proof.
  unfold conflicts_field, v1_conflicts_line.
  destruct (split_on ":"%char s) as [|a [|rhs rest]]; try reflexivity.
  now intros ->.
Qed.

(** What a line of the output does to the three fields, when the parser
    gets past it. *)
Lemma v1_output_line_inv (st st' : option verdict * option Z * option float) (l : str) :
  v1_output_line py_float st l = Return st' ->
  fst (fst st') = v1_status_line (strip l) (fst (fst st)) /\
  (conflicts_line (strip l) = false \/ conflicts_field (strip l) = [] ->
     snd (fst st') = snd (fst st)) /\
  snd st' = (if cpu_line (strip l) then v1_cpu_line py_float (strip l) (snd st)
             else snd st).
Proof.
  destruct st as [[s c] t]. unfold v1_output_line, conflicts_line, cpu_line.
  intros E.
  destruct (startswith (strip l) (lit "c conflicts")) eqn:Ec.
  - destruct (v1_conflicts_line (strip l) c) as [c'|e] eqn:El; [|discriminate].
    cbn [bind] in E. injection E as <-. cbn [fst snd]. repeat split.
    intros [H|H]; [discriminate|].
    rewrite (v1_conflicts_line_absent _ _ H) in El. now injection El as <-.
  - cbn [bind] in E. injection E as <-. cbn [fst snd]. repeat split.
Qed.







End ReportFacts.




(** [int] of a non-empty run of decimal digits does not fail. *)
Lemma int_digits_total (t : str) (acc : Z) :
  forallb is_digit t = true -> exists z, int_digits acc t = Some z.
Proof.
  revert acc; induction t as [|c t IH]; intros acc H; [cbn; eauto|].
  cbn [forallb] in H. apply andb_true_iff in H as [Hc Ht].
  cbn [int_digits].
  assert (E : ch_eqb c "_"%char = false).
  { apply ch_eqb_neq. intros ->. discriminate. }
  rewrite E. unfold digit_val. rewrite Hc. now apply IH.
Qed.

Lemma int_of_str_digits (t : str) :
  t <> [] -> forallb is_digit t = true -> exists z, int_of_str t = Some z.
Proof.
  intros Hne Hd. unfold int_of_str.
  assert (Htok : token t = true).
  { destruct t; [congruence|]. unfold token. now apply digits_nospace. }
  rewrite strip_trimmed by now apply token_trimmed.
  destruct t as [|c t]; [congruence|]. unfold int_of_token.
  pose proof Hd as Hd'. cbn [forallb] in Hd'. apply andb_true_iff in Hd' as [Hc _].
  assert (E1 : ch_eqb c "-"%char = false).
  { apply ch_eqb_neq. intros ->. discriminate. }
  assert (E2 : ch_eqb c "+"%char = false).
  { apply ch_eqb_neq. intros ->. discriminate. }
  rewrite E1, E2. cbn [int_unsigned]. rewrite Hc. now apply int_digits_total.
Qed.

(** The call [int(num)] of [parse_glucose_output] returns when the digit
    characters of the field are decimal digits. *)
Lemma v1_conflicts_line_decimal (s : str) (c : option Z) :
  forallb is_digit (conflicts_field s) = true ->
  exists c', v1_conflicts_line s c = Return c'.
Proof.
  unfold conflicts_field, v1_conflicts_line. intros H.
  destruct (split_on ":"%char s) as [|a [|rhs rest]]; eauto.
  destruct (leading_digits (strip rhs)) as [|d num] eqn:E; eauto.
  destruct (int_of_str_digits (d :: num)) as [z Hz]; [discriminate|exact H|].
  unfold py_int. rewrite Hz. cbn [bind]. eauto.
Qed.

Lemma v1_output_returns (py_float : str -> option float) (out : str) :
  decimal_counts (output_lines out) = true ->
  exists r, v1_parse_glucose_output py_float out = Return r.
Proof.
  intros H. unfold v1_parse_glucose_output.
  apply (foldM_returns (v1_output_line py_float)
           (fun l => negb (conflicts_line (strip l))
                     || forallb is_digit (conflicts_field (strip l)) = true)).
  - intros [[s c] t] l Hl. unfold v1_output_line. unfold conflicts_line in Hl.
    destruct (startswith (strip l) (lit "c conflicts")).
    + cbn [negb orb] in Hl.
      destruct (v1_conflicts_line_decimal (strip l) c Hl) as [c' ->].
      cbn [bind]. eauto.
    + cbn [bind]. eauto.
  - intros l Hl. exact (forallb_In _ _ _ H Hl).
Qed.




Lemma zero_seconds (py_float : str -> option float) :
  py_float (lit "0") = Some 0%float ->
  snd (v4_parse_glucose_log py_float (text ["c CPU time : 0 s"])) = 0%float.
Proof.
  intros Hf. unfold v4_parse_glucose_log.
  change (readlines (text ["c CPU time : 0 s"])) with [with_lf (lit "c CPU time : 0 s")].
  cbn [fold_left]. unfold v4_log_line.
  change (strip (with_lf (lit "c CPU time : 0 s"))) with (lit "c CPU time : 0 s").
  change (startswith (lit "c CPU time : 0 s") (lit "c CPU time")) with true.
  cbv iota. cbn [snd].
  change (split (replace_char ":"%char " "%char (lit "c CPU time : 0 s")))
    with [lit "c"; lit "CPU"; lit "time"; lit "0"; lit "s"].
  unfold v4_cpu_of_parts.
  change (List.last [lit "c"; lit "CPU"; lit "time"; lit "0"; lit "s"] []) with (lit "s").
  change (str_eqb (lit "s") (lit "s")) with true. cbv iota.
  change (nth_error (rev [lit "c"; lit "CPU"; lit "time"; lit "0"; lit "s"]) 1)
    with (Some (lit "0")).
  cbv iota. now rewrite Hf.
Qed.

(** C10.  In the log parser of the clean and force-walk runners a report
    without a conflicts line gives the conflict count [10**18], which the
    test [conflicts == 0] of the stop condition never meets, and a report
    without a CPU-time line gives the CPU time [0.0], the value that a
    line reporting zero seconds gives.  The parser of the numpy runner
    gives [-1] and [-1.0]. *)
Theorem missing_lines_sentinels (py_float : str -> option float) (solver : Z -> str -> str)
    (log : str) (it k : Z) (units : list Z) (cnf : str) :
  (has_line conflicts_line (log_lines log) = false ->
     snd (fst (v4_parse_glucose_log py_float log)) = 10 ^ 18 /\
     (solver it cnf = log ->
      Forcewalk.collapsed (Forcewalk.solve_row py_float solver it k units cnf) = false)) /\
  (has_line cpu_line (log_lines log) = false ->
     snd (v4_parse_glucose_log py_float log) = 0%float /\
     (py_float (lit "0") = Some 0%float ->
      snd (v4_parse_glucose_log py_float (text ["c CPU time : 0 s"])) = 0%float)) /\
  (has_line conflicts_line_nocase (log_lines log) = false ->
     snd (fst (np_parse_glucose_log py_float log)) = -1) /\
  (has_line cpu_line_nocase (log_lines log) = false ->
     snd (np_parse_glucose_log py_float log) = (-1)%float).
Proof.
  repeat split.
  - now apply v4_conflicts_sentinel.
  - intros Hs. unfold Forcewalk.collapsed, Forcewalk.solve_row. rewrite Hs.
    pose proof (v4_conflicts_sentinel py_float log H) as E.
    destruct (v4_parse_glucose_log py_float log) as [[s c] t]. cbn in *. now subst c.
  - now apply v4_cpu_sentinel.
  - now apply zero_seconds.
  - now apply np_conflicts_sentinel.
  - now apply np_cpu_sentinel.
Qed.

Lemma missing_lines_sentinels_witness :
  (snd (fst (v4_parse_glucose_log (fun _ => None) (text ["s SATISFIABLE"]))) = 10 ^ 18 /\
   Forcewalk.collapsed
     (Forcewalk.solve_row (fun _ => None) (fun _ _ => text ["s SATISFIABLE"]) 1 1 [1]
        (text ["p cnf 1 1"; "1 0"])) = false) /\
  snd (v4_parse_glucose_log (fun _ => None) (text ["s SATISFIABLE"])) = 0%float /\
  snd (fst (np_parse_glucose_log (fun _ => None) (text ["s SATISFIABLE"]))) = -1 /\
  snd (np_parse_glucose_log (fun _ => None) (text ["s SATISFIABLE"])) = (-1)%float.
Proof.
  destruct (missing_lines_sentinels (fun _ => None) (fun _ _ => text ["s SATISFIABLE"])
              (text ["s SATISFIABLE"]) 1 1 [1] (text ["p cnf 1 1"; "1 0"]))
    as (H1 & H2 & H3 & H4).
  destruct (H1 eq_refl) as [H1a H1b]. destruct (H2 eq_refl) as [H2a _].
  split; [split; [exact H1a|exact (H1b eq_refl)]|].
  split; [exact H2a|]. split; [exact (H3 eq_refl)|exact (H4 eq_refl)].
Defined.


(** ** Floats *)

Lemma float_eqb_not_ltb (a b : float) : (a =? b)%float = true -> (a <? b)%float = false.
Proof.
  rewrite FloatAxioms.eqb_spec, FloatAxioms.ltb_spec. unfold SFeqb, SFltb.
  destruct (SFcompare (Prim2SF a) (Prim2SF b)) as [[| |]|]; congruence.
Qed.

Lemma SFcompare_opp (a b : spec_float) :
  SFcompare (SFopp b) (SFopp a) = SFcompare a b.
Proof.
  destruct a as [sa|sa| |sa ma ea], b as [sb|sb| |sb mb eb]; cbn;
    try destruct sa; try destruct sb; cbn; try reflexivity;
    rewrite (Z.compare_antisym ea eb); destruct (ea ?= eb)%Z; cbn; try reflexivity;
    change (PosDef.Pos.compare_cont Eq mb ma) with (Pos.compare mb ma);
    change (PosDef.Pos.compare_cont Eq ma mb) with (Pos.compare ma mb);
    rewrite (Pos.compare_antisym ma mb); now destruct (ma ?= mb)%positive.
Qed.

Lemma SFcompare_opp_ltb (a b : spec_float) :
  SFltb (SFopp b) (SFopp a) = SFltb a b.
Proof. unfold SFltb. now rewrite SFcompare_opp. Qed.

Lemma float_eqb_opp_not_ltb (a b : float) :
  (a =? b)%float = true -> (- b <? - a)%float = false.
Proof.
  rewrite FloatAxioms.eqb_spec, FloatAxioms.ltb_spec, !FloatAxioms.opp_spec, SFcompare_opp_ltb.
  unfold SFeqb, SFltb.
  destruct (SFcompare (Prim2SF a) (Prim2SF b)) as [[| |]|]; congruence.
Qed.

(** A product with zero is never positive (it is a zero or not a number). *)
Lemma float_zero_mul_not_pos (y : float) : (0 <? 0 * y)%float = false.
Proof.
  rewrite FloatAxioms.ltb_spec, FloatAxioms.mul_spec.
  change (Prim2SF 0) with (S754_zero false).
  unfold SF64mul, SFltb. destruct (Prim2SF y) as [s|s| |s m e]; reflexivity.
Qed.

Lemma float_zero_not_pos : (0 <? 0)%float = false.
Proof. reflexivity. Qed.

(** ** Order in lists and the sort *)

Lemma before_In {A : Type} (x y : A) (l : list A) : before x y l -> In x l /\ In y l.
Proof.
  intros (l1 & l2 & l3 & ->). split.
  - apply in_or_app. right. now left.
  - apply in_or_app. right. right. apply in_or_app. right. now left.
Qed.

Lemma before_cons {A : Type} (x y a : A) (l : list A) : before x y l -> before x y (a :: l).
Proof. intros (l1 & l2 & l3 & ->). now exists (a :: l1), l2, l3. Qed.

Lemma before_head {A : Type} (x y : A) (l : list A) : In y l -> before x y (x :: l).
Proof.
  intros H. apply in_split in H as (l2 & l3 & ->). now exists [], l2, l3.
Qed.

Lemma before_cons_inv {A : Type} (x y a : A) (l : list A) :
  before x y (a :: l) -> (a = x /\ In y l) \/ before x y l.
Proof.
  intros (l1 & l2 & l3 & E). destruct l1 as [|b l1]; cbn in E; injection E as -> ->.
  - left. split; [reflexivity|]. apply in_or_app. right. now left.
  - right. now exists l1, l2, l3.
Qed.

Lemma before_map {A B : Type} (f : A -> B) (x y : A) (l : list A) :
  before x y l -> before (f x) (f y) (map f l).
Proof.
  intros (l1 & l2 & l3 & ->). exists (map f l1), (map f l2), (map f l3).
  rewrite map_app. cbn [map]. rewrite map_app. reflexivity.
Qed.

Lemma before_filter {A : Type} (p : A -> bool) (x y : A) (l : list A) :
  before x y l -> p x = true -> p y = true -> before x y (List.filter p l).
Proof.
  intros (l1 & l2 & l3 & ->) Hx Hy.
  exists (List.filter p l1), (List.filter p l2), (List.filter p l3).
  rewrite List.filter_app. cbn [List.filter]. rewrite Hx, List.filter_app.
  cbn [List.filter]. now rewrite Hy.
Qed.

Lemma before_app_l {A : Type} (x y : A) (l l' : list A) :
  before x y l -> before x y (l ++ l').
Proof.
  intros (l1 & l2 & l3 & ->). exists l1, l2, (l3 ++ l').
  rewrite <- !app_assoc. cbn [app]. now rewrite <- !app_assoc.
Qed.

Lemma before_firstn {A : Type} (x y : A) (l : list A) (k : nat) :
  List.NoDup l -> before x y l -> In y (firstn k l) -> before x y (firstn k l).
Proof.
  intros Hnd (l1 & l2 & l3 & ->) Hy.
  set (n := length (l1 ++ x :: l2)).
  destruct (Nat.le_gt_cases k n) as [Hk|Hk].
  - exfalso.
    assert (Hy' : In y (l1 ++ x :: l2)).
    { replace (l1 ++ x :: l2 ++ y :: l3) with ((l1 ++ x :: l2) ++ y :: l3) in Hy
        by now rewrite <- app_assoc.
      rewrite firstn_app in Hy. replace (k - length (l1 ++ x :: l2))%nat with 0%nat in Hy
        by (subst n; lia).
      cbn [firstn] in Hy. rewrite app_nil_r in Hy.
      clear -Hy. revert Hy. generalize (l1 ++ x :: l2). intros l.
      revert k; induction l as [|a l IH]; intros [|k] H; cbn in *; try tauto.
      destruct H; [now left|right; eauto]. }
    replace (l1 ++ x :: l2 ++ y :: l3) with ((l1 ++ x :: l2) ++ y :: l3) in Hnd
      by now rewrite <- app_assoc.
    apply NoDup_remove_2 in Hnd. apply Hnd. apply in_or_app. now left.
  - replace (l1 ++ x :: l2 ++ y :: l3) with ((l1 ++ x :: l2) ++ y :: l3)
      by now rewrite <- app_assoc.
    rewrite firstn_app, firstn_all2 by (subst n; lia).
    destruct (k - length (l1 ++ x :: l2))%nat as [|m] eqn:Em; [subst n; lia|].
    cbn [firstn]. exists l1, l2, (firstn m l3). now rewrite <- app_assoc.
Qed.

Lemma range1_lookup (n : Z) (i : nat) :
  (i < Z.to_nat n)%nat -> nth_error (range1 n) i = Some (Z.of_nat (S i)).
Proof.
  intros H. unfold range1. rewrite nth_error_map.
  rewrite nth_error_seq. destruct (Nat.ltb_spec i (Z.to_nat n)); [reflexivity|lia].
Qed.

Lemma range1_In (n v : Z) : In v (range1 n) <-> 1 <= v <= n.
Proof.
  unfold range1. rewrite in_map_iff. split.
  - intros (i & <- & Hi). apply in_seq in Hi. lia.
  - intros H. exists (Z.to_nat v). split; [lia|]. apply in_seq. lia.
Qed.

Lemma range1_NoDup (n : Z) : List.NoDup (range1 n).
Proof.
  unfold range1. apply Finite.Injective_map_NoDup.
  - intros a b. apply Nat2Z.inj.
  - apply seq_NoDup.
Qed.

Lemma range1_split (n : Z) (v : Z) :
  1 <= v <= n ->
  range1 n = range1 (v - 1) ++ v :: map Z.of_nat (seq (S (Z.to_nat v)) (Z.to_nat (n - v))).
Proof.
  intros H. unfold range1.
  replace (Z.to_nat n) with (Z.to_nat (v - 1) + S (Z.to_nat (n - v)))%nat by lia.
  rewrite seq_app, map_app. f_equal. cbn [seq map].
  replace (1 + Z.to_nat (v - 1))%nat with (Z.to_nat v) by lia.
  f_equal. lia.
Qed.

(** [range(1, n + 1)] is ascending. *)
Lemma before_range1 (n v1 v2 : Z) : 1 <= v1 -> v1 < v2 -> v2 <= n -> before v1 v2 (range1 n).
Proof.
  intros H1 H12 H2. rewrite (range1_split n v1) by lia.
  assert (Hin : In v2 (map Z.of_nat (seq (S (Z.to_nat v1)) (Z.to_nat (n - v1))))).
  { apply in_map_iff. exists (Z.to_nat v2). split; [lia|]. apply in_seq. lia. }
  apply in_split in Hin as (l2 & l3 & ->). now exists (range1 (v1 - 1)), l2, l3.
Qed.

Section SortFacts.
Context {A : Type} (lt : A -> A -> bool).

Lemma insert_sorted_In (z y : A) (l : list A) :
  In y (insert_sorted lt z l) <-> y = z \/ In y l.
Proof.
  induction l as [|a l IH]; cbn [insert_sorted].
  - cbn. intuition.
  - destruct (lt a z); cbn [In]; rewrite ?IH; intuition.
Qed.

Lemma py_sort_In (y : A) (l : list A) : In y (py_sort lt l) <-> In y l.
Proof.
  induction l as [|a l IH]; [reflexivity|].
  cbn [py_sort foldr]. fold (py_sort lt l). rewrite insert_sorted_In, IH. cbn. intuition.
Qed.

Lemma insert_sorted_Permutation (z : A) (l : list A) :
  Permutation (insert_sorted lt z l) (z :: l).
Proof.
  induction l as [|a l IH]; cbn [insert_sorted]; [reflexivity|].
  destruct (lt a z); [|reflexivity].
  rewrite IH. apply perm_swap.
Qed.

Lemma py_sort_Permutation (l : list A) : Permutation (py_sort lt l) l.
Proof.
  induction l as [|a l IH]; [reflexivity|].
  cbn [py_sort foldr]. fold (py_sort lt l).
  rewrite insert_sorted_Permutation. now apply perm_skip.
Qed.

Lemma py_sort_length (l : list A) : length (py_sort lt l) = length l.
Proof. apply Permutation_length, py_sort_Permutation. Qed.

Lemma py_sort_NoDup (l : list A) : List.NoDup l -> List.NoDup (py_sort lt l).
Proof.
  intros H. eapply Permutation_NoDup; [|exact H].
  symmetry. apply py_sort_Permutation.
Qed.

Lemma insert_sorted_keeps (z x y : A) (l : list A) :
  before x y l -> before x y (insert_sorted lt z l).
Proof.
  induction l as [|a l IH]; intros H; cbn [insert_sorted].
  - destruct H as (l1 & l2 & l3 & E). destruct l1; discriminate.
  - destruct (lt a z); [|now apply before_cons].
    apply before_cons_inv in H as [[-> Hy]|H].
    + apply before_head. apply insert_sorted_In. now right.
    + apply before_cons. now apply IH.
Qed.

(** The element inserted goes before every element that is not less. *)
Lemma insert_sorted_before (z y : A) (l : list A) :
  In y l -> lt y z = false -> before z y (insert_sorted lt z l).
Proof.
  induction l as [|a l IH]; intros Hy Hlt; [destruct Hy|].
  cbn [insert_sorted]. destruct (lt a z) eqn:Ea.
  - destruct Hy as [->|Hy]; [congruence|].
    apply before_cons. now apply IH.
  - now apply before_head.
Qed.

(** The sort is stable: two elements of which the second is not less than
    the first keep their order. *)
Lemma py_sort_keeps_order (x y : A) (l : list A) :
  before x y l -> lt y x = false -> before x y (py_sort lt l).
Proof.
  induction l as [|a l IH]; intros H Hlt.
  - destruct H as (l1 & l2 & l3 & E). destruct l1; discriminate.
  - cbn [py_sort foldr]. fold (py_sort lt l).
    apply before_cons_inv in H as [[-> Hy]|H].
    + apply insert_sorted_before; [now apply py_sort_In|exact Hlt].
    + apply insert_sorted_keeps. now apply IH.
Qed.

End SortFacts.

(** ** The rankings (C9) *)

Lemma NoDup_tagged {A B : Type} (f : A -> B) (l : list A) :
  List.NoDup l -> List.NoDup (map (fun v => (f v, v)) l).
Proof.
  intros H. apply Finite.Injective_map_NoDup; [|exact H].
  intros a b E. now injection E.
Qed.

Lemma v0b_ranked_In (n : Z) (vs : list float) (s : float) (v : Z) :
  In (s, v) (V0b.ranked n vs) <->
  1 <= v <= n /\ s = float_list_get vs v /\ (0 <? s)%float = true.
Proof.
  unfold V0b.ranked, sort_by_key. rewrite py_sort_In, in_map_iff. split.
  - intros (w & E & Hw). injection E as <- <-. apply filter_In in Hw as [Hw Hp].
    apply range1_In in Hw. auto.
  - intros (Hv & -> & Hp). exists v. split; [reflexivity|].
    apply filter_In. split; [now apply range1_In|exact Hp].
Qed.

Lemma v0b_ranked_NoDup (n : Z) (vs : list float) : List.NoDup (V0b.ranked n vs).
Proof.
  unfold V0b.ranked, sort_by_key. apply py_sort_NoDup, NoDup_tagged, List.NoDup_filter, range1_NoDup.
Qed.

Lemma v0b_ranked_ties (n : Z) (vs : list float) (s1 s2 : float) (v1 v2 : Z) :
  v1 < v2 ->
  In (s1, v1) (V0b.ranked n vs) -> In (s2, v2) (V0b.ranked n vs) ->
  (s1 =? s2)%float = true ->
  before (s1, v1) (s2, v2) (V0b.ranked n vs).
Proof.
  intros Hlt H1 H2 Heq.
  apply v0b_ranked_In in H1 as (Hv1 & -> & Hp1).
  apply v0b_ranked_In in H2 as (Hv2 & -> & Hp2).
  unfold V0b.ranked, sort_by_key. apply py_sort_keeps_order.
  - apply (before_map (fun v => (float_list_get vs v, v))).
    apply before_filter; [|assumption..]. apply before_range1; lia.
  - unfold V0b.key_lt. cbn [fst snd].
    destruct (- float_list_get vs v2 =? - float_list_get vs v1)%float.
    + apply Z.ltb_ge. lia.
    + now apply float_eqb_opp_not_ltb.
Qed.

Lemma freq_ranked_In (n : Z) (ps ng : gmap Z Z) (t v : Z) :
  In (t, v) (Freq.ranked n ps ng) <->
  1 <= v <= n /\ t = Freq.total ps ng v /\ 0 < t.
Proof.
  unfold Freq.ranked, sort_by_key. rewrite py_sort_In, in_map_iff. split.
  - intros (w & E & Hw). injection E as <- <-. apply filter_In in Hw as [Hw Hp].
    apply range1_In in Hw. apply Z.ltb_lt in Hp. auto.
  - intros (Hv & -> & Hp). exists v. split; [reflexivity|].
    apply filter_In. split; [now apply range1_In|now apply Z.ltb_lt].
Qed.

Lemma freq_ranked_NoDup (n : Z) (ps ng : gmap Z Z) : List.NoDup (Freq.ranked n ps ng).
Proof.
  unfold Freq.ranked, sort_by_key.
  apply py_sort_NoDup, NoDup_tagged, List.NoDup_filter, range1_NoDup.
Qed.

Lemma freq_ranked_ties (n : Z) (ps ng : gmap Z Z) (t v1 v2 : Z) :
  v1 < v2 ->
  In (t, v1) (Freq.ranked n ps ng) -> In (t, v2) (Freq.ranked n ps ng) ->
  before (t, v1) (t, v2) (Freq.ranked n ps ng).
Proof.
  intros Hlt H1 H2.
  apply freq_ranked_In in H1 as (Hv1 & E1 & Hp1).
  apply freq_ranked_In in H2 as (Hv2 & E2 & Hp2).
  unfold Freq.ranked, sort_by_key. apply py_sort_keeps_order.
  - rewrite E1 at 1. rewrite E2 at 1.
    apply (before_map (fun v => (Freq.total ps ng v, v))).
    apply before_filter; [|apply Z.ltb_lt; lia..]. apply before_range1; lia.
  - unfold Freq.key_lt. cbn [fst snd]. rewrite Z.eqb_refl. apply Z.ltb_ge. lia.
Qed.

Lemma v4_rank_order_In (scores : Z -> float * Z) (n v : Z) :
  In v (V4.rank_order scores n) <-> 1 <= v <= n.
Proof.
  unfold V4.rank_order, sort_by_key_reverse. rewrite py_sort_In. apply range1_In.
Qed.

Lemma v4_rank_order_NoDup (scores : Z -> float * Z) (n : Z) :
  List.NoDup (V4.rank_order scores n).
Proof.
  unfold V4.rank_order, sort_by_key_reverse. apply py_sort_NoDup, range1_NoDup.
Qed.

Lemma v4_rank_order_ties (scores : Z -> float * Z) (n v1 v2 : Z) :
  1 <= v1 -> v1 < v2 -> v2 <= n ->
  (fst (scores v1) =? fst (scores v2))%float = true ->
  before v1 v2 (V4.rank_order scores n).
Proof.
  intros H1 Hlt H2 Heq. unfold V4.rank_order, sort_by_key_reverse.
  apply py_sort_keeps_order; [now apply before_range1|].
  now apply float_eqb_not_ltb.
Qed.

(** What the loop of [pick_units_rayleigh] returns: the first candidates,
    [k] of them, and one when [k] is not positive. *)
Lemma choose_spec (scores : Z -> float * Z) (order : list Z) (k : Z) (avoid : gset Z)
    (chosen : list Z) :
  V4.choose scores order k avoid chosen
  = chosen ++ firstn (Z.to_nat (Z.max 1 (k - Z.of_nat (length chosen))))
                     (v4_candidates scores order avoid).
Proof.
  revert chosen; induction order as [|v rest IH]; intros chosen.
  - cbn. now rewrite firstn_nil, app_nil_r.
  - cbn [V4.choose]. unfold v4_candidates. cbn [map List.filter].
    fold (v4_literal scores v). fold (v4_candidates scores rest avoid).
    destruct (decide (v4_literal scores v ∈ avoid ∨ - v4_literal scores v ∈ avoid)) as [Hd|Hd].
    + rewrite bool_decide_true by exact Hd. cbn [negb]. apply IH.
    + rewrite bool_decide_false by exact Hd. cbn [negb].
      rewrite length_app. cbn [length].
      destruct (Z.leb_spec k (Z.of_nat (length chosen + 1))) as [Hk|Hk].
      * replace (Z.to_nat (Z.max 1 (k - Z.of_nat (length chosen)))) with 1%nat by lia.
        reflexivity.
      * rewrite IH, length_app. cbn [length].
        replace (Z.to_nat (Z.max 1 (k - Z.of_nat (length chosen))))
          with (S (Z.to_nat (Z.max 1 (k - Z.of_nat (length chosen + 1))))) by lia.
        cbn [firstn]. now rewrite <- app_assoc.
Qed.

Lemma v4_literal_abs (scores : Z -> float * Z) (v : Z) :
  signs scores -> 0 <= v -> Z.abs (v4_literal scores v) = v.
Proof. intros Hs Hv. unfold v4_literal. destruct (Hs v) as [-> | ->]; lia. Qed.

Lemma v4_literals_NoDup (scores : Z -> float * Z) (order : list Z) :
  signs scores -> (forall v, In v order -> 0 <= v) -> List.NoDup order ->
  List.NoDup (map (v4_literal scores) order).
Proof.
  intros Hs Hpos Hnd. induction Hnd as [|v l Hv Hnd IH]; cbn [map]; constructor.
  - intros Hin. apply in_map_iff in Hin as (w & E & Hw). apply Hv.
    assert (Z.abs (v4_literal scores w) = Z.abs (v4_literal scores v)) as Ea by now rewrite E.
    rewrite !v4_literal_abs in Ea by (auto; apply Hpos; cbn; auto).
    now subst.
  - apply IH. intros w Hw. apply Hpos. now right.
Qed.

Lemma v4_candidates_NoDup (scores : Z -> float * Z) (n : Z) (avoid : gset Z) :
  signs scores ->
  List.NoDup (v4_candidates scores (V4.rank_order scores n) avoid).
Proof.
  intros Hs. unfold v4_candidates. apply List.NoDup_filter, v4_literals_NoDup.
  - exact Hs.
  - intros v Hv. apply v4_rank_order_In in Hv. lia.
  - apply v4_rank_order_NoDup.
Qed.

(** C9.  In the three rankings, of two variables with equal scores the one
    with the smaller id stands first, and is selected first: the spectral
    top-K ([pick_top_k_literals]) and the frequency top-K sort by the key
    [(-score, var)]; the Rayleigh selector sorts the ascending ids by
    descending score with a stable sort, and proposes the smaller id first
    unless its literal is in the avoid set. *)
Theorem ties_rank_smaller_id_first (v1 v2 : Z) :
  v1 < v2 ->
  (forall num_vars var_score ps ng k s1 s2,
     In (s1, v1) (V0b.ranked num_vars var_score) ->
     In (s2, v2) (V0b.ranked num_vars var_score) ->
     (s1 =? s2)%float = true ->
     before (s1, v1) (s2, v2) (V0b.ranked num_vars var_score) /\
     (In (s2, v2) (take (Z.to_nat k) (V0b.ranked num_vars var_score)) ->
      before (V0b.polarity ps ng v1) (V0b.polarity ps ng v2)
        (V0b.picked_literals num_vars var_score ps ng k))) /\
  (forall n ps ng K t,
     In (t, v1) (Freq.ranked n ps ng) ->
     In (t, v2) (Freq.ranked n ps ng) ->
     before (t, v1) (t, v2) (Freq.ranked n ps ng) /\
     (In (t, v2) (take (Z.to_nat K) (Freq.ranked n ps ng)) ->
      before (Freq.polarity ps ng v1) (Freq.polarity ps ng v2)
        (Freq.picked_literals n ps ng K))) /\
  (forall scores nvars k avoid,
     1 <= v1 -> v2 <= nvars ->
     (fst (scores v1) =? fst (scores v2))%float = true ->
     before v1 v2 (V4.rank_order scores nvars) /\
     (signs scores ->
      v4_literal scores v1 ∉ avoid -> (- v4_literal scores v1) ∉ avoid ->
      In (v4_literal scores v2) (V4.choose scores (V4.rank_order scores nvars) k avoid []) ->
      before (v4_literal scores v1) (v4_literal scores v2)
        (V4.choose scores (V4.rank_order scores nvars) k avoid []))).
Proof.
  intros Hlt. repeat split.
  - now apply v0b_ranked_ties.
  - intros Hin. unfold V0b.picked_literals.
    apply (before_map (fun x : float * Z => V0b.polarity ps ng (snd x)) (s1, v1) (s2, v2)).
    apply before_firstn; [apply v0b_ranked_NoDup|now apply v0b_ranked_ties|exact Hin].
  - now apply freq_ranked_ties.
  - intros Hin. unfold Freq.picked_literals.
    apply (before_map (fun x : Z * Z => Freq.polarity ps ng (snd x)) (t, v1) (t, v2)).
    apply before_firstn; [apply freq_ranked_NoDup|now apply freq_ranked_ties|exact Hin].
  - now apply v4_rank_order_ties.
  - intros Hs Ha1 Ha2 Hin. rewrite choose_spec in *. cbn [app] in *.
    apply before_firstn; [now apply v4_candidates_NoDup| |exact Hin].
    assert (Hc2 : In (v4_literal scores v2)
                    (v4_candidates scores (V4.rank_order scores nvars) avoid)).
    { clear -Hin. revert Hin. generalize (Z.to_nat (Z.max 1 (k - Z.of_nat (length (@nil Z))))).
      generalize (v4_candidates scores (V4.rank_order scores nvars) avoid).
      intros l m. revert m. induction l as [|a l IH]; intros [|m] H; cbn in *; try tauto.
      destruct H; [now left|right; eauto]. }
    unfold v4_candidates in *. apply filter_In in Hc2 as [_ Hok2].
    apply before_filter; [|  |exact Hok2].
    + apply before_map. now apply v4_rank_order_ties.
    + apply negb_true_iff, bool_decide_eq_false. tauto.
Qed.

Lemma ties_rank_smaller_id_first_witness :
  (before (0.5%float, 2) (0.5%float, 3) (V0b.ranked 3 [0; 1; 0.5; 0.5]%float) /\
   before (V0b.polarity ∅ ∅ 2) (V0b.polarity ∅ ∅ 3)
     (V0b.picked_literals 3 [0; 1; 0.5; 0.5]%float ∅ ∅ 3)) /\
  (before (1, 2) (1, 3) (Freq.ranked 4 {[1 := 2; 2 := 1; 3 := 1; 4 := 1]} {[1 := 1]}) /\
   before (Freq.polarity {[1 := 2; 2 := 1; 3 := 1; 4 := 1]} {[1 := 1]} 2)
     (Freq.polarity {[1 := 2; 2 := 1; 3 := 1; 4 := 1]} {[1 := 1]} 3)
     (Freq.picked_literals 4 {[1 := 2; 2 := 1; 3 := 1; 4 := 1]} {[1 := 1]} 3)) /\
  (before 2 3 (V4.rank_order example_scores 3) /\
   before (v4_literal example_scores 2) (v4_literal example_scores 3)
     (V4.choose example_scores (V4.rank_order example_scores 3) 3 ∅ [])).
Proof.
  destruct (ties_rank_smaller_id_first 2 3 ltac:(lia)) as (Ha & Hb & Hc).
  split; [|split].
  - destruct (Ha 3 [0; 1; 0.5; 0.5]%float ∅ ∅ 3 0.5%float 0.5%float) as [H1 H2].
    + vm_compute. right. left. reflexivity.
    + vm_compute. right. right. left. reflexivity.
    + reflexivity.
    + split; [exact H1|]. apply H2. vm_compute. right. right. left. reflexivity.
  - destruct (Hb 4 {[1 := 2; 2 := 1; 3 := 1; 4 := 1]} {[1 := 1]} 3 1) as [H1 H2].
    + vm_compute. right. left. reflexivity.
    + vm_compute. right. right. left. reflexivity.
    + split; [exact H1|]. apply H2. vm_compute. right. right. left. reflexivity.
  - destruct (Hc example_scores 3 3 ∅) as [H1 H2]; [lia|lia|reflexivity|].
    split; [exact H1|]. apply H2.
    + intros v. now left.
    + apply not_elem_of_empty.
    + apply not_elem_of_empty.
    + vm_compute. right. right. left. reflexivity.
Defined.

(** ** How many literals a policy returns (C4) *)

Lemma NoDup_firstn {A : Type} (k : nat) (l : list A) : List.NoDup l -> List.NoDup (firstn k l).
Proof.
  intros H. rewrite <- (firstn_skipn k l) in H. now apply NoDup_app_remove_r in H.
Qed.

Lemma firstn_In {A : Type} (k : nat) (l : list A) (x : A) : In x (firstn k l) -> In x l.
Proof.
  intros H. rewrite <- (firstn_skipn k l). apply in_or_app. now left.
Qed.

(** The shape shared by the two top-K pickers: the first [k] entries of a
    ranking of distinct variables, each turned into a literal of its
    variable. *)
Lemma top_k_literals {S : Type} (ranked : list (S * Z)) (pol : Z -> Z) (k : nat) :
  List.NoDup (map snd ranked) ->
  (forall x, In x ranked -> Z.abs (pol (snd x)) = snd x) ->
  let lits := map (fun x : S * Z => pol (snd x)) (firstn k ranked) in
  length lits = Nat.min k (length ranked) /\ List.NoDup (map Z.abs lits).
Proof.
  intros Hnd Habs lits. subst lits. split.
  - now rewrite length_map, length_firstn.
  - rewrite map_map.
    rewrite (map_ext_in _ snd).
    + rewrite <- firstn_map. now apply NoDup_firstn.
    + intros x Hx. apply Habs. now apply firstn_In in Hx.
Qed.

Lemma NoDup_snd_tagged {A B : Type} (f : A -> B) (lt : B * A -> B * A -> bool) (l : list A) :
  List.NoDup l -> List.NoDup (map snd (py_sort lt (map (fun v => (f v, v)) l))).
Proof.
  intros H. eapply Permutation_NoDup.
  - symmetry. apply Permutation_map. apply py_sort_Permutation.
  - rewrite map_map. cbn [snd]. now rewrite map_id.
Qed.

Lemma v0b_polarity_abs (ps ng : gmap Z Z) (v : Z) : 0 <= v -> Z.abs (V0b.polarity ps ng v) = v.
Proof. intros H. unfold V0b.polarity. destruct (_ <=? _); lia. Qed.

Lemma freq_polarity_abs (ps ng : gmap Z Z) (v : Z) : 0 <= v -> Z.abs (Freq.polarity ps ng v) = v.
Proof. intros H. unfold Freq.polarity. destruct (_ <=? _); lia. Qed.

Lemma v0b_picked (n : Z) (vs : list float) (ps ng : gmap Z Z) (k : Z) :
  length (V0b.picked_literals n vs ps ng k)
  = Nat.min (Z.to_nat k) (length (V0b.ranked n vs))
  /\ List.NoDup (map Z.abs (V0b.picked_literals n vs ps ng k)).
Proof.
  unfold V0b.picked_literals. apply top_k_literals.
  - unfold V0b.ranked, sort_by_key. apply NoDup_snd_tagged, List.NoDup_filter, range1_NoDup.
  - intros [s v] Hx. apply v0b_ranked_In in Hx as (Hv & _). cbn [snd].
    apply v0b_polarity_abs. lia.
Qed.

Lemma freq_picked (n : Z) (ps ng : gmap Z Z) (K : Z) :
  length (Freq.picked_literals n ps ng K)
  = Nat.min (Z.to_nat K) (length (Freq.ranked n ps ng))
  /\ List.NoDup (map Z.abs (Freq.picked_literals n ps ng K)).
Proof.
  unfold Freq.picked_literals. apply top_k_literals.
  - unfold Freq.ranked, sort_by_key. apply NoDup_snd_tagged, List.NoDup_filter, range1_NoDup.
  - intros [s v] Hx. apply freq_ranked_In in Hx as (Hv & _). cbn [snd].
    apply freq_polarity_abs. lia.
Qed.

Lemma v0b_run_selection (file : str) (k iters : Z) :
  V0b.run file k iters
  = letM lits := V0b.selection file k iters in
    Return (join (lit " ") (map str_of_Z lits) ++ [LF]).
Proof.
  unfold V0b.run, V0b.selection.
  destruct (V0b.scores_of file iters) as [[[[n vs] ps] ng]|e]; [|reflexivity].
  cbn [bind]. unfold V0b.pick_top_k_literals.
  destruct (V0b.ranked n vs); reflexivity.
Qed.

Lemma trimmed_app (a m b : str) :
  trimmed a = true -> trimmed b = true -> trimmed (a ++ m ++ b) = true.
Proof.
  intros Ha Hb.
  destruct (trimmed_inv a Ha) as (x & a' & -> & Hx & _).
  destruct (trimmed_inv b Hb) as (_ & _ & _ & _ & b' & y & -> & Hy).
  apply (trimmed_intro x y (a' ++ m ++ b' ++ [y]) ((x :: a') ++ m ++ b')); auto.
  cbn [app]. now rewrite <- !app_assoc.
Qed.

Lemma join_trimmed (ws : list str) :
  ws <> [] -> forallb token ws = true -> trimmed (join [SP] ws) = true.
Proof.
  induction ws as [|w ws IH]; [congruence|]. intros _ H.
  cbn [forallb] in H. apply andb_true_iff in H as [Hw Hws].
  destruct ws as [|w' ws]; [now apply token_trimmed|].
  change (join [SP] (w :: w' :: ws)) with (w ++ [SP] ++ join [SP] (w' :: ws)).
  apply trimmed_app; [now apply token_trimmed|]. apply IH; [discriminate|exact Hws].
Qed.

Lemma omap_int_of_str (l : list Z) : omap int_of_str (map str_of_Z l) = l.
Proof.
  induction l as [|z l IH]; [reflexivity|].
  change (omap int_of_str (map str_of_Z (z :: l)))
    with (match int_of_str (str_of_Z z) with
          | Some y => y :: omap int_of_str (map str_of_Z l)
          | None => omap int_of_str (map str_of_Z l)
          end).
  now rewrite int_of_str_of_Z, IH.
Qed.

Lemma str_of_Z_tokens (l : list Z) : forallb token (map str_of_Z l) = true.
Proof.
  rewrite forallb_forall. intros w Hw. apply in_map_iff in Hw as (z & <- & _).
  apply str_of_Z_token.
Qed.

(** The line a picker prints, read back by the controller. *)
Lemma printed_line_read_back (lits : list Z) :
  lits <> [] ->
  omap int_of_str (split (strip (join (lit " ") (map str_of_Z lits) ++ [LF]))) = lits.
Proof.
  intros Hne. change (lit " ") with [SP].
  rewrite strip_line.
  - rewrite split_join by apply str_of_Z_tokens. apply omap_int_of_str.
  - apply join_trimmed; [|apply str_of_Z_tokens]. now destruct lits.
Qed.

Lemma v0b_selection_inv (file : str) (k iters : Z) (lits : list Z) :
  V0b.selection file k iters = Return lits ->
  exists n vs ps ng,
    V0b.scores_of file iters = Return (n, vs, ps, ng) /\
    V0b.ranked n vs <> [] /\
    lits = V0b.picked_literals n vs ps ng k.
Proof.
  unfold V0b.selection. intros E.
  apply bind_Return_inv in E as ([[[n vs] ps] ng] & Es & E).
  exists n, vs, ps, ng. split; [exact Es|].
  destruct (V0b.ranked n vs) eqn:Er; [discriminate|].
  injection E as <-. split; [discriminate|reflexivity].
Qed.

Lemma v0b_main_inv (file : str) (k : Z) (out : str) :
  V0b.main file [str_of_Z k] = Return out ->
  0 < k /\ exists lits,
    V0b.selection file k 20 = Return lits /\
    out = join (lit " ") (map str_of_Z lits) ++ [LF].
Proof.
  unfold V0b.main, V0b.int_arg. rewrite int_of_str_of_Z. cbn [bind].
  destruct (Z.leb_spec k 0); [discriminate|]. rewrite v0b_run_selection.
  intros E. apply bind_Return_inv in E as (lits & Es & E). injection E as <-.
  split; [lia|]. now exists lits.
Qed.

Lemma v1_pick_literals_inv (file : str) (k : Z) (lits : list Z) :
  V1.pick_literals file k = Return lits ->
  0 < k /\ V0b.selection file k 20 = Return lits /\
  length lits = Z.to_nat k /\ List.NoDup (map Z.abs lits).
Proof.
  unfold V1.pick_literals. destruct (V0b.main file [str_of_Z k]) as [out|e] eqn:Em;
    [|discriminate].
  apply v0b_main_inv in Em as (Hk & picked & Es & ->).
  destruct (v0b_selection_inv _ _ _ _ Es) as (n & vs & ps & ng & _ & Hr & Ep).
  destruct (v0b_picked n vs ps ng k) as [Hlen Hnd]. rewrite <- Ep in Hlen, Hnd.
  assert (Hne : picked <> []).
  { intros ->. cbn [length] in Hlen. destruct (V0b.ranked n vs); [congruence|].
    cbn [length] in Hlen. lia. }
  rewrite printed_line_read_back by exact Hne.
  destruct (Z.ltb_spec (Z.of_nat (length picked)) k); [discriminate|].
  intros E. injection E as <-.
  assert (Hlen' : length picked = Z.to_nat k) by lia.
  rewrite firstn_all2 by lia. auto.
Qed.

(** *** The random control *)

Lemma fallback_spec (vs : list Z) (want_k : Z) (used : gset Z) (new_lits lits : list Z)
    (used' : gset Z) :
  RandomV1.fallback vs want_k used new_lits = (lits, used') ->
  exists added,
    lits = new_lits ++ added /\
    List.NoDup added /\
    (forall l, In l added -> l ∉ used) /\
    used' = list_to_set added ∪ used /\
    (Z.of_nat (length lits) < want_k -> forall v, In v vs -> (v ∈ used') \/ ((- v) ∈ used')) /\
    Z.of_nat (length lits) <= Z.max want_k (Z.of_nat (length new_lits)).
Proof.
  revert used new_lits; induction vs as [|v rest IH]; intros used new_lits E;
    cbn [RandomV1.fallback] in E.
  - injection E as E1 E2; subst. exists []. rewrite app_nil_r.
    split; [reflexivity|]. split; [constructor|]. split; [intros l []|].
    split; [set_solver|]. split; [intros _ w []|lia].
  - destruct (Z.leb_spec want_k (Z.of_nat (length new_lits))) as [Hk|Hk].
    + injection E as E1 E2; subst. exists []. rewrite app_nil_r.
      split; [reflexivity|]. split; [constructor|]. split; [intros l []|].
      split; [set_solver|]. split; [intros; lia|lia].
    + destruct (decide ((v ∉ used) ∧ ((- v) ∉ used))) as [[Hv Hnv]|Hd].
      * apply IH in E as (added & -> & Hnd & Hout & -> & Hex & Hlen).
        exists (v :: added).
        split; [now rewrite <- app_assoc|].
        split. { constructor; [|exact Hnd]. intros Hin. apply Hout in Hin. set_solver. }
        split. { intros l [<-|Hl]; [exact Hv|]. apply Hout in Hl. set_solver. }
        split. { set_solver. }
        split. { intros Hlt w [<-|Hw]; [left; set_solver|now apply Hex]. }
        rewrite !length_app in *. cbn [length] in *. lia.
      * apply IH in E as (added & -> & Hnd & Hout & -> & Hex & Hlen).
        exists added.
        split; [reflexivity|]. split; [exact Hnd|]. split; [exact Hout|].
        split; [reflexivity|]. split; [|exact Hlen].
        intros Hlt w [Ew|Hw]; [subst w|now apply Hex].
        destruct (decide (v ∈ used)) as [Hw|Hw]; [left; set_solver|].
        destruct (decide ((- v) ∈ used)) as [Hw'|Hw']; [right; set_solver|].
        exfalso. apply Hd. now split.
Qed.

Section RandomFacts.
Context {G : Type} (randint : G -> Z -> Z -> Z * G) (getrandbits1 : G -> Z * G).

Lemma draw_loop_spec (budget : nat) (nvars want_k : Z) (used : gset Z)
    (new_lits lits : list Z) (g g' : G) (used' : gset Z) :
  RandomV1.draw_loop randint getrandbits1 budget nvars want_k used new_lits g
  = Return (lits, used', g') ->
  exists added,
    lits = new_lits ++ added /\
    List.NoDup added /\
    (forall l, In l added -> l ∉ used) /\
    used' = list_to_set added ∪ used /\
    (Z.of_nat (length lits) < want_k ->
     forall v, In v (range1 nvars) -> (v ∈ used') \/ ((- v) ∈ used')) /\
    Z.of_nat (length lits) <= Z.max want_k (Z.of_nat (length new_lits)).
Proof.
  revert used new_lits g; induction budget as [|b IH]; intros used new_lits g E;
    cbn [RandomV1.draw_loop] in E;
    destruct (Z.ltb_spec (Z.of_nat (length new_lits)) want_k) as [Hk|Hk].
  - destruct (RandomV1.fallback (range1 nvars) want_k used new_lits) as [ls us] eqn:Ef.
    injection E as E1 E2 E3; subst. now apply fallback_spec.
  - injection E as E1 E2 E3; subst. exists []. rewrite app_nil_r.
    split; [reflexivity|]. split; [constructor|]. split; [intros l []|].
    split; [set_solver|]. split; [intros; lia|lia].
  - destruct (nvars <? 1); [discriminate|].
    destruct (randint g 1 nvars) as [v g1]. destruct (getrandbits1 g1) as [bit g2].
    set (l := if bit =? 0 then v else - v) in *.
    destruct (decide (l ∉ used)) as [Hl|Hl].
    + apply IH in E as (added & -> & Hnd & Hout & -> & Hex & Hlen).
      exists (l :: added).
      split; [now rewrite <- app_assoc|].
      split. { constructor; [|exact Hnd]. intros Hin. apply Hout in Hin. set_solver. }
      split. { intros l' [<-|Hl']; [exact Hl|]. apply Hout in Hl'. set_solver. }
      split. { set_solver. }
      split; [exact Hex|].
      rewrite !length_app in *. cbn [length] in *. lia.
    + now apply IH in E.
  - injection E as E1 E2 E3; subst. exists []. rewrite app_nil_r.
    split; [reflexivity|]. split; [constructor|]. split; [intros l []|].
    split; [set_solver|]. split; [intros; lia|lia].
Qed.

(** A call of [pick_random_literals]: distinct literals, none of them used
    before, all of them used afterwards; never more than asked for, and
    fewer only when every variable of the file is used in some polarity. *)
Lemma pick_random_literals_spec (curr : str) (want_k : Z) (used used' : gset Z)
    (g g' : G) (lits : list Z) :
  RandomV1.pick_random_literals randint getrandbits1 curr want_k used g
  = Return (lits, used', g') ->
  List.NoDup lits /\
  (forall l, In l lits -> l ∉ used) /\
  used' = list_to_set lits ∪ used /\
  Z.of_nat (length lits) <= Z.max want_k 0 /\
  (Z.of_nat (length lits) < want_k ->
   exists nvars, RandomV1.parse_cnf_num_vars curr = Return (Some nvars) /\
     forall v, 1 <= v <= nvars -> (v ∈ used') \/ ((- v) ∈ used')).
Proof.
  unfold RandomV1.pick_random_literals. intros E.
  apply bind_Return_inv in E as ([nvars|] & En & E); [|discriminate].
  apply draw_loop_spec in E as (added & -> & Hnd & Hout & -> & Hex & Hlen).
  cbn [app length] in *.
  split; [exact Hnd|]. split; [exact Hout|]. split; [reflexivity|]. split; [lia|].
  intros Hlt. exists nvars. split; [exact En|].
  intros v Hv. apply Hex; [exact Hlt|now apply range1_In].
Qed.

End RandomFacts.

Lemma freq_selection_inv (file : str) (K : Z) (lits : list Z) :
  Freq.selection file K = Return lits ->
  0 < K /\ exists st n,
    Freq.parse file = Return st /\ Freq.num_vars st = Some n /\
    Freq.ranked n (Freq.pos st) (Freq.neg st) <> [] /\
    lits = Freq.picked_literals n (Freq.pos st) (Freq.neg st) K.
Proof.
  unfold Freq.selection. destruct (Z.leb_spec K 0); [discriminate|]. intros E.
  apply bind_Return_inv in E as (st & Es & E).
  destruct (Freq.num_vars st) as [n|] eqn:En; [|discriminate].
  destruct (Freq.ranked n (Freq.pos st) (Freq.neg st)) eqn:Er; [discriminate|].
  injection E as <-. split; [lia|]. exists st, n.
  split; [exact Es|]. split; [exact En|]. split; [rewrite Er; discriminate|reflexivity].
Qed.

(** The sizes of the selections.  The spectral top-K as the v1 controller
    calls it ([pick_literals]) returns, when it returns, exactly [k]
    literals of distinct variables.  A run of one of the two pickers that
    prints has ranked some variable, and prints the top
    [min(K, number of ranked variables)] literals, of distinct variables.
    A call of the random control returns distinct literals, at most
    [want_k] of them, and fewer only when every variable of the file is
    used in some polarity. *)
Theorem selection_sizes (file : str) (k : Z) (lits : list Z) :
  (V1.pick_literals file k = Return lits ->
     0 < k /\ length lits = Z.to_nat k /\ List.NoDup (map Z.abs lits)) /\
  (forall iters, V0b.selection file k iters = Return lits ->
     exists n vs ps ng,
       V0b.scores_of file iters = Return (n, vs, ps, ng) /\
       V0b.ranked n vs <> [] /\
       length lits = Nat.min (Z.to_nat k) (length (V0b.ranked n vs)) /\
       List.NoDup (map Z.abs lits)) /\
  (Freq.selection file k = Return lits ->
     0 < k /\ lits <> [] /\
     exists st n,
       Freq.parse file = Return st /\ Freq.num_vars st = Some n /\
       length lits = Nat.min (Z.to_nat k) (length (Freq.ranked n (Freq.pos st) (Freq.neg st))) /\
       List.NoDup (map Z.abs lits)) /\
  (forall (G : Type) (randint : G -> Z -> Z -> Z * G) (getrandbits1 : G -> Z * G)
          (used used' : gset Z) (g g' : G),
     RandomV1.pick_random_literals randint getrandbits1 file k used g
     = Return (lits, used', g') ->
     List.NoDup lits /\ Z.of_nat (length lits) <= Z.max k 0 /\
     (Z.of_nat (length lits) < k ->
      exists nvars, RandomV1.parse_cnf_num_vars file = Return (Some nvars) /\
        forall v, 1 <= v <= nvars -> (v ∈ used') \/ ((- v) ∈ used'))).
Proof.
  split; [|split; [|split]].
  - intros E. apply v1_pick_literals_inv in E as (Hk & _ & Hlen & Hnd). auto.
  - intros iters E.
    destruct (v0b_selection_inv _ _ _ _ E) as (n & vs & ps & ng & Es & Hr & ->).
    destruct (v0b_picked n vs ps ng k) as [Hlen Hnd].
    exists n, vs, ps, ng. auto.
  - intros E. apply freq_selection_inv in E as (Hk & st & n & Es & En & Hr & ->).
    destruct (freq_picked n (Freq.pos st) (Freq.neg st) k) as [Hlen Hnd].
    split; [exact Hk|]. split.
    + intros E0. rewrite E0 in Hlen. cbn [length] in Hlen.
      destruct (Freq.ranked n (Freq.pos st) (Freq.neg st)); [congruence|].
      cbn [length] in Hlen. lia.
    + exists st, n. auto.
  - intros G randint getrandbits1 used used' g g' E.
    apply pick_random_literals_spec in E as (Hnd & _ & _ & Hlen & Hex). auto.
Qed.

Lemma selection_sizes_witness :
  (0 < 2 /\ length [1; 2] = Z.to_nat 2 /\ List.NoDup (map Z.abs [1; 2])) /\
  (List.NoDup [1; -1] /\ Z.of_nat (length [1; -1]) <= Z.max 2 0).
Proof.
  split.
  - destruct (selection_sizes (text ["p cnf 4 3"; "1 2 0"; "-1 3 0"; "1 4 0"]) 2 [1; 2])
      as (H1 & _).
    apply H1. vm_compute. reflexivity.
  - destruct (selection_sizes (text ["p cnf 1 1"; "1 0"]) 2 [1; -1]) as (_ & _ & _ & H4).
    destruct (H4 Z first_randint alternating_bit ∅ ({[ -1 ]} ∪ ({[ 1 ]} ∪ ∅)) 0 2)
      as (Ha & Hb & _).
    + vm_compute. reflexivity.
    + auto.
Defined.

(** C4 at a file in which four variables occur.  The claim has every
    selection policy return exactly K distinct literals or fail, and the
    header comments of the two pickers promise one line of K literals;
    asked for ten literals, both pickers print four and exit zero.  On a
    file of one variable the random control, asked for three literals,
    returns two. *)
Lemma pickers_return_fewer :
  V0b.main (text ["p cnf 4 3"; "1 2 0"; "-1 3 0"; "1 4 0"]) [lit "10"]
  = Return (lit "1 2 3 4" ++ [LF]) /\
  Freq.main (text ["p cnf 4 3"; "1 2 0"; "-1 3 0"; "1 4 0"]) [lit "10"]
  = Return (lit "1 2 3 4" ++ [LF]) /\
  exists used' g',
    RandomV1.pick_random_literals first_randint alternating_bit
      (text ["p cnf 1 1"; "1 0"]) 3 ∅ 0
    = Return ([1; -1], used', g').
Proof.
  split; [vm_compute; reflexivity|]. split; [vm_compute; reflexivity|].
  eexists _, _. vm_compute. reflexivity.
Qed.

(** ** Avoidance across the rounds of a run (C1) *)

Lemma NoDup_app_intro {A : Type} (l l' : list A) :
  List.NoDup l -> List.NoDup l' -> (forall a, In a l -> In a l' -> False) ->
  List.NoDup (l ++ l').
Proof.
  intros Hl Hl' Hd. induction Hl as [|a l Ha Hl IH]; [exact Hl'|].
  cbn [app]. constructor.
  - intros Hin. apply in_app_or in Hin as [Hin|Hin]; [now apply Ha|].
    apply (Hd a); [now left|exact Hin].
  - apply IH. intros b Hb Hb'. apply (Hd b); [now right|exact Hb'].
Qed.

Lemma NoDup_app_disjoint {A : Type} (l l' : list A) (a : A) :
  List.NoDup (l ++ l') -> In a l -> In a l' -> False.
Proof.
  induction l as [|b l IH]; intros Hnd Ha Ha'; [destruct Ha|].
  cbn [app] in Hnd. inversion Hnd as [|? ? Hb Hnd']; subst.
  destruct Ha as [->|Ha].
  - apply Hb. apply in_or_app. now right.
  - now apply IH.
Qed.

(** In a list of selections whose concatenation repeats no value of [f],
    an earlier and a later selection share no value of [f]. *)
Lemma NoDup_concat_before {A B : Type} (f : A -> B) (sels : list (list A))
    (s1 s2 : list A) (l1 l2 : A) :
  List.NoDup (map f (concat sels)) ->
  before s1 s2 sels -> In l1 s1 -> In l2 s2 -> f l1 <> f l2.
Proof.
  intros Hnd (a & b & c & ->) H1 H2 E.
  rewrite concat_app, map_app in Hnd. apply NoDup_app_remove_l in Hnd.
  cbn [concat] in Hnd. rewrite map_app in Hnd.
  apply (NoDup_app_disjoint _ _ (f l1) Hnd).
  - now apply in_map.
  - rewrite E. apply in_map. rewrite concat_app. apply in_or_app. right.
    cbn [concat]. apply in_or_app. now left.
Qed.

Lemma selections_snoc {S C T : Type} (rows : list (row S C T)) (r : row S C T) :
  concat (selections (rows ++ [r])) = concat (selections rows) ++ row_new_units r.
Proof.
  unfold selections. rewrite map_app, concat_app. cbn [map concat]. now rewrite app_nil_r.
Qed.

Lemma NoDup_map_filter {A B : Type} (f : A -> B) (p : A -> bool) (l : list A) :
  List.NoDup (map f l) -> List.NoDup (map f (List.filter p l)).
Proof.
  induction l as [|a l IH]; intros H; [constructor|].
  cbn [map] in H. inversion H as [|? ? Ha Hl]; subst. cbn [List.filter].
  destruct (p a); [|now apply IH]. cbn [map]. constructor; [|now apply IH].
  intros Hin. apply Ha. apply in_map_iff in Hin as (b & E & Hb).
  apply filter_In in Hb as [Hb _]. rewrite <- E. now apply in_map.
Qed.

Lemma literal_scores_signs {pow_half : float -> float}
    (cls : list (list Z)) (n iters : Z) (scores : Z -> float * Z) :
  V4.literal_scores_and_polarity pow_half cls n iters = Return scores -> signs scores.
Proof.
  unfold V4.literal_scores_and_polarity. intros E.
  apply bind_Return_inv in E as (cm & _ & E). injection E as <-.
  intros v. cbn [snd]. destruct (_ <=? _)%float; auto.
Qed.

(** What [pick_units_rayleigh] returns: literals of distinct variables of
    [1..nvars], none of them in the avoid set in either polarity; [k] of
    them when that many candidates are left (one when [k] is not
    positive). *)
Lemma pick_units_rayleigh_spec {pow_half : float -> float}
    (file : str) (k iters : Z) (avoid : gset Z) (lits : list Z) :
  V4.pick_units_rayleigh pow_half file k iters avoid = Return lits ->
  exists c scores,
    Dimacs.read_dimacs file = Return c /\
    V4.literal_scores_and_polarity pow_half (Dimacs.clauses c) (Dimacs.nvars c) iters = Return scores /\
    lits = firstn (Z.to_nat (Z.max 1 k))
             (v4_candidates scores (V4.rank_order scores (Dimacs.nvars c)) avoid) /\
    List.NoDup (map Z.abs lits) /\
    (forall l, In l lits ->
       (l ∉ avoid) /\ ((- l) ∉ avoid) /\ 1 <= Z.abs l <= Dimacs.nvars c).
Proof.
  unfold V4.pick_units_rayleigh. intros E.
  apply bind_Return_inv in E as (c & Ec & E).
  apply bind_Return_inv in E as (scores & Es & E). injection E as <-.
  pose proof (literal_scores_signs _ _ _ _ Es) as Hs.
  exists c, scores. split; [exact Ec|]. split; [exact Es|].
  rewrite choose_spec. cbn [app length]. rewrite Z.sub_0_r.
  split; [reflexivity|]. split.
  - rewrite <- firstn_map. apply NoDup_firstn. unfold v4_candidates.
    apply NoDup_map_filter. rewrite map_map.
    rewrite (map_ext_in _ (fun v => v)).
    + rewrite map_id. apply v4_rank_order_NoDup.
    + intros v Hv. apply v4_rank_order_In in Hv. apply v4_literal_abs; [exact Hs|lia].
  - intros l Hl. apply firstn_In in Hl. unfold v4_candidates in Hl.
    apply filter_In in Hl as [Hl Hok]. apply negb_true_iff, bool_decide_eq_false in Hok.
    apply in_map_iff in Hl as (v & <- & Hv). apply v4_rank_order_In in Hv.
    rewrite v4_literal_abs by (auto; lia). tauto.
Qed.

Lemma forcewalk_row_units (py_float : str -> option float) (solver : Z -> str -> str)
    (it k : Z) (units : list Z) (cnf : str) :
  row_new_units (Forcewalk.solve_row py_float solver it k units cnf) = units.
Proof.
  unfold Forcewalk.solve_row.
  now destruct (v4_parse_glucose_log py_float (solver it cnf)) as [[s c] t].
Qed.

Lemma random_row_units (py_float : str -> option float) (solver : Z -> str -> str)
    (it k : Z) (units : list Z) (cnf : str) (r : RandomV1.rrow) :
  RandomV1.solve_row py_float solver it k units cnf = Return r ->
  row_new_units r = units.
Proof.
  unfold RandomV1.solve_row.
  destruct (v1_parse_glucose_output py_float (solver it cnf)) as [[[s c] t]|e];
    [|discriminate].
  cbn [bind]. now intros [= <-].
Qed.

Lemma add_avoid_elem (avoid : gset Z) (units : list Z) (l : Z) :
  l ∈ Forcewalk.add_avoid avoid units <-> l ∈ avoid \/ In l units \/ In (- l) units.
Proof.
  unfold Forcewalk.add_avoid. revert avoid; induction units as [|u units IH]; intros avoid.
  - cbn. tauto.
  - cbn [fold_left In]. rewrite IH. rewrite !elem_of_union, !elem_of_singleton.
    split; intros H; repeat destruct H as [H|H]; subst; auto; try lia.
Qed.

Section ForcewalkFacts.
Variable py_float : str -> option float.
Variable solver : Z -> str -> str.

Lemma forcewalk_rounds_inv {pow_half : float -> float}
    (its : list Z) (k : Z) (curr : str) (avoid : gset Z) (kt : Z)
    (rows : list Forcewalk.frow) :
  forcewalk_inv avoid rows ->
  List.NoDup (map Z.abs (concat (selections
    (fst (Forcewalk.rounds pow_half py_float solver its k curr avoid kt rows))))).
Proof.
  revert curr avoid kt rows; induction its as [|it its IH]; intros curr avoid kt rows Hinv.
  - exact (proj1 Hinv).
  - cbn [Forcewalk.rounds].
    destruct (V4.pick_units_rayleigh pow_half curr k 25 avoid) as [units|e] eqn:Ep;
      [|exact (proj1 Hinv)].
    destruct (Z.of_nat (length units) <? k); [exact (proj1 Hinv)|].
    destruct (Dimacs.add_unit_clauses curr units) as [cnf_out|e]; [|exact (proj1 Hinv)].
    destruct (pick_units_rayleigh_spec _ _ _ _ _ Ep) as (c & scores & _ & _ & _ & Hnd & Hout).
    set (r := Forcewalk.solve_row py_float solver it (kt + Z.of_nat (length units)) units cnf_out).
    assert (Hinv' : forcewalk_inv (Forcewalk.add_avoid avoid units) (rows ++ [r])).
    { destruct Hinv as [Hn Hav]. unfold Forcewalk.frow in *. split.
      - rewrite (selections_snoc rows r), map_app. unfold r. rewrite forcewalk_row_units.
        apply NoDup_app_intro; [exact Hn|exact Hnd|].
        intros a Ha Ha'. apply in_map_iff in Ha as (l & <- & Hl).
        apply in_map_iff in Ha' as (l' & E & Hl').
        destruct (Hav l Hl) as [H1 H2]. destruct (Hout l' Hl') as (H3 & H4 & _).
        destruct (Z.abs_spec l) as [[_ El]|[_ El]], (Z.abs_spec l') as [[_ El']|[_ El']];
          rewrite El, El' in E.
        + subst l'. contradiction.
        + replace l with (- l') in H1 by lia. contradiction.
        + replace (- l) with l' in H2 by lia. contradiction.
        + replace l' with l in H3 by lia. contradiction.
      - intros l Hl. rewrite (selections_snoc rows r) in Hl. unfold r in Hl.
        rewrite forcewalk_row_units in Hl. rewrite !add_avoid_elem.
        apply in_app_or in Hl as [Hl|Hl].
        + destruct (Hav l Hl). auto.
        + split; [auto|]. right. right. now rewrite Z.opp_involutive. }
    destruct (Forcewalk.collapsed r); [exact (proj1 Hinv')|]. now apply IH.
Qed.

Lemma forcewalk_main_NoDup {pow_half : float -> float} (input : str) (max_iters k : Z) :
  List.NoDup (map Z.abs (concat (selections
    (fst (Forcewalk.main pow_half py_float solver input max_iters k))))).
Proof.
  unfold Forcewalk.main.
  set (r0 := Forcewalk.solve_row py_float solver 0 0 [] input).
  assert (Hinv : forcewalk_inv ∅ [r0]).
  { unfold forcewalk_inv, selections, r0. cbn [map concat].
    rewrite forcewalk_row_units. cbn. split; [constructor|tauto]. }
  destruct (Forcewalk.collapsed r0); [exact (proj1 Hinv)|].
  now apply forcewalk_rounds_inv.
Qed.

End ForcewalkFacts.

Section RandomRunFacts.
Context {G : Type} (randint : G -> Z -> Z -> Z * G) (getrandbits1 : G -> Z * G).
Variable py_float : str -> option float.
Variable solver : Z -> str -> str.

Lemma random_rounds_inv (fuel : nat) (k_total k_step it : Z) (curr : str) (used : gset Z)
    (k_added : Z) (g : G) (rows : list RandomV1.rrow) :
  random_inv used rows ->
  List.NoDup (concat (selections
    (fst (RandomV1.rounds randint getrandbits1 py_float solver fuel k_total k_step it curr
            used k_added g rows)))).
Proof.
  revert it curr used k_added g rows; induction fuel as [|fuel IH];
    intros it curr used k_added g rows Hinv; [exact (proj1 Hinv)|].
  cbn [RandomV1.rounds]. destruct (k_added <? k_total); [|exact (proj1 Hinv)].
  set (this_k := if k_step <=? k_total - k_added then k_step else k_total - k_added).
  destruct (RandomV1.pick_random_literals randint getrandbits1 curr this_k used g)
    as [[[lits used'] g']|e] eqn:Ep; [|exact (proj1 Hinv)].
  destruct (V1.apply_new_units curr lits) as [next|e]; [|exact (proj1 Hinv)].
  destruct (pick_random_literals_spec _ _ _ _ _ _ _ _ _ Ep) as (Hnd & Hout & -> & _).
  destruct (RandomV1.solve_row py_float solver (it + 1) (k_added + this_k) lits next)
    as [r|e] eqn:Er; [|exact (proj1 Hinv)].
  apply random_row_units in Er.
  assert (Hinv' : random_inv (list_to_set lits ∪ used) (rows ++ [r])).
  { destruct Hinv as [Hn Hu]. unfold RandomV1.rrow in *. split.
    - rewrite (selections_snoc rows r). rewrite Er.
      apply NoDup_app_intro; [exact Hn|exact Hnd|].
      intros a Ha Ha'. apply (Hout a Ha'). now apply Hu.
    - intros l Hl. rewrite (selections_snoc rows r) in Hl.
      rewrite Er in Hl. apply in_app_or in Hl as [Hl|Hl].
      + apply elem_of_union. right. now apply Hu.
      + apply elem_of_union. left. apply elem_of_list_to_set. now apply list_elem_of_In. }
  destruct (RandomV1.collapsed r); [exact (proj1 Hinv')|]. now apply IH.
Qed.

Lemma random_main_NoDup (input : str) (k_total k_step : Z) (g : G) :
  List.NoDup (concat (selections
    (fst (RandomV1.main randint getrandbits1 py_float solver input k_total k_step g)))).
Proof.
  unfold RandomV1.main.
  destruct ((k_total <=? 0) || (k_step <=? 0) || (k_total <? k_step)); [constructor|].
  destruct (RandomV1.solve_row py_float solver 0 0 [] input) as [r0|e] eqn:Er;
    [|constructor].
  apply random_row_units in Er.
  apply random_rounds_inv. unfold random_inv, selections. cbn [map concat].
  rewrite Er. cbn. split; [constructor|tauto].
Qed.

End RandomRunFacts.

(** C1, as the code has it.  In a run of the force-walk selector a literal
    of a later selection never has the variable of a literal of an earlier
    selection, in either polarity.  In a run of the random control a
    literal of a later selection is never a literal of an earlier one; the
    set the control carries holds exact literals, so the opposite polarity
    is not excluded. *)
Theorem avoidance_across_rounds (pow_half : float -> float)
    (sels : list (list Z)) (s1 s2 : list Z) (l1 l2 : Z)
    (Hb : before s1 s2 sels) (H1 : In l1 s1) (H2 : In l2 s2) :
  (forall (py_float : str -> option float) (solver : Z -> str -> str)
          (input : str) (max_iters k_per_iter : Z),
     sels = selections (fst (Forcewalk.main pow_half py_float solver input max_iters k_per_iter)) ->
     l2 <> l1 /\ l2 <> - l1) /\
  (forall (G : Type) (randint : G -> Z -> Z -> Z * G) (getrandbits1 : G -> Z * G)
          (py_float : str -> option float) (solver : Z -> str -> str)
          (input : str) (k_total k_step : Z) (g : G),
     sels = selections (fst (RandomV1.main randint getrandbits1 py_float solver input
                               k_total k_step g)) ->
     l2 <> l1).
Proof.
  split.
  - intros py_float solver input max_iters k_per_iter ->.
    pose proof (NoDup_concat_before Z.abs _ s1 s2 l1 l2
                  (forcewalk_main_NoDup py_float solver input max_iters k_per_iter)
                  Hb H1 H2) as Hne.
    lia.
  - intros G randint getrandbits1 py_float solver input k_total k_step g ->.
    pose proof (random_main_NoDup randint getrandbits1 py_float solver input
                  k_total k_step g) as Hnd.
    rewrite <- (map_id (concat _)) in Hnd.
    pose proof (NoDup_concat_before (fun l => l) _ s1 s2 l1 l2 Hnd Hb H1 H2) as Hne.
    cbv beta in Hne. congruence.
Qed.

Lemma avoidance_across_rounds_witness :
  (selections (fst (Forcewalk.main PrimFloat.sqrt (fun _ => None)
                      (fun _ _ => text ["c conflicts : 3"; "s SATISFIABLE"])
                      (text ["p cnf 2 2"; "1 2 0"; "-1 2 0"]) 3 1))
   = [[]; [1]; [2]] /\ 2 <> 1 /\ 2 <> - 1) /\
  (selections (fst (RandomV1.main first_randint alternating_bit (fun _ => None)
                      (fun _ _ => text ["c conflicts : 3"; "s SATISFIABLE"])
                      (text ["p cnf 2 1"; "1 2 0"]) 2 1 0))
   = [[]; [1]; [-1]] /\ -1 <> 1).
Proof.
  assert (Hb : forall a b : Z, before [a] [b] [[]; [a]; [b]]).
  { intros a b. exists [[]], [], []. reflexivity. }
  split.
  - split; [vm_compute; reflexivity|].
    refine (proj1 (avoidance_across_rounds PrimFloat.sqrt [[]; [1]; [2]] [1] [2] 1 2 (Hb 1 2)
                     (or_introl eq_refl) (or_introl eq_refl))
              (fun _ => None) (fun _ _ => text ["c conflicts : 3"; "s SATISFIABLE"])
              (text ["p cnf 2 2"; "1 2 0"; "-1 2 0"]) 3 1 _).
    vm_compute; reflexivity.
  - split; [vm_compute; reflexivity|].
    refine (proj2 (avoidance_across_rounds PrimFloat.sqrt [[]; [1]; [-1]] [1] [-1] 1 (-1) (Hb 1 (-1))
                     (or_introl eq_refl) (or_introl eq_refl))
              Z first_randint alternating_bit
              (fun _ => None) (fun _ _ => text ["c conflicts : 3"; "s SATISFIABLE"])
              (text ["p cnf 2 1"; "1 2 0"]) 2 1 0 _).
    vm_compute; reflexivity.
Defined.

(** A run of the random control that commits variable 1 in both
    polarities: the first round selects [1], the second [-1]. *)
Lemma random_control_flips_polarity :
  selections (fst (RandomV1.main first_randint alternating_bit (fun _ => None)
                     (fun _ _ => text ["c conflicts : 3"; "s SATISFIABLE"])
                     (text ["p cnf 1 1"; "1 0"]) 2 1 0))
  = [[]; [1]; [-1]] /\
  RandomV1.pick_random_literals first_randint alternating_bit
    (text ["p cnf 1 1"; "1 0"; "1 0"]) 1 {[ 1 ]} 1
  = Return ([-1], {[ -1 ]} ∪ {[ 1 ]}, 2).
Proof.
  split; vm_compute; reflexivity.
Qed.

(** ** Variables that occur in no clause (C5) *)

Lemma is_empty_nil {A : Type} (l : list A) : V0b.is_empty l = true -> l = [].
Proof. now destruct l. Qed.

Lemma is_empty_nth_insert (l : list (list nat)) (i k : nat) (js : list nat) (j : nat) :
  l !! i = Some js ->
  V0b.is_empty (nth k (<[i := js ++ [j]]> l) [])
  = V0b.is_empty (nth k l []) && negb (i =? k)%nat.
Proof.
  intros H. rewrite !nth_lookup. destruct (Nat.eqb_spec i k) as [<-|Hne].
  - rewrite list_lookup_insert_eq by (eapply lookup_lt_Some; eauto).
    cbn. rewrite andb_false_r. now destruct js.
  - rewrite list_lookup_insert_ne by exact Hne. now rewrite andb_true_r.
Qed.

(** The loop over one clause empties no entry of [var_to_clauses] and
    fills those of the variables of the clause; [seen] holds variables
    whose entry is filled. *)
Lemma clause_incidence_spec (j : nat) (lits : list Z) :
  forall (seen : gset Z) (vars_j : list Z) (v2c : list (list nat))
         (vj' : list Z) (v2c' : list (list nat)),
    (forall v, v ∈ seen -> V0b.is_empty (nth (Z.to_nat v) v2c []) = false) ->
    V0b.clause_incidence j lits seen vars_j v2c = Return (vj', v2c') ->
    forall i, V0b.is_empty (nth i v2c' [])
              = V0b.is_empty (nth i v2c []) && negb (mentions i lits).
Proof.
  induction lits as [|l rest IH]; intros seen vars_j v2c vj' v2c' Hseen E i.
  - cbn in E. injection E as _ <-. cbn. now rewrite andb_true_r.
  - cbn [V0b.clause_incidence] in E. unfold mentions. cbn [existsb].
    fold (mentions i rest). destruct (decide (Z.abs l ∈ seen)) as [Hin|Hout].
    + rewrite (IH _ _ _ _ _ Hseen E i).
      destruct (Nat.eqb_spec (Z.to_nat (Z.abs l)) i) as [<-|Hne]; [|reflexivity].
      now rewrite (Hseen _ Hin).
    + apply bind_Return_inv in E as (v2c1 & Ea & E). unfold V0b.append_at in Ea.
      destruct (v2c !! Z.to_nat (Z.abs l)) as [js|] eqn:Ejs; [|discriminate].
      injection Ea as <-.
      assert (Hseen' : forall v, v ∈ {[Z.abs l]} ∪ seen ->
                V0b.is_empty (nth (Z.to_nat v) (<[Z.to_nat (Z.abs l) := js ++ [j]]> v2c) [])
                = false).
      { intros v Hv. rewrite (is_empty_nth_insert _ _ _ _ _ Ejs).
        apply elem_of_union in Hv as [Hv|Hv].
        - apply elem_of_singleton in Hv as ->. rewrite Nat.eqb_refl. apply andb_false_r.
        - now rewrite (Hseen _ Hv). }
      rewrite (IH _ _ _ _ _ Hseen' E i), (is_empty_nth_insert _ _ _ _ _ Ejs).
      destruct (V0b.is_empty (nth i v2c [])), (Z.to_nat (Z.abs l) =? i)%nat,
        (mentions i rest); reflexivity.
Qed.

Lemma incidence_loop_spec (cls : list (list Z)) :
  forall (j : nat) (v2c : list (list nat)) (cv : list (list Z))
         (v2c' : list (list nat)) (cv' : list (list Z)),
    V0b.incidence_loop j cls v2c cv = Return (v2c', cv') ->
    forall i, V0b.is_empty (nth i v2c' [])
              = V0b.is_empty (nth i v2c []) && negb (existsb (mentions i) cls).
Proof.
  induction cls as [|lits rest IH]; intros j v2c cv v2c' cv' E i.
  - cbn in E. injection E as <- _. cbn. now rewrite andb_true_r.
  - cbn [V0b.incidence_loop] in E. apply bind_Return_inv in E as ([vars_j v2c1] & Ec & E).
    rewrite (IH _ _ _ _ _ E i).
    assert (Hseen : forall v, v ∈ (∅ : gset Z) ->
              V0b.is_empty (nth (Z.to_nat v) v2c []) = false) by set_solver.
    rewrite (clause_incidence_spec _ _ _ _ _ _ _ Hseen Ec i).
    cbn [existsb].
    destruct (V0b.is_empty (nth i v2c [])), (mentions i lits), (existsb (mentions i) rest);
      reflexivity.
Qed.

Lemma mentions_occurs (v : Z) (cls : list (list Z)) :
  0 <= v -> existsb (mentions (Z.to_nat v)) cls = occurs v cls.
Proof.
  intros Hv. unfold occurs, mentions. induction cls as [|cl cls IH]; [reflexivity|].
  cbn [existsb]. rewrite IH. f_equal. clear IH. induction cl as [|l cl IH]; [reflexivity|].
  cbn [existsb]. rewrite IH. f_equal.
  destruct (Nat.eqb_spec (Z.to_nat (Z.abs l)) (Z.to_nat v)), (Z.eqb_spec (Z.abs l) v);
    try reflexivity; lia.
Qed.

(** After [build_incidence] the entry of a variable is empty exactly when
    the variable occurs in no clause. *)
Lemma build_incidence_spec (n : Z) (cls : list (list Z)) (v2c : list (list nat))
    (cv : list (list Z)) (v : Z) :
  V0b.build_incidence n cls = Return (v2c, cv) -> 0 <= v ->
  V0b.is_empty (nth (Z.to_nat v) v2c []) = negb (occurs v cls).
Proof.
  unfold V0b.build_incidence. intros E Hv.
  rewrite (incidence_loop_spec _ _ _ _ _ _ E), (mentions_occurs _ _ Hv).
  rewrite nth_lookup.
  destruct (replicate _ _ !! Z.to_nat v) as [x|] eqn:Ex;
    [apply lookup_replicate in Ex as [-> _]|]; reflexivity.
Qed.

Lemma v0b_init_scores (n : Z) (cls : list (list Z)) (v2c : list (list nat))
    (cv : list (list Z)) :
  V0b.build_incidence n cls = Return (v2c, cv) ->
  V0b.init_scores n v2c
  = map (fun v => if occurs v cls then 1%float else 0%float) (range1 n).
Proof.
  intros E. unfold V0b.init_scores. apply map_ext_in. intros v Hv.
  apply range1_In in Hv. rewrite (build_incidence_spec _ _ _ _ _ E) by lia.
  now destruct (occurs v cls).
Qed.

(** An entry that is 0.0 before [l2_normalize] is not positive after it. *)
Lemma normalized_zero_entry (f : Z -> float) (n v : Z) :
  1 <= v <= n -> f v = 0%float ->
  (0 <? float_list_get (0%float :: V0b.l2_normalize (map f (range1 n))) v)%float = false.
Proof.
  intros Hv Hf. unfold float_list_get.
  replace (Z.to_nat v) with (S (Z.to_nat v - 1)) by lia. cbn [nth].
  assert (Hr : nth_error (range1 n) (Z.to_nat v - 1) = Some v).
  { rewrite range1_lookup by lia. f_equal. lia. }
  unfold V0b.l2_normalize. destruct (_ <=? _)%float.
  - erewrite nth_error_nth; [|rewrite nth_error_map, Hr; reflexivity].
    rewrite Hf. reflexivity.
  - erewrite nth_error_nth; [|rewrite !nth_error_map, Hr; reflexivity].
    rewrite Hf. apply float_zero_mul_not_pos.
Qed.

(** The score of a variable that occurs in no clause is never positive,
    whatever the number of turns. *)
Lemma v0b_unreferenced_not_positive (n : Z) (cls : list (list Z)) (v2c : list (list nat))
    (cv : list (list Z)) (iters : Z) (vs : list float) (v : Z) :
  V0b.build_incidence n cls = Return (v2c, cv) ->
  V0b.spectral_scores n v2c cv iters = Return vs ->
  1 <= v <= n -> occurs v cls = false ->
  (0 <? float_list_get vs v)%float = false.
Proof.
  intros Eb Es Hv Ho. unfold V0b.spectral_scores in Es.
  destruct (_ =? _)%nat; [discriminate|]. injection Es as <-.
  assert (He : V0b.is_empty (nth (Z.to_nat v) v2c []) = true).
  { rewrite (build_incidence_spec _ _ _ _ _ Eb) by lia. now rewrite Ho. }
  destruct (Z.to_nat iters) as [|k].
  - cbn [Nat.iter nat_rect]. unfold V0b.init_scores.
    apply normalized_zero_entry; [exact Hv|]. now rewrite He.
  - rewrite Nat.iter_succ. unfold V0b.iterate.
    apply normalized_zero_entry; [exact Hv|].
    now rewrite (is_empty_nil _ He).
Qed.

(** The v0b picker returns literals of variables of [1..num_vars] that
    occur in a clause of the file. *)
Lemma v0b_selection_referenced (file : str) (k iters : Z) (lits : list Z) :
  V0b.selection file k iters = Return lits ->
  exists n cls ps ng,
    V0b.parse_dimacs file = Return (n, cls, ps, ng) /\
    forall l, In l lits -> 1 <= Z.abs l <= n /\ occurs (Z.abs l) cls = true.
Proof.
  intros E. apply v0b_selection_inv in E as (n & vs & ps & ng & Es & _ & ->).
  unfold V0b.scores_of in Es.
  apply bind_Return_inv in Es as ([[[n' cls] ps'] ng'] & Ep & Es).
  apply bind_Return_inv in Es as ([v2c cv] & Eb & Es).
  apply bind_Return_inv in Es as (vs' & Ess & Es).
  injection Es as -> -> -> ->.
  exists n, cls, ps, ng. split; [exact Ep|]. intros l Hl.
  unfold V0b.picked_literals in Hl. apply in_map_iff in Hl as ([s v] & <- & Hx).
  apply firstn_In in Hx. apply v0b_ranked_In in Hx as (Hv & -> & Hpos). cbn [snd].
  rewrite v0b_polarity_abs by lia. split; [exact Hv|].
  destruct (occurs v cls) eqn:Ho; [reflexivity|].
  rewrite (v0b_unreferenced_not_positive _ _ _ _ _ _ _ Eb Ess Hv Ho) in Hpos. discriminate.
Qed.

(** The frequency picker returns literals of variables of [1..num_vars]
    that it counted at least once. *)
Lemma freq_selection_counted (file : str) (K : Z) (lits : list Z) :
  Freq.selection file K = Return lits ->
  exists st n,
    Freq.parse file = Return st /\ Freq.num_vars st = Some n /\
    forall l, In l lits ->
      1 <= Z.abs l <= n /\ 0 < Freq.total (Freq.pos st) (Freq.neg st) (Z.abs l).
Proof.
  intros E. apply freq_selection_inv in E as (_ & st & n & Es & En & _ & ->).
  exists st, n. split; [exact Es|]. split; [exact En|]. intros l Hl.
  unfold Freq.picked_literals in Hl. apply in_map_iff in Hl as ([t v] & <- & Hx).
  apply firstn_In in Hx. apply freq_ranked_In in Hx as (Hv & -> & Hpos). cbn [snd].
  rewrite freq_polarity_abs by lia. auto.
Qed.

Lemma fold_insert_const (c : float) (vs : list Z) :
  forall (x : list float) (v : Z),
    In v vs \/ nth (Z.to_nat v) x 0%float = c ->
    (Z.to_nat v < length x)%nat ->
    nth (Z.to_nat v) (fold_left (fun x w => <[Z.to_nat w := c]> x) vs x) 0%float = c.
Proof.
  induction vs as [|w vs IH]; intros x v H Hlen.
  - cbn. destruct H as [[]|H]; exact H.
  - cbn [fold_left]. apply IH; [|now rewrite length_insert].
    destruct H as [[->|H]|H].
    + right. rewrite nth_lookup, list_lookup_insert_eq by exact Hlen. reflexivity.
    + now left.
    + right. rewrite nth_lookup. destruct (Nat.eq_dec (Z.to_nat w) (Z.to_nat v)) as [Ew|Hne].
      * rewrite Ew, list_lookup_insert_eq by exact Hlen. reflexivity.
      * rewrite list_lookup_insert_ne by exact Hne. now rewrite <- nth_lookup.
Qed.

(** The v4 power iteration starts from 1.0 for every variable of
    [1..nvars], whether it occurs in a clause or not. *)
Lemma v4_init_x_ones (n v : Z) : 1 <= v <= n -> float_list_get (V4.init_x n) v = 1%float.
Proof.
  intros Hv. unfold float_list_get, V4.init_x. apply fold_insert_const.
  - left. now apply range1_In.
  - unfold V4.zeros. rewrite length_replicate. lia.
Qed.

Lemma occurs_false (v : Z) (cls : list (list Z)) :
  occurs v cls = false -> forall cl l, In cl cls -> In l cl -> Z.abs l <> v.
Proof.
  unfold occurs. intros H cl l Hcl Hl E.
  assert (Ht : existsb (fun cl => existsb (fun l => Z.abs l =? v) cl) cls = true).
  { apply existsb_exists. exists cl. split; [exact Hcl|].
    apply existsb_exists. exists l. split; [exact Hl|now apply Z.eqb_eq]. }
  congruence.
Qed.

Lemma add_at_other (l : list float) (w v : Z) (val : float) :
  0 <= w -> 0 <= v -> w <> v ->
  float_list_get (V4.add_at l w val) v = float_list_get l v.
Proof.
  intros Hw Hv Hne. unfold float_list_get, V4.add_at.
  rewrite !nth_lookup, list_lookup_insert_ne by lia. reflexivity.
Qed.

Lemma range1_length (n : Z) : length (range1 n) = Z.to_nat n.
Proof. unfold range1. now rewrite length_map, length_seq. Qed.

Lemma existsb_ext_in {A : Type} (p q : A -> bool) (l : list A) :
  (forall x, In x l -> p x = q x) -> existsb p l = existsb q l.
Proof.
  induction l as [|x l IH]; intros H; [reflexivity|]. cbn [existsb].
  rewrite (H x (or_introl eq_refl)), IH; [reflexivity|].
  intros y Hy. apply H. now right.
Qed.

Lemma fold_insert_length {A : Type} (f : list A -> Z -> A) (vs : list Z) (x : list A) :
  length (fold_left (fun x v => <[Z.to_nat v := f x v]> x) vs x) = length x.
Proof.
  revert x; induction vs as [|v vs IH]; intros x; [reflexivity|].
  cbn [fold_left]. now rewrite IH, length_insert.
Qed.

Lemma v4_init_x_length (n : Z) : length (V4.init_x n) = Z.to_nat (n + 1).
Proof.
  unfold V4.init_x. rewrite (fold_insert_length (fun _ _ => 1%float)).
  unfold V4.zeros. apply length_replicate.
Qed.

(** A product of zero and a quotient of zero are zeros, or not numbers. *)
Lemma float_zero_mul (y : float) : zero_or_nan (0 * y) = true.
Proof.
  unfold zero_or_nan. rewrite !FloatAxioms.eqb_spec, FloatAxioms.mul_spec.
  change (Prim2SF 0) with (S754_zero false).
  unfold SF64mul. destruct (Prim2SF y) as [s|s| |s m e]; try reflexivity; now destruct s.
Qed.

Lemma float_zero_div (y : float) : zero_or_nan (0 / y) = true.
Proof.
  unfold zero_or_nan. rewrite !FloatAxioms.eqb_spec, FloatAxioms.div_spec.
  change (Prim2SF 0) with (S754_zero false).
  unfold SF64div. destruct (Prim2SF y) as [s|s| |s m e]; try reflexivity; now destruct s.
Qed.

(** An entry that is 0.0 before [l2_normalize] is 0.0 after it, or the
    product of 0.0 and the factor [inv]. *)
Lemma normalized_zero_entry_value (f : Z -> float) (n v : Z) :
  1 <= v <= n -> f v = 0%float ->
  zero_or_nan (float_list_get (0%float :: V0b.l2_normalize (map f (range1 n))) v) = true.
Proof.
  intros Hv Hf. unfold float_list_get.
  replace (Z.to_nat v) with (S (Z.to_nat v - 1)) by lia. cbn [nth].
  assert (Hr : nth_error (range1 n) (Z.to_nat v - 1) = Some v).
  { rewrite range1_lookup by lia. f_equal. lia. }
  unfold V0b.l2_normalize. destruct (_ <=? _)%float.
  - erewrite nth_error_nth; [|rewrite nth_error_map, Hr; reflexivity].
    rewrite Hf. reflexivity.
  - erewrite nth_error_nth; [|rewrite !nth_error_map, Hr; reflexivity].
    rewrite Hf. apply float_zero_mul.
Qed.

(** The score of a variable that occurs in no clause is zero, whatever the
    number of turns (not a number when the factor of the normalisation is
    none). *)
Lemma v0b_unreferenced_zero (n : Z) (cls : list (list Z)) (v2c : list (list nat))
    (cv : list (list Z)) (iters : Z) (vs : list float) (v : Z) :
  V0b.build_incidence n cls = Return (v2c, cv) ->
  V0b.spectral_scores n v2c cv iters = Return vs ->
  1 <= v <= n -> occurs v cls = false ->
  zero_or_nan (float_list_get vs v) = true.
Proof.
  intros Eb Es Hv Ho. unfold V0b.spectral_scores in Es.
  destruct (_ =? _)%nat; [discriminate|]. injection Es as <-.
  assert (He : V0b.is_empty (nth (Z.to_nat v) v2c []) = true).
  { rewrite (build_incidence_spec _ _ _ _ _ Eb) by lia. now rewrite Ho. }
  destruct (Z.to_nat iters) as [|k].
  - cbn [Nat.iter nat_rect]. unfold V0b.init_scores.
    apply normalized_zero_entry_value; [exact Hv|]. now rewrite He.
  - rewrite Nat.iter_succ. unfold V0b.iterate.
    apply normalized_zero_entry_value; [exact Hv|].
    now rewrite (is_empty_nil _ He).
Qed.

(** [x[w] = g(w)] for [w] in [vs]: the entry of a variable of [vs] is what
    the loop wrote. *)
Lemma fold_insert_fun (g : Z -> float) (vs : list Z) :
  forall (x : list float) (v : Z),
    0 <= v -> (forall w, In w vs -> 0 <= w) ->
    In v vs \/ nth (Z.to_nat v) x 0%float = g v ->
    (Z.to_nat v < length x)%nat ->
    nth (Z.to_nat v) (fold_left (fun x w => <[Z.to_nat w := g w]> x) vs x) 0%float = g v.
Proof.
  induction vs as [|w vs IH]; intros x v Hv Hpos H Hlen.
  - cbn. destruct H as [[]|H]; exact H.
  - cbn [fold_left]. apply IH; [exact Hv| |  |now rewrite length_insert].
    + intros u Hu. apply Hpos. now right.
    + assert (Hw : 0 <= w) by (apply Hpos; now left).
      destruct (Z.eq_dec w v) as [->|Hne].
      * right. rewrite nth_lookup, list_lookup_insert_eq by exact Hlen. reflexivity.
      * destruct H as [[->|H]|H]; [congruence|now left|].
        right. rewrite nth_lookup, list_lookup_insert_ne by lia.
        now rewrite <- nth_lookup.
Qed.

Lemma v4_zeros_get (n v : Z) : float_list_get (V4.zeros n) v = 0%float.
Proof.
  unfold float_list_get, V4.zeros. rewrite nth_lookup.
  destruct (replicate _ _ !! Z.to_nat v) as [x|] eqn:Ex;
    [apply lookup_replicate in Ex as [-> _]|]; reflexivity.
Qed.

(** The variables that [build_clause_vars] keeps occur in the clauses. *)
Lemma build_clause_vars_In (cls : list (list Z)) (n : Z) (vs : list Z) (w : Z) :
  In vs (V4.build_clause_vars cls n) -> In w vs ->
  1 <= w <= n /\ exists cl l, In cl cls /\ In l cl /\ Z.abs l = w.
Proof.
  unfold V4.build_clause_vars. intros Hvs Hw.
  apply in_map_iff in Hvs as (cl & <- & Hcl).
  apply filter_In in Hw as [Hw Hr]. apply in_map_iff in Hw as (l & <- & Hl).
  split; [lia|]. now exists cl, l.
Qed.

(** [x2] stays 0.0 at a variable that is in no list of [clause_vars]. *)
Lemma v4_spread_other (cv : list (list Z)) (y : list float) (n v : Z) :
  0 <= v -> (forall vs w, In vs cv -> In w vs -> 0 <= w /\ w <> v) ->
  float_list_get (V4.spread cv y n) v = 0%float.
Proof.
  intros Hv Hcv. unfold V4.spread.
  assert (Hin : forall jvs, In jvs (combine y cv) -> In (snd jvs) cv).
  { intros [j vs] H. cbn [snd]. now apply in_combine_r in H. }
  revert Hin. generalize (combine y cv). intros jvss.
  assert (Hz := v4_zeros_get n v). revert Hz. generalize (V4.zeros n).
  induction jvss as [|jvs jvss IH]; intros x2 Hz Hin; [exact Hz|].
  cbn [fold_left]. apply IH; [|intros q Hq; apply Hin; now right].
  assert (Hvs : forall w, In w (snd jvs) -> 0 <= w /\ w <> v).
  { intros w Hw. apply (Hcv (snd jvs)); [apply Hin; now left|exact Hw]. }
  revert x2 Hz. induction (snd jvs) as [|w ws IHw]; intros x2 Hz; [exact Hz|].
  cbn [fold_left]. apply IHw.
  - intros u Hu. apply Hvs. now right.
  - destruct (Hvs w (or_introl eq_refl)) as [Hw Hne].
    now rewrite add_at_other.
Qed.

(** The score of a variable that is in no list of [clause_vars]: it keeps
    its start value until a turn is completed, and is [0.0 / norm] after
    one. *)
Lemma v4_power_loop_unreferenced {pow_half : float -> float}
    (iters : nat) (cv : list (list Z)) (n v : Z) :
  1 <= v <= n -> (forall vs w, In vs cv -> In w vs -> 0 <= w /\ w <> v) ->
  forall x, length x = Z.to_nat (n + 1) ->
    float_list_get x v = 1%float \/ zero_or_nan (float_list_get x v) = true ->
    float_list_get (V4.power_loop pow_half iters cv n x) v = 1%float
    \/ zero_or_nan (float_list_get (V4.power_loop pow_half iters cv n x) v) = true.
Proof.
  intros Hv Hcv. induction iters as [|iters IH]; intros x Hlen Hx; [exact Hx|].
  cbn [V4.power_loop]. destruct (_ =? _)%float; [exact Hx|].
  apply IH.
  - rewrite (fold_insert_length
               (fun _ w => (float_list_get (V4.spread cv (V4.clause_sums cv x) n) w
                            / V4.l2_norm pow_half (V4.spread cv (V4.clause_sums cv x) n) n)%float)).
    exact Hlen.
  - right. unfold float_list_get at 1.
    rewrite (fold_insert_fun
               (fun w => (float_list_get (V4.spread cv (V4.clause_sums cv x) n) w
                          / V4.l2_norm pow_half (V4.spread cv (V4.clause_sums cv x) n) n)%float)).
    + rewrite v4_spread_other by (assumption || lia). apply float_zero_div.
    + lia.
    + intros w Hw. apply range1_In in Hw. lia.
    + left. now apply range1_In.
    + lia.
Qed.

Lemma v4_unreferenced_score {pow_half : float -> float}
    (cls : list (list Z)) (n iters v : Z) :
  1 <= v <= n -> occurs v cls = false ->
  float_list_get (V4.power_iter_var_scores pow_half (V4.build_clause_vars cls n) n iters) v
  = 1%float
  \/ zero_or_nan
       (float_list_get
          (V4.power_iter_var_scores pow_half (V4.build_clause_vars cls n) n iters) v)
     = true.
Proof.
  intros Hv Ho. unfold V4.power_iter_var_scores.
  apply v4_power_loop_unreferenced.
  - exact Hv.
  - intros vs w Hvs Hw.
    destruct (build_clause_vars_In _ _ _ _ Hvs Hw) as (Hr & cl & l & Hcl & Hl & <-).
    split; [lia|]. exact (occurs_false v cls Ho cl l Hcl Hl).
  - apply v4_init_x_length.
  - left. now apply v4_init_x_ones.
Qed.

(** With [k] at least [nvars] the loop of [pick_units_rayleigh] runs over
    all of [order]: every variable of which no polarity is avoided is
    chosen. *)
Lemma v4_pick_all {pow_half : float -> float}
    (file : str) (k iters : Z) (avoid : gset Z) (lits : list Z) :
  V4.pick_units_rayleigh pow_half file k iters avoid = Return lits ->
  exists c,
    Dimacs.read_dimacs file = Return c /\
    (forall l, In l lits -> 1 <= Z.abs l <= Dimacs.nvars c) /\
    (Dimacs.nvars c <= Z.max 1 k ->
     forall v, 1 <= v <= Dimacs.nvars c -> (v ∉ avoid) -> ((- v) ∉ avoid) ->
       In v (map Z.abs lits)).
Proof.
  intros E. apply pick_units_rayleigh_spec in E as (c & scores & Ec & Es & -> & _ & Hl).
  pose proof (literal_scores_signs _ _ _ _ Es) as Hs.
  exists c. split; [exact Ec|]. split; [intros l Hin; now apply Hl|].
  intros Hk v Hv Ha Hb.
  set (cands := v4_candidates scores (V4.rank_order scores (Dimacs.nvars c)) avoid).
  assert (Hlen : (length cands <= Z.to_nat (Z.max 1 k))%nat).
  { unfold cands, v4_candidates. etransitivity; [apply List.filter_length_le|].
    rewrite length_map. unfold V4.rank_order, sort_by_key_reverse.
    rewrite py_sort_length, range1_length. lia. }
  rewrite firstn_all2 by exact Hlen.
  apply in_map_iff. exists (v4_literal scores v).
  split; [apply v4_literal_abs; [exact Hs|lia]|].
  unfold cands, v4_candidates. apply filter_In. split.
  - apply in_map. now apply v4_rank_order_In.
  - apply negb_true_iff, bool_decide_eq_false. unfold v4_literal.
    destruct (Hs v) as [Hp|Hp]; rewrite Hp.
    + replace (1 * v) with v by lia. tauto.
    + replace (-1 * v) with (- v) by lia. rewrite Z.opp_involutive. tauto.
Qed.

(** C5, as the code has it.  In the v0b scorer the start vector is 1.0
    exactly for the variables that occur in a clause and 0.0 for the
    others; the score of a variable that occurs in no clause is the product
    of 0.0 and the factor of the normalisation, which is zero (and not a
    number when the factor is none), never positive; the v0b picker returns
    only literals of variables that occur in a clause, the frequency picker
    only literals of variables it counted.  The v4 power iteration starts
    from 1.0 for every variable of [1..nvars]; after it the score of a
    variable that occurs in no clause is that start value, or zero ([0.0 /
    norm], not a number when the norm is none).  The v4 selector ranks all
    of [1..nvars]: what it returns lies in that range, and with [k] at
    least [nvars] it returns every variable of which no polarity is
    avoided, whether it occurs in a clause or not. *)
Theorem unreferenced_variables (pow_half : float -> float) (file : str) (k : Z)
    (lits : list Z) :
  (forall (n : Z) (cls : list (list Z)) (v2c : list (list nat)) (cv : list (list Z)),
     V0b.build_incidence n cls = Return (v2c, cv) ->
     V0b.init_scores n v2c
     = map (fun v => if occurs v cls then 1%float else 0%float) (range1 n) /\
     forall (iters : Z) (vs : list float) (v : Z),
       V0b.spectral_scores n v2c cv iters = Return vs ->
       1 <= v <= n -> occurs v cls = false ->
       zero_or_nan (float_list_get vs v) = true /\
       (0 <? float_list_get vs v)%float = false) /\
  (forall iters : Z,
     V0b.selection file k iters = Return lits ->
     exists n cls ps ng,
       V0b.parse_dimacs file = Return (n, cls, ps, ng) /\
       forall l, In l lits -> 1 <= Z.abs l <= n /\ occurs (Z.abs l) cls = true) /\
  (Freq.selection file k = Return lits ->
     exists st n,
       Freq.parse file = Return st /\ Freq.num_vars st = Some n /\
       forall l, In l lits ->
         1 <= Z.abs l <= n /\ 0 < Freq.total (Freq.pos st) (Freq.neg st) (Z.abs l)) /\
  (forall n v : Z, 1 <= v <= n -> float_list_get (V4.init_x n) v = 1%float) /\
  (forall (cls : list (list Z)) (n iters v : Z),
     1 <= v <= n -> occurs v cls = false ->
     float_list_get (V4.power_iter_var_scores pow_half (V4.build_clause_vars cls n) n iters) v
     = 1%float
     \/ zero_or_nan
          (float_list_get
             (V4.power_iter_var_scores pow_half (V4.build_clause_vars cls n) n iters) v)
        = true) /\
  (forall (iters : Z) (avoid : gset Z),
     V4.pick_units_rayleigh pow_half file k iters avoid = Return lits ->
     exists c,
       Dimacs.read_dimacs file = Return c /\
       (forall l, In l lits -> 1 <= Z.abs l <= Dimacs.nvars c) /\
       (Dimacs.nvars c <= Z.max 1 k ->
        forall v, 1 <= v <= Dimacs.nvars c -> (v ∉ avoid) -> ((- v) ∉ avoid) ->
          In v (map Z.abs lits))).
Proof.
  split; [|split; [|split; [|split; [|split]]]].
  - intros n cls v2c cv Eb. split; [now apply (v0b_init_scores n cls v2c cv)|].
    intros iters vs v Es Hv Ho. split.
    + exact (v0b_unreferenced_zero _ _ _ _ _ _ _ Eb Es Hv Ho).
    + exact (v0b_unreferenced_not_positive _ _ _ _ _ _ _ Eb Es Hv Ho).
  - intros iters. apply v0b_selection_referenced.
  - apply freq_selection_counted.
  - apply v4_init_x_ones.
  - intros cls n iters v. apply v4_unreferenced_score.
  - intros iters avoid. apply v4_pick_all.
Qed.

Lemma unreferenced_variables_witness :
  (exists v2c cv vs,
     V0b.build_incidence 3 [[1; -2]; [2]] = Return (v2c, cv) /\
     V0b.spectral_scores 3 v2c cv 20 = Return vs /\
     zero_or_nan (float_list_get vs 3) = true) /\
  (exists n cls ps ng,
     V0b.parse_dimacs (text ["p cnf 3 2"; "1 -2 0"; "2 0"]) = Return (n, cls, ps, ng) /\
     forall l, In l [2; 1] -> 1 <= Z.abs l <= n /\ occurs (Z.abs l) cls = true) /\
  (exists st n,
     Freq.parse (text ["p cnf 3 2"; "1 -2 0"; "2 0"]) = Return st /\
     Freq.num_vars st = Some n /\
     forall l, In l [2; 1] ->
       1 <= Z.abs l <= n /\ 0 < Freq.total (Freq.pos st) (Freq.neg st) (Z.abs l)) /\
  (float_list_get
     (V4.power_iter_var_scores PrimFloat.sqrt (V4.build_clause_vars [[1; -2]; [2]] 3) 3 25) 3
   = 1%float
   \/ zero_or_nan
        (float_list_get
           (V4.power_iter_var_scores PrimFloat.sqrt (V4.build_clause_vars [[1; -2]; [2]] 3)
              3 25) 3)
      = true) /\
  (exists c,
     Dimacs.read_dimacs (text ["p cnf 3 2"; "1 -2 0"; "2 0"]) = Return c /\
     (forall l, In l [-2; 1; 3] -> 1 <= Z.abs l <= Dimacs.nvars c) /\
     In 3 (map Z.abs [-2; 1; 3])).
Proof.
  destruct (unreferenced_variables PrimFloat.sqrt (text ["p cnf 3 2"; "1 -2 0"; "2 0"]) 3
              [2; 1]) as (H1 & H2 & H3 & _ & H5 & _).
  split; [|split; [|split; [|split]]].
  - eexists _, _, _. split; [vm_compute; reflexivity|]. split; [vm_compute; reflexivity|].
    refine (proj1 (proj2 (H1 3 [[1; -2]; [2]] _ _ _) 20 _ 3 _ _ _));
      [vm_compute; reflexivity|vm_compute; reflexivity|lia|reflexivity].
  - apply (H2 20). vm_compute; reflexivity.
  - apply H3. vm_compute; reflexivity.
  - apply H5; [lia|reflexivity].
  - destruct (proj2 (proj2 (proj2 (proj2 (proj2
                (unreferenced_variables PrimFloat.sqrt
                   (text ["p cnf 3 2"; "1 -2 0"; "2 0"]) 3 [-2; 1; 3]))))) 25 ∅)
      as (c & Ec & Hr & Hall); [vm_compute; reflexivity|].
    exists c. split; [exact Ec|]. split; [exact Hr|].
    vm_compute in Ec. injection Ec as <-.
    apply Hall; [cbn; lia|cbn; lia|apply not_elem_of_empty|apply not_elem_of_empty].
Defined.

(** Variable 2 occurs in no clause of the file [p cnf 2 1], [1 0]; the v4
    power iteration starts it at 1.0 and the v4 selector returns it.  In
    the file [p cnf 2 1], [0], whose one clause is empty, no variable
    occurs in a clause: the first norm is zero, no turn is completed, and
    the scores stay 1.0.  (The norms of these runs are 1.0 and 0.0, of
    which the square root is the power [** 0.5].) *)
Lemma rayleigh_picks_unreferenced :
  Dimacs.read_dimacs (text ["p cnf 2 1"; "1 0"]) = Return (Dimacs.Cnf 2 [[1]] []) /\
  occurs 2 [[1]] = false /\
  V4.init_x 2 = [0; 1; 1]%float /\
  V4.pick_units_rayleigh PrimFloat.sqrt (text ["p cnf 2 1"; "1 0"]) 2 25 ∅ = Return [1; 2] /\
  Dimacs.read_dimacs (text ["p cnf 2 1"; "0"]) = Return (Dimacs.Cnf 2 [[]] []) /\
  V4.power_iter_var_scores PrimFloat.sqrt (V4.build_clause_vars [[]] 2) 2 25
  = [0; 1; 1]%float.
Proof.
  repeat split; vm_compute; reflexivity.
Qed.

(** * Further properties of the scripts *)

(** ** The two mutators *)

(** Adding unit clauses in two steps is adding them in one: the second
    call reads the text the first one wrote.  With no literal at all the
    call normalises the text, and normalising twice changes nothing. *)
Theorem add_unit_clauses_compose (file mid : str) (u1 u2 : list Z) :
  Dimacs.add_unit_clauses file u1 = Return mid ->
  Dimacs.add_unit_clauses mid u2 = Dimacs.add_unit_clauses file (u1 ++ u2).
Proof.
  unfold Dimacs.add_unit_clauses. intros E.
  apply bind_Return_inv in E as (c & Ec & E). injection E as <-.
  pose proof (read_dimacs_wf _ _ Ec) as Hwf. unfold wf_cnf in Hwf.
  apply andb_true_iff in Hwf as [Hn Hc]. apply Z.ltb_lt in Hn.
  rewrite (read_write_dimacs _ _ _ Hn Hc), Ec. cbn [bind Dimacs.nvars Dimacs.clauses
    Dimacs.comments]. unfold Dimacs.unit_clauses. now rewrite map_app, app_assoc.
Qed.

Lemma add_unit_clauses_compose_witness :
  Dimacs.add_unit_clauses (text ["c hi"; "p cnf 3 2"; "1 -2 0"; "3 0"]) [-1]
  = Dimacs.add_unit_clauses (text ["p cnf 3 9"; ""; "1 -2 0"; "c hi"]) ([3] ++ [-1]).
Proof.
  apply (add_unit_clauses_compose (text ["p cnf 3 9"; ""; "1 -2 0"; "c hi"])).
  vm_compute; reflexivity.
Defined.

(** On a text that [write_dimacs] wrote, [apply_units.py] and
    [add_unit_clauses] write the same text for the same literals. *)
Theorem mutators_agree_on_written_files (file : str) (c : Dimacs.cnf) (L : list Z) :
  Dimacs.read_dimacs file = Return c ->
  ApplyUnits.apply_units (Dimacs.serialize c) L
  = Dimacs.add_unit_clauses (Dimacs.serialize c) L
  /\ returns (ApplyUnits.apply_units (Dimacs.serialize c) L) = true.
Proof.
  intros E. apply read_dimacs_wf in E.
  destruct (mutators_agree c L E) as [-> ->]. split; reflexivity.
Qed.

Lemma mutators_agree_on_written_files_witness :
  ApplyUnits.apply_units (text ["c hi"; "p cnf 3 1"; "1 -2 0"]) [3; -1]
  = Dimacs.add_unit_clauses (text ["c hi"; "p cnf 3 1"; "1 -2 0"]) [3; -1]
  /\ returns (ApplyUnits.apply_units (text ["c hi"; "p cnf 3 1"; "1 -2 0"]) [3; -1]) = true.
Proof.
  apply (mutators_agree_on_written_files (text ["p cnf 3 9"; ""; "1 -2 0"; "c hi"])
           (Dimacs.Cnf 3 [[1; -2]] [lit "c hi"]) [3; -1]).
  vm_compute; reflexivity.
Defined.

Lemma scan_line_no_header (h : option (Z * Z)) (line : str) :
  header_start line = false -> ApplyUnits.scan_line h line = Return h.
Proof.
  unfold header_start, ApplyUnits.scan_line. intros ->.
  now destruct (str_eqb (strip line) [] || startswith (strip line) (lit "c")).
Qed.

Lemma scan_no_header (lines : list str) (h : option (Z * Z)) :
  forallb (fun l => negb (header_start l)) lines = true ->
  foldM ApplyUnits.scan_line lines h = Return h.
Proof.
  induction lines as [|l lines IH]; intros H; [reflexivity|].
  cbn [forallb] in H. apply andb_true_iff in H as [H1 H2]. apply negb_true_iff in H1.
  cbn [foldM]. rewrite (scan_line_no_header _ _ H1). cbn [bind]. now apply IH.
Qed.

Lemma rewrite_lines_first (hdr : str) (lines : list str) :
  forallb (fun l => negb (header_start l)) lines = true \/
  exists pre h post,
    lines = pre ++ h :: post /\
    forallb (fun l => negb (header_start l)) pre = true /\
    header_start h = true /\
    ApplyUnits.rewrite_lines false hdr lines = pre ++ hdr :: post.
Proof.
  induction lines as [|l lines IH]; [now left|].
  destruct (header_start l) eqn:El.
  - right. exists [], l, lines. split; [reflexivity|]. split; [reflexivity|].
    split; [exact El|]. cbn [ApplyUnits.rewrite_lines negb andb].
    unfold header_start in El. rewrite El. now rewrite rewrite_lines_done.
  - destruct IH as [IH|(pre & h & post & -> & Hpre & Hh & Hr)].
    + left. cbn [forallb]. now rewrite El, IH.
    + right. exists (l :: pre), h, post. split; [reflexivity|].
      split; [cbn [forallb]; now rewrite El, Hpre|]. split; [exact Hh|].
      cbn [ApplyUnits.rewrite_lines negb andb]. unfold header_start in El. rewrite El.
      cbn [app]. now rewrite Hr.
Qed.

(** [apply_units.py] replaces the first header line and nothing else: the
    lines before and after it are copied as they are, one line per literal
    is appended.  The counts of the new header are those of the last
    header line of the input. *)
Theorem apply_units_rewrites_first_header (file : str) (lits : list Z) (out : str) :
  ApplyUnits.apply_units file lits = Return out ->
  exists pre h post nv nc,
    readlines file = pre ++ h :: post /\
    forallb (fun l => negb (header_start l)) pre = true /\
    header_start h = true /\
    declared_header file = Return (Some (nv, nc)) /\
    out = concat pre ++ ApplyUnits.header_text nv (nc + Z.of_nat (length lits))
            ++ concat post ++ concat (map ApplyUnits.unit_line lits).
Proof.
  unfold ApplyUnits.apply_units, declared_header. intros E.
  apply bind_Return_inv in E as (hdr & Eh & E).
  destruct hdr as [[nv nc]|]; [|discriminate]. injection E as <-.
  destruct (rewrite_lines_first
              (ApplyUnits.header_text nv (nc + Z.of_nat (length lits))) (readlines file))
    as [Hno|(pre & h & post & El & Hpre & Hh & Hr)].
  - rewrite (scan_no_header _ _ Hno) in Eh. discriminate.
  - exists pre, h, post, nv, nc. split; [exact El|]. split; [exact Hpre|].
    split; [exact Hh|]. split; [exact Eh|].
    rewrite Hr, !concat_app. cbn [concat]. now rewrite <- !app_assoc.
Qed.

Lemma apply_units_rewrites_first_header_witness :
  exists pre h post nv nc,
    readlines (text ["c one"; "p cnf 2 1"; "1 0"; "p cnf 5 7"; "c two"]) = pre ++ h :: post /\
    forallb (fun l => negb (header_start l)) pre = true /\
    header_start h = true /\
    declared_header (text ["c one"; "p cnf 2 1"; "1 0"; "p cnf 5 7"; "c two"])
    = Return (Some (nv, nc)) /\
    text ["c one"; "p cnf 5 8"; "1 0"; "p cnf 5 7"; "c two"; "-2 0"]
    = concat pre ++ ApplyUnits.header_text nv (nc + Z.of_nat (length [-2]))
        ++ concat post ++ concat (map ApplyUnits.unit_line [-2]).
Proof.
  apply (apply_units_rewrites_first_header
           (text ["c one"; "p cnf 2 1"; "1 0"; "p cnf 5 7"; "c two"]) [-2]).
  vm_compute; reflexivity.
Defined.

(** Without a header line [apply_units.py] exits with an error, whatever
    the literals; so does the script when it is given no literal. *)
Theorem apply_units_without_header (file : str) (lits : list Z) :
  forallb (fun l => negb (header_start l)) (readlines file) = true ->
  ApplyUnits.apply_units file lits = Fail SysExit /\
  ApplyUnits.main file (map str_of_Z lits) = Fail SysExit.
Proof.
  intros H. assert (E : ApplyUnits.apply_units file lits = Fail SysExit).
  { unfold ApplyUnits.apply_units. now rewrite (scan_no_header _ _ H). }
  split; [exact E|]. unfold ApplyUnits.main. destruct lits as [|l lits]; [reflexivity|].
  cbn [map]. change (str_of_Z l :: map str_of_Z lits) with (map str_of_Z (l :: lits)).
  rewrite mapM_py_int_str_of_Z. exact E.
Qed.

Lemma apply_units_without_header_witness :
  ApplyUnits.apply_units (text ["c p cnf 2 1"; "pcnf 2 1"; "1 0"]) [2] = Fail SysExit /\
  ApplyUnits.main (text ["c p cnf 2 1"; "pcnf 2 1"; "1 0"]) (map str_of_Z [2]) = Fail SysExit.
Proof.
  apply (apply_units_without_header (text ["c p cnf 2 1"; "pcnf 2 1"; "1 0"]) [2]).
  vm_compute; reflexivity.
Defined.

(** On a text with one header line, written the usual way, applying
    literals in two calls of [apply_units.py] gives the text of one call
    with all of them. *)
Theorem apply_units_compose (pre post : list str) (nv nc : Z) (u1 u2 : list Z) (mid : str) :
  forallb plain_line pre = true -> forallb plain_line post = true ->
  ApplyUnits.apply_units (canonical_file pre nv nc post) u1 = Return mid ->
  ApplyUnits.apply_units mid u2
  = ApplyUnits.apply_units (canonical_file pre nv nc post) (u1 ++ u2).
Proof.
  intros Hpre Hpost E. rewrite (apply_units_canonical _ _ _ _ _ Hpre Hpost) in E.
  injection E as <-.
  rewrite (apply_units_canonical _ _ _ _ _ Hpre (units_plain _ _ Hpost)).
  rewrite (apply_units_canonical _ _ _ _ _ Hpre Hpost).
  unfold Dimacs.unit_clauses. rewrite !length_app, !map_app, <- app_assoc.
  do 2 f_equal. lia.
Qed.

Lemma apply_units_compose_witness :
  ApplyUnits.apply_units (text ["c hi"; "p cnf 3 2"; "1 -2 0"; "3 0"]) [-1]
  = ApplyUnits.apply_units (canonical_file [lit "c hi"] 3 1 [lit "1 -2 0"]) ([3] ++ [-1]).
Proof.
  apply (apply_units_compose [lit "c hi"] [lit "1 -2 0"] 3 1 [3] [-1]);
    vm_compute; reflexivity.
Defined.

(** ** The tables of the runs *)

Lemma numbered_from_snoc {S C T : Type} (rows : list (row S C T)) (r : row S C T) (i : Z) :
  numbered_from i (rows ++ [r])
  = numbered_from i rows && (row_iter r =? i + Z.of_nat (length rows)).
Proof.
  revert i; induction rows as [|x rows IH]; intros i.
  - cbn. now rewrite Z.add_0_r, andb_true_r.
  - cbn [app numbered_from length]. rewrite IH, <- andb_assoc. do 3 f_equal. lia.
Qed.

Lemma last_total_snoc {S C T : Type} (rows : list (row S C T)) (r : row S C T) (acc : Z) :
  last_total acc (rows ++ [r]) = row_k_added_total r.
Proof. unfold last_total. rewrite map_app. cbn [map]. now rewrite last_last. Qed.

Lemma last_cons_default {A : Type} (l : list A) (a d : A) :
  List.last (a :: l) d = List.last l a.
Proof.
  revert a d; induction l as [|b l IH]; intros a d; [reflexivity|].
  change (List.last (a :: b :: l) d) with (List.last (b :: l) d).
  now rewrite (IH b d), (IH b a).
Qed.

Lemma last_total_cons {S C T : Type} (rows : list (row S C T)) (x : row S C T) (acc : Z) :
  last_total acc (x :: rows) = last_total (row_k_added_total x) rows.
Proof. unfold last_total. cbn [map]. apply last_cons_default. Qed.

Lemma counted_from_snoc {S C T : Type} (rows : list (row S C T)) (r : row S C T) (acc : Z) :
  counted_from acc (rows ++ [r])
  = counted_from acc rows
    && (row_k_added_total r =? last_total acc rows + Z.of_nat (length (row_new_units r))).
Proof.
  revert acc; induction rows as [|x rows IH]; intros acc.
  - cbn. now rewrite andb_true_r.
  - cbn [app counted_from]. rewrite IH, <- andb_assoc, last_total_cons. reflexivity.
Qed.

Lemma stepped_from_snoc {S C T : Type} (rows : list (row S C T)) (r : row S C T)
    (step total acc : Z) :
  stepped_from step total acc (rows ++ [r])
  = stepped_from step total acc rows
    && (row_k_added_total r =? Z.min (last_total acc rows + step) total).
Proof.
  revert acc; induction rows as [|x rows IH]; intros acc.
  - cbn. now rewrite andb_true_r.
  - cbn [app stepped_from]. rewrite IH, <- andb_assoc, last_total_cons. reflexivity.
Qed.

Lemma all_but_last_of_all {A : Type} (test : A -> bool) (l : list A) :
  forallb test l = true -> all_but_last test l = true.
Proof.
  induction l as [|x l IH]; [reflexivity|]. cbn [forallb all_but_last]. intros H.
  apply andb_true_iff in H as [Hx Hl]. destruct l; [reflexivity|]. now rewrite Hx, IH.
Qed.

Lemma all_but_last_snoc {A : Type} (test : A -> bool) (l : list A) (x : A) :
  forallb test l = true -> all_but_last test (l ++ [x]) = true.
Proof.
  induction l as [|y l IH]; [reflexivity|]. cbn [forallb app all_but_last]. intros H.
  apply andb_true_iff in H as [Hy Hl]. rewrite Hy, (IH Hl).
  now destruct (l ++ [x]) eqn:E; [destruct l; discriminate|].
Qed.

Lemma all_but_last_ext {A : Type} (t1 t2 : A -> bool) (l : list A) :
  (forall x, t1 x = t2 x) -> all_but_last t1 l = all_but_last t2 l.
Proof.
  intros H. induction l as [|x l IH]; [reflexivity|]. cbn [all_but_last].
  destruct l; [reflexivity|]. now rewrite H, IH.
Qed.

Lemma forcewalk_row_fields (py_float : str -> option float) (solver : Z -> str -> str)
    (it k : Z) (units : list Z) (cnf : str) :
  row_iter (Forcewalk.solve_row py_float solver it k units cnf) = it /\
  row_k_added_total (Forcewalk.solve_row py_float solver it k units cnf) = k /\
  row_cnf (Forcewalk.solve_row py_float solver it k units cnf) = cnf.
Proof.
  unfold Forcewalk.solve_row.
  now destruct (v4_parse_glucose_log py_float (solver it cnf)) as [[s c] t].
Qed.

Lemma forcewalk_rounds_generic {pow_half : float -> float}
    (py_float : str -> option float) (solver : Z -> str -> str)
    (its : list Z) (k : Z) (curr : str) (avoid : gset Z) (kt : Z)
    (rows : list Forcewalk.frow) :
  Forcewalk.rounds pow_half py_float solver its k curr avoid kt rows
  = v4_rounds pow_half py_float solver Forcewalk.collapsed its k curr avoid kt rows.
Proof.
  revert curr avoid kt rows; induction its as [|it its IH]; intros curr avoid kt rows;
    [reflexivity|].
  cbn [Forcewalk.rounds v4_rounds].
  destruct (V4.pick_units_rayleigh pow_half curr k 25 avoid) as [units|e]; [|reflexivity].
  destruct (_ <? _); [reflexivity|].
  destruct (Dimacs.add_unit_clauses curr units) as [out|e]; [|reflexivity].
  destruct (Forcewalk.collapsed _); [reflexivity|]. apply IH.
Qed.

Lemma clean_rounds_generic {pow_half : float -> float}
    (py_float : str -> option float) (solver : Z -> str -> str)
    (its : list Z) (k : Z) (curr : str) (avoid : gset Z) (kt : Z)
    (rows : list Forcewalk.frow) :
  Clean.rounds pow_half py_float solver its k curr avoid kt rows
  = v4_rounds pow_half py_float solver Clean.stops its k curr avoid kt rows.
Proof.
  revert curr avoid kt rows; induction its as [|it its IH]; intros curr avoid kt rows;
    [reflexivity|].
  cbn [Clean.rounds v4_rounds].
  destruct (V4.pick_units_rayleigh pow_half curr k 25 avoid) as [units|e]; [|reflexivity].
  destruct (_ <? _); [reflexivity|].
  destruct (Dimacs.add_unit_clauses curr units) as [out|e]; [|reflexivity].
  destruct (Clean.stops _); [reflexivity|]. apply IH.
Qed.

(** What the rounds of a v4 runner add to a table that is in order. *)
Lemma v4_rounds_shape {pow_half : float -> float}
    (py_float : str -> option float) (solver : Z -> str -> str)
    (stop : Forcewalk.frow -> bool) (m : nat) :
  forall (k : Z) (curr : str) (avoid : gset Z) (kt : Z) (rows : list (row verdict Z float)),
    numbered_from 0 rows = true ->
    counted_from 0 rows = true ->
    last_total 0 rows = kt ->
    forallb (fun r => negb (stop r)) rows = true ->
    exists more,
      fst (v4_rounds pow_half py_float solver stop (map Z.of_nat (seq (length rows) m)) k curr avoid
             kt rows) = rows ++ more /\
      (length more <= m)%nat /\
      numbered_from 0 (rows ++ more) = true /\
      counted_from 0 (rows ++ more) = true /\
      all_but_last (fun r => negb (stop r)) (rows ++ more) = true /\
      (0 < k -> Forall (fun r => Z.of_nat (length (row_new_units r)) = k) more).
Proof.
  induction m as [|m IH]; intros k curr avoid kt rows Hn Hc Hk Hs.
  - exists []. cbn [seq map v4_rounds fst length]. rewrite app_nil_r.
    split; [reflexivity|]. split; [lia|]. split; [exact Hn|]. split; [exact Hc|].
    split; [now apply all_but_last_of_all|]. intros _. constructor.
  - assert (Hstay : exists more : list (row verdict Z float),
              rows = rows ++ more /\ (length more <= S m)%nat /\
              numbered_from 0 (rows ++ more) = true /\
              counted_from 0 (rows ++ more) = true /\
              all_but_last (fun r => negb (stop r)) (rows ++ more) = true /\
              (0 < k -> Forall (fun r => Z.of_nat (length (row_new_units r)) = k) more)).
    { exists []. rewrite app_nil_r. split; [reflexivity|]. cbn [length]. split; [lia|].
      split; [exact Hn|]. split; [exact Hc|]. split; [now apply all_but_last_of_all|].
      intros _. constructor. }
    cbn [seq map v4_rounds].
    destruct (V4.pick_units_rayleigh pow_half curr k 25 avoid) as [units|e] eqn:Ep; [|exact Hstay].
    destruct (Z.ltb_spec (Z.of_nat (length units)) k) as [Hlt|Hge]; [exact Hstay|].
    destruct (Dimacs.add_unit_clauses curr units) as [out|e]; [|exact Hstay].
    clear Hstay.
    set (r := Forcewalk.solve_row py_float solver (Z.of_nat (length rows))
                (kt + Z.of_nat (length units)) units out).
    destruct (forcewalk_row_fields py_float solver (Z.of_nat (length rows))
                (kt + Z.of_nat (length units)) units out) as (Fi & Fk & _).
    pose proof (forcewalk_row_units py_float solver (Z.of_nat (length rows))
                  (kt + Z.of_nat (length units)) units out) as Fu.
    fold r in Fi, Fk, Fu. unfold Forcewalk.frow in *.
    assert (Hn' : numbered_from 0 (rows ++ [r]) = true).
    { rewrite numbered_from_snoc, Hn, Fi. cbn [andb]. apply Z.eqb_eq. lia. }
    assert (Hc' : counted_from 0 (rows ++ [r]) = true).
    { rewrite counted_from_snoc, Hc, Fk, Fu, Hk. cbn [andb]. apply Z.eqb_refl. }
    assert (Hlen : 0 < k -> Z.of_nat (length (row_new_units r)) = k).
    { intros Hpos. rewrite Fu.
      apply pick_units_rayleigh_spec in Ep as (c & scores & _ & _ & -> & _).
      rewrite length_firstn in *. lia. }
    destruct (stop r) eqn:Er.
    + exists [r]. cbn [fst length]. split; [reflexivity|]. split; [lia|].
      split; [exact Hn'|]. split; [exact Hc'|]. split; [now apply all_but_last_snoc|].
      intros Hpos. constructor; [now apply Hlen|constructor].
    + assert (Hs' : forallb (fun r => negb (stop r)) (rows ++ [r]) = true).
      { rewrite forallb_app, Hs. cbn [forallb andb]. now rewrite Er. }
      assert (Hk' : last_total 0 (rows ++ [r]) = kt + Z.of_nat (length units)).
      { now rewrite last_total_snoc. }
      destruct (IH k out (Forcewalk.add_avoid avoid units) (kt + Z.of_nat (length units))
                  (rows ++ [r]) Hn' Hc' Hk' Hs')
        as (more & Em & Hm & Hn2 & Hc2 & Ha2 & Hl2).
      rewrite length_app in Em. cbn [length] in Em.
      replace (length rows + 1)%nat with (S (length rows)) in Em by lia.
      exists (r :: more). rewrite Em, <- !app_assoc. cbn [app length].
      rewrite <- !app_assoc in Hn2, Hc2, Ha2. cbn [app] in Hn2, Hc2, Ha2.
      split; [reflexivity|]. split; [lia|]. split; [exact Hn2|]. split; [exact Hc2|].
      split; [exact Ha2|]. intros Hpos. constructor; [now apply Hlen|now apply Hl2].
Qed.

Lemma add_units_nil (c : Dimacs.cnf) : add_units c [] = c.
Proof. destruct c. unfold add_units. cbn. now rewrite app_nil_r. Qed.

Lemma add_units_app (c : Dimacs.cnf) (u1 u2 : list Z) :
  add_units (add_units c u1) u2 = add_units c (u1 ++ u2).
Proof.
  unfold add_units, Dimacs.unit_clauses. cbn. now rewrite map_app, app_assoc.
Qed.

Lemma cnf_column_snoc {S C T : Type} (c : Dimacs.cnf) (rows : list (row S C T))
    (r : row S C T) :
  cnf_column c rows ->
  Dimacs.read_dimacs (row_cnf r) = Return (add_units c (concat (selections (rows ++ [r])))) ->
  cnf_column c (rows ++ [r]).
Proof.
  intros Hc Hr pre x post E.
  destruct post as [|y post _] using rev_ind.
  - apply app_inj_tail in E as [-> ->]. exact Hr.
  - rewrite app_comm_cons, app_assoc in E. apply app_inj_tail in E as [-> _].
    now apply (Hc pre x post).
Qed.

Lemma add_unit_clauses_reads (curr out : str) (c : Dimacs.cnf) (units : list Z) :
  Dimacs.read_dimacs curr = Return c ->
  Dimacs.add_unit_clauses curr units = Return out ->
  Dimacs.read_dimacs out = Return (add_units c units).
Proof.
  intros Ec E. unfold Dimacs.add_unit_clauses in E. rewrite Ec in E. cbn [bind] in E.
  injection E as <-. pose proof (read_dimacs_wf _ _ Ec) as Hwf. unfold wf_cnf in Hwf.
  apply andb_true_iff in Hwf as [Hn Hcm]. apply Z.ltb_lt in Hn.
  now rewrite (read_write_dimacs _ _ _ Hn Hcm).
Qed.

(** The rounds of a v4 runner keep the CNF column in step with the
    literals, and commit literals of the variables of the input only. *)
Lemma v4_rounds_cnfs {pow_half : float -> float}
    (py_float : str -> option float) (solver : Z -> str -> str)
    (stop : Forcewalk.frow -> bool) (c : Dimacs.cnf) (its : list Z) :
  forall (k : Z) (curr : str) (avoid : gset Z) (kt : Z) (rows : list (row verdict Z float)),
    Dimacs.read_dimacs curr = Return (add_units c (concat (selections rows))) ->
    cnf_column c rows ->
    (forall l, In l (concat (selections rows)) -> 1 <= Z.abs l <= Dimacs.nvars c) ->
    cnf_column c (fst (v4_rounds pow_half py_float solver stop its k curr avoid kt rows)) /\
    (forall l,
       In l (concat (selections (fst (v4_rounds pow_half py_float solver stop its k curr avoid kt
                                        rows)))) ->
       1 <= Z.abs l <= Dimacs.nvars c).
Proof.
  induction its as [|it its IH]; intros k curr avoid kt rows Ecurr Hcol Hrange.
  - split; [exact Hcol|exact Hrange].
  - cbn [v4_rounds].
    destruct (V4.pick_units_rayleigh pow_half curr k 25 avoid) as [units|e] eqn:Ep;
      [|split; [exact Hcol|exact Hrange]].
    destruct (_ <? _); [split; [exact Hcol|exact Hrange]|].
    destruct (Dimacs.add_unit_clauses curr units) as [out|e] eqn:Ea;
      [|split; [exact Hcol|exact Hrange]].
    set (r := Forcewalk.solve_row py_float solver it (kt + Z.of_nat (length units)) units out).
    destruct (forcewalk_row_fields py_float solver it (kt + Z.of_nat (length units)) units out)
      as (_ & _ & Fc).
    pose proof (forcewalk_row_units py_float solver it (kt + Z.of_nat (length units)) units
                  out) as Fu.
    fold r in Fc, Fu. unfold Forcewalk.frow in *.
    assert (Eout : Dimacs.read_dimacs out
                   = Return (add_units c (concat (selections (rows ++ [r]))))).
    { rewrite (selections_snoc rows r), Fu, <- add_units_app.
      exact (add_unit_clauses_reads _ _ _ _ Ecurr Ea). }
    assert (Hcol' : cnf_column c (rows ++ [r])).
    { apply cnf_column_snoc; [exact Hcol|]. now rewrite Fc. }
    assert (Hrange' : forall l, In l (concat (selections (rows ++ [r]))) ->
                                1 <= Z.abs l <= Dimacs.nvars c).
    { intros l Hl. rewrite (selections_snoc rows r), Fu in Hl.
      apply in_app_or in Hl as [Hl|Hl]; [now apply Hrange|].
      apply pick_units_rayleigh_spec in Ep as (c' & scores & Ec' & _ & _ & _ & Hin).
      rewrite Ecurr in Ec'. injection Ec' as <-. now apply Hin. }
    destruct (stop r); [split; [exact Hcol'|exact Hrange']|].
    now apply IH.
Qed.

(** The rows of a run of a v4 runner that goes into its rounds. *)
Lemma v4_rounds_rows {pow_half : float -> float}
    (py_float : str -> option float) (solver : Z -> str -> str)
    (stop : Forcewalk.frow -> bool) (input : str) (max_iters k : Z) :
  stop (Forcewalk.solve_row py_float solver 0 0 [] input) = false ->
  exists more,
    fst (v4_rounds pow_half py_float solver stop (range1 max_iters) k input ∅ 0
           [Forcewalk.solve_row py_float solver 0 0 [] input])
    = Forcewalk.solve_row py_float solver 0 0 [] input :: more /\
    (length more <= Z.to_nat max_iters)%nat /\
    numbered_from 0 (Forcewalk.solve_row py_float solver 0 0 [] input :: more) = true /\
    counted_from 0 (Forcewalk.solve_row py_float solver 0 0 [] input :: more) = true /\
    all_but_last (fun r => negb (stop r))
      (Forcewalk.solve_row py_float solver 0 0 [] input :: more) = true /\
    (0 < k -> Forall (fun r => Z.of_nat (length (row_new_units r)) = k) more).
Proof.
  intros E0.
  destruct (forcewalk_row_fields py_float solver 0 0 [] input) as (Fi & Fk & _).
  pose proof (forcewalk_row_units py_float solver 0 0 [] input) as Fu.
  set (r0 := Forcewalk.solve_row py_float solver 0 0 [] input) in *.
  unfold Forcewalk.frow in *.
  assert (Hn : numbered_from 0 [r0] = true) by (cbn; now rewrite Fi).
  assert (Hc : counted_from 0 [r0] = true) by (cbn; now rewrite Fk, Fu).
  assert (Hk : last_total 0 [r0] = 0) by exact Fk.
  assert (Hs : forallb (fun r => negb (stop r)) [r0] = true) by (cbn; now rewrite E0).
  destruct (v4_rounds_shape (pow_half := pow_half) py_float solver stop (Z.to_nat max_iters) k
              input ∅ 0 [r0]
              Hn Hc Hk Hs) as (more & Em & H).
  exists more. split; [exact Em|exact H].
Qed.

(** The table of a force-walk run.  The rows are numbered from 0 and
    there are at most [max_iters] rounds; the run goes on only after rows
    that are not solved with zero conflicts; the column [k_added_total]
    counts the literals committed so far; for a positive [k_per_iter]
    every round commits exactly that many literals. *)
Theorem forcewalk_run_table (pow_half : float -> float)
    (py_float : str -> option float) (solver : Z -> str -> str)
    (input : str) (max_iters k_per_iter : Z) :
  run_table Forcewalk.collapsed (Z.to_nat max_iters)
    (fst (Forcewalk.main pow_half py_float solver input max_iters k_per_iter)) /\
  counted_from 0 (fst (Forcewalk.main pow_half py_float solver input max_iters k_per_iter)) = true /\
  (0 < k_per_iter ->
   Forall (fun r => Z.of_nat (length (row_new_units r)) = k_per_iter)
     (tl (fst (Forcewalk.main pow_half py_float solver input max_iters k_per_iter)))).
Proof.
  unfold Forcewalk.main, run_table.
  destruct (forcewalk_row_fields py_float solver 0 0 [] input) as (Fi & Fk & _).
  pose proof (forcewalk_row_units py_float solver 0 0 [] input) as Fu.
  destruct (Forcewalk.collapsed (Forcewalk.solve_row py_float solver 0 0 [] input)) eqn:E0.
  - cbn [fst tl length selections map hd_error all_but_last numbered_from counted_from].
    rewrite Fi, Fk, Fu. cbn. repeat split; try lia. intros _. constructor.
  - rewrite forcewalk_rounds_generic.
    destruct (v4_rounds_rows (pow_half := pow_half) py_float solver Forcewalk.collapsed input max_iters k_per_iter E0)
      as (more & -> & Hm & Hn & Hc & Ha & Hl).
    cbn [tl length selections map hd_error]. rewrite Fu.
    unfold Forcewalk.frow in *.
    repeat split; try assumption; try reflexivity; lia.
Qed.

(** The table of a run of the clean runner, for a non-negative
    [max_iters]: as for the force-walk, with the stop test of the clean
    runner, which is passed by any verdict: every row but the last has the
    verdict [UNKNOWN]. *)
Theorem clean_run_table (pow_half : float -> float)
    (py_float : str -> option float) (solver : Z -> str -> str)
    (input : str) (max_iters k_per_iter : Z) :
  0 <= max_iters ->
  run_table (fun r => solved (row_status r)) (Z.to_nat max_iters)
    (fst (Clean.main pow_half py_float solver input max_iters k_per_iter)) /\
  counted_from 0 (fst (Clean.main pow_half py_float solver input max_iters k_per_iter)) = true /\
  (0 < k_per_iter ->
   Forall (fun r => Z.of_nat (length (row_new_units r)) = k_per_iter)
     (tl (fst (Clean.main pow_half py_float solver input max_iters k_per_iter)))).
Proof.
  intros Hmax.
  assert (Hstops : forall r : Forcewalk.frow, Clean.stops r = solved (row_status r)).
  { intros r. unfold Clean.stops, Forcewalk.collapsed.
    destruct (row_conflicts r =? 0), (solved (row_status r)); reflexivity. }
  unfold Clean.main, run_table. destruct (Z.ltb_spec max_iters 0) as [|_]; [lia|].
  destruct (forcewalk_row_fields py_float solver 0 0 [] input) as (Fi & Fk & _).
  pose proof (forcewalk_row_units py_float solver 0 0 [] input) as Fu.
  destruct (solved (row_status (Forcewalk.solve_row py_float solver 0 0 [] input))) eqn:E0.
  - cbn [fst tl length selections map hd_error all_but_last numbered_from counted_from].
    rewrite Fi, Fk, Fu. cbn. repeat split; try lia. intros _. constructor.
  - rewrite clean_rounds_generic. rewrite <- Hstops in E0.
    destruct (v4_rounds_rows (pow_half := pow_half) py_float solver Clean.stops input max_iters k_per_iter E0)
      as (more & -> & Hm & Hn & Hc & Ha & Hl).
    cbn [tl length selections map hd_error]. rewrite Fu.
    unfold Forcewalk.frow in *.
    repeat split; try assumption; try reflexivity; try lia.
    erewrite all_but_last_ext; [exact Ha|]. intros r. cbv beta. now rewrite Hstops.
Qed.

Lemma clean_run_table_witness :
  run_table (fun r => solved (row_status r)) (Z.to_nat 2)
    (fst (Clean.main PrimFloat.sqrt (fun _ => None) (fun _ _ => text ["c conflicts : 3"])
            (text ["p cnf 2 2"; "1 2 0"; "-1 2 0"]) 2 1)) /\
  counted_from 0
    (fst (Clean.main PrimFloat.sqrt (fun _ => None) (fun _ _ => text ["c conflicts : 3"])
            (text ["p cnf 2 2"; "1 2 0"; "-1 2 0"]) 2 1)) = true /\
  (0 < 1 ->
   Forall (fun r => Z.of_nat (length (row_new_units r)) = 1)
     (tl (fst (Clean.main PrimFloat.sqrt (fun _ => None) (fun _ _ => text ["c conflicts : 3"])
                 (text ["p cnf 2 2"; "1 2 0"; "-1 2 0"]) 2 1)))).
Proof.
  apply (clean_run_table PrimFloat.sqrt (fun _ => None) (fun _ _ => text ["c conflicts : 3"])
           (text ["p cnf 2 2"; "1 2 0"; "-1 2 0"]) 2 1).
  lia.
Defined.

Lemma cnf_column_single {S C T : Type} (c : Dimacs.cnf) (r : row S C T) :
  row_new_units r = [] ->
  Dimacs.read_dimacs (row_cnf r) = Return c ->
  cnf_column c [r].
Proof.
  intros Hu Hr. apply (cnf_column_snoc c [] r).
  - intros pre x post E. now destruct pre.
  - cbn. rewrite Hu. cbn. now rewrite add_units_nil.
Qed.

(** The CNF column of the runs of the two v4 runners without numpy: when
    the input reads as [c], the CNF of every row reads as [c] with one
    unit clause for each literal committed up to that row, in order, and
    every committed literal is a literal of a variable of [1..nvars]. *)
Theorem v4_runs_cnf_column (pow_half : float -> float)
    (py_float : str -> option float) (solver : Z -> str -> str)
    (input : str) (max_iters k_per_iter : Z) (c : Dimacs.cnf) :
  Dimacs.read_dimacs input = Return c ->
  (cnf_column c (fst (Forcewalk.main pow_half py_float solver input max_iters k_per_iter)) /\
   forall l,
     In l (concat (selections
                     (fst (Forcewalk.main pow_half py_float solver input max_iters k_per_iter)))) ->
     1 <= Z.abs l <= Dimacs.nvars c) /\
  (cnf_column c (fst (Clean.main pow_half py_float solver input max_iters k_per_iter)) /\
   forall l,
     In l (concat (selections
                     (fst (Clean.main pow_half py_float solver input max_iters k_per_iter)))) ->
     1 <= Z.abs l <= Dimacs.nvars c).
Proof.
  intros Ec.
  destruct (forcewalk_row_fields py_float solver 0 0 [] input) as (_ & _ & Fc).
  pose proof (forcewalk_row_units py_float solver 0 0 [] input) as Fu.
  assert (Hcol : cnf_column c [Forcewalk.solve_row py_float solver 0 0 [] input]).
  { apply cnf_column_single; [exact Fu|now rewrite Fc]. }
  assert (Hsel : concat (selections [Forcewalk.solve_row py_float solver 0 0 [] input]) = []).
  { cbn. now rewrite Fu. }
  assert (Hrange : forall l,
            In l (concat (selections [Forcewalk.solve_row py_float solver 0 0 [] input])) ->
            1 <= Z.abs l <= Dimacs.nvars c).
  { intros l Hl. rewrite Hsel in Hl. destruct Hl. }
  assert (Ecurr : Dimacs.read_dimacs input
                  = Return (add_units c (concat (selections
                      [Forcewalk.solve_row py_float solver 0 0 [] input])))).
  { now rewrite Hsel, add_units_nil. }
  split.
  - unfold Forcewalk.main. destruct (Forcewalk.collapsed _); [split; assumption|].
    rewrite forcewalk_rounds_generic. now apply v4_rounds_cnfs.
  - unfold Clean.main. destruct (max_iters <? 0).
    + split; [intros pre r post E; now destruct pre|intros l []].
    + destruct (solved _); [split; assumption|].
      rewrite clean_rounds_generic. now apply v4_rounds_cnfs.
Qed.

Lemma v4_runs_cnf_column_witness :
  (cnf_column (Dimacs.Cnf 2 [[1; 2]; [-1; 2]] [])
     (fst (Forcewalk.main PrimFloat.sqrt (fun _ => None) (fun _ _ => text ["c conflicts : 3"])
             (text ["p cnf 2 2"; "1 2 0"; "-1 2 0"]) 2 1)) /\
   forall l,
     In l (concat (selections
                     (fst (Forcewalk.main PrimFloat.sqrt (fun _ => None) (fun _ _ => text ["c conflicts : 3"])
                             (text ["p cnf 2 2"; "1 2 0"; "-1 2 0"]) 2 1)))) ->
     1 <= Z.abs l <= 2) /\
  (cnf_column (Dimacs.Cnf 2 [[1; 2]; [-1; 2]] [])
     (fst (Clean.main PrimFloat.sqrt (fun _ => None) (fun _ _ => text ["c conflicts : 3"])
             (text ["p cnf 2 2"; "1 2 0"; "-1 2 0"]) 2 1)) /\
   forall l,
     In l (concat (selections
                     (fst (Clean.main PrimFloat.sqrt (fun _ => None) (fun _ _ => text ["c conflicts : 3"])
                             (text ["p cnf 2 2"; "1 2 0"; "-1 2 0"]) 2 1)))) ->
     1 <= Z.abs l <= 2).
Proof.
  apply (v4_runs_cnf_column PrimFloat.sqrt (fun _ => None) (fun _ _ => text ["c conflicts : 3"])
           (text ["p cnf 2 2"; "1 2 0"; "-1 2 0"]) 2 1 (Dimacs.Cnf 2 [[1; 2]; [-1; 2]] [])).
  vm_compute; reflexivity.
Defined.

Lemma v1_row_fields (py_float : str -> option float) (solver : Z -> str -> str)
    (it k : Z) (units : list Z) (cnf : str) (r : V1Run.vrow) :
  V1Run.solve_row py_float solver it k units cnf = Return r ->
  row_iter r = it /\ row_k_added_total r = k /\ row_new_units r = units /\ row_cnf r = cnf.
Proof.
  unfold V1Run.solve_row.
  destruct (v1_parse_glucose_output py_float (solver it cnf)) as [[[s c] t]|e];
    [|discriminate].
  cbn [bind]. now intros [= <-].
Qed.

Lemma v1_rounds_generic (py_float : str -> option float) (solver : Z -> str -> str)
    (fuel : nat) (k_total k_step : Z) :
  forall (it : Z) (curr : str) (k_added : Z) (rows : list V1Run.vrow),
    V1Run.rounds py_float solver fuel k_total k_step it curr k_added rows
    = k_rounds v1_pick py_float solver fuel k_total k_step it curr tt k_added rows.
Proof.
  induction fuel as [|fuel IH]; intros it curr k_added rows; [reflexivity|].
  cbn [V1Run.rounds k_rounds]. destruct (k_added <? k_total); [|reflexivity].
  unfold v1_pick. destruct (V1.pick_literals curr _) as [lits|e]; [|reflexivity].
  destruct (V1.apply_new_units curr lits) as [next|e]; [|reflexivity].
  destruct (V1Run.solve_row _ _ _ _ _ _) as [r|e]; [|reflexivity].
  destruct (V1Run.collapsed r); [reflexivity|]. apply IH.
Qed.

Lemma random_rounds_generic {G : Type} (randint : G -> Z -> Z -> Z * G)
    (getrandbits1 : G -> Z * G) (py_float : str -> option float) (solver : Z -> str -> str)
    (fuel : nat) (k_total k_step : Z) :
  forall (it : Z) (curr : str) (used : gset Z) (k_added : Z) (g : G)
         (rows : list V1Run.vrow),
    RandomV1.rounds randint getrandbits1 py_float solver fuel k_total k_step it curr used
      k_added g rows
    = k_rounds (random_pick randint getrandbits1) py_float solver fuel k_total k_step it curr
        (used, g) k_added rows.
Proof.
  induction fuel as [|fuel IH]; intros it curr used k_added g rows; [reflexivity|].
  cbn [RandomV1.rounds k_rounds]. destruct (k_added <? k_total); [|reflexivity].
  unfold random_pick. cbn [fst snd].
  destruct (RandomV1.pick_random_literals randint getrandbits1 curr _ used g)
    as [[[lits used'] g']|e]; [|reflexivity].
  destruct (V1.apply_new_units curr lits) as [next|e]; [|reflexivity].
  change (RandomV1.solve_row py_float solver) with (V1Run.solve_row py_float solver).
  change (@RandomV1.collapsed) with (@V1Run.collapsed).
  destruct (V1Run.solve_row _ _ _ _ _ _) as [r|e]; [|reflexivity].
  destruct (V1Run.collapsed r); [reflexivity|]. apply IH.
Qed.

(** What the rounds of a stepping runner add to a table that is in
    order, for a picker whose literals pass [Q] with the number asked
    for. *)
Lemma k_rounds_shape {St : Type} (pick : St -> str -> Z -> outcome (list Z * St))
    (Q : Z -> list Z -> Prop) (py_float : str -> option float) (solver : Z -> str -> str)
    (k_total k_step : Z) (fuel : nat) :
  0 < k_step ->
  (forall st curr k lits st', 0 < k -> pick st curr k = Return (lits, st') -> Q k lits) ->
  forall (curr : str) (st : St) (k_added : Z)
         (rows : list (row (option verdict) (option Z) (option float))),
    numbered_from 0 rows = true ->
    last_total 0 rows = k_added ->
    k_added <= k_total ->
    k_total - k_added <= Z.of_nat fuel * k_step ->
    exists more,
      fst (k_rounds pick py_float solver fuel k_total k_step (Z.of_nat (length rows) - 1)
             curr st k_added rows) = rows ++ more /\
      (length more <= fuel)%nat /\
      numbered_from 0 (rows ++ more) = true /\
      stepped_from k_step k_total k_added more = true /\
      picked_ok Q k_added more /\
      all_but_last (fun r => negb (V1Run.collapsed r)) more = true /\
      (snd (k_rounds pick py_float solver fuel k_total k_step (Z.of_nat (length rows) - 1)
              curr st k_added rows) = None ->
       existsb V1Run.collapsed more = true
       \/ last_total 0 (rows ++ more) = k_total).
Proof.
  intros Hstep Hpick. induction fuel as [|fuel IH]; intros curr st k_added rows Hn Hk Hle Hf.
  - exists []. cbn [k_rounds fst snd length]. rewrite app_nil_r.
    split; [reflexivity|]. split; [lia|]. split; [exact Hn|]. split; [reflexivity|].
    split; [exact I|]. split; [reflexivity|]. intros _. right. lia.
  - assert (Hstay : forall e : option failure,
              exists more : list (row (option verdict) (option Z) (option float)),
              rows = rows ++ more /\ (length more <= S fuel)%nat /\
              numbered_from 0 (rows ++ more) = true /\
              stepped_from k_step k_total k_added more = true /\
              picked_ok Q k_added more /\
              all_but_last (fun r => negb (V1Run.collapsed r)) more = true /\
              (e = None -> k_total <= k_added ->
               existsb V1Run.collapsed more = true
               \/ last_total 0 (rows ++ more) = k_total)).
    { intros e. exists []. rewrite app_nil_r. split; [reflexivity|]. cbn [length].
      split; [lia|]. split; [exact Hn|]. split; [reflexivity|]. split; [exact I|].
      split; [reflexivity|]. intros _ Hge. right. lia. }
    cbn [k_rounds]. destruct (Z.ltb_spec k_added k_total) as [Hlt|Hge].
    2:{ destruct (Hstay None) as (more & E & H1 & H2 & H3 & H4 & H5 & H6).
        exists more. cbn [fst snd]. repeat (split; [assumption|]).
        intros _. now apply H6. }
    set (this_k := if k_step <=? k_total - k_added then k_step else k_total - k_added).
    assert (Hthis : 0 < this_k /\ k_added + this_k = Z.min (k_added + k_step) k_total).
    { unfold this_k. destruct (Z.leb_spec k_step (k_total - k_added)); lia. }
    destruct (pick st curr this_k) as [[lits st']|e] eqn:Ep.
    2:{ destruct (Hstay (Some e)) as (more & E & H1 & H2 & H3 & H4 & H5 & H6).
        exists more. cbn [fst snd]. repeat (split; [assumption|]). discriminate. }
    destruct (V1.apply_new_units curr lits) as [next|e].
    2:{ destruct (Hstay (Some e)) as (more & E & H1 & H2 & H3 & H4 & H5 & H6).
        exists more. cbn [fst snd]. repeat (split; [assumption|]). discriminate. }
    replace (Z.of_nat (length rows) - 1 + 1) with (Z.of_nat (length rows)) by lia.
    destruct (V1Run.solve_row py_float solver (Z.of_nat (length rows)) (k_added + this_k)
                lits next) as [r|e] eqn:Esr.
    2:{ destruct (Hstay (Some e)) as (more & E & H1 & H2 & H3 & H4 & H5 & H6).
        exists more. cbn [fst snd]. repeat (split; [assumption|]). discriminate. }
    clear Hstay.
    destruct (v1_row_fields py_float solver _ _ _ _ r Esr) as (Fi & Fk & Fu & _).
    unfold V1Run.vrow in *.
    assert (Hn' : numbered_from 0 (rows ++ [r]) = true).
    { rewrite numbered_from_snoc, Hn, Fi. cbn [andb]. apply Z.eqb_eq. lia. }
    assert (HQ : Q (row_k_added_total r - k_added) (row_new_units r)).
    { rewrite Fk, Fu. replace (k_added + this_k - k_added) with this_k by lia.
      exact (Hpick _ _ _ _ _ (proj1 Hthis) Ep). }
    assert (Hst : (row_k_added_total r =? Z.min (k_added + k_step) k_total) = true).
    { rewrite Fk. apply Z.eqb_eq. lia. }
    destruct (V1Run.collapsed r) eqn:Er.
    + exists [r]. cbn [fst snd length stepped_from picked_ok all_but_last]. rewrite Hst.
      split; [reflexivity|]. split; [lia|]. split; [exact Hn'|]. split; [reflexivity|].
      split; [split; [exact HQ|exact I]|]. split; [reflexivity|].
      intros _. left. cbn [existsb]. now rewrite Er.
    + assert (Hk' : last_total 0 (rows ++ [r]) = k_added + this_k).
      { now rewrite last_total_snoc. }
      assert (Hlen : Z.of_nat (length (rows ++ [r])) - 1 = Z.of_nat (length rows)).
      { rewrite length_app. cbn [length]. lia. }
      destruct (IH next st' (k_added + this_k) (rows ++ [r]) Hn' Hk') as
        (more & Em & Hm & Hn2 & Hst2 & HQ2 & Ha2 & Hend); [lia|nia|].
      rewrite Hlen in Em, Hend.
      exists (r :: more). rewrite Em, <- !app_assoc.
      cbn [app length stepped_from picked_ok all_but_last existsb].
      rewrite <- !app_assoc in Hn2, Hend. cbn [app] in Hn2, Hend.
      rewrite Hst, Fk, Er. cbn [andb orb negb]. rewrite Fk in HQ.
      split; [reflexivity|]. split; [lia|]. split; [exact Hn2|]. split; [exact Hst2|].
      split; [split; [rewrite Fu in *; exact HQ|exact HQ2]|].
      split; [now destruct more|exact Hend].
Qed.

(** The bound on the rounds is never what ends them: with more fuel the
    rounds are the same. *)
Lemma k_rounds_fuel {St : Type} (pick : St -> str -> Z -> outcome (list Z * St))
    (py_float : str -> option float) (solver : Z -> str -> str)
    (k_total k_step : Z) (extra : nat) (fuel : nat) :
  0 < k_step ->
  forall (it : Z) (curr : str) (st : St) (k_added : Z) (rows : list V1Run.vrow),
    k_total - k_added <= Z.of_nat fuel * k_step ->
    k_rounds pick py_float solver (fuel + extra) k_total k_step it curr st k_added rows
    = k_rounds pick py_float solver fuel k_total k_step it curr st k_added rows.
Proof.
  intros Hstep. induction fuel as [|fuel IH]; intros it curr st k_added rows Hf.
  - cbn [Nat.add k_rounds]. destruct extra as [|extra]; [reflexivity|].
    cbn [k_rounds]. destruct (Z.ltb_spec k_added k_total); [lia|reflexivity].
  - cbn [Nat.add k_rounds]. destruct (Z.ltb_spec k_added k_total) as [Hlt|]; [|reflexivity].
    set (this_k := if k_step <=? k_total - k_added then k_step else k_total - k_added).
    assert (Hthis : k_total - (k_added + this_k) <= Z.of_nat fuel * k_step).
    { unfold this_k. destruct (Z.leb_spec k_step (k_total - k_added)); nia. }
    destruct (pick st curr this_k) as [[lits st']|e]; [|reflexivity].
    destruct (V1.apply_new_units curr lits) as [next|e]; [|reflexivity].
    destruct (V1Run.solve_row _ _ _ _ _ _) as [r|e]; [|reflexivity].
    destruct (V1Run.collapsed r); [reflexivity|]. now apply IH.
Qed.

Lemma picked_counted {S C T : Type} (P : list Z -> Prop) (acc : Z) (rows : list (row S C T)) :
  picked_ok (fun k l => Z.of_nat (length l) = k /\ P l) acc rows ->
  counted_from acc rows = true /\ Forall (fun r => P (row_new_units r)) rows.
Proof.
  revert acc; induction rows as [|r rows IH]; intros acc H.
  - split; [reflexivity|constructor].
  - cbn [picked_ok] in H. destruct H as [[Hlen HP] H]. destruct (IH _ H) as [Hc HF].
    cbn [counted_from]. rewrite Hc, andb_true_r. split; [apply Z.eqb_eq; lia|].
    now constructor.
Qed.


(** The rows of a run of a stepping runner that passes the checks of its
    arguments. *)
Lemma k_rounds_rows {St : Type} (pick : St -> str -> Z -> outcome (list Z * St))
    (Q : Z -> list Z -> Prop) (py_float : str -> option float) (solver : Z -> str -> str)
    (input : str) (k_total k_step : Z) (st : St) (r0 : V1Run.vrow) :
  0 < k_step <= k_total ->
  (forall st curr k lits st', 0 < k -> pick st curr k = Return (lits, st') -> Q k lits) ->
  V1Run.solve_row py_float solver 0 0 [] input = Return r0 ->
  stepping_table V1Run.collapsed k_total k_step
    (fst (k_rounds pick py_float solver (Z.to_nat k_total) k_total k_step 0 input st 0
            [r0])) /\
  picked_ok Q 0
    (tl (fst (k_rounds pick py_float solver (Z.to_nat k_total) k_total k_step 0 input st 0
                [r0]))) /\
  (snd (k_rounds pick py_float solver (Z.to_nat k_total) k_total k_step 0 input st 0
          [r0]) = None ->
   existsb V1Run.collapsed
     (tl (fst (k_rounds pick py_float solver (Z.to_nat k_total) k_total k_step 0 input st 0
                 [r0]))) = true
   \/ last_total 0
        (fst (k_rounds pick py_float solver (Z.to_nat k_total) k_total k_step 0 input st 0
                [r0])) = k_total).
Proof.
  intros Hk Hpick E0.
  destruct (v1_row_fields py_float solver 0 0 [] input r0 E0) as (Fi & Fk & Fu & _).
  unfold V1Run.vrow in *.
  assert (Hn : numbered_from 0 [r0] = true) by (cbn; now rewrite Fi).
  assert (Hl : last_total 0 [r0] = 0) by exact Fk.
  destruct (k_rounds_shape pick Q py_float solver k_total k_step (Z.to_nat k_total)
              (proj1 Hk) Hpick input st 0 [r0] Hn Hl)
    as (more & Em & Hm & Hn2 & Hst & HQ & Ha & Hend); [lia|nia|].
  change (Z.of_nat (length [r0]) - 1) with 0 in Em, Hend.
  unfold V1Run.vrow in *. rewrite Em. cbn [app tl] in *. unfold stepping_table.
  cbn [selections map hd_error tl length]. rewrite Fu, Fk.
  repeat split; try assumption; try reflexivity; lia.
Qed.

(** The table of a run of the v1 controller whose arguments pass the
    checks.  When the parser raises on the report of the first solve, the
    run ends there without a row.  Otherwise: every round commits exactly
    the number of literals it asked for, of distinct variables, so that the
    column [k_added_total] counts the literals committed; a run that ends
    without an error has stopped at a row solved with zero conflicts or has
    committed [k_total] literals; the loop ends by its own test within
    [k_total] rounds. *)
Theorem v1_run_table (py_float : str -> option float) (solver : Z -> str -> str)
    (input : str) (k_total k_step : Z) :
  0 < k_step <= k_total ->
  (forall e, V1Run.solve_row py_float solver 0 0 [] input = Fail e ->
     V1Run.main py_float solver input k_total k_step = ([], Some e)) /\
  (forall r0, V1Run.solve_row py_float solver 0 0 [] input = Return r0 ->
     stepping_table V1Run.collapsed k_total k_step
       (fst (V1Run.main py_float solver input k_total k_step)) /\
     picked_ok (fun k l => Z.of_nat (length l) = k /\ List.NoDup (map Z.abs l)) 0
       (tl (fst (V1Run.main py_float solver input k_total k_step))) /\
     counted_from 0 (fst (V1Run.main py_float solver input k_total k_step)) = true /\
     (snd (V1Run.main py_float solver input k_total k_step) = None ->
      existsb V1Run.collapsed (tl (fst (V1Run.main py_float solver input k_total k_step)))
      = true
      \/ last_total 0 (fst (V1Run.main py_float solver input k_total k_step)) = k_total) /\
     (forall extra : nat,
        V1Run.rounds py_float solver (Z.to_nat k_total + extra) k_total k_step 0 input 0 [r0]
        = V1Run.main py_float solver input k_total k_step)).
Proof.
  intros Hk. unfold V1Run.main.
  destruct (Z.leb_spec k_total 0); [lia|]. destruct (Z.leb_spec k_step 0); [lia|].
  destruct (Z.ltb_spec k_total k_step); [lia|]. cbn [orb].
  split; [now intros e ->|]. intros r0 E0. rewrite E0.
  rewrite !v1_rounds_generic.
  assert (Hpick : forall (st : unit) curr k lits (st' : unit),
            0 < k -> v1_pick st curr k = Return (lits, st') ->
            Z.of_nat (length lits) = k /\ List.NoDup (map Z.abs lits)).
  { intros st curr k lits st' Hpos E. unfold v1_pick in E.
    destruct (V1.pick_literals curr k) as [l|e] eqn:Ep; [|discriminate].
    injection E as <- _. apply v1_pick_literals_inv in Ep as (_ & _ & Hlen & Hnd).
    split; [lia|exact Hnd]. }
  destruct (k_rounds_rows v1_pick _ py_float solver input k_total k_step tt r0 Hk Hpick E0)
    as (Ht & HQ & Hend).
  split; [exact Ht|]. split; [exact HQ|]. split; [|split; [exact Hend|]].
  - destruct Ht as (_ & Hu & Hz & _).
    destruct (fst (k_rounds v1_pick py_float solver (Z.to_nat k_total) k_total k_step 0 input
                     tt 0 [r0])) as [|r1 more].
    + reflexivity.
    + cbn [selections map hd_error tl] in *. injection Hu as Hu. injection Hz as Hz.
      cbn [counted_from]. rewrite Hz, Hu. cbn [length Z.of_nat Z.add Z.eqb andb].
      now apply picked_counted in HQ as [HQ _].
  - intros extra. rewrite v1_rounds_generic. apply k_rounds_fuel; [lia|nia].
Qed.

Lemma v1_run_table_witness :
  stepping_table V1Run.collapsed 2 1
    (fst (V1Run.main (fun _ => None) (fun _ _ => text ["c conflicts : 3"])
            (text ["p cnf 2 2"; "1 2 0"; "-1 2 0"]) 2 1)) /\
  selections (fst (V1Run.main (fun _ => None) (fun _ _ => text ["c conflicts : 3"])
                     (text ["p cnf 2 2"; "1 2 0"; "-1 2 0"]) 2 1)) = [[]; [1]; [1]].
Proof.
  split; [|vm_compute; reflexivity].
  assert (Hk : 0 < 1 <= 2) by lia.
  destruct (v1_run_table (fun _ => None) (fun _ _ => text ["c conflicts : 3"])
              (text ["p cnf 2 2"; "1 2 0"; "-1 2 0"]) 2 1 Hk) as [_ H].
  edestruct H as (Ht & _); [vm_compute; reflexivity|exact Ht].
Defined.

(** The table of a run of the random control whose arguments pass the
    checks.  When the parser raises on the report of the first solve, the
    run ends there without a row.  Otherwise: every round returns distinct
    literals, no more than it asked for; the column [k_added_total] grows
    by the number asked for, not by the number returned; a run that ends
    without an error has stopped at a row solved with zero conflicts or has
    reached [k_total]; the loop ends by its own test within [k_total]
    rounds. *)
Theorem random_run_table {G : Type} (randint : G -> Z -> Z -> Z * G)
    (getrandbits1 : G -> Z * G) (py_float : str -> option float) (solver : Z -> str -> str)
    (input : str) (k_total k_step : Z) (g : G) :
  0 < k_step <= k_total ->
  (forall e, RandomV1.solve_row py_float solver 0 0 [] input = Fail e ->
     RandomV1.main randint getrandbits1 py_float solver input k_total k_step g
     = ([], Some e)) /\
  (forall r0, RandomV1.solve_row py_float solver 0 0 [] input = Return r0 ->
     stepping_table RandomV1.collapsed k_total k_step
       (fst (RandomV1.main randint getrandbits1 py_float solver input k_total k_step g)) /\
     picked_ok (fun k l => List.NoDup l /\ Z.of_nat (length l) <= k) 0
       (tl (fst (RandomV1.main randint getrandbits1 py_float solver input k_total k_step
                   g))) /\
     (snd (RandomV1.main randint getrandbits1 py_float solver input k_total k_step g) = None ->
      existsb RandomV1.collapsed
        (tl (fst (RandomV1.main randint getrandbits1 py_float solver input k_total k_step g)))
      = true
      \/ last_total 0
           (fst (RandomV1.main randint getrandbits1 py_float solver input k_total k_step g))
         = k_total) /\
     (forall extra : nat,
        RandomV1.rounds randint getrandbits1 py_float solver (Z.to_nat k_total + extra)
          k_total k_step 0 input ∅ 0 g [r0]
        = RandomV1.main randint getrandbits1 py_float solver input k_total k_step g)).
Proof.
  intros Hk. unfold RandomV1.main.
  destruct (Z.leb_spec k_total 0); [lia|]. destruct (Z.leb_spec k_step 0); [lia|].
  destruct (Z.ltb_spec k_total k_step); [lia|]. cbn [orb].
  split; [now intros e ->|]. intros r0 E0. rewrite E0.
  rewrite !random_rounds_generic.
  change (RandomV1.solve_row py_float solver) with (V1Run.solve_row py_float solver) in E0.
  change (@RandomV1.collapsed) with (@V1Run.collapsed).
  assert (Hpick : forall (st : gset Z * G) curr k lits (st' : gset Z * G),
            0 < k -> random_pick randint getrandbits1 st curr k = Return (lits, st') ->
            List.NoDup lits /\ Z.of_nat (length lits) <= k).
  { intros st curr k lits st' Hpos E. unfold random_pick in E.
    destruct (RandomV1.pick_random_literals randint getrandbits1 curr k (fst st) (snd st))
      as [[[l u] g']|e] eqn:Ep; [|discriminate].
    injection E as <- _. apply pick_random_literals_spec in Ep as (Hnd & _ & _ & Hlen & _).
    split; [exact Hnd|lia]. }
  destruct (k_rounds_rows (random_pick randint getrandbits1) _ py_float solver input k_total
              k_step (∅, g) r0 Hk Hpick E0) as (Ht & HQ & Hend).
  split; [exact Ht|]. split; [exact HQ|]. split; [exact Hend|].
  intros extra. rewrite random_rounds_generic. apply k_rounds_fuel; [lia|nia].
Qed.

Lemma random_run_table_witness :
  stepping_table RandomV1.collapsed 3 2
    (fst (RandomV1.main first_randint alternating_bit (fun _ => None)
            (fun _ _ => text ["c conflicts : 3"]) (text ["p cnf 1 1"; "1 0"]) 3 2 0)) /\
  map (fun r => (row_k_added_total r, row_new_units r))
    (fst (RandomV1.main first_randint alternating_bit (fun _ => None)
            (fun _ _ => text ["c conflicts : 3"]) (text ["p cnf 1 1"; "1 0"]) 3 2 0))
  = [(0, []); (2, [1; -1])].
Proof.
  split; [|vm_compute; reflexivity].
  assert (Hk : 0 < 2 <= 3) by lia.
  destruct (random_run_table first_randint alternating_bit (fun _ => None)
              (fun _ _ => text ["c conflicts : 3"]) (text ["p cnf 1 1"; "1 0"]) 3 2 0 Hk)
    as [_ H].
  edestruct H as (Ht & _); [vm_compute; reflexivity|exact Ht].
Defined.

(** ** The v4 selector *)

(** [pick_units_rayleigh] returns at most [max(1, k)] literals, and fewer
    only when no candidate is left: every variable of [1..nvars] is then
    in the avoid set, in some polarity, or among the returned ones. *)
Theorem rayleigh_pick_exhausts (pow_half : float -> float)
    (file : str) (k iters : Z) (avoid : gset Z) (lits : list Z) :
  V4.pick_units_rayleigh pow_half file k iters avoid = Return lits ->
  exists c,
    Dimacs.read_dimacs file = Return c /\
    Z.of_nat (length lits) <= Z.max 1 k /\
    (Z.of_nat (length lits) < Z.max 1 k ->
     forall v, 1 <= v <= Dimacs.nvars c ->
       (v ∈ avoid) \/ ((- v) ∈ avoid) \/ In v (map Z.abs lits)).
Proof.
  intros E. pose proof E as E'. unfold V4.pick_units_rayleigh in E'.
  apply bind_Return_inv in E' as (c0 & Ec0 & E').
  apply bind_Return_inv in E' as (sc0 & Es0 & _).
  pose proof (literal_scores_signs _ _ _ _ Es0) as Hs.
  apply pick_units_rayleigh_spec in E as (c & scores & Ec & Es & -> & _ & _).
  rewrite Ec0 in Ec. injection Ec as <-. rewrite Es0 in Es. injection Es as <-.
  exists c0. split; [exact Ec0|].
  set (cands := v4_candidates sc0 (V4.rank_order sc0 (Dimacs.nvars c0)) avoid).
  split; [rewrite length_firstn; lia|].
  intros Hlt v Hv. rewrite length_firstn in Hlt.
  rewrite firstn_all2 by lia.
  assert (Hin : In (v4_literal sc0 v) (map (v4_literal sc0) (V4.rank_order sc0 (Dimacs.nvars c0)))).
  { apply in_map. now apply v4_rank_order_In. }
  destruct (bool_decide (v4_literal sc0 v ∈ avoid ∨ (- v4_literal sc0 v) ∈ avoid)) eqn:Ed.
  - apply bool_decide_eq_true in Ed. unfold v4_literal in Ed.
    destruct (Hs v) as [Hp|Hp]; rewrite Hp in Ed.
    + replace (1 * v) with v in Ed by lia. tauto.
    + replace (-1 * v) with (- v) in Ed by lia. rewrite Z.opp_involutive in Ed. tauto.
  - right. right. apply in_map_iff. exists (v4_literal sc0 v).
    split; [apply v4_literal_abs; [exact Hs|lia]|].
    unfold cands, v4_candidates. apply filter_In. split; [exact Hin|]. now rewrite Ed.
Qed.

Lemma rayleigh_pick_exhausts_witness :
  exists c,
    Dimacs.read_dimacs (text ["p cnf 2 2"; "1 2 0"; "-1 2 0"]) = Return c /\
    Z.of_nat (length [2]) <= Z.max 1 5 /\
    (Z.of_nat (length [2]) < Z.max 1 5 ->
     forall v, 1 <= v <= Dimacs.nvars c ->
       (v ∈ ({[ 1 ]} : gset Z)) \/ ((- v) ∈ ({[ 1 ]} : gset Z)) \/ In v (map Z.abs [2])).
Proof.
  apply (rayleigh_pick_exhausts PrimFloat.sqrt (text ["p cnf 2 2"; "1 2 0"; "-1 2 0"]) 5 25 {[ 1 ]} [2]).
  vm_compute; reflexivity.
Defined.

Lemma v4_power_loop_length {pow_half : float -> float} (iters : nat) (cv : list (list Z)) (n : Z) :
  forall x, length (V4.power_loop pow_half iters cv n x) = length x.
Proof.
  induction iters as [|iters IH]; intros x; [reflexivity|].
  cbn [V4.power_loop]. destruct (_ =? _)%float; [reflexivity|].
  rewrite IH.
  apply (fold_insert_length
           (fun _ v => (float_list_get (V4.spread cv (V4.clause_sums cv x) n) v
                        / V4.l2_norm pow_half (V4.spread cv (V4.clause_sums cv x) n) n)%float)).
Qed.

Lemma v4_scores_length {pow_half : float -> float} (cv : list (list Z)) (n iters : Z) :
  length (V4.power_iter_var_scores pow_half cv n iters) = Z.to_nat (n + 1).
Proof.
  unfold V4.power_iter_var_scores. now rewrite v4_power_loop_length, v4_init_x_length.
Qed.

Lemma v4_mass_outcome (x : list float) (cl : list Z) :
  forall m,
    if forallb (fun l => (Z.to_nat (Z.abs l) <? length x)%nat) cl
    then exists r, V4.mass x cl m = Return r
    else V4.mass x cl m = Fail IndexError.
Proof.
  induction cl as [|l cl IH]; intros m.
  - cbn. now exists m.
  - cbn [forallb V4.mass]. unfold index.
    destruct (Nat.ltb_spec (Z.to_nat (Z.abs l)) (length x)) as [Hlt|Hge].
    + destruct (nth_error x (Z.to_nat (Z.abs l))) as [xv|] eqn:Ex.
      * cbn [andb bind]. apply IH.
      * apply nth_error_None in Ex. lia.
    + apply nth_error_None in Hge. rewrite Hge. reflexivity.
Qed.

Lemma v4_masses_outcome (x : list float) (cls : list (list Z)) :
  if forallb (forallb (fun l => (Z.to_nat (Z.abs l) <? length x)%nat)) cls
  then exists r, mapM (fun cl => V4.mass x cl 0%float) cls = Return r
  else mapM (fun cl => V4.mass x cl 0%float) cls = Fail IndexError.
Proof.
  induction cls as [|cl cls IH]; [cbn; now exists []|].
  cbn [forallb mapM]. pose proof (v4_mass_outcome x cl 0%float) as Hm.
  destruct (forallb _ cl).
  - destruct Hm as [r ->]. cbn [andb bind].
    destruct (forallb _ cls).
    + destruct IH as [rs ->]. cbn [bind]. now exists (r :: rs).
    + now rewrite IH.
  - now rewrite Hm.
Qed.

(** [literal_scores_and_polarity] raises [IndexError] exactly when a
    clause holds a literal whose variable is beyond [nvars]; it fails in no
    other way. *)
Theorem rayleigh_scores_index_error (pow_half : float -> float)
    (cls : list (list Z)) (n iters : Z) :
  returns (V4.literal_scores_and_polarity pow_half cls n iters)
  = forallb (forallb (fun l => (Z.to_nat (Z.abs l) <? Z.to_nat (n + 1))%nat)) cls
  /\ (returns (V4.literal_scores_and_polarity pow_half cls n iters) = false ->
      V4.literal_scores_and_polarity pow_half cls n iters = Fail IndexError).
Proof.
  unfold V4.literal_scores_and_polarity.
  pose proof (v4_masses_outcome
                (V4.power_iter_var_scores pow_half (V4.build_clause_vars cls n) n iters) cls) as H.
  rewrite v4_scores_length in H.
  destruct (forallb _ cls).
  - destruct H as [r ->]. cbn. split; [reflexivity|discriminate].
  - rewrite H. cbn. split; reflexivity.
Qed.

Lemma pressure_clause_other (w : float) (cl : list Z) (v : Z) :
  0 <= v -> (forall l, In l cl -> Z.abs l <> v) ->
  forall pn : list float * list float,
    float_list_get
      (fst (fold_left
              (fun pn l =>
                 if 0 <? l then (V4.add_at (fst pn) (Z.abs l) w, snd pn)
                 else (fst pn, V4.add_at (snd pn) (Z.abs l) w)) cl pn)) v
    = float_list_get (fst pn) v /\
    float_list_get
      (snd (fold_left
              (fun pn l =>
                 if 0 <? l then (V4.add_at (fst pn) (Z.abs l) w, snd pn)
                 else (fst pn, V4.add_at (snd pn) (Z.abs l) w)) cl pn)) v
    = float_list_get (snd pn) v.
Proof.
  intros Hv. induction cl as [|l cl IH]; intros Hne pn; [now split|].
  cbn [fold_left].
  assert (Hl : Z.abs l <> v) by (apply Hne; now left).
  destruct (IH (fun l' Hl' => Hne l' (or_intror Hl'))
              (if 0 <? l then (V4.add_at (fst pn) (Z.abs l) w, snd pn)
               else (fst pn, V4.add_at (snd pn) (Z.abs l) w))) as [H1 H2].
  rewrite H1, H2. destruct (0 <? l); cbn [fst snd];
    rewrite ?add_at_other by lia; now split.
Qed.

Lemma pressure_other (cls : list (list Z)) (cm : list float) (n v : Z) :
  0 <= v -> occurs v cls = false ->
  float_list_get (fst (V4.pressure cls cm n)) v = 0%float /\
  float_list_get (snd (V4.pressure cls cm n)) v = 0%float.
Proof.
  intros Hv Ho. unfold V4.pressure.
  assert (Hz : float_list_get (V4.zeros n) v = 0%float).
  { unfold float_list_get, V4.zeros. rewrite nth_lookup.
    destruct (replicate _ _ !! Z.to_nat v) as [x|] eqn:Ex;
      [apply lookup_replicate in Ex as [-> _]|]; reflexivity. }
  assert (Hgen : forall (wcls : list (float * list Z)) (pn : list float * list float),
            (forall wcl, In wcl wcls -> In (snd wcl) cls) ->
            float_list_get (fst pn) v = 0%float -> float_list_get (snd pn) v = 0%float ->
            float_list_get
              (fst (fold_left
                      (fun pn wcl =>
                         fold_left
                           (fun pn l =>
                              if 0 <? l
                              then (V4.add_at (fst pn) (Z.abs l) (fst wcl), snd pn)
                              else (fst pn, V4.add_at (snd pn) (Z.abs l) (fst wcl)))
                           (snd wcl) pn) wcls pn)) v = 0%float /\
            float_list_get
              (snd (fold_left
                      (fun pn wcl =>
                         fold_left
                           (fun pn l =>
                              if 0 <? l
                              then (V4.add_at (fst pn) (Z.abs l) (fst wcl), snd pn)
                              else (fst pn, V4.add_at (snd pn) (Z.abs l) (fst wcl)))
                           (snd wcl) pn) wcls pn)) v = 0%float).
  { induction wcls as [|wcl wcls IH]; intros pn Hin H1 H2; [now split|].
    cbn [fold_left]. apply IH.
    - intros x Hx. apply Hin. now right.
    - rewrite (proj1 (pressure_clause_other (fst wcl) (snd wcl) v Hv
                        (fun l Hl => occurs_false v cls Ho _ l (Hin wcl (or_introl eq_refl)) Hl)
                        pn)). exact H1.
    - rewrite (proj2 (pressure_clause_other (fst wcl) (snd wcl) v Hv
                        (fun l Hl => occurs_false v cls Ho _ l (Hin wcl (or_introl eq_refl)) Hl)
                        pn)). exact H2. }
  apply Hgen; [|exact Hz|exact Hz].
  intros [w cl] Hin. cbn [snd]. now apply in_combine_r in Hin.
Qed.

(** A variable that occurs in no clause has no pressure on either side,
    so that [literal_scores_and_polarity] gives it the polarity [+1]; the
    literals of such variables that [pick_units_rayleigh] returns are
    positive. *)
Theorem rayleigh_unreferenced_positive (pow_half : float -> float)
    (file : str) (k iters : Z) (avoid : gset Z)
    (lits : list Z) :
  (forall cls n scores v,
     V4.literal_scores_and_polarity pow_half cls n iters = Return scores ->
     0 <= v -> occurs v cls = false -> snd (scores v) = 1) /\
  (V4.pick_units_rayleigh pow_half file k iters avoid = Return lits ->
   exists c,
     Dimacs.read_dimacs file = Return c /\
     forall l, In l lits -> occurs (Z.abs l) (Dimacs.clauses c) = false -> 0 < l).
Proof.
  assert (Hpol : forall cls n scores v,
            V4.literal_scores_and_polarity pow_half cls n iters = Return scores ->
            0 <= v -> occurs v cls = false -> snd (scores v) = 1).
  { intros cls n scores v E Hv Ho. unfold V4.literal_scores_and_polarity in E.
    apply bind_Return_inv in E as (cm & _ & E). injection E as <-. cbn [snd].
    destruct (pressure_other cls cm n v Hv Ho) as [-> ->]. reflexivity. }
  split; [exact Hpol|]. intros E.
  apply pick_units_rayleigh_spec in E as (c & scores & Ec & Es & -> & _ & Hr).
  exists c. split; [exact Ec|]. intros l Hl Ho.
  destruct (Hr l Hl) as (_ & _ & Habs).
  apply firstn_In in Hl. unfold v4_candidates in Hl. apply filter_In in Hl as [Hl _].
  apply in_map_iff in Hl as (v & <- & Hv). apply v4_rank_order_In in Hv.
  pose proof (literal_scores_signs _ _ _ _ Es) as Hs.
  rewrite v4_literal_abs in Ho by (auto; lia).
  unfold v4_literal. rewrite (Hpol _ _ _ v Es) by (auto; lia). lia.
Qed.

Lemma rayleigh_unreferenced_positive_witness :
  exists c,
    Dimacs.read_dimacs (text ["p cnf 3 2"; "1 -2 0"; "2 0"]) = Return c /\
    forall l, In l [-2; 1; 3] -> occurs (Z.abs l) (Dimacs.clauses c) = false -> 0 < l.
Proof.
  apply (proj2 (rayleigh_unreferenced_positive PrimFloat.sqrt (text ["p cnf 3 2"; "1 -2 0"; "2 0"]) 3 25 ∅
                  [-2; 1; 3])).
  vm_compute; reflexivity.
Defined.

(** ** The v0b picker *)

Lemma v0b_clause_incidence_outcome (j : nat) (lits : list Z) :
  forall (seen : gset Z) (vars_j : list Z) (v2c : list (list nat)),
    (forall v, v ∈ seen -> (Z.to_nat v < length v2c)%nat) ->
    (forall v, In v vars_j <-> v ∈ seen) ->
    List.NoDup vars_j ->
    if forallb (fun l => (Z.to_nat (Z.abs l) <? length v2c)%nat) lits
    then exists vj' v2c',
        V0b.clause_incidence j lits seen vars_j v2c = Return (vj', v2c') /\
        length v2c' = length v2c /\
        List.NoDup vj' /\
        (forall v, In v vj' <-> In v vars_j \/ In v (map Z.abs lits))
    else V0b.clause_incidence j lits seen vars_j v2c = Fail IndexError.
Proof.
  induction lits as [|l lits IH]; intros seen vars_j v2c Hr Hm Hnd.
  - cbn. exists vars_j, v2c. repeat split; auto. intros [H|[]]; exact H.
  - cbn [forallb V0b.clause_incidence map]. destruct (decide (Z.abs l ∈ seen)) as [Hin|Hout].
    + destruct (Nat.ltb_spec (Z.to_nat (Z.abs l)) (length v2c)) as [_|Hge];
        [|specialize (Hr _ Hin); lia].
      cbn [andb]. specialize (IH seen vars_j v2c Hr Hm Hnd).
      destruct (forallb _ lits); [|exact IH].
      destruct IH as (vj' & v2c' & E & Hl & Hn & Hi).
      exists vj', v2c'. repeat split; auto.
      * intros H. apply Hi in H as [H|H]; [now left|right; now right].
      * intros [H|[<-|H]]; apply Hi; [now left|left; now apply Hm|now right].
    + unfold V0b.append_at.
      destruct (Nat.ltb_spec (Z.to_nat (Z.abs l)) (length v2c)) as [Hlt|Hge].
      * destruct (lookup_lt_is_Some_2 v2c _ Hlt) as [js Ejs]. rewrite Ejs.
        cbn [andb bind].
        assert (Hr' : forall v, v ∈ {[Z.abs l]} ∪ seen ->
                  (Z.to_nat v < length (<[Z.to_nat (Z.abs l) := js ++ [j]]> v2c))%nat).
        { intros v Hv. rewrite length_insert. apply elem_of_union in Hv as [Hv|Hv].
          - apply elem_of_singleton in Hv as ->. exact Hlt.
          - now apply Hr. }
        assert (Hm' : forall v, In v (vars_j ++ [Z.abs l]) <-> v ∈ {[Z.abs l]} ∪ seen).
        { intros v. rewrite in_app_iff, elem_of_union, elem_of_singleton, Hm. cbn.
          intuition. }
        assert (Hnd' : List.NoDup (vars_j ++ [Z.abs l])).
        { apply NoDup_app_intro; [exact Hnd|repeat constructor; intros []|].
          intros a Ha [<-|[]]. apply Hout. now apply Hm. }
        specialize (IH _ _ _ Hr' Hm' Hnd'). rewrite length_insert in IH.
        destruct (forallb _ lits); [|exact IH].
        destruct IH as (vj' & v2c' & E & Hl & Hn & Hi).
        exists vj', v2c'. repeat split; auto.
        -- intros H. apply Hi in H as [H|H]; [|right; now right].
           apply in_app_or in H as [H|[<-|[]]]; [now left|right; now left].
        -- intros [H|[<-|H]]; apply Hi.
           ++ left. apply in_or_app. now left.
           ++ left. apply in_or_app. right. now left.
           ++ now right.
      * rewrite (lookup_ge_None_2 v2c _ Hge). reflexivity.
Qed.

Lemma v0b_incidence_loop_outcome (cls : list (list Z)) :
  forall (j : nat) (v2c : list (list nat)) (cv : list (list Z)),
    if forallb (forallb (fun l => (Z.to_nat (Z.abs l) <? length v2c)%nat)) cls
    then exists v2c' new,
        V0b.incidence_loop j cls v2c cv = Return (v2c', cv ++ new) /\
        length v2c' = length v2c /\
        Forall2 (fun cl vs => List.NoDup vs /\ forall v, In v vs <-> In v (map Z.abs cl))
          cls new
    else V0b.incidence_loop j cls v2c cv = Fail IndexError.
Proof.
  induction cls as [|cl cls IH]; intros j v2c cv.
  - cbn. exists v2c, []. rewrite app_nil_r. repeat split; auto.
  - cbn [forallb V0b.incidence_loop].
    assert (H0 : forall v, v ∈ (∅ : gset Z) -> (Z.to_nat v < length v2c)%nat) by set_solver.
    assert (H1 : forall v, In v [] <-> v ∈ (∅ : gset Z)) by set_solver.
    pose proof (v0b_clause_incidence_outcome j cl ∅ [] v2c H0 H1 (List.NoDup_nil Z)) as Hc.
    destruct (forallb _ cl).
    + destruct Hc as (vj & v2c1 & -> & Hl & Hn & Hi). cbn [andb bind].
      specialize (IH (S j) v2c1 (cv ++ [vj])). rewrite Hl in IH.
      destruct (forallb _ cls); [|exact IH].
      destruct IH as (v2c' & new & E & Hl' & HF).
      exists v2c', (vj :: new). rewrite <- app_assoc in E. cbn [app] in E.
      split; [exact E|]. split; [lia|]. constructor; [|exact HF].
      split; [exact Hn|]. intros v. rewrite Hi. cbn. tauto.
    + now rewrite Hc.
Qed.

(** [build_incidence] raises [IndexError] exactly when a clause holds a
    literal whose variable is beyond [num_vars], and fails in no other
    way.  When it returns, [var_to_clauses] has [num_vars + 1] entries and
    [clause_vars] lists for each clause its variables, each once. *)
Theorem v0b_build_incidence_outcome (n : Z) (cls : list (list Z)) :
  returns (V0b.build_incidence n cls)
  = forallb (forallb (fun l => (Z.to_nat (Z.abs l) <? Z.to_nat (n + 1))%nat)) cls
  /\ (returns (V0b.build_incidence n cls) = false ->
      V0b.build_incidence n cls = Fail IndexError)
  /\ (forall v2c cv,
        V0b.build_incidence n cls = Return (v2c, cv) ->
        length v2c = Z.to_nat (n + 1) /\
        Forall2 (fun cl vs => List.NoDup vs /\ forall v, In v vs <-> In v (map Z.abs cl))
          cls cv).
Proof.
  unfold V0b.build_incidence.
  pose proof (v0b_incidence_loop_outcome cls 0 (replicate (Z.to_nat (n + 1)) []) []) as H.
  rewrite length_replicate in H.
  destruct (forallb _ cls).
  - destruct H as (v2c' & new & -> & Hl & HF). cbn [app returns].
    split; [reflexivity|]. split; [discriminate|].
    intros v2c cv E. injection E as <- <-. split; [exact Hl|exact HF].
  - rewrite H. cbn. split; [reflexivity|]. split; [reflexivity|]. discriminate.
Qed.

Lemma get0_incr (d : gmap Z Z) (v w : Z) :
  get0 (incr d v) w = get0 d w + (if v =? w then 1 else 0).
Proof.
  unfold get0, incr. destruct (Z.eqb_spec v w) as [->|Hne].
  - now rewrite lookup_insert_eq.
  - rewrite lookup_insert_ne by exact Hne. lia.
Qed.

Lemma count_pos_app (v : Z) (a b : list Z) :
  count_pos v (a ++ b) = count_pos v a + count_pos v b.
Proof. unfold count_pos. rewrite List.filter_app, length_app. lia. Qed.

Lemma count_neg_app (v : Z) (a b : list Z) :
  count_neg v (a ++ b) = count_neg v a + count_neg v b.
Proof. unfold count_neg. rewrite List.filter_app, length_app. lia. Qed.

Lemma v0b_read_tokens_counts (toks : list str) :
  forall (lits : list Z) (ps ng : gmap Z Z) (lits' : list Z) (ps' ng' : gmap Z Z),
    V0b.read_tokens toks lits ps ng = Return (lits', ps', ng') ->
    exists new,
      lits' = lits ++ new /\
      forall v, get0 ps' v = get0 ps v + count_pos v new /\
                get0 ng' v = get0 ng v + count_neg v new.
Proof.
  induction toks as [|tok toks IH]; intros lits ps ng lits' ps' ng' E.
  - cbn in E. injection E as <- <- <-. exists []. rewrite app_nil_r.
    split; [reflexivity|]. intros v. unfold count_pos, count_neg. cbn. lia.
  - cbn [V0b.read_tokens] in E. destruct (str_eqb tok (lit "0")).
    + injection E as <- <- <-. exists []. rewrite app_nil_r.
      split; [reflexivity|]. intros v. unfold count_pos, count_neg. cbn. lia.
    + apply bind_Return_inv in E as (l & _ & E).
      destruct (0 <? l) eqn:El; apply IH in E as (new & -> & Hc);
        exists (l :: new); rewrite <- app_assoc; (split; [reflexivity|]);
        intros v; destruct (Hc v) as [H1 H2]; rewrite H1, H2, ?get0_incr;
        unfold count_pos, count_neg; cbn [List.filter]; rewrite El; cbn [negb andb];
        destruct (Z.abs l =? v); cbn [length]; lia.
Qed.

Lemma v0b_parse_line_counts (st st' : V0b.parsed) (raw : str) :
  V0b.parse_line st raw = Return st' ->
  Forall (fun cl => cl <> []) (V0b.clauses st) ->
  (forall v, get0 (V0b.pos st) v = count_pos v (concat (V0b.clauses st)) /\
             get0 (V0b.neg st) v = count_neg v (concat (V0b.clauses st))) ->
  Forall (fun cl => cl <> []) (V0b.clauses st') /\
  (forall v, get0 (V0b.pos st') v = count_pos v (concat (V0b.clauses st')) /\
             get0 (V0b.neg st') v = count_neg v (concat (V0b.clauses st'))).
Proof.
  unfold V0b.parse_line. intros E HF Hc.
  destruct (strip raw) as [|c s] eqn:Es; [injection E as <-; now split|].
  destruct (startswith (c :: s) (lit "c")); [injection E as <-; now split|].
  destruct (startswith (c :: s) (lit "p")).
  - destruct (_ || _); [discriminate|].
    apply bind_Return_inv in E as (n & _ & E). injection E as <-. now split.
  - apply bind_Return_inv in E as ([[lits p] n] & Er & E).
    apply v0b_read_tokens_counts in Er as (new & -> & Hn). cbn [app] in E.
    destruct new as [|l new]; injection E as <-; cbn [V0b.clauses V0b.pos V0b.neg].
    + split; [exact HF|]. intros v. destruct (Hn v) as [-> ->], (Hc v) as [-> ->].
      unfold count_pos at 2, count_neg at 2. cbn. lia.
    + split.
      * apply Forall_app. split; [exact HF|]. now repeat constructor.
      * intros v. destruct (Hn v) as [-> ->], (Hc v) as [-> ->].
        rewrite concat_app, count_pos_app, count_neg_app. cbn [concat].
        now rewrite app_nil_r.
Qed.

Lemma v0b_parse_lines_counts (lines : list str) :
  forall st st',
    foldM V0b.parse_line lines st = Return st' ->
    Forall (fun cl => cl <> []) (V0b.clauses st) ->
    (forall v, get0 (V0b.pos st) v = count_pos v (concat (V0b.clauses st)) /\
               get0 (V0b.neg st) v = count_neg v (concat (V0b.clauses st))) ->
    Forall (fun cl => cl <> []) (V0b.clauses st') /\
    (forall v, get0 (V0b.pos st') v = count_pos v (concat (V0b.clauses st')) /\
               get0 (V0b.neg st') v = count_neg v (concat (V0b.clauses st'))).
Proof.
  induction lines as [|raw lines IH]; intros st st' E HF Hc.
  - cbn in E. injection E as <-. now split.
  - cbn [foldM] in E. apply bind_Return_inv in E as (st1 & E1 & E).
    destruct (v0b_parse_line_counts _ _ _ E1 HF Hc) as [HF1 Hc1].
    exact (IH _ _ E HF1 Hc1).
Qed.

(** What [parse_dimacs] of the v0b picker returns: at least one clause,
    no empty clause, and in [pos] and [neg] the number of occurrences of
    each variable in these clauses, by sign; the polarity the picker gives
    a variable is the sign of the majority of its occurrences, the positive
    one on a tie. *)
Theorem v0b_counts_match_clauses (file : str) (n : Z) (cls : list (list Z))
    (ps ng : gmap Z Z) :
  V0b.parse_dimacs file = Return (n, cls, ps, ng) ->
  cls <> [] /\
  Forall (fun cl => cl <> []) cls /\
  (forall v, get0 ps v = count_pos v (concat cls) /\ get0 ng v = count_neg v (concat cls)) /\
  (forall v, V0b.polarity ps ng v
             = if count_neg v (concat cls) <=? count_pos v (concat cls) then v else - v).
Proof.
  unfold V0b.parse_dimacs. intros E. apply bind_Return_inv in E as (st & Es & E).
  destruct (V0b.num_vars st) as [n'|]; [|discriminate].
  destruct (V0b.clauses st) as [|cl rest] eqn:Ec; [discriminate|].
  injection E as <- <- <- <-.
  apply v0b_parse_lines_counts in Es as [HF Hc].
  - rewrite Ec in HF, Hc. split; [discriminate|]. split; [exact HF|]. split; [exact Hc|].
    intros v. unfold V0b.polarity. now destruct (Hc v) as [-> ->].
  - constructor.
  - intros v. unfold count_pos, count_neg, get0. cbn. now rewrite lookup_empty.
Qed.

Lemma v0b_counts_match_clauses_witness :
  [[1; -2]; [2; 2]] <> [] /\
  Forall (fun cl => cl <> []) [[1; -2]; [2; 2]] /\
  (forall v, get0 ({[ 1 := 1; 2 := 2 ]} : gmap Z Z) v = count_pos v (concat [[1; -2]; [2; 2]])
             /\ get0 ({[ 2 := 1 ]} : gmap Z Z) v = count_neg v (concat [[1; -2]; [2; 2]])) /\
  (forall v, V0b.polarity {[ 1 := 1; 2 := 2 ]} {[ 2 := 1 ]} v
             = if count_neg v (concat [[1; -2]; [2; 2]])
                  <=? count_pos v (concat [[1; -2]; [2; 2]]) then v else - v).
Proof.
  apply (v0b_counts_match_clauses (text ["p cnf 3 2"; "1 -2 0"; "0"; "2 2 0 3"]) 3).
  vm_compute; reflexivity.
Defined.

Lemma freq_read_tokens_sim (toks : list str) :
  forall (lits : list Z) (ps ng : gmap Z Z) (lits' : list Z) (ps' ng' : gmap Z Z),
    V0b.read_tokens toks lits ps ng = Return (lits', ps', ng') ->
    Freq.read_tokens toks ps ng = Return (ps', ng').
Proof.
  induction toks as [|tok toks IH]; intros lits ps ng lits' ps' ng' E.
  - cbn in E. injection E as _ <- <-. reflexivity.
  - cbn [V0b.read_tokens Freq.read_tokens] in *. destruct (str_eqb tok (lit "0")).
    + injection E as _ <- <-. reflexivity.
    + unfold py_int in E. destruct (int_of_str tok) as [l|]; [|discriminate].
      cbn [bind] in E. destruct (0 <? l); now apply IH in E.
Qed.

Lemma freq_parse_line_sim (st st' : V0b.parsed) (raw : str) :
  V0b.parse_line st raw = Return st' ->
  Freq.parse_line (freq_view st) raw = Return (freq_view st').
Proof.
  unfold V0b.parse_line, Freq.parse_line. intros E.
  destruct (strip raw) as [|c s]; [now injection E as <-|].
  destruct (startswith (c :: s) (lit "c")); [now injection E as <-|].
  destruct (startswith (c :: s) (lit "p")).
  - destruct (_ || _); [discriminate|].
    apply bind_Return_inv in E as (n & -> & E). now injection E as <-.
  - apply bind_Return_inv in E as ([[lits p] n] & Er & E).
    cbn [freq_view Freq.pos Freq.neg Freq.num_vars].
    rewrite (freq_read_tokens_sim _ _ _ _ _ _ _ Er). cbn [bind fst snd].
    destruct lits; now injection E as <-.
Qed.

(** On a file that the v0b picker parses, the frequency picker reads the
    same variable count and the same occurrence counts. *)
Theorem pickers_count_alike (file : str) (n : Z) (cls : list (list Z)) (ps ng : gmap Z Z) :
  V0b.parse_dimacs file = Return (n, cls, ps, ng) ->
  Freq.parse file = Return (Freq.Counts (Some n) ps ng).
Proof.
  unfold V0b.parse_dimacs, Freq.parse. intros E.
  apply bind_Return_inv in E as (st & Es & E).
  destruct (V0b.num_vars st) as [n'|] eqn:En; [|discriminate].
  destruct (V0b.clauses st) as [|cl rest]; [discriminate|].
  injection E as <- _ <- <-. rewrite <- En.
  change (Freq.Counts (V0b.num_vars st) (V0b.pos st) (V0b.neg st)) with (freq_view st).
  change (Freq.Counts None ∅ ∅) with (freq_view (V0b.Parsed None [] ∅ ∅)).
  revert Es. generalize (V0b.Parsed None [] ∅ ∅). generalize (readlines file).
  intros lines. induction lines as [|raw lines IH]; intros st0 Es.
  - cbn in Es. now injection Es as <-.
  - cbn [foldM] in *. apply bind_Return_inv in Es as (st1 & E1 & Es).
    rewrite (freq_parse_line_sim _ _ _ E1). cbn [bind]. now apply IH.
Qed.

Lemma pickers_count_alike_witness :
  Freq.parse (text ["p cnf 3 2"; "1 -2 0"; "0"; "2 2 0 3"])
  = Return (Freq.Counts (Some 3) {[ 1 := 1; 2 := 2 ]} {[ 2 := 1 ]}).
Proof.
  apply (pickers_count_alike (text ["p cnf 3 2"; "1 -2 0"; "0"; "2 2 0 3"]) 3
           [[1; -2]; [2; 2]]).
  vm_compute; reflexivity.
Defined.

(** ** The frequency picker *)

Section SortedFacts.
Context {A : Type} (lt : A -> A -> bool).
Hypothesis lt_asym : forall a b, lt a b = true -> lt b a = false.
Hypothesis lt_negtrans : forall a b c, lt a c = true -> lt a b = true \/ lt b c = true.

Lemma insert_sorted_sorted (x : A) (l : list A) :
  sorted_by lt l = true -> sorted_by lt (insert_sorted lt x l) = true.
Proof.
  induction l as [|y l IH]; intros H; [reflexivity|].
  cbn [sorted_by] in H. apply andb_true_iff in H as [Hy Hl].
  cbn [insert_sorted]. destruct (lt y x) eqn:Eyx.
  - cbn [sorted_by]. rewrite (IH Hl), andb_true_r.
    apply forallb_forall. intros z Hz. apply insert_sorted_In in Hz as [->|Hz].
    + now rewrite (lt_asym _ _ Eyx).
    + rewrite forallb_forall in Hy. now apply Hy.
  - cbn [sorted_by forallb]. rewrite Eyx, Hy, Hl. cbn [negb andb]. rewrite andb_true_r.
    apply forallb_forall. intros z Hz. rewrite forallb_forall in Hy. specialize (Hy z Hz).
    destruct (lt z x) eqn:Ezx; [|reflexivity].
    destruct (lt_negtrans z y x Ezx) as [H|H]; [now rewrite H in Hy|congruence].
Qed.

Lemma py_sort_sorted (l : list A) : sorted_by lt (py_sort lt l) = true.
Proof.
  induction l as [|x l IH]; [reflexivity|].
  cbn [py_sort foldr]. fold (py_sort lt l). now apply insert_sorted_sorted.
Qed.

Lemma sorted_before (x y : A) (l : list A) :
  sorted_by lt l = true -> before x y l -> lt y x = false.
Proof.
  intros H (l1 & l2 & l3 & ->). induction l1 as [|a l1 IH].
  - cbn [app sorted_by] in H. apply andb_true_iff in H as [H _].
    rewrite forallb_forall in H. apply negb_true_iff, H.
    apply in_or_app. right. now left.
  - cbn [app sorted_by] in H. apply andb_true_iff in H as [_ H]. now apply IH.
Qed.

End SortedFacts.

Lemma before_prefix_rest {A : Type} (x y : A) (l : list A) (k : nat) :
  In x (firstn k l) -> In y l -> ~ In y (firstn k l) -> before x y l.
Proof.
  intros Hx Hy Hny. rewrite <- (firstn_skipn k l) in Hy.
  apply in_app_or in Hy as [Hy|Hy]; [contradiction|].
  apply in_split in Hx as (a & b & Ea). apply in_split in Hy as (c & d & Ed).
  exists a, (b ++ c), d. rewrite <- (firstn_skipn k l) at 1. rewrite Ea, Ed.
  now rewrite <- !app_assoc.
Qed.

Lemma freq_ranked_sorted (n : Z) (ps ng : gmap Z Z) :
  sorted_by freq_lt (Freq.ranked n ps ng) = true.
Proof.
  unfold Freq.ranked, sort_by_key. apply (py_sort_sorted freq_lt).
  - intros [t1 v1] [t2 v2]. unfold freq_lt, Freq.key_lt. cbn [fst snd].
    destruct (Z.eqb_spec (- t1) (- t2)), (Z.eqb_spec (- t2) (- t1)); try lia;
      rewrite ?Z.ltb_lt, ?Z.ltb_ge; lia.
  - intros [t1 v1] [t2 v2] [t3 v3]. unfold freq_lt, Freq.key_lt. cbn [fst snd].
    destruct (Z.eqb_spec (- t1) (- t3)), (Z.eqb_spec (- t1) (- t2)),
      (Z.eqb_spec (- t2) (- t3)); rewrite ?Z.ltb_lt; lia.
Qed.

(** The frequency picker picks the most frequent variables: a variable of
    [1..num_vars] that is left out is counted no more often than any
    variable picked, and when as often, it has the larger id. *)
Theorem freq_picks_most_frequent (file : str) (K : Z) (lits : list Z) :
  Freq.selection file K = Return lits ->
  exists st n,
    Freq.parse file = Return st /\ Freq.num_vars st = Some n /\
    forall v w,
      In v (map Z.abs lits) -> 1 <= w <= n -> ~ In w (map Z.abs lits) ->
      Freq.total (Freq.pos st) (Freq.neg st) w <= Freq.total (Freq.pos st) (Freq.neg st) v /\
      (Freq.total (Freq.pos st) (Freq.neg st) w = Freq.total (Freq.pos st) (Freq.neg st) v ->
       v < w).
Proof.
  intros E. apply freq_selection_inv in E as (_ & st & n & Es & En & _ & ->).
  exists st, n. split; [exact Es|]. split; [exact En|].
  set (ps := Freq.pos st). set (ng := Freq.neg st).
  assert (Habs : map Z.abs (Freq.picked_literals n ps ng K)
                 = map snd (firstn (Z.to_nat K) (Freq.ranked n ps ng))).
  { unfold Freq.picked_literals. rewrite map_map. apply map_ext_in.
    intros [t v] Hx. apply firstn_In, freq_ranked_In in Hx as (Hv & _). cbn [snd].
    apply freq_polarity_abs. lia. }
  rewrite Habs. intros v w Hv Hw Hnw.
  apply in_map_iff in Hv as ([t v'] & Ev & Hv). cbn [snd] in Ev. subst v'.
  pose proof (firstn_In _ _ _ Hv) as Hv'. apply freq_ranked_In in Hv' as (Hvr & -> & Hpos).
  destruct (Z.ltb_spec 0 (Freq.total ps ng w)) as [Hwpos|Hw0]; [|lia].
  assert (Hwin : In (Freq.total ps ng w, w) (Freq.ranked n ps ng)).
  { apply freq_ranked_In. auto. }
  assert (Hwout : ~ In (Freq.total ps ng w, w) (firstn (Z.to_nat K) (Freq.ranked n ps ng))).
  { intros H. apply Hnw. apply in_map_iff. now exists (Freq.total ps ng w, w). }
  pose proof (before_prefix_rest _ _ _ _ Hv Hwin Hwout) as Hb.
  assert (Hne : v <> w).
  { intros ->. now apply Hwout. }
  pose proof (sorted_before freq_lt _ _ _ (freq_ranked_sorted n ps ng) Hb) as Hlt.
  unfold freq_lt, Freq.key_lt in Hlt. cbn [fst snd] in Hlt.
  destruct (Z.eqb_spec (- Freq.total ps ng w) (- Freq.total ps ng v));
    [apply Z.ltb_ge in Hlt|apply Z.ltb_ge in Hlt]; lia.
Qed.

Lemma freq_picks_most_frequent_witness :
  exists st n,
    Freq.parse (text ["p cnf 3 3"; "1 -2 0"; "2 3 0"; "-3 1 0"]) = Return st /\
    Freq.num_vars st = Some n /\
    forall v w,
      In v (map Z.abs [1; 2]) -> 1 <= w <= n -> ~ In w (map Z.abs [1; 2]) ->
      Freq.total (Freq.pos st) (Freq.neg st) w <= Freq.total (Freq.pos st) (Freq.neg st) v /\
      (Freq.total (Freq.pos st) (Freq.neg st) w = Freq.total (Freq.pos st) (Freq.neg st) v ->
       v < w).
Proof.
  apply (freq_picks_most_frequent (text ["p cnf 3 3"; "1 -2 0"; "2 3 0"; "-3 1 0"]) 2 [1; 2]).
  vm_compute; reflexivity.
Defined.

(** ** The calls of the v1 controller *)

(** [pick_literals] of the v1 controller returns the literals of the v0b
    picker, read back from the line it prints, when the picker has [k] of
    them, and exits in every other case. *)
Theorem v1_pick_literals_iff (file : str) (k : Z) (lits : list Z) :
  V1.pick_literals file k = Return lits <->
  0 < k /\ V0b.selection file k 20 = Return lits /\ length lits = Z.to_nat k.
Proof.
  split.
  - intros E. apply v1_pick_literals_inv in E as (Hk & Es & Hl & _). auto.
  - intros (Hk & Es & Hl). unfold V1.pick_literals, V0b.main, V0b.int_arg.
    rewrite int_of_str_of_Z. cbn [bind]. destruct (Z.leb_spec k 0); [lia|].
    rewrite v0b_run_selection, Es. cbn [bind].
    assert (Hne : lits <> []) by (intros ->; cbn in Hl; lia).
    rewrite (printed_line_read_back lits Hne).
    destruct (Z.ltb_spec (Z.of_nat (length lits)) k); [lia|].
    now rewrite <- Hl, firstn_all.
Qed.

(** The call fails when the picker has fewer than [k] literals: the
    controller never goes on with a short selection. *)
Theorem v1_pick_literals_short (file : str) (k : Z) (lits : list Z) :
  V0b.selection file k 20 = Return lits ->
  Z.of_nat (length lits) < k ->
  V1.pick_literals file k = Fail SysExit.
Proof.
  intros Es Hlt. destruct (V1.pick_literals file k) as [l|e] eqn:E.
  - apply v1_pick_literals_inv in E as (_ & Es' & Hl & _).
    rewrite Es in Es'. injection Es' as ->. lia.
  - unfold V1.pick_literals in E. destruct (V0b.main file [str_of_Z k]).
    + destruct (_ <? _); [now injection E as <-|discriminate].
    + now injection E as <-.
Qed.

Lemma v1_pick_literals_short_witness :
  V1.pick_literals (text ["p cnf 3 2"; "1 -2 0"; "2 0"]) 3 = Fail SysExit.
Proof.
  apply (v1_pick_literals_short (text ["p cnf 3 2"; "1 -2 0"; "2 0"]) 3 [2; 1]).
  - vm_compute; reflexivity.
  - cbn. lia.
Defined.

(** ** The report parsers *)

Lemma startswith_app (t p q : str) : startswith t (p ++ q) = true -> startswith t p = true.
Proof.
  revert t; induction p as [|c p IH]; intros t H; [now destruct t|].
  destruct t as [|d t]; [discriminate|]. cbn [app startswith] in *.
  apply andb_true_iff in H as [-> H]. now apply IH.
Qed.

Lemma contains_app (t p q : str) : contains t (p ++ q) = true -> contains t p = true.
Proof.
  induction t as [|d t IH]; cbn [contains]; intros H.
  - apply orb_true_iff in H as [H|H]; [|discriminate].
    now rewrite (startswith_app _ _ _ H).
  - apply orb_true_iff in H as [H|H].
    + now rewrite (startswith_app _ _ _ H).
    + rewrite (IH H). apply orb_true_r.
Qed.

(** A last status line that holds "UNSATISFIABLE" decides the verdict of
    the report: the three parsers answer [UNSAT], although the line holds
    "SATISFIABLE" too ([parse_glucose_output] on a report whose counts it
    reads without raising). *)
Theorem unsat_line_decides (py_float : str -> option float) (report : str)
    (ls : list str) (line : str) :
  startswith (strip line) (lit "s ") = true ->
  contains (strip line) (lit "UNSATISFIABLE") = true ->
  (log_lines report = ls ++ [line] ->
   fst (fst (v4_parse_glucose_log py_float report)) = UNSAT /\
   fst (fst (np_parse_glucose_log py_float report)) = UNSAT) /\
  (output_lines report = ls ++ [line] ->
   decimal_counts (output_lines report) = true ->
   exists c t, v1_parse_glucose_output py_float report = Return (Some UNSAT, c, t)).
Proof.
  intros Hs Hu.
  assert (Hu' : contains (strip line) (lit "UNSAT") = true).
  { apply (contains_app _ (lit "UNSAT") (lit "ISFIABLE")). exact Hu. }
  assert (H4 : forall st, v4_status_line (strip line) st = UNSAT).
  { intros st. unfold v4_status_line. rewrite Hs, Hu, Hu'. cbn [negb andb].
    now rewrite andb_false_r. }
  split.
  - unfold log_lines. intros El. split.
    + unfold v4_parse_glucose_log. rewrite El, fold_left_app. cbn [fold_left].
      destruct (fold_left _ ls _) as [[s c] t]. cbn [v4_log_line fst]. apply H4.
    + unfold np_parse_glucose_log. rewrite El, fold_left_app. cbn [fold_left].
      destruct (fold_left _ ls _) as [[s c] t]. cbn [np_log_line fst].
      rewrite H4. reflexivity.
  - intros El Hd. destruct (v1_output_returns py_float report Hd) as [[[s c] t] E].
    exists c, t. rewrite E. pose proof E as E'. unfold v1_parse_glucose_output in E'.
    unfold output_lines in El. rewrite El, foldM_app in E'.
    destruct (foldM _ ls _) as [st|e]; [|discriminate]. cbn [bind foldM] in E'.
    destruct (v1_output_line py_float st line) as [st'|e] eqn:El'; [|discriminate].
    cbn [bind] in E'. injection E' as ->.
    apply v1_output_line_inv in El' as (Es & _). cbn [fst] in Es.
    unfold v1_status_line in Es. rewrite Hs, Hu in Es. now rewrite Es.
Qed.

Lemma unsat_line_decides_witness :
  fst (fst (v4_parse_glucose_log (fun _ => None)
              (text ["s SATISFIABLE"; "c x"; "  s UNSATISFIABLE "]))) = UNSAT /\
  fst (fst (np_parse_glucose_log (fun _ => None)
              (text ["s SATISFIABLE"; "c x"; "  s UNSATISFIABLE "]))) = UNSAT /\
  (exists c t,
     v1_parse_glucose_output (fun _ => None)
       (text ["s SATISFIABLE"; "c x"; "  s UNSATISFIABLE "]) = Return (Some UNSAT, c, t)).
Proof.
  assert (H1 : startswith (strip (lit "  s UNSATISFIABLE " ++ [LF])) (lit "s ") = true)
    by (vm_compute; reflexivity).
  assert (H2 : contains (strip (lit "  s UNSATISFIABLE " ++ [LF])) (lit "UNSATISFIABLE") = true)
    by (vm_compute; reflexivity).
  assert (H3 : startswith (strip (lit "  s UNSATISFIABLE ")) (lit "s ") = true)
    by (vm_compute; reflexivity).
  assert (H4 : contains (strip (lit "  s UNSATISFIABLE ")) (lit "UNSATISFIABLE") = true)
    by (vm_compute; reflexivity).
  split; [|split].
  - refine (proj1 (proj1 (unsat_line_decides (fun _ => None)
                            (text ["s SATISFIABLE"; "c x"; "  s UNSATISFIABLE "])
                            [lit "s SATISFIABLE" ++ [LF]; lit "c x" ++ [LF]]
                            (lit "  s UNSATISFIABLE " ++ [LF]) H1 H2) _)).
    vm_compute; reflexivity.
  - refine (proj2 (proj1 (unsat_line_decides (fun _ => None)
                            (text ["s SATISFIABLE"; "c x"; "  s UNSATISFIABLE "])
                            [lit "s SATISFIABLE" ++ [LF]; lit "c x" ++ [LF]]
                            (lit "  s UNSATISFIABLE " ++ [LF]) H1 H2) _)).
    vm_compute; reflexivity.
  - refine (proj2 (unsat_line_decides (fun _ => None)
                     (text ["s SATISFIABLE"; "c x"; "  s UNSATISFIABLE "])
                     [lit "s SATISFIABLE"; lit "c x"]
                     (lit "  s UNSATISFIABLE ") H3 H4) _ _);
      vm_compute; reflexivity.
Defined.

(** ** The random control *)

Lemma num_vars_skips_comments (cms : list str) (rest : list str) :
  forallb wf_comment cms = true ->
  RandomV1.num_vars_of_lines (map with_lf cms ++ rest) = RandomV1.num_vars_of_lines rest.
Proof.
  induction cms as [|c cms IH]; intros H; [reflexivity|].
  cbn [forallb] in H. apply andb_true_iff in H as [Hc H].
  cbn [map app RandomV1.num_vars_of_lines].
  unfold wf_comment in Hc. apply andb_true_iff in Hc as [Hc _].
  apply andb_true_iff in Hc as [Hc _].
  destruct c as [|a c]; [discriminate|]. cbn [lit list_ascii_of_string startswith] in Hc.
  rewrite andb_true_r in Hc. apply ch_eqb_eq in Hc. subst a.
  change (startswith (with_lf ("c"%char :: c)) (lit "p cnf")) with false.
  cbv iota. now apply IH.
Qed.

(** The random control reads, from a file that the v4 runners wrote, the
    variable count that they read. *)
Theorem random_reads_written_nvars (file : str) (c : Dimacs.cnf) :
  Dimacs.read_dimacs file = Return c ->
  RandomV1.parse_cnf_num_vars (Dimacs.serialize c) = Return (Some (Dimacs.nvars c)).
Proof.
  intros E. apply read_dimacs_wf in E. unfold wf_cnf in E.
  apply andb_true_iff in E as [_ Hc].
  unfold RandomV1.parse_cnf_num_vars, Dimacs.serialize.
  rewrite (readlines_write_dimacs _ _ _ Hc), (num_vars_skips_comments _ _ Hc).
  cbn [RandomV1.num_vars_of_lines]. rewrite header_line_body.
  change (startswith (with_lf (header_body (Dimacs.nvars c)
                                 (Z.of_nat (length (Dimacs.clauses c))))) (lit "p cnf"))
    with true.
  cbv iota. rewrite strip_with_lf, (strip_trimmed _ (header_body_trimmed _ _)).
  rewrite split_header_body. cbn [length Nat.leb nth].
  now rewrite py_int_str_of_Z.
Qed.

Lemma random_reads_written_nvars_witness :
  RandomV1.parse_cnf_num_vars (text ["c hi"; "p cnf 3 1"; "1 -2 0"]) = Return (Some 3).
Proof.
  apply (random_reads_written_nvars (text ["p cnf 3 9"; ""; "1 -2 0"; "c hi"])
           (Dimacs.Cnf 3 [[1; -2]] [lit "c hi"])).
  vm_compute; reflexivity.
Defined.

Lemma fallback_In (vs : list Z) (want_k : Z) :
  forall (used : gset Z) (new_lits lits : list Z) (used' : gset Z) (l : Z),
    RandomV1.fallback vs want_k used new_lits = (lits, used') ->
    In l lits -> In l new_lits \/ In l vs.
Proof.
  induction vs as [|v vs IH]; intros used new_lits lits used' l E Hl.
  - cbn in E. injection E as <- _. now left.
  - cbn [RandomV1.fallback] in E. destruct (want_k <=? _).
    + injection E as <- _. now left.
    + destruct (decide _).
      * destruct (IH _ _ _ _ l E Hl) as [H|H]; [|right; now right].
        apply in_app_or in H as [H|[<-|[]]]; [now left|right; now left].
      * destruct (IH _ _ _ _ l E Hl) as [H|H]; [now left|right; now right].
Qed.

Section RandomRange.
Context {G : Type} (randint : G -> Z -> Z -> Z * G) (getrandbits1 : G -> Z * G).
Hypothesis randint_range : forall g a b, a <= b -> a <= fst (randint g a b) <= b.

Lemma draw_loop_range (nvars want_k : Z) (budget : nat) :
  forall (used : gset Z) (new_lits : list Z) (g : G) (lits : list Z) (used' : gset Z) (g' : G),
    (forall l, In l new_lits -> 1 <= Z.abs l <= nvars) ->
    RandomV1.draw_loop randint getrandbits1 budget nvars want_k used new_lits g
    = Return (lits, used', g') ->
    forall l, In l lits -> 1 <= Z.abs l <= nvars.
Proof.
  induction budget as [|b IH]; intros used new_lits g lits used' g' Hnew E l Hl.
  - cbn [RandomV1.draw_loop] in E. destruct (_ <? want_k).
    + destruct (RandomV1.fallback _ _ _ _) as [ls u] eqn:Ef. injection E as <- _ _.
      destruct (fallback_In _ _ _ _ _ _ l Ef Hl) as [H|H]; [now apply Hnew|].
      apply range1_In in H. lia.
    + injection E as <- _ _. now apply Hnew.
  - cbn [RandomV1.draw_loop] in E. destruct (_ <? want_k).
    + destruct (Z.ltb_spec nvars 1) as [|Hn]; [discriminate|].
      pose proof (randint_range g 1 nvars Hn) as Hr.
      destruct (randint g 1 nvars) as [v g1]. cbn [fst] in Hr.
      destruct (getrandbits1 g1) as [bit g2].
      assert (Hnew' : forall x, In x (new_lits ++ [if bit =? 0 then v else - v]) ->
                                1 <= Z.abs x <= nvars).
      { intros x Hx. apply in_app_or in Hx as [Hx|[<-|[]]]; [now apply Hnew|].
        destruct (bit =? 0); lia. }
      destruct (decide _); [exact (IH _ _ _ _ _ _ Hnew' E l Hl)|exact (IH _ _ _ _ _ _ Hnew E l Hl)].
    + injection E as <- _ _. now apply Hnew.
Qed.

(** With a generator whose [randint(a, b)] lies between [a] and [b], a
    call of [pick_random_literals] returns literals of variables of
    [1..nvars], none of which was in the set before; the call leaves in the
    set what was there and the literals returned. *)
Theorem random_pick_in_range (curr : str) (want_k : Z) (used used' : gset Z) (g g' : G)
    (lits : list Z) :
  RandomV1.pick_random_literals randint getrandbits1 curr want_k used g
  = Return (lits, used', g') ->
  exists nvars,
    RandomV1.parse_cnf_num_vars curr = Return (Some nvars) /\
    (forall l, In l lits -> 1 <= Z.abs l <= nvars /\ l ∉ used) /\
    used' = list_to_set lits ∪ used.
Proof.
  intros E. pose proof (pick_random_literals_spec _ _ _ _ _ _ _ _ _ E) as (_ & Hout & Hu & _).
  unfold RandomV1.pick_random_literals in E. apply bind_Return_inv in E as (nv & En & E).
  destruct nv as [nvars|]; [|discriminate]. exists nvars. split; [exact En|].
  split; [|exact Hu]. intros l Hl. split; [|now apply Hout].
  apply (draw_loop_range nvars want_k 2000 used [] g lits used' g'); auto.
  intros x [].
Qed.

End RandomRange.

Lemma random_pick_in_range_witness :
  exists nvars,
    RandomV1.parse_cnf_num_vars (text ["p cnf 1 1"; "1 0"]) = Return (Some nvars) /\
    (forall l, In l [-1] -> 1 <= Z.abs l <= nvars /\ l ∉ ({[ 1 ]} : gset Z)) /\
    ({[ -1 ]} ∪ {[ 1 ]} : gset Z) = list_to_set [-1] ∪ {[ 1 ]}.
Proof.
  apply (random_pick_in_range first_randint alternating_bit
           (fun g a b H => conj (Z.le_refl a) H)
           (text ["p cnf 1 1"; "1 0"]) 1 {[ 1 ]} ({[ -1 ]} ∪ {[ 1 ]}) 1 2 [-1]).
  vm_compute; reflexivity.
Defined.

(** ** The generator of instances *)

Section Gen3satFacts.
Context {G : Type} (sample3 : G -> Z -> list Z * G) (getrandbits1 : G -> Z * G).
Hypothesis sample3_spec :
  forall g N, 3 <= N ->
    length (fst (sample3 g N)) = 3%nat /\
    List.NoDup (fst (sample3 g N)) /\
    forall v, In v (fst (sample3 g N)) -> 1 <= v <= N.

Lemma gen3sat_signed (vars3 : list Z) :
  forall g, length (fst (Gen3sat.signed getrandbits1 vars3 g)) = length vars3 /\
            map Z.abs (fst (Gen3sat.signed getrandbits1 vars3 g)) = map Z.abs vars3.
Proof.
  induction vars3 as [|v vs IH]; intros g; [now split|].
  cbn [Gen3sat.signed]. destruct (getrandbits1 g) as [bit g1].
  specialize (IH g1). destruct (Gen3sat.signed getrandbits1 vs g1) as [ls g2].
  cbn [fst length map] in *. destruct IH as [-> ->].
  split; [reflexivity|]. f_equal. destruct (bit =? 0); lia.
Qed.

Lemma gen3sat_draw (N : Z) (m : nat) :
  forall g cls g',
    Gen3sat.draw sample3 getrandbits1 m N g = Return (cls, g') ->
    length cls = m /\
    Forall (fun cl => length cl = 3%nat /\ List.NoDup (map Z.abs cl) /\
                      forall l, In l cl -> 1 <= Z.abs l <= N) cls.
Proof.
  induction m as [|m IH]; intros g cls g' E.
  - cbn in E. injection E as <- _. split; [reflexivity|constructor].
  - cbn [Gen3sat.draw] in E. destruct (Z.ltb_spec N 3) as [|HN]; [discriminate|].
    destruct (sample3_spec g N HN) as (Hlen & Hnd & Hr).
    destruct (sample3 g N) as [vars3 g1]. cbn [fst] in *.
    destruct (gen3sat_signed vars3 g1) as [Hl Ha].
    destruct (Gen3sat.signed getrandbits1 vars3 g1) as [lits g2]. cbn [fst] in *.
    apply bind_Return_inv in E as ([rest g3] & Er & E). injection E as <- _.
    apply IH in Er as [Hm HF]. cbn [fst length]. split; [now rewrite Hm|].
    constructor; [|exact HF].
    assert (Hpos : map Z.abs vars3 = vars3).
    { rewrite <- (map_id vars3) at 2. apply map_ext_in. intros v Hv.
      specialize (Hr v Hv). lia. }
    split; [lia|]. rewrite Ha, Hpos. split; [exact Hnd|].
    intros l Hin. apply Hr. rewrite <- Hpos, <- Ha. now apply in_map.
Qed.

(** What [gen3sat.py] writes for a non-negative [M] is what [write_dimacs]
    writes for the clauses drawn: [M] clauses of three literals of
    distinct variables of [1..N], which [read_dimacs] gives back. *)
Theorem gen3sat_reads_back (N M : Z) (g g' : G) (out : str) :
  0 <= M ->
  Gen3sat.main sample3 getrandbits1 N M g = Return (out, g') ->
  exists cls,
    length cls = Z.to_nat M /\
    out = Dimacs.write_dimacs N cls [] /\
    Forall (fun cl => length cl = 3%nat /\ List.NoDup (map Z.abs cl) /\
                      forall l, In l cl -> 1 <= Z.abs l <= N) cls /\
    (0 < N -> Dimacs.read_dimacs out = Return (Dimacs.Cnf N cls [])).
Proof.
  intros HM E. unfold Gen3sat.main in E.
  apply bind_Return_inv in E as ([cls g1] & Ed & E). injection E as <- _.
  apply gen3sat_draw in Ed as [Hlen HF]. cbn [fst].
  exists cls. split; [exact Hlen|].
  assert (Eout : lit "p cnf " ++ str_of_Z N ++ lit " " ++ str_of_Z M ++ [LF]
                   ++ concat (map Gen3sat.clause_text cls)
                 = Dimacs.write_dimacs N cls []).
  { unfold Dimacs.write_dimacs, Dimacs.header_line. cbn [map concat app].
    rewrite Hlen, Z2Nat.id by exact HM. rewrite <- !app_assoc. do 4 f_equal.
    cbn [app]. f_equal. f_equal. apply map_ext_in. intros cl Hcl.
    rewrite List.Forall_forall in HF. destruct (HF cl Hcl) as (H3 & _).
    destruct cl; [discriminate|reflexivity]. }
  split; [exact Eout|]. split; [exact HF|].
  intros HN. pose proof (read_write_dimacs N cls [] HN eq_refl) as Hr.
  rewrite <- Eout in Hr. exact Hr.
Qed.

End Gen3satFacts.

Lemma gen3sat_reads_back_witness :
  exists cls,
    length cls = Z.to_nat 2 /\
    text ["p cnf 3 2"; "1 -2 3 0"; "-1 2 -3 0"] = Dimacs.write_dimacs 3 cls [] /\
    Forall (fun cl => length cl = 3%nat /\ List.NoDup (map Z.abs cl) /\
                      forall l, In l cl -> 1 <= Z.abs l <= 3) cls /\
    (0 < 3 -> Dimacs.read_dimacs (text ["p cnf 3 2"; "1 -2 3 0"; "-1 2 -3 0"])
              = Return (Dimacs.Cnf 3 cls [])).
Proof.
  refine (gen3sat_reads_back first_three alternating_bit _ 3 2 0 6
            (text ["p cnf 3 2"; "1 -2 3 0"; "-1 2 -3 0"]) _ _).
  - intros g N HN. cbn. split; [reflexivity|]. split.
    + repeat constructor; cbn; lia.
    + intros v Hv. lia.
  - lia.
  - vm_compute; reflexivity.
Defined.

(** ** The runner on numpy *)

Lemma numpy_read_line_refines (st st' : Dimacs.cnf) (raw : str) :
  V4Numpy.read_line st raw = Return st' -> Dimacs.read_line st raw = Return st'.
Proof.
  unfold V4Numpy.read_line, Dimacs.read_line. intros E.
  destruct (strip raw) as [|c s]; [exact E|].
  destruct (startswith (c :: s) (lit "c")); [exact E|].
  destruct (startswith (c :: s) (lit "p")); [|exact E].
  apply bind_Return_inv in E as (n & En & E). injection E as <-.
  unfold V4Numpy.header_nvars in En. unfold Dimacs.header_nvars.
  destruct (_ && _).
  - apply bind_Return_inv in En as (n' & -> & En).
    apply bind_Return_inv in En as (nc & _ & En). now injection En as <-.
  - now rewrite En.
Qed.

Lemma numpy_read_lines_refine (lines : list str) :
  forall st st',
    foldM V4Numpy.read_line lines st = Return st' ->
    foldM Dimacs.read_line lines st = Return st'.
Proof.
  induction lines as [|raw lines IH]; intros st st' E; [exact E|].
  cbn [foldM] in *. apply bind_Return_inv in E as (st1 & E1 & E).
  rewrite (numpy_read_line_refines _ _ _ E1). cbn [bind]. now apply IH.
Qed.

Lemma numpy_read_line_plain (st : Dimacs.cnf) (b : str) :
  plain_line b = true -> V4Numpy.read_line st (with_lf b) = Dimacs.read_line st (with_lf b).
Proof.
  unfold plain_line. intros H. apply andb_true_iff in H as [_ H].
  apply negb_true_iff in H. unfold V4Numpy.read_line, Dimacs.read_line.
  rewrite strip_with_lf, H. reflexivity.
Qed.

Lemma numpy_read_lines_plain (bs : list str) :
  forallb plain_line bs = true ->
  forall st, foldM V4Numpy.read_line (map with_lf bs) st
             = foldM Dimacs.read_line (map with_lf bs) st.
Proof.
  induction bs as [|b bs IH]; intros H st; [reflexivity|].
  cbn [forallb] in H. apply andb_true_iff in H as [Hb H].
  cbn [map foldM]. rewrite (numpy_read_line_plain st b Hb).
  destruct (Dimacs.read_line st (with_lf b)); [cbn [bind]; now apply IH|reflexivity].
Qed.

Lemma numpy_read_line_header (st : Dimacs.cnf) (nv nc : Z) :
  V4Numpy.read_line st (with_lf (header_body nv nc))
  = Dimacs.read_line st (with_lf (header_body nv nc)).
Proof.
  unfold V4Numpy.read_line, Dimacs.read_line.
  rewrite strip_with_lf, (strip_trimmed _ (header_body_trimmed nv nc)).
  destruct (header_body nv nc) as [|c s] eqn:Eh; [reflexivity|].
  destruct (startswith (c :: s) (lit "c")); [reflexivity|].
  destruct (startswith (c :: s) (lit "p")); [|reflexivity].
  unfold V4Numpy.header_nvars, Dimacs.header_nvars. rewrite <- Eh, split_header_body.
  cbn [length Nat.leb nth]. destruct (str_eqb _ _); [|reflexivity].
  cbn [andb]. rewrite !py_int_str_of_Z. reflexivity.
Qed.

(** [read_dimacs] of the numpy runner reads the clause count of the
    header too, and raises on a header whose count is not an int: it
    returns what the reader of the other v4 runners returns, whenever it
    returns; on a text that [write_dimacs] wrote the two readers agree. *)
Theorem numpy_reader_refines (file : str) (c : Dimacs.cnf) :
  (V4Numpy.read_dimacs file = Return c -> Dimacs.read_dimacs file = Return c) /\
  (Dimacs.read_dimacs file = Return c ->
   V4Numpy.read_dimacs (Dimacs.serialize c) = Return c).
Proof.
  split.
  - unfold V4Numpy.read_dimacs, Dimacs.read_dimacs, Dimacs.read_lines. intros E.
    apply bind_Return_inv in E as (st & Es & E).
    now rewrite (numpy_read_lines_refine _ _ _ Es).
  - intros E. pose proof (read_dimacs_wf _ _ E) as Hwf.
    rewrite <- (dimacs_roundtrip_aux c Hwf).
    destruct (serialize_canonical c Hwf) as (Ec & Hpre & Hpost).
    rewrite Ec. unfold V4Numpy.read_dimacs, Dimacs.read_dimacs, Dimacs.read_lines.
    rewrite (readlines_canonical _ _ _ _ Hpre Hpost), map_app. cbn [map].
    rewrite !foldM_app. cbn [foldM].
    rewrite (numpy_read_lines_plain _ Hpre).
    destruct (foldM Dimacs.read_line (map with_lf (Dimacs.comments c)) Dimacs.empty_cnf)
      as [st1|e]; [|reflexivity].
    cbn [bind]. rewrite numpy_read_line_header.
    destruct (Dimacs.read_line st1 _) as [st2|e]; [|reflexivity].
    cbn [bind]. now rewrite (numpy_read_lines_plain _ Hpost).
Qed.

Lemma numpy_reader_refines_witness :
  (V4Numpy.read_dimacs (text ["p cnf 3 9"; ""; "1 -2 0"; "c hi"])
   = Return (Dimacs.Cnf 3 [[1; -2]] [lit "c hi"]) ->
   Dimacs.read_dimacs (text ["p cnf 3 9"; ""; "1 -2 0"; "c hi"])
   = Return (Dimacs.Cnf 3 [[1; -2]] [lit "c hi"])) /\
  V4Numpy.read_dimacs (text ["c hi"; "p cnf 3 1"; "1 -2 0"])
  = Return (Dimacs.Cnf 3 [[1; -2]] [lit "c hi"]).
Proof.
  split.
  - exact (proj1 (numpy_reader_refines (text ["p cnf 3 9"; ""; "1 -2 0"; "c hi"])
                    (Dimacs.Cnf 3 [[1; -2]] [lit "c hi"]))).
  - apply (proj2 (numpy_reader_refines (text ["p cnf 3 9"; ""; "1 -2 0"; "c hi"])
                    (Dimacs.Cnf 3 [[1; -2]] [lit "c hi"]))).
    vm_compute; reflexivity.
Defined.

(** A header whose clause count is not an int: the numpy reader raises,
    the reader of the other runners returns. *)
Lemma numpy_reader_stricter :
  V4Numpy.read_dimacs (text ["p cnf 2 x"; "1 0"]) = Fail ValueError /\
  Dimacs.read_dimacs (text ["p cnf 2 x"; "1 0"]) = Return (Dimacs.Cnf 2 [[1]] []).
Proof. split; vm_compute; reflexivity. Qed.

Lemma numpy_clause_loop (j : nat) (n : Z) (cl : list Z) :
  forall (vs : list Z) (vc : list (list nat)),
    fst (V4Numpy.clause_loop j cl n vs vc)
    = vs ++ List.filter (fun v => (0 <=? v) && (v <? n)) (map (fun l => Z.abs l - 1) cl)
    /\ length (snd (V4Numpy.clause_loop j cl n vs vc)) = length vc.
Proof.
  induction cl as [|l cl IH]; intros vs vc.
  - cbn. now rewrite app_nil_r.
  - cbn [V4Numpy.clause_loop map List.filter].
    destruct ((0 <=? Z.abs l - 1) && (Z.abs l - 1 <? n)).
    + destruct (IH (vs ++ [Z.abs l - 1]) (V4Numpy.append_clause vc (Z.abs l - 1) j))
        as [-> ->].
      unfold V4Numpy.append_clause. rewrite length_insert, <- app_assoc. now split.
    + apply IH.
Qed.

Lemma numpy_incidence_loop (n : Z) (cls : list (list Z)) :
  forall (j : nat) (cv : list (list Z)) (vc : list (list nat)),
    fst (V4Numpy.incidence_loop j cls n cv vc)
    = cv ++ map (fun cl => List.filter (fun v => (0 <=? v) && (v <? n))
                             (map (fun l => Z.abs l - 1) cl)) cls
    /\ length (snd (V4Numpy.incidence_loop j cls n cv vc)) = length vc.
Proof.
  induction cls as [|cl cls IH]; intros j cv vc.
  - cbn. now rewrite app_nil_r.
  - cbn [V4Numpy.incidence_loop map].
    destruct (numpy_clause_loop j n cl [] vc) as [Hf Hl].
    destruct (V4Numpy.clause_loop j cl n [] vc) as [vs vc']. cbn [fst snd app] in Hf, Hl.
    destruct (IH (S j) (cv ++ [vs]) vc') as [-> ->].
    rewrite <- app_assoc, Hf, Hl. now split.
Qed.

(** [build_incidence] of the numpy runner lists for each clause the
    variables that [build_clause_vars] of the other v4 runners lists, in
    the same order, counted from 0 instead of 1; [var_clauses] has [nvars]
    entries. *)
Theorem numpy_clause_vars_shifted (cls : list (list Z)) (n : Z) :
  map (map (fun v => v + 1)) (fst (V4Numpy.build_incidence cls n))
  = V4.build_clause_vars cls n
  /\ length (snd (V4Numpy.build_incidence cls n)) = Z.to_nat n.
Proof.
  unfold V4Numpy.build_incidence, V4.build_clause_vars.
  destruct (numpy_incidence_loop n cls 0 [] (replicate (Z.to_nat n) [])) as [-> ->].
  split; [|apply length_replicate]. cbn [app]. rewrite map_map. apply map_ext.
  intros cl. induction cl as [|l cl IH]; [reflexivity|].
  cbn [map List.filter]. rewrite <- IH.
  replace ((0 <=? Z.abs l - 1) && (Z.abs l - 1 <? n)) with ((1 <=? Z.abs l) && (Z.abs l <=? n)).
  - destruct (_ && _); [|reflexivity]. cbn [map]. f_equal. lia.
  - destruct (Z.leb_spec 1 (Z.abs l)), (Z.leb_spec (Z.abs l) n),
      (Z.leb_spec 0 (Z.abs l - 1)), (Z.ltb_spec (Z.abs l - 1) n); try reflexivity; lia.
Qed.

Lemma numpy_best_abs (sc : Z -> float) (n : Z) :
  map (fun x : float * Z => Z.abs (snd x)) (V4Numpy.best_per_var sc n) = range1 n.
Proof.
  unfold V4Numpy.best_per_var. rewrite map_map. rewrite <- (map_id (range1 n)) at 2.
  apply map_ext_in. intros v Hv. apply range1_In in Hv.
  destruct (PrimFloat.leb _ _); cbn [snd]; lia.
Qed.

(** The selector of the numpy runner, for any score table: it returns
    [min(k, nvars)] literals for a non-negative [k], and [nvars - |k|] of
    them for a negative one, the slice [[:k]] dropping from the end; they
    are literals of distinct variables of [1..nvars], each the positive
    literal of its variable exactly when that one scores no less than the
    negative. *)
Theorem numpy_chosen_shape (sc : Z -> float) (n k : Z) :
  length (V4Numpy.chosen sc n k)
  = (if (0 <=? k)%Z then Nat.min (Z.to_nat k) (Z.to_nat n)
     else Z.to_nat n - Z.to_nat (- k))%nat
  /\ List.NoDup (map Z.abs (V4Numpy.chosen sc n k))
  /\ forall l, In l (V4Numpy.chosen sc n k) ->
       1 <= Z.abs l <= n /\
       (0 < l <-> PrimFloat.leb (sc (- Z.abs l)) (sc (Z.abs l)) = true).
Proof.
  unfold V4Numpy.chosen, sort_by_key_reverse.
  set (lt := fun a b : float * Z => PrimFloat.ltb (fst b) (fst a)).
  set (best := V4Numpy.best_per_var sc n).
  assert (Hlen : length (py_sort lt best) = Z.to_nat n).
  { rewrite py_sort_length. unfold best, V4Numpy.best_per_var, range1.
    now rewrite !length_map, length_seq. }
  assert (Hslice : exists m, V4Numpy.slice_to k (py_sort lt best) = firstn m (py_sort lt best)
                             /\ Nat.min m (Z.to_nat n)
                                = (if (0 <=? k)%Z then Nat.min (Z.to_nat k) (Z.to_nat n)
                                   else Z.to_nat n - Z.to_nat (- k))%nat).
  { unfold V4Numpy.slice_to. destruct (0 <=? k).
    - now exists (Z.to_nat k).
    - exists (length (py_sort lt best) - Z.to_nat (- k))%nat. split; [reflexivity|].
      rewrite Hlen. lia. }
  destruct Hslice as (m & -> & Hm).
  split; [now rewrite length_map, length_firstn, Hlen|]. split.
  - rewrite map_map, <- firstn_map. apply NoDup_firstn.
    eapply Permutation_NoDup.
    + symmetry. apply Permutation_map. apply py_sort_Permutation.
    + fold best. unfold best. rewrite numpy_best_abs. apply range1_NoDup.
  - intros l Hl. apply in_map_iff in Hl as ([s l'] & El & Hin). cbn [snd] in El. subst l'.
    apply firstn_In, py_sort_In in Hin. unfold best, V4Numpy.best_per_var in Hin.
    apply in_map_iff in Hin as (v & Ev & Hv). apply range1_In in Hv.
    destruct (PrimFloat.leb (sc (- v)) (sc v)) eqn:Eb; injection Ev as _ <-.
    + replace (Z.abs v) with v by lia. rewrite Eb. split; [lia|]. split; [reflexivity|lia].
    + replace (Z.abs (- v)) with v by lia. rewrite Eb. split; [lia|].
      split; [lia|discriminate].
Qed.

(** ** What the pickers print *)

Lemma min_pos_nonempty {A : Type} (l : list A) (k m : nat) :
  length l = Nat.min k m -> (0 < k)%nat -> (0 < m)%nat -> l <> [].
Proof. intros H Hk Hm ->. cbn in H. lia. Qed.

Lemma v0b_selection_nonempty (file : str) (k iters : Z) (lits : list Z) :
  0 < k -> V0b.selection file k iters = Return lits -> lits <> [].
Proof.
  intros Hk E. apply v0b_selection_inv in E as (n & vs & ps & ng & _ & Hr & ->).
  destruct (v0b_picked n vs ps ng k) as [Hlen _].
  apply (min_pos_nonempty _ _ _ Hlen); [lia|].
  destruct (V0b.ranked n vs); [congruence|cbn; lia].
Qed.

Lemma freq_selection_nonempty (file : str) (K : Z) (lits : list Z) :
  Freq.selection file K = Return lits -> 0 < K /\ lits <> [].
Proof.
  intros E. apply freq_selection_inv in E as (HK & st & n & _ & _ & Hr & ->).
  split; [exact HK|].
  destruct (freq_picked n (Freq.pos st) (Freq.neg st) K) as [Hlen _].
  apply (min_pos_nonempty _ _ _ Hlen); [lia|].
  destruct (Freq.ranked n (Freq.pos st) (Freq.neg st)); [congruence|cbn; lia].
Qed.

(** When a picker exits with zero, its arguments were a positive [K]
    (and, for the v0b picker, a positive [ITERS], 20 when none is given),
    and it has printed one line that reads back, token by token, as the
    literals it selected, of which there is at least one. *)
Theorem pickers_print_selection (file : str) (args : list str) (out : str) :
  (V0b.main file args = Return out ->
   exists k iters lits,
     0 < k /\ 0 < iters /\ (length args = 1%nat -> iters = 20) /\
     V0b.selection file k iters = Return lits /\ lits <> [] /\
     out = join (lit " ") (map str_of_Z lits) ++ [LF] /\
     omap int_of_str (split (strip out)) = lits) /\
  (Freq.main file args = Return out ->
   exists K lits,
     0 < K /\ Freq.selection file K = Return lits /\ lits <> [] /\
     out = join (lit " ") (map str_of_Z lits) ++ [LF] /\
     omap int_of_str (split (strip out)) = lits).
Proof.
  split.
  - unfold V0b.main. intros E.
    assert (Hrun : forall k iters, 0 < k -> 0 < iters ->
              V0b.run file k iters = Return out ->
              exists lits,
                V0b.selection file k iters = Return lits /\ lits <> [] /\
                out = join (lit " ") (map str_of_Z lits) ++ [LF] /\
                omap int_of_str (split (strip out)) = lits).
    { intros k iters Hk Hi Er. rewrite v0b_run_selection in Er.
      apply bind_Return_inv in Er as (lits & Es & Er). injection Er as <-.
      pose proof (v0b_selection_nonempty _ _ _ _ Hk Es) as Hne.
      exists lits. split; [exact Es|]. split; [exact Hne|]. split; [reflexivity|].
      now apply printed_line_read_back. }
    destruct args as [|ka [|ia [|x args]]]; try discriminate.
    + apply bind_Return_inv in E as (k & _ & E).
      destruct (Z.leb_spec k 0); [discriminate|].
      destruct (Hrun k 20 ltac:(lia) ltac:(lia) E) as (lits & Hsel).
      exists k, 20, lits. split; [lia|]. split; [lia|]. split; [reflexivity|exact Hsel].
    + apply bind_Return_inv in E as (k & _ & E).
      destruct (Z.leb_spec k 0); [discriminate|].
      apply bind_Return_inv in E as (iters & _ & E).
      destruct (Z.leb_spec iters 0); [discriminate|].
      destruct (Hrun k iters ltac:(lia) ltac:(lia) E) as (lits & Hsel).
      exists k, iters, lits. split; [lia|]. split; [lia|]. split; [discriminate|exact Hsel].
  - unfold Freq.main, Freq.run. intros E.
    destruct args as [|ka [|x args]]; try discriminate.
    destruct (int_of_str ka) as [K|]; [|discriminate].
    apply bind_Return_inv in E as (lits & Es & E). injection E as <-.
    destruct (freq_selection_nonempty _ _ _ Es) as [HK Hne].
    exists K, lits. split; [exact HK|]. split; [exact Es|]. split; [exact Hne|].
    split; [reflexivity|]. now apply printed_line_read_back.
Qed.

Lemma pickers_print_selection_witness :
  (exists k iters lits,
     0 < k /\ 0 < iters /\ (length [lit " 2 "] = 1%nat -> iters = 20) /\
     V0b.selection (text ["p cnf 3 2"; "1 -2 0"; "2 0"]) k iters = Return lits /\
     lits <> [] /\
     lit "2 1" ++ [LF] = join (lit " ") (map str_of_Z lits) ++ [LF] /\
     omap int_of_str (split (strip (lit "2 1" ++ [LF]))) = lits) /\
  (exists K lits,
     0 < K /\ Freq.selection (text ["p cnf 3 2"; "1 -2 0"; "2 0"]) K = Return lits /\
     lits <> [] /\
     lit "2 1" ++ [LF] = join (lit " ") (map str_of_Z lits) ++ [LF] /\
     omap int_of_str (split (strip (lit "2 1" ++ [LF]))) = lits).
Proof.
  split.
  - apply (proj1 (pickers_print_selection (text ["p cnf 3 2"; "1 -2 0"; "2 0"])
                    [lit " 2 "] (lit "2 1" ++ [LF]))).
    vm_compute; reflexivity.
  - apply (proj2 (pickers_print_selection (text ["p cnf 3 2"; "1 -2 0"; "2 0"])
                    [lit " 2 "] (lit "2 1" ++ [LF]))).
    vm_compute; reflexivity.
Defined.

(** ** The scores of the v0b picker *)

Lemma filter_none {A : Type} (p : A -> bool) (l : list A) :
  (length (List.filter p l) =? 0)%nat = negb (existsb p l).
Proof.
  induction l as [|x l IH]; [reflexivity|]. cbn [List.filter existsb].
  destruct (p x); [reflexivity|exact IH].
Qed.

Lemma l2_normalize_length (vec : list float) :
  length (V0b.l2_normalize vec) = length vec.
Proof.
  unfold V0b.l2_normalize. destruct (_ <=? _)%float; [reflexivity|apply length_map].
Qed.

Lemma v0b_iterate_length (n : Z) (v2c : list (list nat)) (cv : list (list Z))
    (x : list float) :
  length (V0b.iterate n v2c cv x) = S (Z.to_nat n).
Proof.
  unfold V0b.iterate. cbn [length].
  now rewrite l2_normalize_length, length_map, range1_length.
Qed.

(** [spectral_scores], on the incidence lists of [build_incidence], exits
    exactly when no variable of [1..num_vars] occurs in a clause; the
    vector it returns has [num_vars + 1] entries. *)
Theorem v0b_scores_shape (n : Z) (cls : list (list Z)) (v2c : list (list nat))
    (cv : list (list Z)) (iters : Z) :
  V0b.build_incidence n cls = Return (v2c, cv) ->
  returns (V0b.spectral_scores n v2c cv iters)
  = existsb (fun v => occurs v cls) (range1 n)
  /\ (returns (V0b.spectral_scores n v2c cv iters) = false ->
      V0b.spectral_scores n v2c cv iters = Fail SysExit)
  /\ (forall vs, V0b.spectral_scores n v2c cv iters = Return vs ->
                 length vs = S (Z.to_nat n)).
Proof.
  intros Eb. unfold V0b.spectral_scores, V0b.count_active.
  rewrite filter_none.
  rewrite (existsb_ext_in _ (fun v => occurs v cls)).
  2:{ intros v Hv. apply range1_In in Hv.
      rewrite (build_incidence_spec _ _ _ _ _ Eb) by lia. apply negb_involutive. }
  destruct (existsb _ (range1 n)); cbn [negb returns].
  - split; [reflexivity|]. split; [discriminate|].
    intros vs E. injection E as <-. destruct (Z.to_nat iters) as [|k].
    + cbn [Nat.iter nat_rect length].
      unfold V0b.init_scores. now rewrite l2_normalize_length, length_map, range1_length.
    + rewrite Nat.iter_succ. apply v0b_iterate_length.
  - split; [reflexivity|]. split; [reflexivity|]. discriminate.
Qed.

Lemma v0b_scores_shape_witness :
  returns (V0b.spectral_scores 3 [[]; [0%nat]; [0%nat; 1%nat]; []] [[1; 2]; [2]] 20)
  = existsb (fun v => occurs v [[1; -2]; [2]]) (range1 3)
  /\ (returns (V0b.spectral_scores 3 [[]; [0%nat]; [0%nat; 1%nat]; []] [[1; 2]; [2]] 20)
      = false ->
      V0b.spectral_scores 3 [[]; [0%nat]; [0%nat; 1%nat]; []] [[1; 2]; [2]] 20
      = Fail SysExit)
  /\ (forall vs,
        V0b.spectral_scores 3 [[]; [0%nat]; [0%nat; 1%nat]; []] [[1; 2]; [2]] 20 = Return vs ->
        length vs = S (Z.to_nat 3)).
Proof.
  apply (v0b_scores_shape 3 [[1; -2]; [2]]).
  vm_compute; reflexivity.
Defined.

(** ** Avoidance in the clean runner *)

Lemma v4_rounds_avoid {pow_half : float -> float}
    (py_float : str -> option float) (solver : Z -> str -> str)
    (stop : Forcewalk.frow -> bool) (its : list Z) (k : Z) :
  forall (curr : str) (avoid : gset Z) (kt : Z) (rows : list (row verdict Z float)),
    forcewalk_inv avoid rows ->
    List.NoDup (map Z.abs (concat (selections
      (fst (v4_rounds pow_half py_float solver stop its k curr avoid kt rows))))).
Proof.
  induction its as [|it its IH]; intros curr avoid kt rows Hinv.
  - exact (proj1 Hinv).
  - cbn [v4_rounds].
    destruct (V4.pick_units_rayleigh pow_half curr k 25 avoid) as [units|e] eqn:Ep;
      [|exact (proj1 Hinv)].
    destruct (Z.of_nat (length units) <? k); [exact (proj1 Hinv)|].
    destruct (Dimacs.add_unit_clauses curr units) as [cnf_out|e]; [|exact (proj1 Hinv)].
    destruct (pick_units_rayleigh_spec _ _ _ _ _ Ep) as (c & scores & _ & _ & _ & Hnd & Hout).
    pose proof (forcewalk_row_units py_float solver it (kt + Z.of_nat (length units)) units
                  cnf_out) as Fu.
    set (r := Forcewalk.solve_row py_float solver it (kt + Z.of_nat (length units)) units
                cnf_out) in *.
    assert (Hinv' : forcewalk_inv (Forcewalk.add_avoid avoid units) (rows ++ [r])).
    { destruct Hinv as [Hn Hav]. unfold Forcewalk.frow in *. split.
      - rewrite (selections_snoc rows r), map_app, Fu.
        apply NoDup_app_intro; [exact Hn|exact Hnd|].
        intros a Ha Ha'. apply in_map_iff in Ha as (l & <- & Hl).
        apply in_map_iff in Ha' as (l' & E & Hl').
        destruct (Hav l Hl) as [H1 H2]. destruct (Hout l' Hl') as (H3 & H4 & _).
        destruct (Z.abs_spec l) as [[_ El]|[_ El]], (Z.abs_spec l') as [[_ El']|[_ El']];
          rewrite El, El' in E.
        + subst l'. contradiction.
        + replace l with (- l') in H1 by lia. contradiction.
        + replace (- l) with l' in H2 by lia. contradiction.
        + replace l' with l in H3 by lia. contradiction.
      - intros l Hl. rewrite (selections_snoc rows r), Fu in Hl. rewrite !add_avoid_elem.
        apply in_app_or in Hl as [Hl|Hl].
        + destruct (Hav l Hl). auto.
        + split; [auto|]. right. right. now rewrite Z.opp_involutive. }
    destruct (stop r); [exact (proj1 Hinv')|]. now apply IH.
Qed.

(** In a run of the clean runner, as in a force-walk, no variable is
    committed twice: the literals of all rounds have distinct variables. *)
Theorem clean_run_avoids (pow_half : float -> float)
    (py_float : str -> option float) (solver : Z -> str -> str)
    (input : str) (max_iters k_per_iter : Z) :
  List.NoDup (map Z.abs (concat (selections
    (fst (Clean.main pow_half py_float solver input max_iters k_per_iter))))).
Proof.
  unfold Clean.main. destruct (max_iters <? 0); [constructor|].
  pose proof (forcewalk_row_units py_float solver 0 0 [] input) as Fu.
  assert (Hinv : forcewalk_inv ∅ [Forcewalk.solve_row py_float solver 0 0 [] input]).
  { unfold forcewalk_inv, selections. cbn [map concat]. rewrite Fu. cbn.
    split; [constructor|tauto]. }
  destruct (solved _); [exact (proj1 Hinv)|].
  rewrite clean_rounds_generic. now apply v4_rounds_avoid.
Qed.
